(** * A shallow embedding of the mini ELF64 linker (linux/src/linker.c,
      linux/src/elf_parser.c, linux/src/dlfcn.c)

    The linker works on raw process memory.  The embedding keeps that view:
    the address space is a finite map from addresses to byte cells, every
    table the C code reads through a pointer is read here from that map at
    the same offsets, and an access to an unmapped address has no result
    ([None]), as has a division by zero, an oversized shift or a loop that
    does not finish within the given number of steps. *)

From Stdlib Require Import ZArith Lia String Ascii List Bool.
From stdpp Require Import base option list gmap strings.

Local Open Scope Z_scope.

(* ===================================================================== *)
(** ** Machine integers and pointers *)
(* ===================================================================== *)

Definition two32 : Z := 4294967296.
Definition two64 : Z := 18446744073709551616.

Definition u32 (x : Z) : Z := x mod two32.
Definition u64 (x : Z) : Z := x mod two64.

(** [p + off] on a 64-bit pointer. *)
Definition padd (p off : Z) : Z := u64 (p + off).

(** [NULL], and the all-ones word used by [MAP_FAILED], [(void* )-1] and
    [MINI_RTLD_NEXT]. *)
Definition NULL : Z := 0.
Definition ALL_ONES : Z := two64 - 1.
Definition MAP_FAILED : Z := ALL_ONES.

Definition PAGE_SIZE : Z := 4096.
(** [PAGE_MASK] is the int [~(PAGE_SIZE - 1)], sign-extended when it meets a
    64-bit operand: as a 64-bit word it clears the low twelve bits. *)
Definition PAGE_START (x : Z) : Z := x - x mod PAGE_SIZE.
Definition PAGE_END (x : Z) : Z := PAGE_START (u64 (x + PAGE_SIZE - 1)).
Definition PAGE_OFFSET (x : Z) : Z := x mod PAGE_SIZE.

(* ===================================================================== *)
(** ** C strings *)
(* ===================================================================== *)

Definition byte_of_ascii (c : ascii) : Z := Z.of_N (N_of_ascii c).

(** The bytes of a string argument, as [unsigned char]. *)
Definition str_bytes (s : string) : list Z :=
  map byte_of_ascii (list_ascii_of_string s).

(** A C string ends at its first NUL: what [%s] prints and [strncpy]
    copies of a string value. *)
Fixpoint c_str (s : string) : string :=
  match s with
  | EmptyString => EmptyString
  | String c s' =>
      if byte_of_ascii c =? 0 then EmptyString else String c (c_str s')
  end.

(** The first [n] characters: [snprintf] and [strncpy] cut there. *)
Fixpoint str_take (n : nat) (s : string) : string :=
  match n, s with
  | O, _ => EmptyString
  | S _, EmptyString => EmptyString
  | S k, String c s' => String c (str_take k s')
  end.

(** [needle] occurs in [hay]. *)
Definition mentions (hay needle : string) : Prop :=
  exists pre post : string, hay = (pre ++ needle ++ post)%string.

(* ===================================================================== *)
(** ** The address space *)
(* ===================================================================== *)

(** One mapped byte.  On x86-64 every accessible page can be read; a store
    needs [PROT_WRITE]. *)
Record mcell : Type := MCell { mc_w : bool; mc_val : Z }.

Abbreviation memory := (gmap Z mcell).

(** Addresses are 64-bit words: no byte lies outside [[0, 2^64)]. *)
Definition in_space (a : Z) : bool := (0 <=? a) && (a <? two64).

Definition read_u8 (m : memory) (a : Z) : option Z :=
  if in_space a then c ← m !! a; Some (mc_val c mod 256) else None.

(** Little-endian load of [n] bytes. *)
Fixpoint read_le (n : nat) (m : memory) (a : Z) : option Z :=
  match n with
  | O => Some 0
  | S k =>
      b ← read_u8 m a;
      r ← read_le k m (a + 1);
      Some (b + 256 * r)
  end.

Definition read_u16 := read_le 2.
Definition read_u32 := read_le 4.
Definition read_u64 := read_le 8.

Definition write_u8 (m : memory) (a v : Z) : option memory :=
  if in_space a then
    c ← m !! a;
    if mc_w c then Some (<[a := MCell true (v mod 256)]> m) else None
  else None.

(** Little-endian store of the low [n] bytes of [v]. *)
Fixpoint write_le (n : nat) (m : memory) (a v : Z) : option memory :=
  match n with
  | O => Some m
  | S k =>
      m' ← write_u8 m a v;
      write_le k m' (a + 1) (v / 256)
  end.

Definition write_u64 := write_le 8.

(** [strcmp(p, s) == 0] for the string at address [p] and the argument
    [s]: the byte-wise scan stops at the first difference or at the NUL. *)
Fixpoint strcmp_eq (m : memory) (p : Z) (s : list Z) : option bool :=
  match s with
  | [] => b ← read_u8 m p; Some (b =? 0)
  | c :: s' =>
      b ← read_u8 m p;
      if c =? 0 then Some (b =? 0)
      else if b =? c then strcmp_eq m (p + 1) s'
      else Some false
  end.

(** The NUL-terminated string at [p], read within [fuel] bytes. *)
Fixpoint read_cstr (fuel : nat) (m : memory) (p : Z) : option (list Z) :=
  match fuel with
  | O => None
  | S f =>
      b ← read_u8 m p;
      if b =? 0 then Some []
      else s ← read_cstr f m (p + 1); Some (b :: s)
  end.

(* ===================================================================== *)
(** ** ELF constants and table layouts *)
(* ===================================================================== *)

Definition SHN_UNDEF : Z := 0.
Definition STB_GLOBAL : Z := 1.
Definition STB_WEAK : Z := 2.

Definition PT_LOAD : Z := 1.
Definition PT_DYNAMIC : Z := 2.
Definition PT_PHDR : Z := 6.

Definition PF_X : Z := 1.
Definition PF_W : Z := 2.
Definition PF_R : Z := 4.
Definition PROT_READ : Z := 1.
Definition PROT_WRITE : Z := 2.
Definition PROT_EXEC : Z := 4.

Definition R_X86_64_NONE : Z := 0.
Definition R_X86_64_64 : Z := 1.
Definition R_X86_64_COPY : Z := 5.
Definition R_X86_64_GLOB_DAT : Z := 6.
Definition R_X86_64_JUMP_SLOT : Z := 7.
Definition R_X86_64_RELATIVE : Z := 8.

Definition DT_NULL : Z := 0.
Definition DT_PLTRELSZ : Z := 2.
Definition DT_HASH : Z := 4.
Definition DT_STRTAB : Z := 5.
Definition DT_SYMTAB : Z := 6.
Definition DT_RELA : Z := 7.
Definition DT_RELASZ : Z := 8.
Definition DT_STRSZ : Z := 10.
Definition DT_INIT : Z := 12.
Definition DT_FINI : Z := 13.
Definition DT_JMPREL : Z := 23.
Definition DT_INIT_ARRAY : Z := 25.
Definition DT_FINI_ARRAY : Z := 26.
Definition DT_INIT_ARRAYSZ : Z := 27.
Definition DT_FINI_ARRAYSZ : Z := 28.
Definition DT_GNU_HASH : Z := 1879047925. (* 0x6ffffef5 *)

Definition sizeof_Sym : Z := 24.
Definition sizeof_Rela : Z := 24.
Definition sizeof_Dyn : Z := 16.
Definition sizeof_Phdr : Z := 56.

(** [ELF64_ST_BIND(i)] is [i >> 4]. *)
Definition ELF64_ST_BIND (info : Z) : Z := Z.shiftr info 4.
(** [ELF64_R_SYM(i)] is [i >> 32], [ELF64_R_TYPE(i)] is [i & 0xffffffff];
    both are stored in a [uint32_t]. *)
Definition ELF64_R_SYM (info : Z) : Z := u32 (Z.shiftr info 32).
Definition ELF64_R_TYPE (info : Z) : Z := u32 (Z.land info 4294967295).

(** The fields of the [Elf64_Sym] at address [sym]. *)
Definition st_name (m : memory) (sym : Z) := read_u32 m sym.
Definition st_info (m : memory) (sym : Z) := read_u8 m (sym + 4).
Definition st_shndx (m : memory) (sym : Z) := read_u16 m (sym + 6).
Definition st_value (m : memory) (sym : Z) := read_u64 m (sym + 8).
Definition st_size (m : memory) (sym : Z) := read_u64 m (sym + 16).

(* ===================================================================== *)
(** ** soinfo *)
(* ===================================================================== *)

(** [soinfo_t].  Pointers are 64-bit words, [NULL] is 0.  The [next] link
    is kept in the registry (see [world]). *)
Record soinfo : Type := SoInfo {
  si_name : string;
  si_base : Z;
  si_size : Z;
  si_load_bias : Z;
  si_phdr : Z;
  si_phnum : Z;
  si_dynamic : Z;
  si_symtab : Z;
  si_strtab : Z;
  si_strtab_size : Z;
  si_hash : Z;
  si_gnu_hash : Z;
  si_rela : Z;
  si_rela_count : Z;
  si_plt_rela : Z;
  si_plt_rela_count : Z;
  si_init_func : Z;
  si_fini_func : Z;
  si_init_array : Z;
  si_init_array_count : Z;
  si_fini_array : Z;
  si_fini_array_count : Z;
  si_ref_count : Z
}.

(** [calloc(1, sizeof(soinfo_t))]. *)
Definition soinfo_zero : soinfo :=
  SoInfo EmptyString 0 0 0 0 0 0 0 0 0 0 0 0 0 0 0 0 0 0 0 0 0 0.

(* ===================================================================== *)
(** ** Symbol lookup *)
(* ===================================================================== *)

(** [elf_hash]: the loop body on the 32-bit [h]. *)
Definition elf_hash_step (h c : Z) : Z :=
  let h1 := u32 (u32 (Z.shiftl h 4) + c) in
  let g := Z.land h1 4026531840 in
  let h2 := if g =? 0 then h1 else Z.lxor h1 (Z.shiftr g 24) in
  Z.land h2 (Z.lxor g 4294967295).

Fixpoint elf_hash_from (h : Z) (s : list Z) : Z :=
  match s with
  | [] => h
  | c :: s' => if c =? 0 then h else elf_hash_from (elf_hash_step h c) s'
  end.

Definition elf_hash (name : list Z) : Z := elf_hash_from 0 name.

(** [gnu_hash]: [h = (h << 5) + h + *s++] on the 32-bit [h]. *)
Definition gnu_hash_step (h c : Z) : Z :=
  u32 (u32 (Z.shiftl h 5) + h + c).

Fixpoint gnu_hash_from (h : Z) (s : list Z) : Z :=
  match s with
  | [] => h
  | c :: s' => if c =? 0 then h else gnu_hash_from (gnu_hash_step h c) s'
  end.

Definition gnu_hash (name : list Z) : Z := gnu_hash_from 5381 name.

Section Lookup.
Variable m : memory.
Variable si : soinfo.
Variable name : list Z.

(** [&si->symtab[n]]. *)
Definition sym_ptr (n : Z) : Z := padd (si_symtab si) (sizeof_Sym * n).

(** [strcmp(si->strtab + sym->st_name, name) == 0]. *)
Definition sym_name_is (sym : Z) : option bool :=
  nm ← st_name m sym;
  strcmp_eq m (padd (si_strtab si) nm) name.

(** The [do { ... } while (1)] of [gnu_lookup], from symbol index [n]. *)
Fixpoint gnu_chain_walk (fuel : nat) (chain symoffset h1 n : Z)
    : option Z :=
  match fuel with
  | O => None
  | S f =>
      let sym := sym_ptr n in
      h2 ← read_u32 m (padd chain (4 * u32 (n - symoffset)));
      hit ← (if Z.shiftr (Z.lxor h1 h2) 1 =? 0
             then sym_name_is sym else Some false);
      if (hit : bool) then Some sym
      else if negb (Z.land h2 1 =? 0) then Some NULL
      else gnu_chain_walk f chain symoffset h1 (u32 (n + 1))
  end.

(** [gnu_lookup]: the address of the matching [Elf64_Sym], or [NULL]. *)
Definition gnu_lookup (fuel : nat) : option Z :=
  if si_gnu_hash si =? NULL then Some NULL else
  let gnu := si_gnu_hash si in
  nbuckets ← read_u32 m gnu;
  symoffset ← read_u32 m (padd gnu 4);
  bloom_size ← read_u32 m (padd gnu 8);
  bloom_shift ← read_u32 m (padd gnu 12);
  let bloom := padd gnu 16 in
  let buckets := padd bloom (8 * bloom_size) in
  let chain := padd buckets (4 * nbuckets) in
  let h1 := gnu_hash name in
  if bloom_size =? 0 then None else
  word ← read_u64 m (padd bloom (8 * ((h1 / 64) mod bloom_size)));
  if 32 <=? bloom_shift then None else
  let mask := Z.lor (Z.shiftl 1 (h1 mod 64))
                    (Z.shiftl 1 (Z.shiftr h1 bloom_shift mod 64)) in
  if negb (Z.land word mask =? mask) then Some NULL else
  if nbuckets =? 0 then None else
  n ← read_u32 m (padd buckets (4 * (h1 mod nbuckets)));
  if n =? 0 then Some NULL else
  gnu_chain_walk fuel chain symoffset h1 n.

(** The test both hash paths and the linear scan apply to a symbol whose
    name matched: [Some a] is [return a], [None] goes on searching. *)
Definition bind_ok (info : Z) : bool :=
  let bind := ELF64_ST_BIND info in
  (bind =? STB_GLOBAL) || (bind =? STB_WEAK).

Definition sym_address (sym : Z) : option Z :=
  v ← st_value m sym; Some (padd (si_load_bias si) v).

(** The [for (i = bucket[hash % nbucket]; i != 0; i = chain[i])] loop. *)
Fixpoint elf_chain_walk (fuel : nat) (chain i : Z) : option (option Z) :=
  match fuel with
  | O => None
  | S f =>
      if i =? 0 then Some None else
      let sym := sym_ptr i in
      eq ← sym_name_is sym;
      shndx ← (if (eq : bool) then st_shndx m sym else Some 0);
      info ← (if eq && negb (shndx =? SHN_UNDEF)
              then st_info m sym else Some 0);
      if eq && negb (shndx =? SHN_UNDEF) && bind_ok info
      then a ← sym_address sym; Some (Some a)
      else
        nxt ← read_u32 m (padd chain (4 * i));
        elf_chain_walk f chain nxt
  end.

(** The [for (i = 0; i < sym_count; i++)] linear scan, [cnt] entries
    from index [i]. *)
Fixpoint linear_scan (cnt : nat) (i : Z) : option (option Z) :=
  match cnt with
  | O => Some None
  | S k =>
      let sym := sym_ptr i in
      nm ← st_name m sym;
      eq ← (if nm =? 0 then Some false else sym_name_is sym);
      shndx ← (if (eq : bool) then st_shndx m sym else Some 0);
      info ← (if eq && negb (shndx =? SHN_UNDEF)
              then st_info m sym else Some 0);
      if eq && negb (shndx =? SHN_UNDEF) && bind_ok info
      then a ← sym_address sym; Some (Some a)
      else linear_scan k (i + 1)
  end.

(** [get_symbol_count]. *)
Definition get_symbol_count : option Z :=
  if negb (si_hash si =? NULL) then read_u32 m (padd (si_hash si) 4)
  else Some 256.

(** Method 1 of [linker_find_symbol]. *)
Definition find_by_gnu_hash (fuel : nat) : option (option Z) :=
  if negb (si_gnu_hash si =? NULL) then
    sym ← gnu_lookup fuel;
    if sym =? NULL then Some None else
    shndx ← st_shndx m sym;
    if shndx =? SHN_UNDEF then Some None else
    info ← st_info m sym;
    if bind_ok info then a ← sym_address sym; Some (Some a)
    else Some None
  else Some None.

(** Method 2. *)
Definition find_by_elf_hash (fuel : nat) : option (option Z) :=
  if negb (si_hash si =? NULL) then
    nbucket ← read_u32 m (si_hash si);
    let bucket := padd (si_hash si) 8 in
    let chain := padd (si_hash si) (4 * u32 (2 + nbucket)) in
    let hash := elf_hash name in
    if nbucket =? 0 then None else
    i ← read_u32 m (padd bucket (4 * (hash mod nbucket)));
    elf_chain_walk fuel chain i
  else Some None.

(** Method 3. *)
Definition find_by_scan : option (option Z) :=
  if (si_hash si =? NULL) && (si_gnu_hash si =? NULL) then
    cnt ← get_symbol_count;
    linear_scan (Z.to_nat cnt) 0
  else Some None.

(** [linker_find_symbol] for a non-null [si]; the result is the returned
    pointer. *)
Definition linker_find_symbol (fuel : nat) : option Z :=
  if (si_symtab si =? NULL) || (si_strtab si =? NULL) then Some NULL else
  r1 ← find_by_gnu_hash fuel;
  match r1 with
  | Some a => Some a
  | None =>
      r2 ← find_by_elf_hash fuel;
      match r2 with
      | Some a => Some a
      | None =>
          r3 ← find_by_scan;
          match r3 with
          | Some a => Some a
          | None => Some NULL
          end
      end
  end.
End Lookup.

(* ===================================================================== *)
(** ** The process state *)
(* ===================================================================== *)

(** What the linker reads and changes: the address space, the regions the
    kernel handed out for [mmap(NULL, ...)] (base to length), the open file
    descriptors (descriptor to path), the live [soinfo_t] blocks, the
    global [g_linker], and the functions of loaded code called so far
    (oldest first).

    [g_soinfo_list] is the chain that starts at [g_linker.soinfo_list] and
    follows [next]: the addresses of its records, head first. *)
Record world : Type := World {
  w_mem : memory;
  w_regions : gmap Z Z;
  w_fds : gmap Z string;
  w_soinfos : gmap Z soinfo;
  g_soinfo_list : list Z;
  g_error_msg : string;
  g_has_error : bool;
  w_calls : list Z
}.

Definition set_mem (m : memory) (w : world) : world :=
  World m (w_regions w) (w_fds w) (w_soinfos w) (g_soinfo_list w)
        (g_error_msg w) (g_has_error w) (w_calls w).
Definition set_regions (r : gmap Z Z) (w : world) : world :=
  World (w_mem w) r (w_fds w) (w_soinfos w) (g_soinfo_list w)
        (g_error_msg w) (g_has_error w) (w_calls w).
Definition set_fds (f : gmap Z string) (w : world) : world :=
  World (w_mem w) (w_regions w) f (w_soinfos w) (g_soinfo_list w)
        (g_error_msg w) (g_has_error w) (w_calls w).
Definition set_soinfos (h : gmap Z soinfo) (w : world) : world :=
  World (w_mem w) (w_regions w) (w_fds w) h (g_soinfo_list w)
        (g_error_msg w) (g_has_error w) (w_calls w).
Definition set_soinfo_list (l : list Z) (w : world) : world :=
  World (w_mem w) (w_regions w) (w_fds w) (w_soinfos w) l
        (g_error_msg w) (g_has_error w) (w_calls w).
Definition set_error_slot (msg : string) (b : bool) (w : world) : world :=
  World (w_mem w) (w_regions w) (w_fds w) (w_soinfos w) (g_soinfo_list w)
        msg b (w_calls w).
Definition set_calls (c : list Z) (w : world) : world :=
  World (w_mem w) (w_regions w) (w_fds w) (w_soinfos w) (g_soinfo_list w)
        (g_error_msg w) (g_has_error w) c.

(** [linker_init]: [memset(&g_linker, 0, sizeof(g_linker))]. *)
Definition linker_init (w : world) : world :=
  set_error_slot EmptyString false (set_soinfo_list [] w).

(* ===================================================================== *)
(** ** The error slot *)
(* ===================================================================== *)

(** [linker_set_error], given the text the format expands to:
    [vsnprintf] keeps at most 511 bytes of it in [error_msg[512]]. *)
Definition linker_set_error (msg : string) (w : world) : world :=
  set_error_slot (str_take 511 msg) true w.

(** [linker_get_error]: the returned string ([None] is [NULL]) and the
    state left. *)
Definition linker_get_error (w : world) : option string * world :=
  if g_has_error w
  then (Some (g_error_msg w), set_error_slot (g_error_msg w) false w)
  else (None, w).

(** [linker_clear_error]: [error_msg[0] = 0] leaves the empty string. *)
Definition linker_clear_error (w : world) : world :=
  set_error_slot EmptyString false w.

(* ===================================================================== *)
(** ** Global lookup and relocation *)
(* ===================================================================== *)

Section Linker.
(** [dlsym(RTLD_DEFAULT, name)] of the host loader. *)
Variable host_dlsym : list Z -> Z.
Variable fuel : nat.

(** The [for (si = g_linker.soinfo_list; si != NULL; si = si->next)]
    loop of [linker_find_global_symbol]: the first non-null answer. *)
Fixpoint find_in_modules (m : memory) (heap : gmap Z soinfo)
    (l : list Z) (name : list Z) : option Z :=
  match l with
  | [] => Some NULL
  | p :: l' =>
      si ← heap !! p;
      sym ← linker_find_symbol m si name fuel;
      if sym =? NULL then find_in_modules m heap l' name else Some sym
  end.

Definition linker_find_global_symbol (w : world) (name : list Z)
    : option Z :=
  sym ← find_in_modules (w_mem w) (w_soinfos w) (g_soinfo_list w) name;
  if sym =? NULL then Some (u64 (host_dlsym name)) else Some sym.

(** The symbol address [do_reloc] computes first ([S]; 0 when the entry
    names no symbol).  The warning for a missing non-weak symbol prints
    its name, so the name is read. *)
Definition reloc_sym_addr (w : world) (si : soinfo) (sym_idx : Z)
    : option Z :=
  if sym_idx =? 0 then Some NULL else
  let m := w_mem w in
  let sym := sym_ptr si sym_idx in
  shndx ← st_shndx m sym;
  sym_addr ← (if negb (shndx =? SHN_UNDEF)
              then sym_address m si sym
              else
                nm ← st_name m sym;
                sym_name ← read_cstr fuel m (padd (si_strtab si) nm);
                linker_find_global_symbol w sym_name);
  if sym_addr =? NULL then
    info ← st_info m sym;
    if negb (ELF64_ST_BIND info =? STB_WEAK) then
      nm ← st_name m sym;
      _ ← read_cstr fuel m (padd (si_strtab si) nm);
      Some sym_addr
    else Some sym_addr
  else Some sym_addr.

(** [memcpy(dst, src, n)], byte by byte. *)
Fixpoint memcpy (n : nat) (m : memory) (dst src : Z) : option memory :=
  match n with
  | O => Some m
  | S k =>
      b ← read_u8 m src;
      m' ← write_u8 m dst b;
      memcpy k m' (dst + 1) (src + 1)
  end.

(** [do_reloc(si, rela)]: the return value and the memory left. *)
Definition do_reloc (w : world) (si : soinfo) (rela : Z)
    : option (Z * world) :=
  let m := w_mem w in
  r_info ← read_u64 m (rela + 8);
  let type := ELF64_R_TYPE r_info in
  let sym_idx := ELF64_R_SYM r_info in
  r_offset ← read_u64 m rela;
  let reloc_addr := padd (si_load_bias si) r_offset in
  sym_addr ← reloc_sym_addr w si sym_idx;
  if type =? R_X86_64_NONE then Some (0, w)
  else if type =? R_X86_64_64 then
    r_addend ← read_u64 m (rela + 16);
    m' ← write_u64 m reloc_addr (u64 (sym_addr + r_addend));
    Some (0, set_mem m' w)
  else if (type =? R_X86_64_GLOB_DAT) || (type =? R_X86_64_JUMP_SLOT) then
    m' ← write_u64 m reloc_addr sym_addr;
    Some (0, set_mem m' w)
  else if type =? R_X86_64_RELATIVE then
    r_addend ← read_u64 m (rela + 16);
    m' ← write_u64 m reloc_addr (u64 (si_load_bias si + r_addend));
    Some (0, set_mem m' w)
  else if type =? R_X86_64_COPY then
    if negb (sym_addr =? NULL) then
      sz ← st_size m (sym_ptr si sym_idx);
      m' ← memcpy (Z.to_nat sz) m reloc_addr sym_addr;
      Some (0, set_mem m' w)
    else Some (0, w)
  else Some (0, w).

(** One [for (i = 0; i < count; i++) if (do_reloc(si, &tab[i]) < 0)
    return -1;] loop: [cnt] entries from index [i]. *)
Fixpoint reloc_loop (cnt : nat) (w : world) (si : soinfo) (tab i : Z)
    : option (Z * world) :=
  match cnt with
  | O => Some (0, w)
  | S k =>
      '(r, w') ← do_reloc w si (padd tab (sizeof_Rela * i));
      if r <? 0 then Some (-1, w')
      else reloc_loop k w' si tab (i + 1)
  end.

(** [linker_relocate]. *)
Definition linker_relocate (w : world) (si : soinfo)
    : option (Z * world) :=
  '(r1, w1) ← (if negb (si_rela si =? NULL)
               then reloc_loop (Z.to_nat (si_rela_count si)) w si
                               (si_rela si) 0
               else Some (0, w));
  if r1 <? 0 then Some (-1, w1) else
  if negb (si_plt_rela si =? NULL)
  then reloc_loop (Z.to_nat (si_plt_rela_count si)) w1 si
                  (si_plt_rela si) 0
  else Some (0, w1).
End Linker.

(* ===================================================================== *)
(** ** The kernel and the C library *)
(* ===================================================================== *)

(** Dropping the [n] bytes from [a] on from the address space. *)
Fixpoint mem_drop (n : nat) (a : Z) (m : memory) : memory :=
  match n with
  | O => m
  | S k => delete a (mem_drop k (a + 1) m)
  end.

(** Dropping the bytes of [[a, a + len)] from the address space. *)
Definition mem_unmap (a len : Z) (m : memory) : memory :=
  mem_drop (Z.to_nat len) a m.

(** Placing [bs] at [a], [a + 1], ... *)
Fixpoint mem_place (a : Z) (wr : bool) (bs : list Z) (m : memory)
    : memory :=
  match bs with
  | [] => m
  | b :: bs' => <[a := MCell wr b]> (mem_place (a + 1) wr bs' m)
  end.

(** [len] bytes of a file from offset [off], zero past its end. *)
Definition file_window (file : list Z) (off len : Z) : list Z :=
  take (Z.to_nat len)
       (drop (Z.to_nat off) file ++ replicate (Z.to_nat len) 0).

(** A successful [mmap] over whole pages at [addr]: what was mapped there
    is replaced; with no access permission the pages stay inaccessible. *)
Definition map_pages (addr len prot : Z) (content : list Z) (m : memory)
    : memory :=
  let m0 := mem_unmap addr (PAGE_END len) m in
  if prot =? 0 then m0
  else mem_place addr (negb (Z.land prot PROT_WRITE =? 0)) content m0.

(** [munmap(addr, len)]. *)
Definition sys_munmap (addr len : Z) (w : world) : world :=
  set_regions (delete addr (w_regions w))
    (set_mem (mem_unmap addr (PAGE_END len) (w_mem w)) w).

(** [close(fd)]. *)
Definition sys_close (fd : Z) (w : world) : world :=
  set_fds (delete fd (w_fds w)) w.

(** [free(si)]. *)
Definition sys_free (p : Z) (w : world) : world :=
  set_soinfos (delete p (w_soinfos w)) w.

(** [memset(a, 0, n)]. *)
Fixpoint memset0 (n : nat) (m : memory) (a : Z) : option memory :=
  match n with
  | O => Some m
  | S k => m' ← write_u8 m a 0; memset0 k m' (a + 1)
  end.

(** [elf_file_t]. *)
Record elf_file : Type := ElfFile {
  elf_fd : Z;
  elf_map_start : Z;
  elf_map_size : Z;
  elf_ehdr : Z;
  elf_phdr : Z;
  elf_shdr : Z;
  elf_shstrtab : Z
}.

(** The fields of the [Elf64_Ehdr] and of an [Elf64_Phdr] used here. *)
Definition e_type (m : memory) (eh : Z) := read_u16 m (eh + 16).
Definition e_machine (m : memory) (eh : Z) := read_u16 m (eh + 18).
Definition e_phoff (m : memory) (eh : Z) := read_u64 m (eh + 32).
Definition e_shoff (m : memory) (eh : Z) := read_u64 m (eh + 40).
Definition e_phnum (m : memory) (eh : Z) := read_u16 m (eh + 56).
Definition e_shstrndx (m : memory) (eh : Z) := read_u16 m (eh + 62).

Definition p_type (m : memory) (ph : Z) := read_u32 m ph.
Definition p_flags (m : memory) (ph : Z) := read_u32 m (ph + 4).
Definition p_offset (m : memory) (ph : Z) := read_u64 m (ph + 8).
Definition p_vaddr (m : memory) (ph : Z) := read_u64 m (ph + 16).
Definition p_filesz (m : memory) (ph : Z) := read_u64 m (ph + 32).
Definition p_memsz (m : memory) (ph : Z) := read_u64 m (ph + 40).

(** [elf_validate_header]: 0 or -1. *)
Definition elf_validate_header (m : memory) (eh : Z) : option Z :=
  m0 ← read_u8 m eh;
  if negb (m0 =? 127) then Some (-1) else
  m1 ← read_u8 m (eh + 1);
  if negb (m1 =? 69) then Some (-1) else
  m2 ← read_u8 m (eh + 2);
  if negb (m2 =? 76) then Some (-1) else
  m3 ← read_u8 m (eh + 3);
  if negb (m3 =? 70) then Some (-1) else
  cls ← read_u8 m (eh + 4);
  if negb (cls =? 2) then Some (-1) else
  dat ← read_u8 m (eh + 5);
  if negb (dat =? 1) then Some (-1) else
  ty ← e_type m eh;
  if negb (ty =? 3) && negb (ty =? 2) then Some (-1) else
  mach ← e_machine m eh;
  if negb (mach =? 62) then Some (-1) else
  Some 0.

(** [elf_to_mmap_prot]. *)
Definition elf_to_mmap_prot (flags : Z) : Z :=
  let p0 := 0 in
  let p1 := if negb (Z.land flags PF_R =? 0) then Z.lor p0 PROT_READ
            else p0 in
  let p2 := if negb (Z.land flags PF_W =? 0) then Z.lor p1 PROT_WRITE
            else p1 in
  if negb (Z.land flags PF_X =? 0) then Z.lor p2 PROT_EXEC else p2.

(** [&phdr[i]]. *)
Definition phdr_ptr (phdr i : Z) : Z := padd phdr (sizeof_Phdr * i).

(** The loop of [calculate_load_size] over [cnt] headers from index [i],
    carrying [(min_vaddr, max_vaddr)]. *)
Fixpoint load_span (cnt : nat) (m : memory) (phdr i : Z) (mn mx : Z)
    : option (Z * Z) :=
  match cnt with
  | O => Some (mn, mx)
  | S k =>
      let ph := phdr_ptr phdr i in
      ty ← p_type m ph;
      if negb (ty =? PT_LOAD) then load_span k m phdr (i + 1) mn mx else
      va ← p_vaddr m ph;
      let mn' := if va <? mn then va else mn in
      msz ← p_memsz m ph;
      let e := u64 (va + msz) in
      let mx' := if mx <? e then e else mx in
      load_span k m phdr (i + 1) mn' mx'
  end.

(** [calculate_load_size]. *)
Definition calculate_load_size (m : memory) (phdr phnum : Z) : option Z :=
  '(mn, mx) ← load_span (Z.to_nat phnum) m phdr 0 ALL_ONES 0;
  if mx <? mn then Some 0
  else Some (u64 (PAGE_END mx - PAGE_START mn)).

(** Step 4 of [linker_load]: the smallest [p_vaddr] of a [PT_LOAD]. *)
Fixpoint min_load_vaddr (cnt : nat) (m : memory) (phdr i : Z) (mn : Z)
    : option Z :=
  match cnt with
  | O => Some mn
  | S k =>
      let ph := phdr_ptr phdr i in
      ty ← p_type m ph;
      va ← (if ty =? PT_LOAD then p_vaddr m ph else Some 0);
      let mn' := if (ty =? PT_LOAD) && (va <? mn) then va else mn in
      min_load_vaddr k m phdr (i + 1) mn'
  end.

(** Updating one field of a [soinfo]. *)
Definition si_with_dyn (si : soinfo) (tag v : Z) : soinfo :=
  let b := si_load_bias si in
  let '(SoInfo nm ba sz lb ph pn dy sy st ss ha gh re rc pr pc
               inf ff ia ic fa fc rf) := si in
  if tag =? DT_SYMTAB then
    SoInfo nm ba sz lb ph pn dy (padd b v) st ss ha gh re rc pr pc
           inf ff ia ic fa fc rf
  else if tag =? DT_STRTAB then
    SoInfo nm ba sz lb ph pn dy sy (padd b v) ss ha gh re rc pr pc
           inf ff ia ic fa fc rf
  else if tag =? DT_STRSZ then
    SoInfo nm ba sz lb ph pn dy sy st v ha gh re rc pr pc
           inf ff ia ic fa fc rf
  else if tag =? DT_HASH then
    SoInfo nm ba sz lb ph pn dy sy st ss (padd b v) gh re rc pr pc
           inf ff ia ic fa fc rf
  else if tag =? DT_GNU_HASH then
    SoInfo nm ba sz lb ph pn dy sy st ss ha (padd b v) re rc pr pc
           inf ff ia ic fa fc rf
  else if tag =? DT_RELA then
    SoInfo nm ba sz lb ph pn dy sy st ss ha gh (padd b v) rc pr pc
           inf ff ia ic fa fc rf
  else if tag =? DT_RELASZ then
    SoInfo nm ba sz lb ph pn dy sy st ss ha gh re (v / sizeof_Rela) pr pc
           inf ff ia ic fa fc rf
  else if tag =? DT_JMPREL then
    SoInfo nm ba sz lb ph pn dy sy st ss ha gh re rc (padd b v) pc
           inf ff ia ic fa fc rf
  else if tag =? DT_PLTRELSZ then
    SoInfo nm ba sz lb ph pn dy sy st ss ha gh re rc pr (v / sizeof_Rela)
           inf ff ia ic fa fc rf
  else if tag =? DT_INIT then
    SoInfo nm ba sz lb ph pn dy sy st ss ha gh re rc pr pc
           (padd b v) ff ia ic fa fc rf
  else if tag =? DT_FINI then
    SoInfo nm ba sz lb ph pn dy sy st ss ha gh re rc pr pc
           inf (padd b v) ia ic fa fc rf
  else if tag =? DT_INIT_ARRAY then
    SoInfo nm ba sz lb ph pn dy sy st ss ha gh re rc pr pc
           inf ff (padd b v) ic fa fc rf
  else if tag =? DT_INIT_ARRAYSZ then
    SoInfo nm ba sz lb ph pn dy sy st ss ha gh re rc pr pc
           inf ff ia (v / 8) fa fc rf
  else if tag =? DT_FINI_ARRAY then
    SoInfo nm ba sz lb ph pn dy sy st ss ha gh re rc pr pc
           inf ff ia ic (padd b v) fc rf
  else if tag =? DT_FINI_ARRAYSZ then
    SoInfo nm ba sz lb ph pn dy sy st ss ha gh re rc pr pc
           inf ff ia ic fa (v / 8) rf
  else si.

(** The tags [parse_dynamic] has a [case] for. *)
Definition dyn_tag_known (tag : Z) : bool :=
  existsb (Z.eqb tag)
    [DT_SYMTAB; DT_STRTAB; DT_STRSZ; DT_HASH; DT_GNU_HASH; DT_RELA;
     DT_RELASZ; DT_JMPREL; DT_PLTRELSZ; DT_INIT; DT_FINI; DT_INIT_ARRAY;
     DT_INIT_ARRAYSZ; DT_FINI_ARRAY; DT_FINI_ARRAYSZ].

(** The [for (d = si->dynamic; d->d_tag != DT_NULL; d++)] loop. *)
Fixpoint dyn_walk (fuel : nat) (m : memory) (d : Z) (si : soinfo)
    : option soinfo :=
  match fuel with
  | O => None
  | S f =>
      tag ← read_u64 m d;
      if tag =? DT_NULL then Some si else
      v ← (if dyn_tag_known tag then read_u64 m (d + 8) else Some 0);
      dyn_walk f m (padd d sizeof_Dyn) (si_with_dyn si tag v)
  end.

(** [parse_dynamic]: the return value, the record and the state left. *)
Definition parse_dynamic (fuel : nat) (w : world) (si : soinfo)
    : option (Z * soinfo * world) :=
  if si_dynamic si =? NULL
  then Some (-1, si, linker_set_error "No dynamic section" w)
  else
    si' ← dyn_walk fuel (w_mem w) (si_dynamic si) si;
    if (si_symtab si' =? NULL) || (si_strtab si' =? NULL)
    then Some (-1, si',
               linker_set_error "Missing symbol table or string table" w)
    else Some (0, si', w).

(* ===================================================================== *)
(** ** Loading, unloading and the dl* front *)
(* ===================================================================== *)

Definition si_set_ident (nm : string) (ph pn : Z) (si : soinfo) : soinfo :=
  let '(SoInfo _ ba sz lb _ _ dy sy st ss ha gh re rc pr pc
               inf ff ia ic fa fc rf) := si in
  SoInfo nm ba sz lb ph pn dy sy st ss ha gh re rc pr pc
         inf ff ia ic fa fc rf.
Definition si_set_size (sz : Z) (si : soinfo) : soinfo :=
  let '(SoInfo nm ba _ lb ph pn dy sy st ss ha gh re rc pr pc
               inf ff ia ic fa fc rf) := si in
  SoInfo nm ba sz lb ph pn dy sy st ss ha gh re rc pr pc
         inf ff ia ic fa fc rf.
Definition si_set_base (ba : Z) (si : soinfo) : soinfo :=
  let '(SoInfo nm _ sz lb ph pn dy sy st ss ha gh re rc pr pc
               inf ff ia ic fa fc rf) := si in
  SoInfo nm ba sz lb ph pn dy sy st ss ha gh re rc pr pc
         inf ff ia ic fa fc rf.
Definition si_set_load_bias (lb : Z) (si : soinfo) : soinfo :=
  let '(SoInfo nm ba sz _ ph pn dy sy st ss ha gh re rc pr pc
               inf ff ia ic fa fc rf) := si in
  SoInfo nm ba sz lb ph pn dy sy st ss ha gh re rc pr pc
         inf ff ia ic fa fc rf.
Definition si_set_phdr (ph : Z) (si : soinfo) : soinfo :=
  let '(SoInfo nm ba sz lb _ pn dy sy st ss ha gh re rc pr pc
               inf ff ia ic fa fc rf) := si in
  SoInfo nm ba sz lb ph pn dy sy st ss ha gh re rc pr pc
         inf ff ia ic fa fc rf.
Definition si_set_dynamic (dy : Z) (si : soinfo) : soinfo :=
  let '(SoInfo nm ba sz lb ph pn _ sy st ss ha gh re rc pr pc
               inf ff ia ic fa fc rf) := si in
  SoInfo nm ba sz lb ph pn dy sy st ss ha gh re rc pr pc
         inf ff ia ic fa fc rf.
Definition si_set_ref_count (rf : Z) (si : soinfo) : soinfo :=
  let '(SoInfo nm ba sz lb ph pn dy sy st ss ha gh re rc pr pc
               inf ff ia ic fa fc _) := si in
  SoInfo nm ba sz lb ph pn dy sy st ss ha gh re rc pr pc
         inf ff ia ic fa fc rf.

(** [is_valid_func_ptr]. *)
Definition is_valid_func_ptr (p : Z) : bool :=
  negb ((p =? NULL) || (p =? ALL_ONES)).

(** A call into loaded code.  The embedding records that it was made; what
    the called code does to the process is not part of it. *)
Definition call_fn (f : Z) (w : world) : world :=
  set_calls (w_calls w ++ [f]) w.

(** What is left of the chain at [g_linker.soinfo_list] when the first
    link that equals [si] is replaced by [si->next]. *)
Fixpoint list_unlink (si : Z) (l : list Z) : list Z :=
  match l with
  | [] => []
  | p :: l' => if p =? si then l' else p :: list_unlink si l'
  end.

Section Loader.
Variable host_dlsym : list Z -> Z.
(** The kernel and the allocator, as seen by the linker: the bytes of
    the file at a path, the descriptor [open] returns (negative on
    failure), the result of [fstat], the address [mmap(NULL, len, ...)]
    returns ([MAP_FAILED] on failure), whether a [MAP_FIXED] request
    succeeds, and the block [calloc] returns ([NULL] on failure). *)
Variable fs : string -> list Z.
Variable sys_open : world -> string -> Z.
Variable sys_fstat : world -> Z -> Z.
Variable sys_mmap : world -> Z -> Z.
Variable sys_mmap_fixed : world -> Z -> Z -> bool.
Variable sys_calloc : world -> Z.
Variable fuel : nat.

(** [open(path, O_RDONLY)].  A kernel never returns a descriptor that is
    still open: such an answer has no result. *)
Definition do_open (path : string) (w : world) : option (Z * world) :=
  let fd := sys_open w path in
  if fd <? 0 then Some (fd, w)
  else match w_fds w !! fd with
       | Some _ => None
       | None => Some (fd, set_fds (<[fd := path]> (w_fds w)) w)
       end.

(** [mmap(NULL, len, prot, MAP_PRIVATE [| MAP_ANONYMOUS], ...)] with the
    bytes the new pages show.  The address of a new region is neither
    [NULL] nor the base of a region in use. *)
Definition do_mmap (len prot : Z) (content : list Z) (w : world)
    : option (Z * world) :=
  let a := sys_mmap w len in
  if a =? MAP_FAILED then Some (a, w)
  else if a =? NULL then None
  else match w_regions w !! a with
       | Some _ => None
       | None =>
           Some (a, set_regions (<[a := len]> (w_regions w))
                      (set_mem (map_pages a len prot content (w_mem w)) w))
       end.

(** [mmap(addr, len, prot, MAP_PRIVATE | MAP_FIXED [| MAP_ANONYMOUS],
    ...)]: [false] is [MAP_FAILED]. *)
Definition do_mmap_fixed (addr len prot : Z) (content : list Z)
    (w : world) : bool * world :=
  if sys_mmap_fixed w addr len
  then (true, set_mem (map_pages addr len prot content (w_mem w)) w)
  else (false, w).

(** [calloc(1, sizeof(soinfo_t))]; a live block is never handed out. *)
Definition do_calloc (w : world) : option (Z * world) :=
  let p := sys_calloc w in
  if p =? NULL then Some (p, w)
  else match w_soinfos w !! p with
       | Some _ => None
       | None => Some (p, set_soinfos (<[p := soinfo_zero]> (w_soinfos w)) w)
       end.

(** [elf_close]. *)
Definition elf_close (elf : elf_file) (w : world) : world :=
  let w1 := if negb (elf_map_start elf =? NULL)
               && negb (elf_map_start elf =? MAP_FAILED)
            then sys_munmap (elf_map_start elf) (elf_map_size elf) w
            else w in
  if 0 <=? elf_fd elf then sys_close (elf_fd elf) w1 else w1.

(** [elf_open]: the return value, the filled [elf_file_t], the state. *)
Definition elf_open (path : string) (w : world)
    : option (Z * elf_file * world) :=
  let elf0 := ElfFile 0 0 0 0 0 0 0 in
  '(fd, w1) ← do_open path w;
  if fd <? 0 then Some (-1, elf0, w1) else
  if sys_fstat w1 fd <? 0 then Some (-1, elf0, sys_close fd w1) else
  let map_size := Z.of_nat (length (fs path)) in
  '(map_start, w2) ← do_mmap map_size PROT_READ
                       (file_window (fs path) 0 (PAGE_END map_size)) w1;
  if map_start =? MAP_FAILED then Some (-1, elf0, sys_close fd w2) else
  let m := w_mem w2 in
  let ehdr := map_start in
  ok ← elf_validate_header m ehdr;
  if ok <? 0
  then Some (-1, elf0, sys_close fd (sys_munmap map_start map_size w2))
  else
    phoff ← e_phoff m ehdr;
    let phdr := if negb (phoff =? 0) then padd map_start phoff else NULL in
    shoff ← e_shoff m ehdr;
    '(shdr, shstrtab) ←
      (if negb (shoff =? 0) then
         let shdr := padd map_start shoff in
         ndx ← e_shstrndx m ehdr;
         if negb (ndx =? SHN_UNDEF) then
           sh_offset ← read_u64 m (padd shdr (64 * ndx) + 24);
           Some (shdr, padd map_start sh_offset)
         else Some (shdr, NULL)
       else Some (NULL, NULL));
    Some (0, ElfFile fd map_start map_size ehdr phdr shdr shstrtab, w2).

(** The [error:] label of [linker_load], for a non-null [si]. *)
Definition load_error (fd p : Z) (si : soinfo) (elf : elf_file)
    (w : world) : world :=
  let w1 := if 0 <=? fd then sys_close fd w else w in
  let w2 := if negb (si_base si =? NULL)
               && negb (si_base si =? MAP_FAILED)
            then sys_munmap (si_base si) (si_size si) w1 else w1 in
  elf_close elf (sys_free p w2).

(** Step 7 of [linker_load] over [cnt] program headers from index [i]:
    [true] when every [PT_LOAD] was placed, [false] at a [goto error]
    (the message is set). *)
Fixpoint map_segments (cnt : nat) (w : world) (file : list Z)
    (phdr i load_bias : Z) : option (bool * world) :=
  match cnt with
  | O => Some (true, w)
  | S k =>
      let m := w_mem w in
      let ph := phdr_ptr phdr i in
      ty ← p_type m ph;
      if negb (ty =? PT_LOAD)
      then map_segments k w file phdr (i + 1) load_bias else
      va ← p_vaddr m ph;
      msz ← p_memsz m ph;
      fsz ← p_filesz m ph;
      off ← p_offset m ph;
      flags ← p_flags m ph;
      let seg_start := u64 (load_bias + va) in
      let seg_end := u64 (seg_start + msz) in
      let seg_page_start := PAGE_START seg_start in
      let seg_page_end := PAGE_END seg_end in
      let seg_file_end := u64 (seg_start + fsz) in
      let file_page_start := PAGE_START off in
      let len := u64 (seg_file_end - seg_page_start) in
      let prot := elf_to_mmap_prot flags in
      let '(ok, w1) :=
        do_mmap_fixed seg_page_start len prot
          (file_window file file_page_start (PAGE_END len)) w in
      if negb ok
      then Some (false, linker_set_error "Failed to mmap segment" w1)
      else if fsz <? msz then
        let bss_start := seg_file_end in
        let bss_page_start := PAGE_END bss_start in
        m2 ← (if bss_start <? bss_page_start
              then memset0 (Z.to_nat (u64 (bss_page_start - bss_start)))
                           (w_mem w1) bss_start
              else Some (w_mem w1));
        let w2 := set_mem m2 w1 in
        if bss_page_start <? seg_page_end then
          let blen := u64 (seg_page_end - bss_page_start) in
          let '(ok2, w3) :=
            do_mmap_fixed bss_page_start blen prot
              (replicate (Z.to_nat (PAGE_END blen)) 0) w2 in
          if negb ok2
          then Some (false, linker_set_error "Failed to mmap BSS" w3)
          else map_segments k w3 file phdr (i + 1) load_bias
        else map_segments k w2 file phdr (i + 1) load_bias
      else map_segments k w1 file phdr (i + 1) load_bias
  end.

(** Step 8: the in-memory program headers and dynamic section. *)
Fixpoint find_segments (cnt : nat) (m : memory) (phdr i : Z)
    (si : soinfo) : option soinfo :=
  match cnt with
  | O => Some si
  | S k =>
      let ph := phdr_ptr phdr i in
      ty ← p_type m ph;
      si' ← (if ty =? PT_PHDR then
               va ← p_vaddr m ph;
               Some (si_set_phdr (padd (si_load_bias si) va) si)
             else if ty =? PT_DYNAMIC then
               va ← p_vaddr m ph;
               Some (si_set_dynamic (padd (si_load_bias si) va) si)
             else Some si);
      find_segments k m phdr (i + 1) si'
  end.

(** [linker_load(path)] for a non-null [path]: the returned pointer and
    the state left. *)
Definition linker_load (path : string) (w : world) : option (Z * world) :=
  '(r, elf, w1) ← elf_open path w;
  if r <? 0
  then Some (NULL, linker_set_error ("Failed to open: " ++ c_str path) w1)
  else
  '(p, w2) ← do_calloc w1;
  if p =? NULL
  then Some (NULL, elf_close elf (linker_set_error "Out of memory" w2))
  else
  phnum ← e_phnum (w_mem w2) (elf_ehdr elf);
  let si0 := si_set_ident (str_take 255 (c_str path)) (elf_phdr elf) phnum
                          soinfo_zero in
  load_size ← calculate_load_size (w_mem w2) (elf_phdr elf) phnum;
  if load_size =? 0
  then Some (NULL, load_error (-1) p si0 elf
                     (linker_set_error "No loadable segments" w2))
  else
  let si1 := si_set_size load_size si0 in
  mn ← min_load_vaddr (Z.to_nat phnum) (w_mem w2) (elf_phdr elf) 0
                      ALL_ONES;
  let min_vaddr := PAGE_START mn in
  '(base, w3) ← do_mmap load_size 0 [] w2;
  let si2 := si_set_base base si1 in
  if base =? MAP_FAILED
  then Some (NULL, load_error (-1) p si2 elf
                     (linker_set_error "mmap failed" w3))
  else
  let si3 := si_set_load_bias (u64 (base - min_vaddr)) si2 in
  '(fd, w4) ← do_open path w3;
  if fd <? 0
  then Some (NULL, load_error fd p si3 elf
                     (linker_set_error "Failed to open file for mmap" w4))
  else
  '(ok, w5) ← map_segments (Z.to_nat phnum) w4 (fs path) (elf_phdr elf) 0
                           (si_load_bias si3);
  if negb ok then Some (NULL, load_error fd p si3 elf w5) else
  let w6 := sys_close fd w5 in
  si4 ← find_segments (Z.to_nat phnum) (w_mem w6) (elf_phdr elf) 0 si3;
  phoff ← (if si_phdr si4 =? NULL then e_phoff (w_mem w6) (elf_ehdr elf)
           else Some 0);
  let si5 := if si_phdr si4 =? NULL
             then si_set_phdr (padd (si_load_bias si4) phoff) si4
             else si4 in
  '(rd, si6, w7) ← parse_dynamic fuel w6 si5;
  if rd <? 0 then Some (NULL, load_error (-1) p si6 elf w7) else
  '(rr, w8) ← linker_relocate host_dlsym fuel w7 si6;
  if rr <? 0 then Some (NULL, load_error (-1) p si6 elf w8) else
  let si7 := si_set_ref_count 1 si6 in
  let w9 := set_soinfo_list (p :: g_soinfo_list w8)
              (set_soinfos (<[p := si7]> (w_soinfos w8)) w8) in
  Some (p, elf_close elf w9).

(** The [init_array] loop from index [i]. *)
Fixpoint init_array_loop (cnt : nat) (w : world) (arr i : Z)
    : option world :=
  match cnt with
  | O => Some w
  | S k =>
      f ← read_u64 (w_mem w) (padd arr (8 * i));
      init_array_loop k (if is_valid_func_ptr f then call_fn f w else w)
                      arr (i + 1)
  end.

(** [linker_call_constructors]. *)
Definition linker_call_constructors (p : Z) (w : world) : option world :=
  if p =? NULL then Some w else
  si ← w_soinfos w !! p;
  let w1 := if is_valid_func_ptr (si_init_func si)
            then call_fn (si_init_func si) w else w in
  if negb (si_init_array si =? NULL) && (0 <? si_init_array_count si)
  then init_array_loop (Z.to_nat (si_init_array_count si)) w1
                       (si_init_array si) 0
  else Some w1.

(** The [for (i = count; i > 0; i--)] loop over [fini_array[i-1]]. *)
Fixpoint fini_array_loop (i : nat) (w : world) (arr : Z) : option world :=
  match i with
  | O => Some w
  | S k =>
      f ← read_u64 (w_mem w) (padd arr (8 * Z.of_nat k));
      fini_array_loop k (if is_valid_func_ptr f then call_fn f w else w)
                      arr
  end.

(** [linker_call_destructors]. *)
Definition linker_call_destructors (p : Z) (w : world) : option world :=
  if p =? NULL then Some w else
  si ← w_soinfos w !! p;
  w1 ← (if negb (si_fini_array si =? NULL) && (0 <? si_fini_array_count si)
        then fini_array_loop (Z.to_nat (si_fini_array_count si)) w
                             (si_fini_array si)
        else Some w);
  Some (if is_valid_func_ptr (si_fini_func si)
        then call_fn (si_fini_func si) w1 else w1).

(** [linker_unload].  [ref_count] is an [int]: decrementing [INT_MIN]
    has no result. *)
Definition linker_unload (p : Z) (w : world) : option world :=
  if p =? NULL then Some w else
  si ← w_soinfos w !! p;
  if si_ref_count si <=? -2147483648 then None else
  let si' := si_set_ref_count (si_ref_count si - 1) si in
  let w1 := set_soinfos (<[p := si']> (w_soinfos w)) w in
  if 0 <? si_ref_count si' then Some w1 else
  w2 ← linker_call_destructors p w1;
  let w3 := set_soinfo_list (list_unlink p (g_soinfo_list w2)) w2 in
  let w4 := if negb (si_base si' =? NULL)
            then sys_munmap (si_base si') (si_size si') w3 else w3 in
  Some (sys_free p w4).

(** [mini_dlopen]; [None] for [path] is the null pointer. *)
Definition mini_dlopen (path : option string) (flags : Z) (w : world)
    : option (Z * world) :=
  match path with
  | None => Some (NULL, linker_set_error "dlopen: path is NULL" w)
  | Some path =>
      '(si, w1) ← linker_load path w;
      if si =? NULL then Some (NULL, w1) else
      w2 ← linker_call_constructors si w1;
      Some (si, w2)
  end.

(** [mini_dlsym]; [MINI_RTLD_DEFAULT] is [NULL], [MINI_RTLD_NEXT] is
    all-ones. *)
Definition mini_dlsym (handle : Z) (symbol : option string) (w : world)
    : option (Z * world) :=
  match symbol with
  | None => Some (NULL, linker_set_error "dlsym: symbol is NULL" w)
  | Some symbol =>
      if handle =? NULL then
        addr ← linker_find_global_symbol host_dlsym fuel w
                 (str_bytes symbol);
        if addr =? NULL
        then Some (addr, linker_set_error
                           ("dlsym: symbol not found: " ++ c_str symbol) w)
        else Some (addr, w)
      else if handle =? ALL_ONES then
        Some (NULL, linker_set_error "dlsym: RTLD_NEXT not implemented" w)
      else
        si ← w_soinfos w !! handle;
        addr ← linker_find_symbol (w_mem w) si (str_bytes symbol) fuel;
        if addr =? NULL
        then Some (addr, linker_set_error
                           ("dlsym: symbol not found in " ++ si_name si
                            ++ ": " ++ c_str symbol) w)
        else Some (addr, w)
  end.

(** [mini_dlclose]. *)
Definition mini_dlclose (handle : Z) (w : world) : option (Z * world) :=
  if handle =? NULL
  then Some (-1, linker_set_error "dlclose: invalid handle" w)
  else w' ← linker_unload handle w; Some (0, w').

(** [mini_dlerror]. *)
Definition mini_dlerror (w : world) : option string * world :=
  linker_get_error w.
End Loader.

(* ===================================================================== *)
(** ** The GNU hash lookup in the words of the specification *)
(* ===================================================================== *)

(** The bytes of a name up to its terminator. *)
Fixpoint c_bytes (s : list Z) : list Z :=
  match s with
  | [] => []
  | c :: s' => if c =? 0 then [] else c :: c_bytes s'
  end.

Module GnuSpec.
(** "Compute h = 5381; for each byte c of the name, h = h * 33 + c", on
    a 32-bit word. *)
Definition hash (name : list Z) : Z :=
  fold_left (λ h c, (h * 33 + c) mod 2 ^ 32) (c_bytes name) 5381.

(** "The table has a fixed prefix: nbuckets, symoffset, bloom_size,
    bloom_shift; then a bloom-filter array of 64-bit words; then a bucket
    array of 32-bit indices; then a chain array of 32-bit entries." *)
Record table : Type := Table {
  nbuckets : Z;
  symoffset : Z;
  bloom_size : Z;
  bloom_shift : Z;
  bloom : Z -> option Z;
  buckets : Z -> option Z;
  chain : Z -> option Z
}.

(** An array element; there is none at a negative index. *)
Definition elem (rd : memory -> Z -> option Z) (m : memory)
    (base width i : Z) : option Z :=
  if i <? 0 then None else rd m (base + width * i).

(** The table found at address [t]. *)
Definition table_at (m : memory) (t : Z) : option table :=
  nb ← read_u32 m t;
  so ← read_u32 m (t + 4);
  bs ← read_u32 m (t + 8);
  sh ← read_u32 m (t + 12);
  let bloom_base := t + 16 in
  let buckets_base := bloom_base + 8 * bs in
  let chain_base := buckets_base + 4 * nb in
  Some (Table nb so bs sh (elem read_u64 m bloom_base 8)
              (elem read_u32 m buckets_base 4)
              (elem read_u32 m chain_base 4)).

(** "let w = bloom[(h / 64) mod bloom_size] and m = (1 << (h mod 64)) |
    (1 << ((h >> bloom_shift) mod 64)).  If (w & m) ≠ m, the symbol is
    absent." *)
Definition bloom_mask (t : table) (h : Z) : Z :=
  Z.lor (Z.shiftl 1 (h mod 64))
        (Z.shiftl 1 (Z.shiftr h (bloom_shift t) mod 64)).

Definition bloom_test (t : table) (h : Z) : option bool :=
  if bloom_size t =? 0 then None else
  w ← bloom t ((h / 64) mod bloom_size t);
  Some (Z.land w (bloom_mask t h) =? bloom_mask t h).

(** The name of symbol [n] compared with [name], byte by byte. *)
Definition name_matches (m : memory) (symtab strtab : Z)
    (name : list Z) (n : Z) : option bool :=
  off ← read_u32 m (symtab + 24 * n);
  strcmp_eq m (strtab + off) name.

(** "Chain walk from symbol index n: at each step compare (h ^ chain[n −
    symoffset]) >> 1 == 0; on match, compare the name bytes.  Terminate
    when chain[...] & 1 is set."  The result is the index of the symbol
    found; symbol indices are 32-bit. *)
Fixpoint chain_walk (fuel : nat) (t : table) (matches : Z -> option bool)
    (h n : Z) : option (option Z) :=
  match fuel with
  | O => None
  | S f =>
      if two32 <=? n then None else
      c ← chain t (n - symoffset t);
      hit ← (if Z.shiftr (Z.lxor h c) 1 =? 0 then matches n
             else Some false);
      if (hit : bool) then Some (Some n)
      else if Z.land c 1 =? 1 then Some None
      else chain_walk f t matches h (n + 1)
  end.

(** The whole lookup: [Some (Some n)] finds symbol [n], [Some None] is
    absence. *)
Definition lookup (fuel : nat) (m : memory) (gnu symtab strtab : Z)
    (name : list Z) : option (option Z) :=
  t ← table_at m gnu;
  let h := hash name in
  pass ← bloom_test t h;
  if negb pass then Some None else
  if nbuckets t =? 0 then None else
  n ← buckets t (h mod nbuckets t);
  if n =? 0 then Some None else
  chain_walk fuel t (name_matches m symtab strtab name) h n.
End GnuSpec.

(* ===================================================================== *)
(** ** What the claims speak of *)
(* ===================================================================== *)

(** The bytes [bs], none of them zero, stand at [p] and a NUL follows. *)
Fixpoint cstr_at (m : memory) (p : Z) (bs : list Z) : Prop :=
  match bs with
  | [] => read_u8 m p = Some 0
  | b :: bs' => b ≠ 0 ∧ read_u8 m p = Some b ∧ cstr_at m (p + 1) bs'
  end.

(** Entry [i] of the module's symbol table has exactly the name [name], a
    section index other than [SHN_UNDEF] and global or weak binding, and
    [addr] is [load_bias + st_value] for it. *)
Definition sym_defines (m : memory) (si : soinfo) (name : list Z)
    (i addr : Z) : Prop :=
  let sym := sym_ptr si i in
  (∃ nm, st_name m sym = Some nm ∧
         cstr_at m (padd (si_strtab si) nm) (c_bytes name)) ∧
  (∃ shndx, st_shndx m sym = Some shndx ∧ shndx ≠ SHN_UNDEF) ∧
  (∃ info, st_info m sym = Some info ∧
           (ELF64_ST_BIND info = STB_GLOBAL ∨ ELF64_ST_BIND info = STB_WEAK)) ∧
  (∃ v, st_value m sym = Some v ∧ addr = padd (si_load_bias si) v).

(** The name offset of entry [i] is not zero (the linear scan skips the
    others). *)
Definition sym_named (m : memory) (si : soinfo) (i : Z) : Prop :=
  ∃ nm, st_name m (sym_ptr si i) = Some nm ∧ nm ≠ 0.

(** Entry [i] is undefined, or its binding is neither global nor weak. *)
Definition sym_unacceptable (m : memory) (si : soinfo) (i : Z) : Prop :=
  let sym := sym_ptr si i in
  st_shndx m sym = Some SHN_UNDEF ∨
  ∃ shndx info,
    st_shndx m sym = Some shndx ∧ shndx ≠ SHN_UNDEF ∧
    st_info m sym = Some info ∧
    ELF64_ST_BIND info ≠ STB_GLOBAL ∧ ELF64_ST_BIND info ≠ STB_WEAK.

(** A search for [name] passes over entry [i]: the entry has another
    name, or it has that name and is not an accepted definition. *)
Definition sym_other (m : memory) (si : soinfo) (name : list Z) (i : Z)
    : Prop :=
  ∃ nm, st_name m (sym_ptr si i) = Some nm ∧
    ((∃ bs, cstr_at m (padd (si_strtab si) nm) bs ∧ bs ≠ c_bytes name) ∨
     (cstr_at m (padd (si_strtab si) nm) (c_bytes name) ∧
      sym_unacceptable m si i)).

(** The module has a GNU hash table with a bloom shift below 32, and the
    specified lookup of [name] in it answers [r]: symbol [n], which does
    not lie at the null address, or absence. *)
Definition gnu_answers (fuel : nat) (m : memory) (si : soinfo)
    (name : list Z) (r : option Z) : Prop :=
  si_gnu_hash si ≠ NULL ∧
  (∃ shift, read_u32 m (si_gnu_hash si + 12) = Some shift ∧ shift < 32) ∧
  GnuSpec.lookup fuel m (si_gnu_hash si) (si_symtab si) (si_strtab si) name
    = Some r ∧
  match r with Some n => sym_ptr si n ≠ NULL | None => True end.

(** The GNU hash table gives no accepted definition of [name]: there is
    no such table, or its lookup answers absence or an entry that is not
    an accepted definition. *)
Definition gnu_silent (fuel : nat) (m : memory) (si : soinfo)
    (name : list Z) : Prop :=
  si_gnu_hash si = NULL ∨
  gnu_answers fuel m si name None ∨
  ∃ n, gnu_answers fuel m si name (Some n) ∧ sym_unacceptable m si n.

(** "Walk i = bucket[h mod nbucket], following i = chain[i]": the chain
    at [chain] leads from index [i] over the entries [skipped], each
    passed over, to index [k]. *)
Fixpoint elf_chain_leads (m : memory) (si : soinfo) (name : list Z)
    (chain : Z) (skipped : list Z) (i k : Z) : Prop :=
  match skipped with
  | [] => i = k
  | j :: rest =>
      i = j ∧ j ≠ 0 ∧ sym_other m si name j ∧
      ∃ nxt, read_u32 m (padd chain (4 * j)) = Some nxt ∧
             elf_chain_leads m si name chain rest nxt k
  end.

(** "Header is nbucket, nchain; then buckets; then chain": the module has
    an ELF hash table, and the chain of the bucket of [name] leads over
    [skipped] to entry [k], which is not the null entry. *)
Definition elf_hash_lists (m : memory) (si : soinfo) (name : list Z)
    (skipped : list Z) (k : Z) : Prop :=
  si_hash si ≠ NULL ∧ k ≠ 0 ∧
  ∃ nbucket i,
    read_u32 m (si_hash si) = Some nbucket ∧ nbucket ≠ 0 ∧
    read_u32 m (padd (padd (si_hash si) 8)
                     (4 * (elf_hash name mod nbucket))) = Some i ∧
    elf_chain_leads m si name (padd (si_hash si) (4 * u32 (2 + nbucket)))
                    skipped i k.

(** The linear scan reaches entry [k]: every entry before it has a name
    offset of zero or is passed over. *)
Definition scan_reaches (m : memory) (si : soinfo) (name : list Z) (k : Z)
    : Prop :=
  ∀ j, 0 ≤ j < k →
       st_name m (sym_ptr si j) = Some 0 ∨ sym_other m si name j.

Section RelocationClaims.
Variable host_dlsym : list Z -> Z.
Variable fuel : nat.

(** The name of symbol [idx] of the module is the NUL-terminated string
    [name], which [fuel] bytes are enough to read. *)
Definition sym_name_at (w : world) (si : soinfo) (idx : Z)
    (name : list Z) : Prop :=
  ∃ nm, st_name (w_mem w) (sym_ptr si idx) = Some nm ∧
        cstr_at (w_mem w) (padd (si_strtab si) nm) name ∧
        (length name < fuel)%nat.

(** "Resolve the symbol when symbol_index ≠ 0: if the referenced symbol is
    locally defined, use load_bias + st_value; otherwise resolve globally.
    An unresolved non-weak symbol is logged and treated as null."  [S] is
    the symbol address of an entry with symbol index [idx]: 0 without a
    symbol, [load_bias + st_value] for a symbol the module defines, the
    answer of the global lookup of its name otherwise.  A null [S] has the
    binding looked at, and the name for the warning unless the symbol is
    weak. *)
Definition reloc_symbol (w : world) (si : soinfo) (idx S : Z) : Prop :=
  (idx = 0 ∧ S = NULL) ∨
  (idx ≠ 0 ∧
   ∃ shndx,
     st_shndx (w_mem w) (sym_ptr si idx) = Some shndx ∧
     (shndx ≠ SHN_UNDEF →
        ∃ v, st_value (w_mem w) (sym_ptr si idx) = Some v ∧
             S = padd (si_load_bias si) v) ∧
     (shndx = SHN_UNDEF →
        ∃ name, sym_name_at w si idx name ∧
                linker_find_global_symbol host_dlsym fuel w name = Some S) ∧
     (S = NULL →
        ∃ info, st_info (w_mem w) (sym_ptr si idx) = Some info ∧
                (ELF64_ST_BIND info ≠ STB_WEAK →
                   ∃ name, sym_name_at w si idx name))).

(** The symbol named by a relocation is undefined in the module and no
    loaded module nor the host loader knows it. *)
Definition sym_unresolved (w : world) (si : soinfo) (idx : Z) : Prop :=
  idx ≠ 0 ∧
  st_shndx (w_mem w) (sym_ptr si idx) = Some SHN_UNDEF ∧
  ∃ name,
    sym_name_at w si idx name ∧
    linker_find_global_symbol host_dlsym fuel w name = Some NULL.

(** "Write a 64-bit little-endian word at target": the store of [v] at
    [a] leads from [w] to [w']; nothing but those eight bytes changes. *)
Definition stores (a v : Z) (w w' : world) : Prop :=
  ∃ m', write_u64 (w_mem w) a v = Some m' ∧ w' = set_mem m' w.

(** "memcpy(target, S, st_size) when S resolved". *)
Definition copies (si : soinfo) (idx target S : Z) (w w' : world) : Prop :=
  if S =? NULL then w' = w
  else ∃ sz m',
         st_size (w_mem w) (sym_ptr si idx) = Some sz ∧
         memcpy (Z.to_nat sz) (w_mem w) target S = Some m' ∧
         w' = set_mem m' w.

(** The effect of the relocation entry at address [e], from state [w] to
    [w']: "For each entry extract: type (low 32 bits of r_info),
    symbol_index (high 32 bits), target = load_bias + r_offset, and addend
    = r_addend", resolve the symbol, and apply the table of relocation
    types with [S] the symbol address, [A] the addend and [B] the load
    bias. *)
Definition reloc_step (si : soinfo) (e : Z) (w w' : world) : Prop :=
  ∃ info off S,
    read_u64 (w_mem w) (e + 8) = Some info ∧
    read_u64 (w_mem w) e = Some off ∧
    reloc_symbol w si (ELF64_R_SYM info) S ∧
    let target := padd (si_load_bias si) off in
    let type := ELF64_R_TYPE info in
    (type = R_X86_64_64 →
       ∃ A, read_u64 (w_mem w) (e + 16) = Some A ∧
            stores target (u64 (S + A)) w w') ∧
    (type = R_X86_64_GLOB_DAT ∨ type = R_X86_64_JUMP_SLOT →
       stores target S w w') ∧
    (type = R_X86_64_RELATIVE →
       ∃ A, read_u64 (w_mem w) (e + 16) = Some A ∧
            stores target (u64 (si_load_bias si + A)) w w') ∧
    (type = R_X86_64_COPY →
       copies si (ELF64_R_SYM info) target S w w') ∧
    (type ≠ R_X86_64_64 → type ≠ R_X86_64_GLOB_DAT →
     type ≠ R_X86_64_JUMP_SLOT → type ≠ R_X86_64_RELATIVE →
     type ≠ R_X86_64_COPY → w' = w).

(** The entries at the addresses [es] are processed one after the other,
    each from the state its predecessor left. *)
Inductive reloc_run (si : soinfo) : list Z -> world -> world -> Prop :=
| reloc_run_nil w : reloc_run si [] w w
| reloc_run_cons e es w w1 w2 :
    reloc_step si e w w1 → reloc_run si es w1 w2 →
    reloc_run si (e :: es) w w2.
End RelocationClaims.

(** The addresses of the [cnt] entries of the table at [tab]; a null
    table has none. *)
Definition reloc_table (tab cnt : Z) : list Z :=
  if tab =? NULL then []
  else map (λ i, padd tab (sizeof_Rela * Z.of_nat i)) (seq 0 (Z.to_nat cnt)).

(** Both states have the same regions, descriptors, [soinfo_t] blocks,
    registry and call history: they differ in memory contents and in the
    error slot at most. *)
Definition same_resources (w w' : world) : Prop :=
  w_regions w' = w_regions w ∧ w_fds w' = w_fds w ∧
  w_soinfos w' = w_soinfos w ∧ g_soinfo_list w' = g_soinfo_list w ∧
  w_calls w' = w_calls w.

(** The error slot is the same in both states. *)
Definition same_error (w w' : world) : Prop :=
  g_error_msg w' = g_error_msg w ∧ g_has_error w' = g_has_error w.

(** What a successful [elf_open] leaves: one more descriptor, one more
    region. *)
Definition elf_opened (path : string) (elf : elf_file) (w w1 : world)
    : Prop :=
  0 ≤ elf_fd elf ∧ w_fds w !! elf_fd elf = None ∧
  elf_map_start elf ≠ NULL ∧ elf_map_start elf ≠ MAP_FAILED ∧
  w_regions w !! elf_map_start elf = None ∧
  w_regions w1 = <[elf_map_start elf := elf_map_size elf]> (w_regions w) ∧
  w_fds w1 = <[elf_fd elf := path]> (w_fds w) ∧
  w_soinfos w1 = w_soinfos w ∧ g_soinfo_list w1 = g_soinfo_list w ∧
  w_calls w1 = w_calls w ∧ same_error w w1.

(** The texts [linker_load] and what it calls hand to
    [linker_set_error]. *)
Definition load_error_messages (path : string) : list string :=
  [("Failed to open: " ++ c_str path)%string; "Out of memory"%string;
   "No loadable segments"%string; "mmap failed"%string;
   "Failed to open file for mmap"%string; "Failed to mmap segment"%string;
   "Failed to mmap BSS"%string; "No dynamic section"%string;
   "Missing symbol table or string table"%string].

(** A load that returned [NULL] from [w] and left [w']. *)
Definition load_failed (path : string) (w w' : world) : Prop :=
  same_resources w w' ∧ g_has_error w' = true ∧
  ∃ msg, In msg (load_error_messages path) ∧
         g_error_msg w' = str_take 511 msg.

(** A load that returned the record [p] from [w] and left [w']: the fresh
    record, with count 1, is the new head of the registry; the only region
    added is the module's reservation; every descriptor opened on the way
    is closed; no loaded code was called. *)
Definition load_succeeded (p : Z) (w w' : world) : Prop :=
  ∃ si,
    w_soinfos w !! p = None ∧ w_soinfos w' = <[p := si]> (w_soinfos w) ∧
    si_ref_count si = 1 ∧
    g_soinfo_list w' = p :: g_soinfo_list w ∧
    w_regions w !! si_base si = None ∧
    w_regions w' = <[si_base si := si_size si]> (w_regions w) ∧
    w_fds w' = w_fds w ∧ w_calls w' = w_calls w ∧
    g_error_msg w' = g_error_msg w ∧ g_has_error w' = g_has_error w.

(** Module [q] is loaded and its lookup of [name] answers [NULL]. *)
Definition module_lacks (fuel : nat) (w : world) (name : list Z) (q : Z)
    : Prop :=
  ∃ sq, w_soinfos w !! q = Some sq ∧
        linker_find_symbol (w_mem w) sq name fuel = Some NULL.

(** Every registered record is live, counts at least one reference, and
    is linked once. *)
Definition registry_ok (w : world) : Prop :=
  NoDup (g_soinfo_list w) ∧
  ∀ p, In p (g_soinfo_list w) →
       ∃ si, w_soinfos w !! p = Some si ∧ 1 ≤ si_ref_count si.

(** The 64-bit words [entries] stand in the array at [arr]. *)
Definition array_at (m : memory) (arr : Z) (entries : list Z) : Prop :=
  ∀ (k : nat) (e : Z),
    entries !! k = Some e → read_u64 m (padd arr (8 * Z.of_nat k)) = Some e.

(** The calls an unload makes for a record whose [fini_array] holds
    [entries]: the valid entries from the last to the first, then
    [DT_FINI] if valid. *)
Definition destructor_calls (si : soinfo) (entries : list Z) : list Z :=
  List.filter is_valid_func_ptr (rev entries) ++
  (if is_valid_func_ptr (si_fini_func si) then [si_fini_func si] else []).

(** The calls a load makes for a record whose [init_array] holds
    [entries]: [DT_INIT] if valid, then the valid entries in order. *)
Definition constructor_calls (si : soinfo) (entries : list Z) : list Z :=
  (if is_valid_func_ptr (si_init_func si) then [si_init_func si] else []) ++
  List.filter is_valid_func_ptr entries.

(** [needle] occurs in [hay], decided. *)
Fixpoint str_prefixb (p s : string) : bool :=
  match p, s with
  | EmptyString, _ => true
  | String a p', String b s' => Ascii.eqb a b && str_prefixb p' s'
  | String _ _, EmptyString => false
  end.

Fixpoint str_containsb (needle hay : string) : bool :=
  str_prefixb needle hay ||
  match hay with
  | EmptyString => false
  | String _ hay' => str_containsb needle hay'
  end.

Section Facade.
Variable host_dlsym : list Z -> Z.
Variable fs : string -> list Z.
Variable sys_open : world -> string -> Z.
Variable sys_fstat : world -> Z -> Z.
Variable sys_mmap : world -> Z -> Z.
Variable sys_mmap_fixed : world -> Z -> Z -> bool.
Variable sys_calloc : world -> Z.
Variable fuel : nat.

(** One call of the dl* front that returns. *)
Inductive facade_step (w w' : world) : Prop :=
| step_dlopen path flags h :
    mini_dlopen host_dlsym fs sys_open sys_fstat sys_mmap sys_mmap_fixed
                sys_calloc fuel path flags w = Some (h, w') →
    facade_step w w'
| step_dlsym handle symbol a :
    mini_dlsym host_dlsym fuel handle symbol w = Some (a, w') →
    facade_step w w'
| step_dlclose handle r :
    mini_dlclose handle w = Some (r, w') → facade_step w w'
| step_dlerror msg :
    mini_dlerror w = (msg, w') → facade_step w w'.
End Facade.

(* ===================================================================== *)
(** ** Two shared objects and a kernel to run the linker on *)
(* ===================================================================== *)

Module Demo.
(** Little-endian bytes of [v]. *)
Fixpoint le (n : nat) (v : Z) : list Z :=
  match n with
  | O => []
  | S k => v mod 256 :: le k (v / 256)
  end.

Definition pad_to (n : nat) (l : list Z) : list Z :=
  l ++ replicate (n - length l) 0.

Definition ehdr (phnum : Z) : list Z :=
  [127; 69; 76; 70; 2; 1; 1; 0] ++ replicate 8 0 ++
  le 2 3 ++ le 2 62 ++ le 4 1 ++ le 8 0 ++ le 8 64 ++ le 8 0 ++
  le 4 0 ++ le 2 64 ++ le 2 56 ++ le 2 phnum ++ le 2 64 ++ le 2 0 ++
  le 2 0.

Definition phdr (ty flags off va filesz memsz : Z) : list Z :=
  le 4 ty ++ le 4 flags ++ le 8 off ++ le 8 va ++ le 8 va ++
  le 8 filesz ++ le 8 memsz ++ le 8 4096.

Definition dyn (tag v : Z) : list Z := le 8 tag ++ le 8 v.

Definition sym (name info shndx value : Z) : list Z :=
  le 4 name ++ [info; 0] ++ le 2 shndx ++ le 8 value ++ le 8 0.

Definition rela (off sy ty addend : Z) : list Z :=
  le 8 off ++ le 8 (sy * two32 + ty) ++ le 8 addend.

(** libdemo.so: one RWX [PT_LOAD] of 0x380 file bytes and 0x2000 bytes
    in memory; symbols [opt] (undefined, weak), [add] and [ctr]
    (defined, global); both hash tables; five RELA and two PLT entries;
    [DT_INIT], [DT_FINI], two [init_array] and three [fini_array]
    slots. *)
Definition h_add : Z := gnu_hash (str_bytes "add").
Definition h_ctr : Z := gnu_hash (str_bytes "ctr").

Definition bloom_bits (h : Z) : Z :=
  Z.lor (Z.shiftl 1 (h mod 64)) (Z.shiftl 1 (Z.shiftr h 6 mod 64)).

Definition libdemo : list Z :=
  let p0 := ehdr 2 ++ phdr PT_LOAD 7 0 0 896 8192
                   ++ phdr PT_DYNAMIC 6 176 176 256 256 in
  let dynamic :=
    dyn DT_SYMTAB 448 ++ dyn DT_STRTAB 544 ++ dyn DT_STRSZ 13 ++
    dyn DT_HASH 560 ++ dyn DT_GNU_HASH 592 ++
    dyn DT_RELA 640 ++ dyn DT_RELASZ 120 ++
    dyn DT_JMPREL 768 ++ dyn DT_PLTRELSZ 48 ++
    dyn DT_INIT 1024 ++ dyn DT_FINI 1040 ++
    dyn DT_INIT_ARRAY 816 ++ dyn DT_INIT_ARRAYSZ 16 ++
    dyn DT_FINI_ARRAY 832 ++ dyn DT_FINI_ARRAYSZ 24 ++
    dyn DT_NULL 0 in
  let symtab :=
    sym 0 0 0 0 ++ sym 5 32 0 0 ++ sym 1 18 1 1056 ++ sym 9 17 1 1280 in
  let strtab := 0 :: str_bytes "add" ++ 0 :: str_bytes "opt"
                  ++ 0 :: str_bytes "ctr" ++ [0] in
  let hash := le 4 1 ++ le 4 4 ++ le 4 3 ++
              le 4 0 ++ le 4 0 ++ le 4 1 ++ le 4 2 in
  let gnu := le 4 1 ++ le 4 2 ++ le 4 1 ++ le 4 6 ++
             le 8 (Z.lor (bloom_bits h_add) (bloom_bits h_ctr)) ++
             le 4 2 ++
             le 4 (h_add - h_add mod 2) ++
             le 4 (h_ctr - h_ctr mod 2 + 1) in
  let relas :=
    rela 816 0 R_X86_64_RELATIVE 1072 ++
    rela 832 0 R_X86_64_RELATIVE 1088 ++
    rela 848 0 R_X86_64_RELATIVE 1104 ++
    rela 864 3 R_X86_64_64 8 ++
    rela 888 3 R_X86_64_GLOB_DAT 0 in
  let plt :=
    rela 872 1 R_X86_64_JUMP_SLOT 0 ++
    rela 880 2 R_X86_64_JUMP_SLOT 0 in
  let init_array := le 8 0 ++ le 8 0 in
  let fini_array := le 8 0 ++ le 8 ALL_ONES ++ le 8 0 in
  let got := le 8 0 ++ le 8 4369 ++ le 8 0 ++ le 8 0 in
  pad_to 448 (p0 ++ dynamic) ++ symtab ++
  pad_to 16 strtab ++ pad_to 32 hash ++ pad_to 48 gnu ++
  pad_to 128 relas ++ plt ++ init_array ++ fini_array ++
  pad_to 8 [] ++ got.

(** libwide.so: no hash table; 257 symbols, the last of which, at index
    256, is the only one named [f]. *)
Definition libwide : list Z :=
  let p0 := ehdr 2 ++ phdr PT_LOAD 6 0 0 6424 6424
                   ++ phdr PT_DYNAMIC 6 176 176 64 64 in
  let dynamic :=
    dyn DT_SYMTAB 256 ++ dyn DT_STRTAB 240 ++ dyn DT_STRSZ 5 ++
    dyn DT_NULL 0 in
  let strtab := 0 :: str_bytes "f" ++ 0 :: str_bytes "g" ++ [0] in
  let symtab :=
    sym 0 0 0 0 ++ concat (replicate 255 (sym 3 18 1 4096))
                ++ sym 1 18 1 4104 in
  p0 ++ dynamic ++ pad_to 16 strtab ++ symtab.

(** libbad.so: a valid header and one [PT_LOAD], but no [PT_DYNAMIC]. *)
Definition libbad : list Z :=
  ehdr 1 ++ phdr PT_LOAD 6 0 0 120 120.

Definition fs (path : string) : list Z :=
  if String.eqb path "libdemo.so" then libdemo
  else if String.eqb path "libwide.so" then libwide
  else if String.eqb path "libbad.so" then libbad
  else [].

Definition max_key {A : Type} (m : gmap Z A) (d : Z) : Z :=
  map_fold (λ k _ acc, Z.max k acc) d m.

(** The lowest descriptor above those in use, from 3 on. *)
Definition sys_open (w : world) (path : string) : Z :=
  if String.eqb path "libdemo.so" || String.eqb path "libwide.so"
     || String.eqb path "libbad.so"
  then max_key (w_fds w) 2 + 1 else -1.

Definition sys_fstat (w : world) (fd : Z) : Z := 0.

(** A fresh region 1 MiB above the highest one. *)
Definition sys_mmap (w : world) (len : Z) : Z :=
  max_key (w_regions w) 139637976727552 + 1048576.

Definition sys_mmap_fixed (w : world) (addr len : Z) : bool := true.

Definition sys_calloc (w : world) : Z :=
  max_key (w_soinfos w) 93824992231424 + 4096.

(** The host loader knows [puts] only. *)
Definition host_dlsym (name : list Z) : Z :=
  if bool_decide (c_bytes name = str_bytes "puts") then 140737349242448
  else 0.

Definition fuel : nat := 64.

(** A process that has called [linker_init] and nothing else. *)
Definition w0 : world := World ∅ ∅ ∅ ∅ [] EmptyString false [].

Definition dlopen :=
  mini_dlopen host_dlsym fs sys_open sys_fstat sys_mmap sys_mmap_fixed
              sys_calloc fuel.
Definition dlsym := mini_dlsym host_dlsym fuel.
Definition dlclose := mini_dlclose.
Definition load :=
  linker_load host_dlsym fs sys_open sys_fstat sys_mmap sys_mmap_fixed
              sys_calloc fuel.

Definition world_of {A : Type} (r : option (A * world)) : world :=
  match r with Some (_, w) => w | None => w0 end.
Definition record_of (h : Z) (w : world) : soinfo :=
  match w_soinfos w !! h with Some si => si | None => soinfo_zero end.

(** The process after [dlopen("libdemo.so")], and after a second one. *)
Definition h1 : Z := 93824992235520.
Definition h2 : Z := 93824992239616.
Definition w1 : world := world_of (dlopen (Some "libdemo.so"%string) 2 w0).
Definition w2 : world := world_of (dlopen (Some "libdemo.so"%string) 2 w1).
Definition si1 : soinfo := record_of h1 w1.

(** The process after [dlopen("libwide.so")]. *)
Definition ww : world := world_of (dlopen (Some "libwide.so"%string) 2 w0).
Definition siw : soinfo := record_of h1 ww.

(** A symbol name of 600 bytes. *)
Definition long_name : string :=
  string_of_list_ascii (repeat "a"%char 600).
End Demo.

(* ===================================================================== *)
(** ** More of the loader and the ELF file view *)
(* ===================================================================== *)

(** The [PT_LOAD] header at index [i] of the table at [phdr] asks for the
    bytes [[va, va + msz)]. *)
Definition load_segment (m : memory) (phdr i va msz : Z) : Prop :=
  p_type m (phdr_ptr phdr i) = Some PT_LOAD ∧
  p_vaddr m (phdr_ptr phdr i) = Some va ∧
  p_memsz m (phdr_ptr phdr i) = Some msz.

(** The dynamic section at [d] holds the entries [(tag, value)] of
    [entries], none of them tagged [DT_NULL], and then a [DT_NULL] tag. *)
Fixpoint dyn_at (m : memory) (d : Z) (entries : list (Z * Z)) : Prop :=
  match entries with
  | [] => read_u64 m d = Some DT_NULL
  | (t, v) :: es =>
      t ≠ DT_NULL ∧ read_u64 m d = Some t ∧ read_u64 m (d + 8) = Some v ∧
      dyn_at m (d + sizeof_Dyn) es
  end.

(** The entries of a dynamic section applied to a record, first to
    last. *)
Definition dyn_apply (si : soinfo) (entries : list (Z * Z)) : soinfo :=
  fold_left (λ s e, si_with_dyn s e.1 e.2) entries si.

(** More of the ELF layouts: [e_shnum], and the [sh_name] and [sh_offset]
    of an [Elf64_Shdr]. *)
Definition sizeof_Shdr : Z := 64.
Definition e_shnum (m : memory) (eh : Z) := read_u16 m (eh + 60).
Definition sh_name (m : memory) (sh : Z) := read_u32 m sh.
Definition sh_offset (m : memory) (sh : Z) := read_u64 m (sh + 24).

(** [&shdr[i]]. *)
Definition shdr_ptr (shdr i : Z) : Z := padd shdr (sizeof_Shdr * i).

(** The loop of [elf_find_phdr] over [cnt] headers from index [i]. *)
Fixpoint find_phdr_loop (cnt : nat) (m : memory) (phdr i type : Z)
    : option Z :=
  match cnt with
  | O => Some NULL
  | S k =>
      ty ← p_type m (phdr_ptr phdr i);
      if ty =? type then Some (phdr_ptr phdr i)
      else find_phdr_loop k m phdr (i + 1) type
  end.

(** [elf_find_phdr]. *)
Definition elf_find_phdr (m : memory) (elf : elf_file) (type : Z)
    : option Z :=
  if elf_phdr elf =? NULL then Some NULL else
  n ← e_phnum m (elf_ehdr elf);
  find_phdr_loop (Z.to_nat n) m (elf_phdr elf) 0 type.

(** The loop of [elf_find_section] over [cnt] headers from index [i]. *)
Fixpoint find_section_loop (cnt : nat) (m : memory) (shdr shstrtab i : Z)
    (name : list Z) : option Z :=
  match cnt with
  | O => Some NULL
  | S k =>
      nm ← sh_name m (shdr_ptr shdr i);
      same ← strcmp_eq m (padd shstrtab nm) name;
      if (same : bool) then Some (shdr_ptr shdr i)
      else find_section_loop k m shdr shstrtab (i + 1) name
  end.

(** [elf_find_section]. *)
Definition elf_find_section (m : memory) (elf : elf_file) (name : list Z)
    : option Z :=
  if (elf_shdr elf =? NULL) || (elf_shstrtab elf =? NULL) then Some NULL
  else
    n ← e_shnum m (elf_ehdr elf);
    find_section_loop (Z.to_nat n) m (elf_shdr elf) (elf_shstrtab elf) 0
                      name.

(** [elf_get_section_data]. *)
Definition elf_get_section_data (m : memory) (elf : elf_file) (shdr : Z)
    : option Z :=
  if shdr =? NULL then Some NULL
  else off ← sh_offset m shdr; Some (padd (elf_map_start elf) off).

(** The header at [eh] passes every test of [elf_validate_header]. *)
Definition valid_header (m : memory) (eh : Z) : Prop :=
  read_u8 m eh = Some 127 ∧ read_u8 m (eh + 1) = Some 69 ∧
  read_u8 m (eh + 2) = Some 76 ∧ read_u8 m (eh + 3) = Some 70 ∧
  read_u8 m (eh + 4) = Some 2 ∧ read_u8 m (eh + 5) = Some 1 ∧
  (e_type m eh = Some 3 ∨ e_type m eh = Some 2) ∧
  e_machine m eh = Some 62.

(** Sample inputs for the file view and the dl* front. *)
Module Sample.
(** The view [elf_open] gives of libdemo.so in a fresh process. *)
Definition opened : option (Z * elf_file * world) :=
  elf_open Demo.fs Demo.sys_open Demo.sys_fstat Demo.sys_mmap
           "libdemo.so" Demo.w0.
Definition elf_of (o : option (Z * elf_file * world)) : elf_file :=
  match o with Some (_, e, _) => e | None => ElfFile 0 0 0 0 0 0 0 end.
Definition elf : elf_file := elf_of opened.
Definition wv : world := Demo.world_of opened.

(** The entries of the dynamic section of libdemo.so. *)
Definition dynamic : list (Z * Z) :=
  [(DT_SYMTAB, 448); (DT_STRTAB, 544); (DT_STRSZ, 13); (DT_HASH, 560);
   (DT_GNU_HASH, 592); (DT_RELA, 640); (DT_RELASZ, 120); (DT_JMPREL, 768);
   (DT_PLTRELSZ, 48); (DT_INIT, 1024); (DT_FINI, 1040);
   (DT_INIT_ARRAY, 816); (DT_INIT_ARRAYSZ, 16); (DT_FINI_ARRAY, 832);
   (DT_FINI_ARRAYSZ, 24)].

(** A record whose dynamic section is the one in the view. *)
Definition si_view : soinfo :=
  si_set_dynamic (elf_map_start elf + 176)
                 (si_set_load_bias (elf_map_start elf) soinfo_zero).

(** libsec.so: a header, one [PT_LOAD], the section name table at offset
    120 and three section headers at offset 144: the null section,
    [.text] and [.shstrtab]. *)
Definition ehdr_sh (phnum shoff shnum shstrndx : Z) : list Z :=
  [127; 69; 76; 70; 2; 1; 1; 0] ++ replicate 8 0 ++
  Demo.le 2 3 ++ Demo.le 2 62 ++ Demo.le 4 1 ++ Demo.le 8 0 ++
  Demo.le 8 64 ++ Demo.le 8 shoff ++ Demo.le 4 0 ++ Demo.le 2 64 ++
  Demo.le 2 56 ++ Demo.le 2 phnum ++ Demo.le 2 64 ++ Demo.le 2 shnum ++
  Demo.le 2 shstrndx.

Definition shdr (name off size : Z) : list Z :=
  Demo.le 4 name ++ Demo.le 4 1 ++ Demo.le 8 0 ++ Demo.le 8 0 ++
  Demo.le 8 off ++ Demo.le 8 size ++ Demo.le 4 0 ++ Demo.le 4 0 ++
  Demo.le 8 1 ++ Demo.le 8 0.

Definition libsec : list Z :=
  ehdr_sh 1 144 3 2 ++ Demo.phdr PT_LOAD 5 0 0 336 336 ++
  Demo.pad_to 24 (0 :: str_bytes ".text" ++ 0 :: str_bytes ".shstrtab"
                    ++ [0]) ++
  shdr 0 0 0 ++ shdr 1 0 120 ++ shdr 7 120 17.

Definition fs (path : string) : list Z :=
  if String.eqb path "libsec.so" then libsec else Demo.fs path.
Definition sys_open (w : world) (path : string) : Z :=
  if String.eqb path "libsec.so" then Demo.max_key (w_fds w) 2 + 1
  else Demo.sys_open w path.

Definition opened_sec : option (Z * elf_file * world) :=
  elf_open fs sys_open Demo.sys_fstat Demo.sys_mmap "libsec.so" Demo.w0.
Definition elf_sec : elf_file := elf_of opened_sec.
Definition wsec : world := Demo.world_of opened_sec.

(** A process with one record at [p]: [DT_INIT] at 8300 and an
    [init_array] of four slots, the first null and the third all-ones. *)
Definition p : Z := 93824992235520.
Definition si_ctor : soinfo :=
  SoInfo "libctor.so" 4096 4096 4096 0 0 0 0 0 0 0 0 0 0 0 0
         8300 0 4608 4 0 0 1.
Definition wc : world :=
  World (mem_place 4608 false
           (Demo.le 8 0 ++ Demo.le 8 8192 ++ Demo.le 8 ALL_ONES
              ++ Demo.le 8 8200) ∅)
        {[ 4096 := 4096 ]} ∅ {[ p := si_ctor ]} [p] EmptyString false [].

(** A process that holds two program headers at 4096, each a [PT_LOAD] of
    6 file bytes and 10 bytes in memory at offset and address 0: the first
    readable and writable, the second readable only; and a file of eight
    bytes. *)
Definition wph : world :=
  World (mem_place 4096 false
           (Demo.phdr PT_LOAD 6 0 0 6 10 ++ Demo.phdr PT_LOAD 4 0 0 6 10) ∅)
        ∅ ∅ ∅ [] EmptyString false [].
Definition seg_file : list Z := [1; 2; 3; 4; 5; 6; 7; 8].

(** A module image at 4096: the string table [strtab], a hash table
    [table] at 4112, and at 4160 a symbol table of the null symbol, a
    global function at offset 512 whose name offset is [name_off], and
    [fill] more null entries. *)
Definition sym_image (name_off : Z) (strtab table : list Z) (fill : nat)
    : memory :=
  mem_place 4096 false
    (Demo.pad_to 16 strtab ++ Demo.pad_to 48 table ++
     Demo.sym 0 0 0 0 ++ Demo.sym name_off 18 1 512 ++
     concat (replicate fill (Demo.sym 0 0 0 0))) ∅.

(** The record of the image, with its hash tables at [hash] and [gnu]. *)
Definition si_image (hash gnu : Z) : soinfo :=
  SoInfo "image" 4096 8192 4096 0 0 0 4160 4096 16 hash gnu
         0 0 0 0 0 0 0 0 0 0 1.

(** A GNU hash table of one bucket that lists symbol 1 under the hash of
    [add], with bloom shift [shift] and bloom word [word]. *)
Definition gnu_table (shift word : Z) : list Z :=
  Demo.le 4 1 ++ Demo.le 4 1 ++ Demo.le 4 1 ++ Demo.le 4 shift ++
  Demo.le 8 word ++ Demo.le 4 1 ++
  Demo.le 4 (Demo.h_add - Demo.h_add mod 2 + 1).

(** An ELF hash table of one bucket, which is empty. *)
Definition elf_table_empty : list Z :=
  Demo.le 4 1 ++ Demo.le 4 2 ++ Demo.le 4 0 ++ Demo.le 4 0 ++ Demo.le 4 0.

(** An ELF hash table of one bucket, which holds symbol 1. *)
Definition elf_table_one : list Z :=
  Demo.le 4 1 ++ Demo.le 4 2 ++ Demo.le 4 1 ++ Demo.le 4 0 ++ Demo.le 4 0.

(** The string table with [add] at offset 1, the one that starts with
    it, and the one with [puts] at offset 1. *)
Definition strtab_add : list Z := 0 :: str_bytes "add" ++ [0].
Definition strtab_add0 : list Z := str_bytes "add" ++ [0].
Definition strtab_puts : list Z := 0 :: str_bytes "puts" ++ [0].

(** A process whose only module is an image that defines [puts] and has
    a GNU hash table with an empty bloom filter. *)
Definition wimg : world :=
  World (sym_image 1 strtab_puts (gnu_table 6 0) 0) {[ 4096 := 8192 ]} ∅
        {[ p := si_image 0 4112 ]} [p] EmptyString false [].
End Sample.

(** The fields [parse_dynamic] and the segment scan leave alone. *)
Definition same_ident (si si' : soinfo) : Prop :=
  si_name si' = si_name si ∧ si_base si' = si_base si ∧
  si_size si' = si_size si ∧ si_load_bias si' = si_load_bias si ∧
  si_ref_count si' = si_ref_count si.

(** Every registered record is live, non-null, linked once, and counts
    exactly one reference. *)
Definition registry_single (w : world) : Prop :=
  NoDup (g_soinfo_list w) ∧
  ∀ p, In p (g_soinfo_list w) →
       p ≠ NULL ∧ ∃ si, w_soinfos w !! p = Some si ∧ si_ref_count si = 1.

(* ===================================================================== *)
(** ** The socket demo: protocol, server and client *)
(* ===================================================================== *)

(** [protocol.h], and a connection as one end sees it. *)
Module Proto.
Definition MAX_PAYLOAD_SIZE : Z := 1024.
Definition HEADER_SIZE : Z := 3.

Definition CMD_ECHO : Z := 1.
Definition CMD_TIME : Z := 2.
Definition CMD_INFO : Z := 3.
Definition CMD_CALC_ADD : Z := 16.
Definition CMD_CALC_SUB : Z := 17.
Definition CMD_CALC_MUL : Z := 18.
Definition CMD_CALC_DIV : Z := 19.
Definition CMD_PING : Z := 32.
Definition CMD_QUIT : Z := 255.
Definition RESP_OK : Z := 0.
Definition RESP_ERROR : Z := 254.

(** One end of an established TCP connection: the bytes the peer has
    sent and this end has not read yet, after which the peer has closed;
    and the bytes this end has sent. *)
Record conn : Type := Conn { c_in : list Z; c_out : list Z }.

(** [recv(fd, buf, n, MSG_WAITALL)]: the [n] bytes asked for, or what is
    left before the end of the stream. *)
Definition recv (n : Z) (c : conn) : list Z * conn :=
  (take (Z.to_nat n) (c_in c), Conn (drop (Z.to_nat n) (c_in c)) (c_out c)).

(** The connection once the bytes [bs] have gone out. *)
Definition sent (bs : list Z) (c : conn) : conn :=
  Conn (c_in c) (c_out c ++ bs).

(** A socket that takes every byte it is given. *)
Definition takes_all (c : conn) (bs : list Z) : Z := Z.of_nat (length bs).

(** [Message]: the packed three-byte header and the payload buffer, as
    the bytes they hold. *)
Record Message : Type := Msg { m_header : list Z; m_payload : list Z }.

(** Bytes stored at the start of a buffer. *)
Definition store (bs old : list Z) : list Z := bs ++ drop (length bs) old.

(** [msg->header.cmd] and [ntohs(msg->header.length)]. *)
Definition m_cmd (m : Message) : Z := nth 0 (m_header m) 0.
Definition m_length (m : Message) : Z :=
  nth 1 (m_header m) 0 * 256 + nth 2 (m_header m) 0.

(** The bytes of a message on the wire. *)
Definition frame (cmd : Z) (payload : list Z) : list Z :=
  cmd :: Z.of_nat (length payload) / 256
      :: Z.of_nat (length payload) mod 256 :: payload.

Section Socket.
(** What [send(fd, buf, n, 0)] returns for the [n] bytes [bs] on the
    connection [c]: the number of bytes taken, which may be fewer than
    [n], or -1. *)
Variable sys_send : conn -> list Z -> Z.

(** [send(fd, buf, n, 0)]: the return value, and the connection with the
    bytes taken, the first ones, gone out. *)
Definition send (bs : list Z) (c : conn) : Z * conn :=
  let n := sys_send c bs in
  (n, sent (take (Z.to_nat n) bs) c).

(** [send_message], the same function in server.c and client.c, for a
    command byte and a 16-bit length; [None] for [payload] is [NULL].
    The copy into [msg.payload] needs [len] bytes at [payload] and room
    for them; without a payload the bytes sent after the header would be
    those of the uninitialised buffer.  The result is 0 when [send] took
    [HEADER_SIZE + len] bytes and -1 otherwise. *)
Definition send_message (cmd : Z) (payload : option (list Z)) (len : Z)
    (c : conn) : option (Z * conn) :=
  let total := HEADER_SIZE + len in
  if 0 <? len then
    match payload with
    | Some bs =>
        if (len <=? MAX_PAYLOAD_SIZE) && (len <=? Z.of_nat (length bs))
        then
          let '(n, c') := send (cmd :: len / 256 :: len mod 256
                                    :: take (Z.to_nat len) bs) c in
          Some (if n =? total then 0 else -1, c')
        else None
    | None => None
    end
  else
    let '(n, c') := send [cmd; 0; 0] c in
    Some (if n =? total then 0 else -1, c').
End Socket.

(** A 32-bit word in network byte order: [ntohl] of four stored bytes and
    the bytes of [htonl(x)]; the conversion of a [uint32_t] to
    [int32_t]; signed arithmetic, which has no result out of range. *)
Definition be32 (bs : list Z) : Z :=
  ((nth 0 bs 0 * 256 + nth 1 bs 0) * 256 + nth 2 bs 0) * 256 + nth 3 bs 0.
Definition to_be32 (x : Z) : list Z :=
  let u := x mod two32 in
  [u / 16777216; u / 65536 mod 256; u / 256 mod 256; u mod 256].
Definition s32 (u : Z) : Z := if u <? 2147483648 then u else u - two32.
Definition int32 (x : Z) : option Z :=
  if (-2147483648 <=? x) && (x <=? 2147483647) then Some x else None.
End Proto.

(** server.c *)
Module Server.
Import Proto.

Section Socket.
Variable sys_send : conn -> list Z -> Z.

(** [recv_message]: 0 for a message, 1 for a closed connection, -1 for
    an error; the buffer and the connection as the call leaves them. *)
Definition recv_message (msg : Message) (c : conn)
    : Z * Message * conn :=
  let '(hb, c1) := recv HEADER_SIZE c in
  let n := Z.of_nat (length hb) in
  let msg1 := Msg (store hb (m_header msg)) (m_payload msg) in
  if n =? 0 then (1, msg1, c1)
  else if negb (n =? HEADER_SIZE) then (-1, msg1, c1)
  else
    let payload_len := m_length msg1 in
    if MAX_PAYLOAD_SIZE <? payload_len then (-1, msg1, c1)
    else if 0 <? payload_len then
      let '(pb, c2) := recv payload_len c1 in
      let msg2 := Msg (m_header msg1) (store pb (m_payload msg1)) in
      if negb (Z.of_nat (length pb) =? payload_len) then (-1, msg2, c2)
      else (0, msg2, c2)
    else (0, msg1, c1).

(** [send_message(fd, cmd, text, strlen(text))]: the length becomes a
    [uint16_t].  The handlers return nothing; what they leave is the
    connection. *)
Definition reply (cmd : Z) (text : list Z) (c : conn) : option conn :=
  '(_, c') ← send_message sys_send cmd (Some text)
               (Z.of_nat (length text) mod 65536) c;
  Some c'.

Definition handle_echo (data : list Z) (len : Z) (c : conn)
    : option conn :=
  '(_, c') ← send_message sys_send RESP_OK (Some data) len c; Some c'.

Definition handle_ping (c : conn) : option conn :=
  reply RESP_OK (str_bytes "PONG") c.

(** [handle_time], for the string [ctime] returns: its last byte, the
    newline, is cut off. *)
Definition handle_time (ctime_text : list Z) (c : conn) : option conn :=
  match ctime_text with
  | [] => None
  | _ => reply RESP_OK (removelast ctime_text) c
  end.

(** [handle_info], for the decimal digits of [getpid()]: [snprintf]
    keeps 255 bytes. *)
Definition handle_info (pid_digits : list Z) (c : conn) : option conn :=
  reply RESP_OK
    (take 255
       (str_bytes "Server: Mini Socket Server v1.0" ++ [10] ++
        str_bytes "Protocol: Custom Binary Protocol" ++ [10] ++
        str_bytes "Max Payload: 1024 bytes" ++ [10] ++
        str_bytes "PID: " ++ pid_digits)) c.

(** [handle_calc]. *)
Definition handle_calc (cmd : Z) (data : list Z) (len : Z) (c : conn)
    : option conn :=
  if len <? 8 then reply RESP_ERROR (str_bytes "Invalid calc payload") c
  else
    let a := s32 (be32 data) in
    let b := s32 (be32 (drop 4 data)) in
    if (cmd =? CMD_CALC_DIV) && (b =? 0)
    then reply RESP_ERROR (str_bytes "Division by zero") c
    else
      result ← (if cmd =? CMD_CALC_ADD then int32 (a + b)
                else if cmd =? CMD_CALC_SUB then int32 (a - b)
                else if cmd =? CMD_CALC_MUL then int32 (a * b)
                else if cmd =? CMD_CALC_DIV then int32 (Z.quot a b)
                else Some 0);
      '(_, c') ← send_message sys_send RESP_OK (Some (to_be32 result))
                   4 c;
      Some c'.

(** The [switch] of [handle_client] on a received message: whether the
    loop goes on, and the connection. *)
Definition dispatch (ctime_text pid_digits : list Z) (msg : Message)
    (c : conn) : option (bool * conn) :=
  let payload_len := m_length msg in
  let cmd := m_cmd msg in
  if cmd =? CMD_ECHO then
    c' ← handle_echo (m_payload msg) payload_len c; Some (true, c')
  else if cmd =? CMD_TIME then
    c' ← handle_time ctime_text c; Some (true, c')
  else if cmd =? CMD_INFO then
    c' ← handle_info pid_digits c; Some (true, c')
  else if cmd =? CMD_PING then
    c' ← handle_ping c; Some (true, c')
  else if (cmd =? CMD_CALC_ADD) || (cmd =? CMD_CALC_SUB)
          || (cmd =? CMD_CALC_MUL) || (cmd =? CMD_CALC_DIV) then
    c' ← handle_calc cmd (m_payload msg) payload_len c; Some (true, c')
  else if cmd =? CMD_QUIT then Some (false, c)
  else
    c' ← reply RESP_ERROR (str_bytes "Unknown command") c; Some (true, c').

(** The loop of [handle_client], at most [fuel] messages. *)
Fixpoint handle_client (fuel : nat) (ctime_text pid_digits : list Z)
    (msg : Message) (c : conn) : option conn :=
  match fuel with
  | O => None
  | S f =>
      let '(ret, msg1, c1) := recv_message msg c in
      if ret =? 1 then Some c1
      else if ret <? 0 then Some c1
      else
        '(running, c2) ← dispatch ctime_text pid_digits msg1 c1;
        if (running : bool)
        then handle_client f ctime_text pid_digits msg1 c2
        else Some c2
  end.
End Socket.
End Server.

(** client.c *)
Module Client.
Import Proto.

Section Socket.
Variable sys_send : conn -> list Z -> Z.

(** [recv_message]: 0 or -1.  The payload goes into the 1024-byte buffer
    and a terminator is written after it: neither fits for every
    length. *)
Definition recv_message (msg : Message) (c : conn)
    : option (Z * Message * conn) :=
  let '(hb, c1) := recv HEADER_SIZE c in
  let n := Z.of_nat (length hb) in
  let msg1 := Msg (store hb (m_header msg)) (m_payload msg) in
  if n <=? 0 then Some (-1, msg1, c1)
  else
    let payload_len := m_length msg1 in
    if 0 <? payload_len then
      let '(pb, c2) := recv payload_len c1 in
      if MAX_PAYLOAD_SIZE <? Z.of_nat (length pb) then None
      else
        let msg2 := Msg (m_header msg1) (store pb (m_payload msg1)) in
        if negb (Z.of_nat (length pb) =? payload_len)
        then Some (-1, msg2, c2)
        else if MAX_PAYLOAD_SIZE <=? payload_len then None
        else Some (0, Msg (m_header msg2)
                          (take (Z.to_nat payload_len) (m_payload msg2)
                             ++ store [0] (drop (Z.to_nat payload_len)
                                                (m_payload msg2))),
                   c2)
    else Some (0, msg1, c1).

(** [do_calc]: the return value, the number printed after [=] if the
    server answered [RESP_OK], and the connection. *)
Definition do_calc (cmd a b : Z) (msg : Message) (c : conn)
    : option (Z * option Z * conn) :=
  '(r, c1) ← send_message sys_send cmd (Some (to_be32 a ++ to_be32 b)) 8 c;
  if r <? 0 then Some (-1, None, c1)
  else
    '(r2, resp, c2) ← recv_message msg c1;
    if r2 <? 0 then Some (-1, None, c2)
    else if m_cmd resp =? RESP_OK
         then Some (0, Some (s32 (be32 (m_payload resp))), c2)
         else Some (0, None, c2).
End Socket.
End Client.

(** A calculation request of the client served by [handle_calc], over
    the client's socket [send_c] and the server's socket [send_s]: the
    client writes the request, the server reads it and answers, the
    client reads the answer.  The result is what [do_calc] returns and
    prints. *)
Definition calc_exchange (send_c send_s : Proto.conn -> list Z -> Z)
    (cmd a b : Z) (msg_server msg_client : Proto.Message)
    : option (Z * option Z) :=
  '(_, c1) ← Proto.send_message send_c cmd
               (Some (Proto.to_be32 a ++ Proto.to_be32 b))
               8 (Proto.Conn [] []);
  let '(ret, req, _) :=
    Server.recv_message msg_server (Proto.Conn (Proto.c_out c1) []) in
  if negb (ret =? 0) then None
  else
    s ← Server.handle_calc send_s (Proto.m_cmd req) (Proto.m_payload req)
          (Proto.m_length req) (Proto.Conn [] []);
    '(r, printed, _) ←
      Client.do_calc send_c cmd a b msg_client
                     (Proto.Conn (Proto.c_out s) []);
    Some (r, printed).

(** A request as the server holds it after [recv_message] on a buffer
    of zeros, and the bytes the [switch] of [handle_client] answers it
    with on a socket that takes them all. *)
Definition request_msg (cmd : Z) (payload : list Z) : Proto.Message :=
  Proto.Msg [cmd; Z.of_nat (length payload) / 256;
             Z.of_nat (length payload) mod 256]
            (Proto.store payload (replicate 1024 0)).

Definition answer (ctime_text pid_digits : list Z) (cmd : Z)
    (payload : list Z) : option (list Z) :=
  '(_, c) ← Server.dispatch Proto.takes_all ctime_text pid_digits
              (request_msg cmd payload) (Proto.Conn [] []);
  Some (Proto.c_out c).

(** The requests [rs], each a command and a payload, are answered by the
    frames [outs]; none of them is [CMD_QUIT] and each payload fits a
    message. *)
Definition answered (ctime_text pid_digits : list Z)
    (rs : list (Z * list Z)) (outs : list (list Z)) : Prop :=
  Forall2 (λ r o, r.1 ≠ Proto.CMD_QUIT ∧
                  Z.of_nat (length r.2) ≤ Proto.MAX_PAYLOAD_SIZE ∧
                  answer ctime_text pid_digits r.1 r.2 = Some o) rs outs.

(** The requests on the wire, one frame after the other. *)
Definition frames (rs : list (Z * list Z)) : list Z :=
  concat (map (λ r, Proto.frame r.1 r.2) rs).

(* ===================================================================== *)
(** * Properties *)
(* ===================================================================== *)

(** ** Memory *)

Lemma u64_range x : 0 ≤ u64 x < two64.
Proof. unfold u64, two64. apply Z.mod_pos_bound. lia. Qed.

Lemma u32_range x : 0 ≤ u32 x < two32.
Proof. unfold u32, two32. apply Z.mod_pos_bound. lia. Qed.

Lemma u64_small x : 0 ≤ x < two64 → u64 x = x.
Proof. intros. unfold u64. apply Z.mod_small. lia. Qed.

Lemma padd_range p off : 0 ≤ padd p off < two64.
Proof. apply u64_range. Qed.

Lemma in_space_spec a : in_space a = true ↔ 0 ≤ a < two64.
Proof. unfold in_space. rewrite andb_true_iff, Z.leb_le, Z.ltb_lt. tauto. Qed.

Lemma read_u8_range m a b : read_u8 m a = Some b → 0 ≤ b < 256.
Proof.
  unfold read_u8. destruct (in_space a); [|discriminate].
  destruct (m !! a) as [c|]; simpl; [|discriminate].
  intros [= <-]. apply Z.mod_pos_bound. lia.
Qed.

Lemma read_u8_in_space m a b : read_u8 m a = Some b → 0 ≤ a < two64.
Proof.
  unfold read_u8. destruct (in_space a) eqn:E; [|discriminate].
  intros _. apply in_space_spec. exact E.
Qed.

Lemma read_le_range n m a v :
  read_le n m a = Some v → 0 ≤ v < 256 ^ Z.of_nat n.
Proof.
  revert a v. induction n as [|n IH]; intros a v; simpl read_le.
  - intros [= <-]. simpl. lia.
  - destruct (read_u8 m a) as [b|] eqn:Hb; simpl; [|discriminate].
    destruct (read_le n m (a + 1)) as [r|] eqn:Hr; simpl; [|discriminate].
    intros [= <-]. apply read_u8_range in Hb. apply IH in Hr.
    rewrite Nat2Z.inj_succ, Z.pow_succ_r by lia. nia.
Qed.

Lemma read_u32_range m a v : read_u32 m a = Some v → 0 ≤ v < two32.
Proof. intros H. apply read_le_range in H. exact H. Qed.

Lemma read_u64_range m a v : read_u64 m a = Some v → 0 ≤ v < two64.
Proof. intros H. apply read_le_range in H. exact H. Qed.

Lemma write_u8_lookup m a v m' :
  write_u8 m a v = Some m' →
  m' = <[a := MCell true (v mod 256)]> m ∧ 0 ≤ a < two64 ∧
  ∃ c, m !! a = Some c ∧ mc_w c = true.
Proof.
  unfold write_u8. destruct (in_space a) eqn:E; [|discriminate].
  destruct (m !! a) as [c|] eqn:Hc; simpl; [|discriminate].
  destruct (mc_w c) eqn:Hw; [|discriminate].
  intros [= <-]. split; [reflexivity|]. split; [|exists c; auto].
  apply in_space_spec. exact E.
Qed.

Lemma read_u8_write_u8_eq m a v m' :
  write_u8 m a v = Some m' → read_u8 m' a = Some (v mod 256).
Proof.
  intros H. apply write_u8_lookup in H as (-> & Ha & _).
  unfold read_u8. apply in_space_spec in Ha. rewrite Ha.
  rewrite lookup_insert_eq. simpl.
  rewrite Z.mod_mod by lia. reflexivity.
Qed.

Lemma read_u8_write_u8_ne m a v m' b :
  write_u8 m a v = Some m' → a ≠ b → read_u8 m' b = read_u8 m b.
Proof.
  intros H Hne. apply write_u8_lookup in H as (-> & _ & _).
  unfold read_u8. rewrite lookup_insert_ne by done. reflexivity.
Qed.

(** A store leaves the bytes outside its range alone. *)
Lemma read_u8_write_le_out n m a v m' b :
  write_le n m a v = Some m' → (b < a ∨ a + Z.of_nat n ≤ b) →
  read_u8 m' b = read_u8 m b.
Proof.
  revert m a v. induction n as [|n IH]; intros m a v; simpl write_le.
  - intros [= <-] _. reflexivity.
  - destruct (write_u8 m a v) as [m1|] eqn:H1; simpl; [|discriminate].
    intros H2 Hb. rewrite (IH _ _ _ H2) by lia.
    eapply read_u8_write_u8_ne; [eassumption | lia].
Qed.

(** A little-endian load after a store of the same width gives the stored
    bytes back. *)
Lemma read_le_write_le n m a v m' :
  write_le n m a v = Some m' →
  read_le n m' a = Some (v mod 256 ^ Z.of_nat n).
Proof.
  revert m a v. induction n as [|n IH]; intros m a v; simpl write_le.
  - intros _. simpl. rewrite Z.mod_1_r. reflexivity.
  - destruct (write_u8 m a v) as [m1|] eqn:H1; simpl; [|discriminate].
    intros H2. simpl read_le.
    rewrite (read_u8_write_le_out _ _ _ _ _ a H2) by lia.
    rewrite (read_u8_write_u8_eq _ _ _ _ H1). simpl.
    rewrite (IH _ _ _ H2). simpl. f_equal.
    rewrite Nat2Z.inj_succ, Z.pow_succ_r by lia.
    rewrite (Z.mul_comm 256), Z.rem_mul_r by lia. lia.
Qed.

Lemma read_u64_write_u64 m a v m' :
  0 ≤ v < two64 → write_u64 m a v = Some m' → read_u64 m' a = Some v.
Proof.
  intros Hv H. unfold read_u64. rewrite (read_le_write_le _ _ _ _ _ H).
  f_equal. apply Z.mod_small. exact Hv.
Qed.

Lemma read_le_in_space n m a v :
  read_le (S n) m a = Some v → 0 ≤ a < two64.
Proof.
  simpl. destruct (read_u8 m a) as [b|] eqn:Hb; [|discriminate].
  intros _. eapply read_u8_in_space; eassumption.
Qed.

Lemma read_u16_in_space m a v : read_u16 m a = Some v → 0 ≤ a < two64.
Proof. apply (read_le_in_space 1). Qed.

Lemma read_u32_in_space m a v : read_u32 m a = Some v → 0 ≤ a < two64.
Proof. apply (read_le_in_space 3). Qed.

Lemma read_u64_in_space m a v : read_u64 m a = Some v → 0 ≤ a < two64.
Proof. apply (read_le_in_space 7). Qed.

Lemma strcmp_eq_in_space m p s b :
  strcmp_eq m p s = Some b → 0 ≤ p < two64.
Proof.
  destruct s as [|c s]; simpl;
    destruct (read_u8 m p) as [x|] eqn:Hx; try discriminate;
    intros _; eapply read_u8_in_space; eassumption.
Qed.

Lemma u64_add_l a b : u64 (u64 a + b) = u64 (a + b).
Proof. unfold u64. apply Zplus_mod_idemp_l. Qed.

Lemma padd_padd p a b : padd (padd p a) b = padd p (a + b).
Proof. unfold padd. rewrite u64_add_l. f_equal. lia. Qed.

Lemma padd_exact p off : 0 ≤ p + off < two64 → padd p off = p + off.
Proof. intros. unfold padd. apply u64_small. assumption. Qed.

(** ** The GNU hash *)

Lemma gnu_hash_step_spec h c : gnu_hash_step h c = (h * 33 + c) mod 2 ^ 32.
Proof.
  unfold gnu_hash_step, u32, two32. rewrite Z.shiftl_mul_pow2 by lia.
  change (2 ^ 32) with 4294967296. change (2 ^ 5) with 32.
  rewrite <- Z.add_assoc, Zplus_mod_idemp_l. f_equal. lia.
Qed.

Lemma gnu_hash_from_spec h s :
  gnu_hash_from h s =
  fold_left (λ h c, (h * 33 + c) mod 2 ^ 32) (c_bytes s) h.
Proof.
  revert h. induction s as [|c s IH]; intros h; simpl; [reflexivity|].
  destruct (c =? 0); simpl; [reflexivity|].
  rewrite IH, gnu_hash_step_spec. reflexivity.
Qed.

Lemma gnu_hash_spec name : gnu_hash name = GnuSpec.hash name.
Proof. apply gnu_hash_from_spec. Qed.

Lemma land_1_cases c : Z.land c 1 = 0 ∨ Z.land c 1 = 1.
Proof.
  assert (E : Z.land c 1 = c mod 2) by (apply (Z.land_ones c 1); lia).
  rewrite E. pose proof (Z.mod_pos_bound c 2). lia.
Qed.

Section GnuRefinement.
Variable m : memory.
Variable si : soinfo.
Variable name : list Z.

Lemma name_matches_code n b :
  GnuSpec.name_matches m (si_symtab si) (si_strtab si) name n = Some b →
  sym_name_is m si name (sym_ptr si n) = Some b.
Proof.
  unfold GnuSpec.name_matches, sym_name_is, st_name, sym_ptr, sizeof_Sym.
  destruct (read_u32 m (si_symtab si + 24 * n)) as [off|] eqn:Hoff;
    simpl; [|discriminate].
  intros Hcmp.
  pose proof (read_u32_in_space _ _ _ Hoff) as Hs.
  pose proof (strcmp_eq_in_space _ _ _ _ Hcmp) as Hp.
  rewrite !padd_exact by assumption.
  unfold read_u32 in *. rewrite Hoff. simpl.
  rewrite padd_exact by assumption. exact Hcmp.
Qed.

Lemma gnu_chain_walk_refines fuel t chain r h n :
  GnuSpec.chain t = GnuSpec.elem read_u32 m chain 4 →
  0 ≤ GnuSpec.symoffset t → 0 ≤ n →
  GnuSpec.chain_walk fuel t
    (GnuSpec.name_matches m (si_symtab si) (si_strtab si) name) h n
    = Some r →
  gnu_chain_walk m si name fuel (u64 chain) (GnuSpec.symoffset t) h n
    = Some (match r with Some k => sym_ptr si k | None => NULL end).
Proof.
  intros Hch Hso. revert n.
  induction fuel as [|f IH]; intros n Hn; simpl; [discriminate|].
  destruct (two32 <=? n) eqn:Hn32; [discriminate|].
  apply Z.leb_gt in Hn32.
  rewrite Hch. unfold GnuSpec.elem.
  destruct (n - GnuSpec.symoffset t <? 0) eqn:Hneg; [discriminate|].
  apply Z.ltb_ge in Hneg.
  destruct (read_u32 m (chain + 4 * (n - GnuSpec.symoffset t)))
    as [c|] eqn:Hc; simpl; [|discriminate].
  pose proof (read_u32_in_space _ _ _ Hc) as Hsp.
  assert (Hidx : u32 (n - GnuSpec.symoffset t) = n - GnuSpec.symoffset t).
  { unfold u32. apply Z.mod_small. lia. }
  rewrite Hidx. unfold padd at 1. rewrite u64_add_l.
  rewrite (u64_small (chain + 4 * (n - GnuSpec.symoffset t)))
    by assumption.
  unfold read_u32 in *. rewrite Hc. simpl.
  destruct (Z.shiftr (Z.lxor h c) 1 =? 0).
  - destruct (GnuSpec.name_matches _ _ _ _ n) as [b|] eqn:Hb;
      simpl; [|discriminate].
    rewrite (name_matches_code _ _ Hb). simpl.
    destruct b; [intros [= <-]; reflexivity|].
    destruct (land_1_cases c) as [E|E]; rewrite E; simpl.
    + intros Hrec. assert (n + 1 < two32).
      { destruct f; simpl in Hrec; [discriminate|].
        destruct (two32 <=? n + 1) eqn:E2; [discriminate|].
        apply Z.leb_gt in E2. exact E2. }
      replace (u32 (n + 1)) with (n + 1)
        by (unfold u32; symmetry; apply Z.mod_small; lia).
      apply IH; [lia | exact Hrec].
    + intros [= <-]. reflexivity.
  - simpl. destruct (land_1_cases c) as [E|E]; rewrite E; simpl.
    + intros Hrec. assert (n + 1 < two32).
      { destruct f; simpl in Hrec; [discriminate|].
        destruct (two32 <=? n + 1) eqn:E2; [discriminate|].
        apply Z.leb_gt in E2. exact E2. }
      replace (u32 (n + 1)) with (n + 1)
        by (unfold u32; symmetry; apply Z.mod_small; lia).
      apply IH; [lia | exact Hrec].
    + intros [= <-]. reflexivity.
Qed.
End GnuRefinement.

Lemma elem_nonneg rd (m : memory) base width i :
  0 ≤ i → GnuSpec.elem rd m base width i = rd m (base + width * i).
Proof.
  intros Hi. unfold GnuSpec.elem.
  destruct (i <? 0) eqn:E; [apply Z.ltb_lt in E; lia | reflexivity].
Qed.

(** The lookup of linker.c returns what the specified algorithm answers,
    on a table whose bloom shift is a valid shift of a 32-bit word. *)
Lemma gnu_lookup_refines :
  ∀ (fuel : nat) (m : memory) (si : soinfo) (name : list Z)
    (shift : Z) (r : option Z),
    si_gnu_hash si ≠ NULL →
    read_u32 m (si_gnu_hash si + 12) = Some shift → shift < 32 →
    GnuSpec.lookup fuel m (si_gnu_hash si) (si_symtab si) (si_strtab si)
                   name = Some r →
    gnu_hash name = GnuSpec.hash name ∧
    gnu_lookup m si name fuel
      = Some (match r with Some n => sym_ptr si n | None => NULL end).
Proof.
  intros fuel m si name shift r Hgnu Hshift Hlt Hspec.
  split; [apply gnu_hash_spec|].
  unfold GnuSpec.lookup, GnuSpec.table_at in Hspec.
  set (t := si_gnu_hash si) in *.
  destruct (read_u32 m t) as [nb|] eqn:Hnb; simpl in Hspec; [|discriminate].
  destruct (read_u32 m (t + 4)) as [so|] eqn:Hso;
    simpl in Hspec; [|discriminate].
  destruct (read_u32 m (t + 8)) as [bs|] eqn:Hbs;
    simpl in Hspec; [|discriminate].
  rewrite Hshift in Hspec. simpl in Hspec.
  unfold GnuSpec.bloom_test in Hspec. simpl in Hspec.
  destruct (bs =? 0) eqn:Hbs0; [discriminate|].
  rewrite <- gnu_hash_spec in Hspec.
  set (h := gnu_hash name) in *.
  pose proof (read_u32_range _ _ _ Hnb) as Rnb.
  pose proof (read_u32_range _ _ _ Hso) as Rso.
  pose proof (read_u32_range _ _ _ Hbs) as Rbs.
  apply Z.eqb_neq in Hbs0.
  assert (Hi : 0 ≤ (h / 64) mod bs) by (apply Z.mod_pos_bound; lia).
  rewrite (elem_nonneg read_u64 m (t + 16) 8 ((h / 64) mod bs))
    in Hspec by exact Hi.
  destruct (read_u64 m (t + 16 + 8 * ((h / 64) mod bs))) as [word|] eqn:Hw;
    simpl in Hspec; [|discriminate].
  unfold gnu_lookup. fold t.
  destruct (t =? NULL) eqn:Ht; [apply Z.eqb_eq in Ht; contradiction|].
  pose proof (read_u32_in_space _ _ _ Hso).
  pose proof (read_u32_in_space _ _ _ Hbs).
  pose proof (read_u32_in_space _ _ _ Hshift).
  pose proof (read_u64_in_space _ _ _ Hw).
  rewrite Hnb. simpl.
  rewrite (padd_exact t 4), Hso by assumption. simpl.
  rewrite (padd_exact t 8), Hbs by assumption. simpl.
  rewrite (padd_exact t 12), Hshift by assumption. simpl.
  fold h. rewrite (proj2 (Z.eqb_neq bs 0)) by assumption.
  rewrite !padd_padd.
  rewrite (padd_exact t (16 + 8 * ((h / 64) mod bs)))
    by (replace (t + (16 + 8 * ((h / 64) mod bs)))
          with (t + 16 + 8 * ((h / 64) mod bs)) by lia; assumption).
  replace (t + (16 + 8 * ((h / 64) mod bs)))
    with (t + 16 + 8 * ((h / 64) mod bs)) by lia.
  rewrite Hw. simpl.
  rewrite (proj2 (Z.leb_gt 32 shift)) by assumption.
  unfold GnuSpec.bloom_mask in Hspec. simpl in Hspec.
  destruct (Z.land word _ =? _); simpl in *;
    [|injection Hspec as <-; reflexivity].
  destruct (nb =? 0) eqn:Hnb0; simpl; [discriminate|].
  apply Z.eqb_neq in Hnb0.
  assert (Hj : 0 ≤ h mod nb) by (apply Z.mod_pos_bound; lia).
  rewrite (elem_nonneg read_u32 m (t + 16 + 8 * bs) 4 (h mod nb))
    in Hspec by exact Hj.
  destruct (read_u32 m (t + 16 + 8 * bs + 4 * (h mod nb))) as [n|] eqn:Hn;
    simpl in Hspec; [|discriminate].
  pose proof (read_u32_in_space _ _ _ Hn).
  pose proof (read_u32_range _ _ _ Hn) as Rn.
  replace (padd t (16 + (8 * bs + 4 * (h mod nb))))
    with (t + 16 + 8 * bs + 4 * (h mod nb))
    by (symmetry; rewrite <- (padd_exact (t + 16 + 8 * bs) (4 * (h mod nb)))
          by assumption; unfold padd; f_equal; lia).
  rewrite Hn. simpl.
  destruct (n =? 0); [injection Hspec as <-; reflexivity|].
  unfold padd.
  replace (t + (16 + (8 * bs + 4 * nb))) with (t + 16 + 8 * bs + 4 * nb)
    by lia.
  apply (gnu_chain_walk_refines m si name fuel
           (GnuSpec.Table nb so bs shift
              (GnuSpec.elem read_u64 m (t + 16) 8)
              (GnuSpec.elem read_u32 m (t + 16 + 8 * bs) 4)
              (GnuSpec.elem read_u32 m (t + 16 + 8 * bs + 4 * nb) 4)));
    simpl; [reflexivity | lia | lia | exact Hspec].
Qed.

(** C3 (amended).  When the module has a GNU hash table whose bloom shift
    is below 32, the width of the hash, the lookup of linker.c computes
    what the specified algorithm computes: the hash is the 32-bit
    [h * 33 + c] accumulation from 5381, and whenever the specified bloom
    test, bucket fetch and chain walk determine an answer (symbol [n], or
    absence), [gnu_lookup] returns it (the address of symbol [n], or
    [NULL]). *)
Theorem gnu_lookup_follows_spec :
  ∀ (fuel : nat) (m : memory) (si : soinfo) (name : list Z)
    (shift : Z) (r : option Z),
    si_gnu_hash si ≠ NULL →
    read_u32 m (si_gnu_hash si + 12) = Some shift → shift < 32 →
    GnuSpec.lookup fuel m (si_gnu_hash si) (si_symtab si) (si_strtab si)
                   name = Some r →
    gnu_hash name = GnuSpec.hash name ∧
    gnu_lookup m si name fuel
      = Some (match r with Some n => sym_ptr si n | None => NULL end).
Proof. exact gnu_lookup_refines. Qed.

(** ** Single-module lookup *)

Lemma strcmp_eq_true m p s :
  strcmp_eq m p s = Some true ↔ cstr_at m p (c_bytes s).
Proof.
  revert p. induction s as [|c s IH]; intros p; simpl.
  - destruct (read_u8 m p) as [b|]; simpl; [|split; discriminate].
    split.
    + intros [= E]. apply Z.eqb_eq in E. subst. reflexivity.
    + intros [= ->]. reflexivity.
  - destruct (c =? 0) eqn:Hc.
    + simpl. destruct (read_u8 m p) as [b|]; simpl; [|split; discriminate].
      split.
      * intros [= E]. apply Z.eqb_eq in E. subst. reflexivity.
      * intros [= ->]. reflexivity.
    + apply Z.eqb_neq in Hc. simpl.
      destruct (read_u8 m p) as [b|]; simpl;
        [|split; [discriminate | intros (_ & ? & _); discriminate]].
      destruct (b =? c) eqn:Hb.
      * apply Z.eqb_eq in Hb. subst b. rewrite IH. tauto.
      * apply Z.eqb_neq in Hb. split; [discriminate|].
        intros (_ & [= E] & _). contradiction.
Qed.

Lemma bind_ok_spec info :
  bind_ok info = true ↔
  ELF64_ST_BIND info = STB_GLOBAL ∨ ELF64_ST_BIND info = STB_WEAK.
Proof. unfold bind_ok. rewrite orb_true_iff, !Z.eqb_eq. tauto. Qed.

(** The attributes of a symbol that passes the acceptance test. *)
Lemma accepted_defines m si name i shndx info a :
  sym_name_is m si name (sym_ptr si i) = Some true →
  st_shndx m (sym_ptr si i) = Some shndx → (shndx =? SHN_UNDEF) = false →
  st_info m (sym_ptr si i) = Some info → bind_ok info = true →
  sym_address m si (sym_ptr si i) = Some a →
  sym_defines m si name i a.
Proof.
  intros Hn Hs Hu Hi Hb Ha. unfold sym_defines. repeat split.
  - unfold sym_name_is in Hn.
    destruct (st_name m (sym_ptr si i)) as [nm|]; simpl in Hn; [|discriminate].
    exists nm. split; [reflexivity|]. apply strcmp_eq_true. exact Hn.
  - exists shndx. split; [exact Hs|]. apply Z.eqb_neq. exact Hu.
  - exists info. split; [exact Hi|]. apply bind_ok_spec. exact Hb.
  - unfold sym_address in Ha.
    destruct (st_value m (sym_ptr si i)) as [v|]; simpl in Ha; [|discriminate].
    exists v. split; [reflexivity|]. congruence.
Qed.

Lemma gnu_chain_walk_hit m si name fuel chain so h n sym :
  gnu_chain_walk m si name fuel chain so h n = Some sym → sym ≠ NULL →
  ∃ k, sym = sym_ptr si k ∧ sym_name_is m si name (sym_ptr si k) = Some true.
Proof.
  revert n. induction fuel as [|f IH]; intros n; simpl; [discriminate|].
  destruct (read_u32 m _) as [h2|]; simpl; [|discriminate].
  destruct (Z.shiftr (Z.lxor h h2) 1 =? 0).
  - destruct (sym_name_is m si name (sym_ptr si n)) as [[|]|] eqn:E;
      simpl; [| |discriminate].
    + intros [= <-] _. exists n. auto.
    + destruct (negb (Z.land h2 1 =? 0)); [intros [= <-]; contradiction|].
      apply IH.
  - simpl. destruct (negb (Z.land h2 1 =? 0)); [intros [= <-]; contradiction|].
    apply IH.
Qed.

Lemma gnu_lookup_hit m si name fuel sym :
  gnu_lookup m si name fuel = Some sym → sym ≠ NULL →
  ∃ k, sym = sym_ptr si k ∧ sym_name_is m si name (sym_ptr si k) = Some true.
Proof.
  unfold gnu_lookup. intros H Hsym.
  repeat match type of H with
  | (if ?c then _ else _) = _ =>
      destruct c; [try discriminate; try (injection H as <-; contradiction)|]
  | (if ?c then _ else _) = _ =>
      destruct c; [|try discriminate; try (injection H as <-; contradiction)]
  | (?x ≫= _) = _ => destruct x; simpl in H; [|discriminate]
  end; try (injection H as <-; contradiction).
  all: try (eapply gnu_chain_walk_hit; eassumption).
Qed.

Lemma find_by_gnu_hash_sound m si name fuel a :
  find_by_gnu_hash m si name fuel = Some (Some a) →
  ∃ i, sym_defines m si name i a.
Proof.
  unfold find_by_gnu_hash.
  destruct (negb (si_gnu_hash si =? NULL)); [|discriminate].
  destruct (gnu_lookup m si name fuel) as [sym|] eqn:Hg; simpl; [|discriminate].
  destruct (sym =? NULL) eqn:Hnull; [discriminate|].
  apply Z.eqb_neq in Hnull.
  destruct (gnu_lookup_hit _ _ _ _ _ Hg Hnull) as (k & -> & Hname).
  destruct (st_shndx m (sym_ptr si k)) as [shndx|] eqn:Hs; simpl; [|discriminate].
  destruct (shndx =? SHN_UNDEF) eqn:Hu; [discriminate|].
  destruct (st_info m (sym_ptr si k)) as [info|] eqn:Hi; simpl; [|discriminate].
  destruct (bind_ok info) eqn:Hb; [|discriminate].
  destruct (sym_address m si (sym_ptr si k)) as [a'|] eqn:Ha;
    simpl; [|discriminate].
  intros [= <-]. exists k. eapply accepted_defines; eassumption.
Qed.

Lemma elf_chain_walk_sound m si name fuel chain i a :
  elf_chain_walk m si name fuel chain i = Some (Some a) →
  ∃ k, sym_defines m si name k a.
Proof.
  revert i. induction fuel as [|f IH]; intros i; simpl; [discriminate|].
  destruct (i =? 0); [discriminate|].
  destruct (sym_name_is m si name (sym_ptr si i)) as [eq|] eqn:Hn;
    simpl; [|discriminate].
  destruct eq; simpl.
  - destruct (st_shndx m (sym_ptr si i)) as [shndx|] eqn:Hs;
      simpl; [|discriminate].
    destruct (shndx =? SHN_UNDEF) eqn:Hu; simpl.
    + destruct (read_u32 m _); simpl; [|discriminate]. apply IH.
    + destruct (st_info m (sym_ptr si i)) as [info|] eqn:Hi;
        simpl; [|discriminate].
      destruct (bind_ok info) eqn:Hb.
      * destruct (sym_address m si (sym_ptr si i)) as [a'|] eqn:Ha;
          simpl; [|discriminate].
        intros [= <-]. exists i. eapply accepted_defines; eassumption.
      * destruct (read_u32 m _); simpl; [|discriminate]. apply IH.
  - destruct (read_u32 m _); simpl; [|discriminate]. apply IH.
Qed.

Lemma find_by_elf_hash_sound m si name fuel a :
  find_by_elf_hash m si name fuel = Some (Some a) →
  ∃ i, sym_defines m si name i a.
Proof.
  unfold find_by_elf_hash.
  destruct (negb (si_hash si =? NULL)); [|discriminate].
  destruct (read_u32 m (si_hash si)) as [nb|]; simpl; [|discriminate].
  destruct (nb =? 0); [discriminate|].
  destruct (read_u32 m _) as [i|]; simpl; [|discriminate].
  apply elf_chain_walk_sound.
Qed.

(** An entry the acceptance test turns down does not define the name. *)
Lemma rejected_not_defines m si name i addr :
  (∃ nm, st_name m (sym_ptr si i) = Some nm ∧
     (nm = 0 ∨ sym_name_is m si name (sym_ptr si i) = Some false ∨
      st_shndx m (sym_ptr si i) = Some SHN_UNDEF ∨
      ∃ info, st_info m (sym_ptr si i) = Some info ∧ bind_ok info = false)) →
  ¬ (sym_named m si i ∧ sym_defines m si name i addr).
Proof.
  intros (nm & Hnm & Hcase) [(nm' & Hnm' & Hnz) (Hname & Hsh & Hinfo & _)].
  rewrite Hnm in Hnm'. injection Hnm' as <-.
  destruct Hcase as [-> | [Hf | [Hu | (info & Hi & Hb)]]].
  - contradiction.
  - destruct Hname as (nm2 & Hnm2 & Hc). rewrite Hnm in Hnm2.
    injection Hnm2 as <-. apply strcmp_eq_true in Hc.
    unfold sym_name_is in Hf. rewrite Hnm in Hf. simpl in Hf. congruence.
  - destruct Hsh as (s & Hs & Hne). rewrite Hu in Hs. injection Hs as <-.
    contradiction.
  - destruct Hinfo as (info' & Hi' & Hb'). rewrite Hi in Hi'.
    injection Hi' as <-. apply bind_ok_spec in Hb'. congruence.
Qed.

(** The linear scan returns the first named entry that defines the name,
    and reports none only when none of the scanned entries does. *)
Lemma linear_scan_spec m si name cnt i r :
  linear_scan m si name cnt i = Some r →
  match r with
  | Some a =>
      ∃ k, i ≤ k < i + Z.of_nat cnt ∧ sym_named m si k ∧
           sym_defines m si name k a ∧
           ∀ j addr, i ≤ j < k →
                     ¬ (sym_named m si j ∧ sym_defines m si name j addr)
  | None =>
      ∀ j addr, i ≤ j < i + Z.of_nat cnt →
                ¬ (sym_named m si j ∧ sym_defines m si name j addr)
  end.
Proof.
  revert i r. induction cnt as [|k IH]; intros i r.
  - simpl. intros [= <-]. intros j addr Hj. lia.
  - simpl linear_scan.
    destruct (st_name m (sym_ptr si i)) as [nm|] eqn:Hnm; simpl; [|discriminate].
    assert (Hrec : ¬ (∃ addr, sym_named m si i ∧ sym_defines m si name i addr) →
                   linear_scan m si name k (i + 1) = Some r →
                   match r with
                   | Some a =>
                       ∃ k0, i ≤ k0 < i + Z.of_nat (S k) ∧ sym_named m si k0 ∧
                             sym_defines m si name k0 a ∧
                             ∀ j addr, i ≤ j < k0 →
                               ¬ (sym_named m si j ∧ sym_defines m si name j addr)
                   | None =>
                       ∀ j addr, i ≤ j < i + Z.of_nat (S k) →
                         ¬ (sym_named m si j ∧ sym_defines m si name j addr)
                   end).
    { intros Hno Hscan. specialize (IH _ _ Hscan). destruct r as [a|].
      - destruct IH as (k0 & Hk0 & Hnamed & Hdef & Hfirst).
        exists k0. split; [lia|]. split; [assumption|].
        split; [assumption|].
        intros j addr Hj. destruct (Z.eq_dec j i) as [->|Hne].
        + intros H. apply Hno. exists addr. exact H.
        + apply Hfirst. lia.
      - intros j addr Hj. destruct (Z.eq_dec j i) as [->|Hne].
        + intros H. apply Hno. exists addr. exact H.
        + apply IH. lia. }
    destruct (nm =? 0) eqn:Hz; simpl.
    { apply Hrec. intros (addr & H). revert H. apply rejected_not_defines.
      exists nm. split; [exact Hnm|]. left. apply Z.eqb_eq. exact Hz. }
    destruct (sym_name_is m si name (sym_ptr si i)) as [[|]|] eqn:Hn;
      simpl; [| |discriminate].
    2:{ apply Hrec. intros (addr & H). revert H. apply rejected_not_defines.
        exists nm. split; [exact Hnm|]. right. left. exact Hn. }
    destruct (st_shndx m (sym_ptr si i)) as [shndx|] eqn:Hs;
      simpl; [|discriminate].
    destruct (shndx =? SHN_UNDEF) eqn:Hu; simpl.
    { apply Hrec. intros (addr & H). revert H. apply rejected_not_defines.
      exists nm. split; [exact Hnm|]. right. right. left.
      apply Z.eqb_eq in Hu. congruence. }
    destruct (st_info m (sym_ptr si i)) as [info|] eqn:Hi;
      simpl; [|discriminate].
    destruct (bind_ok info) eqn:Hb.
    2:{ apply Hrec. intros (addr & H). revert H. apply rejected_not_defines.
        exists nm. split; [exact Hnm|]. right. right. right.
        exists info. auto. }
    destruct (sym_address m si (sym_ptr si i)) as [a|] eqn:Ha;
      simpl; [|discriminate].
    intros [= <-]. exists i. split; [lia|]. split; [|split].
    + exists nm. split; [exact Hnm|]. apply Z.eqb_neq. exact Hz.
    + eapply accepted_defines; eassumption.
    + intros j addr Hj. lia.
Qed.

Lemma linear_scan_sound m si name cnt i a :
  linear_scan m si name cnt i = Some (Some a) →
  ∃ k, sym_defines m si name k a.
Proof.
  intros H. apply linear_scan_spec in H as (k & _ & _ & Hd & _).
  exists k. exact Hd.
Qed.

Lemma find_by_scan_sound m si name a :
  find_by_scan m si name = Some (Some a) → ∃ i, sym_defines m si name i a.
Proof.
  unfold find_by_scan.
  destruct ((si_hash si =? NULL) && (si_gnu_hash si =? NULL)); [|discriminate].
  destruct (get_symbol_count m si) as [cnt|]; simpl; [|discriminate].
  apply linear_scan_sound.
Qed.

(** Whatever path finds it, a non-null result is the address of a symbol
    that defines the name. *)
Lemma linker_find_symbol_sound m si name fuel a :
  linker_find_symbol m si name fuel = Some a → a ≠ NULL →
  ∃ i, sym_defines m si name i a.
Proof.
  unfold linker_find_symbol.
  destruct ((si_symtab si =? NULL) || (si_strtab si =? NULL));
    [intros [= <-]; contradiction|].
  destruct (find_by_gnu_hash m si name fuel) as [[a1|]|] eqn:H1;
    simpl; [| |discriminate].
  { intros [= <-] _. eapply find_by_gnu_hash_sound; eassumption. }
  destruct (find_by_elf_hash m si name fuel) as [[a2|]|] eqn:H2;
    simpl; [| |discriminate].
  { intros [= <-] _. eapply find_by_elf_hash_sound; eassumption. }
  destruct (find_by_scan m si name) as [[a3|]|] eqn:H3;
    simpl; [| |discriminate].
  { intros [= <-] _. eapply find_by_scan_sound; eassumption. }
  intros [= <-]. contradiction.
Qed.

Lemma sym_defines_range m si name i a :
  sym_defines m si name i a → 0 ≤ a < two64.
Proof. intros (_ & _ & _ & v & _ & ->). apply padd_range. Qed.

Lemma linker_find_symbol_range m si name fuel a :
  linker_find_symbol m si name fuel = Some a → 0 ≤ a < two64.
Proof.
  intros H. destruct (Z.eq_dec a NULL) as [->|Hne].
  - unfold NULL, two64. lia.
  - destruct (linker_find_symbol_sound _ _ _ _ _ H Hne) as (i & Hd).
    eapply sym_defines_range; eassumption.
Qed.

(** Without hash tables the lookup is the linear scan of 256 entries. *)
Lemma linker_find_symbol_no_hash m si name fuel :
  si_symtab si ≠ NULL → si_strtab si ≠ NULL →
  si_hash si = NULL → si_gnu_hash si = NULL →
  linker_find_symbol m si name fuel
  = (r ← linear_scan m si name 256 0; Some (default NULL r)).
Proof.
  intros Hsym Hstr Hhash Hgnu.
  unfold linker_find_symbol, find_by_gnu_hash, find_by_elf_hash,
    find_by_scan, get_symbol_count.
  apply Z.eqb_neq in Hsym, Hstr. rewrite Hsym, Hstr, Hhash, Hgnu.
  cbn -[linear_scan Z.to_nat].
  change (Z.to_nat 256) with 256%nat.
  destruct (linear_scan m si name 256 0) as [[a|]|]; reflexivity.
Qed.

(** ** Relocation *)

(** Reduction of the option monad's binds, and of the projections of a
    state built by the setters, without touching the arithmetic. *)
Ltac osimpl := cbn [mbind option_bind negb andb orb fst snd].
Tactic Notation "osimpl" "in" hyp(H) :=
  cbn [mbind option_bind negb andb orb fst snd] in H.
Ltac wsimpl :=
  cbn [w_mem w_regions w_fds w_soinfos g_soinfo_list g_error_msg
       g_has_error w_calls set_mem set_regions set_fds set_soinfos
       set_soinfo_list set_error_slot set_calls linker_set_error
       sys_munmap sys_close sys_free call_fn] in *.


#[local] Arguments st_name : simpl never.
#[local] Arguments st_info : simpl never.
#[local] Arguments st_shndx : simpl never.
#[local] Arguments st_value : simpl never.
#[local] Arguments st_size : simpl never.
#[local] Arguments read_u64 : simpl never.
#[local] Arguments read_u32 : simpl never.
#[local] Arguments read_u16 : simpl never.
#[local] Arguments read_u8 : simpl never.
#[local] Arguments write_u64 : simpl never.
#[local] Arguments read_cstr : simpl never.
#[local] Arguments padd : simpl never.
#[local] Arguments sym_ptr : simpl never.
#[local] Arguments linker_find_symbol : simpl never.
#[local] Arguments linker_find_global_symbol : simpl never.
#[local] Arguments reloc_sym_addr : simpl never.
#[local] Arguments ELF64_R_TYPE : simpl never.
#[local] Arguments ELF64_R_SYM : simpl never.
#[local] Arguments ELF64_ST_BIND : simpl never.
#[local] Arguments u32 : simpl never.
#[local] Arguments u64 : simpl never.
#[local] Arguments memcpy : simpl never.
#[local] Arguments Z.to_nat : simpl never.
#[local] Arguments Z.eqb : simpl never.
#[local] Arguments Z.ltb : simpl never.
#[local] Arguments Z.leb : simpl never.

Section RelocationFacts.
Variable host_dlsym : list Z -> Z.
Variable fuel : nat.

Lemma find_in_modules_range m heap l name a :
  find_in_modules fuel m heap l name = Some a → 0 ≤ a < two64.
Proof.
  induction l as [|p l IH]; simpl.
  - intros [= <-]. unfold NULL, two64. lia.
  - destruct (heap !! p) as [si|]; simpl; [|discriminate].
    destruct (linker_find_symbol m si name fuel) as [sym|] eqn:Hs;
      simpl; [|discriminate].
    destruct (sym =? NULL); [exact IH|].
    intros [= <-]. eapply linker_find_symbol_range; eassumption.
Qed.

Lemma linker_find_global_symbol_range w name a :
  linker_find_global_symbol host_dlsym fuel w name = Some a →
  0 ≤ a < two64.
Proof.
  unfold linker_find_global_symbol.
  destruct (find_in_modules _ _ _ _ _) as [sym|] eqn:Hs;
    simpl; [|discriminate].
  destruct (sym =? NULL).
  - intros [= <-]. apply u64_range.
  - intros [= <-]. eapply find_in_modules_range; eassumption.
Qed.

Lemma sym_address_range m si sym a :
  sym_address m si sym = Some a → 0 ≤ a < two64.
Proof.
  unfold sym_address. destruct (st_value m sym); simpl; [|discriminate].
  intros [= <-]. apply padd_range.
Qed.

Lemma reloc_sym_addr_range w si idx S :
  reloc_sym_addr host_dlsym fuel w si idx = Some S → 0 ≤ S < two64.
Proof.
  unfold reloc_sym_addr. destruct (idx =? 0).
  { intros [= <-]. unfold NULL, two64. lia. }
  destruct (st_shndx _ _) as [shndx|]; simpl; [|discriminate].
  match goal with
  | |- (?x ≫= _) = _ → _ => destruct x as [sa|] eqn:Hsa; simpl; [|discriminate]
  end.
  assert (Hr : 0 ≤ sa < two64).
  { destruct (negb (shndx =? SHN_UNDEF)).
    - eapply sym_address_range; eassumption.
    - destruct (st_name _ _); simpl in Hsa; [|discriminate].
      destruct (read_cstr _ _ _); simpl in Hsa; [|discriminate].
      eapply linker_find_global_symbol_range; eassumption. }
  destruct (sa =? NULL); [|intros [= <-]; exact Hr].
  destruct (st_info _ _) as [info|]; simpl; [|discriminate].
  destruct (negb (ELF64_ST_BIND info =? STB_WEAK));
    [|intros [= <-]; exact Hr].
  destruct (st_name _ _); simpl; [|discriminate].
  destruct (read_cstr _ _ _); simpl; [|discriminate].
  intros [= <-]. exact Hr.
Qed.

Lemma read_cstr_S (f : nat) (m : memory) (p : Z) :
  read_cstr (S f) m p
  = (b ← read_u8 m p;
     if b =? 0 then Some [] else s ← read_cstr f m (p + 1); Some (b :: s)).
Proof. reflexivity. Qed.

Lemma read_cstr_spec (n : nat) m p bs :
  read_cstr n m p = Some bs ↔ cstr_at m p bs ∧ (length bs < n)%nat.
Proof.
  revert p bs. induction n as [|f IH]; intros p bs.
  - split; [discriminate | intros [_ H]; lia].
  - rewrite read_cstr_S.
    destruct (read_u8 m p) as [b|] eqn:Hb; osimpl.
    2:{ split; [discriminate|]. intros [H _].
        destruct bs as [|c bs]; cbn [cstr_at] in H.
        - rewrite Hb in H. discriminate.
        - destruct H as (_ & H & _). rewrite Hb in H. discriminate. }
    destruct (Z.eqb_spec b 0) as [->|Hnz].
    + split.
      * intros [= <-]. cbn [cstr_at length]. split; [exact Hb | lia].
      * intros [H _]. destruct bs as [|c bs]; [reflexivity|].
        cbn [cstr_at] in H. destruct H as (Hc & H & _).
        rewrite Hb in H. injection H as <-. contradiction.
    + specialize (IH (p + 1)).
      destruct (read_cstr f m (p + 1)) as [s|]; osimpl.
      * split.
        -- intros [= <-]. destruct (proj1 (IH s) eq_refl) as [Hs Hl].
           cbn [cstr_at length]. split; [|lia].
           split; [exact Hnz|]. split; [exact Hb | exact Hs].
        -- intros [H Hlen]. destruct bs as [|c bs]; cbn [cstr_at] in H.
           ++ rewrite Hb in H. injection H as ->. contradiction.
           ++ destruct H as (_ & H & Hrest). rewrite Hb in H.
              injection H as <-. cbn [length] in Hlen.
              assert (E : Some s = Some bs)
                by (apply IH; split; [exact Hrest | lia]).
              injection E as ->. reflexivity.
      * split; [discriminate|]. intros [H Hlen].
        destruct bs as [|c bs]; cbn [cstr_at] in H.
        -- rewrite Hb in H. injection H as ->. contradiction.
        -- destruct H as (_ & _ & Hrest). cbn [length] in Hlen.
           assert (E : None = Some bs)
             by (apply IH; split; [exact Hrest | lia]).
           discriminate.
Qed.

Lemma cstr_at_inj m p bs bs' :
  cstr_at m p bs → cstr_at m p bs' → bs = bs'.
Proof.
  revert p bs'. induction bs as [|b bs IH]; intros p [|b' bs'];
    cbn [cstr_at].
  - reflexivity.
  - intros H (Hn & H' & _). rewrite H in H'. injection H' as <-.
    contradiction.
  - intros (Hn & H & _) H'. rewrite H in H'. injection H' as ->.
    contradiction.
  - intros (_ & H & Hr) (_ & H' & Hr'). rewrite H in H'.
    injection H' as <-. f_equal. eapply IH; eassumption.
Qed.

Lemma sym_name_at_read w si idx name :
  sym_name_at fuel w si idx name ↔
  ∃ nm, st_name (w_mem w) (sym_ptr si idx) = Some nm ∧
        read_cstr fuel (w_mem w) (padd (si_strtab si) nm) = Some name.
Proof.
  unfold sym_name_at. split; intros (nm & Hnm & H).
  - exists nm. split; [exact Hnm|]. apply read_cstr_spec. exact H.
  - exists nm. split; [exact Hnm|]. apply read_cstr_spec. exact H.
Qed.

Lemma sym_name_at_inj w si idx name name' :
  sym_name_at fuel w si idx name → sym_name_at fuel w si idx name' →
  name = name'.
Proof.
  intros (nm & Hnm & H & _) (nm' & Hnm' & H' & _).
  rewrite Hnm in Hnm'. injection Hnm' as <-.
  eapply cstr_at_inj; eassumption.
Qed.

(** The symbol address the code computes is the one the resolution rule
    gives, and the code computes it whenever the rule gives one. *)
Lemma reloc_sym_addr_spec w si idx S :
  reloc_sym_addr host_dlsym fuel w si idx = Some S ↔
  reloc_symbol host_dlsym fuel w si idx S.
Proof.
  unfold reloc_sym_addr, reloc_symbol, sym_address.
  destruct (Z.eqb_spec idx 0) as [->|Hidx].
  { split.
    - intros [= <-]. left. auto.
    - intros [[_ ->]|[H _]]; [reflexivity | contradiction]. }
  set (sym := sym_ptr si idx).
  split.
  - intros H. right. split; [exact Hidx|].
    destruct (st_shndx (w_mem w) sym) as [shndx|] eqn:Hsh;
      osimpl in H; [|discriminate].
    exists shndx. split; [reflexivity|].
    destruct (Z.eqb_spec shndx SHN_UNDEF) as [->|Hdef]; cbn [negb] in H.
    + destruct (st_name (w_mem w) sym) as [nm|] eqn:Hnm;
        osimpl in H; [|discriminate].
      destruct (read_cstr fuel (w_mem w) (padd (si_strtab si) nm))
        as [name|] eqn:Hname; osimpl in H; [|discriminate].
      assert (Hat : sym_name_at fuel w si idx name).
      { apply sym_name_at_read. exists nm. auto. }
      destruct (linker_find_global_symbol host_dlsym fuel w name)
        as [sa|] eqn:Hg; osimpl in H; [|discriminate].
      assert (HS : S = sa).
      { destruct (sa =? NULL); [|congruence].
        destruct (st_info (w_mem w) sym); osimpl in H; [|discriminate].
        destruct (negb _); osimpl in H; congruence. }
      subst sa. split; [intros Hc; contradiction|].
      split; [intros _; exists name; auto|].
      intros ->. rewrite Z.eqb_refl in H.
      destruct (st_info (w_mem w) sym) as [info|]; osimpl in H;
        [|discriminate].
      exists info. split; [reflexivity|]. intros _. exists name. exact Hat.
    + destruct (st_value (w_mem w) sym) as [v|] eqn:Hv;
        osimpl in H; [|discriminate].
      assert (HS : S = padd (si_load_bias si) v).
      { destruct (padd (si_load_bias si) v =? NULL); [|congruence].
        destruct (st_info (w_mem w) sym); osimpl in H; [|discriminate].
        destruct (negb _); osimpl in H; [|congruence].
        destruct (st_name (w_mem w) sym); osimpl in H; [|discriminate].
        destruct (read_cstr _ _ _); osimpl in H; congruence. }
      split; [intros _; exists v; auto|].
      split; [intros Hc; contradiction|].
      intros HN. rewrite <- HS, HN, Z.eqb_refl in H.
      destruct (st_info (w_mem w) sym) as [info|]; osimpl in H;
        [|discriminate].
      exists info. split; [reflexivity|]. intros Hb.
      apply Z.eqb_neq in Hb. rewrite Hb in H. cbn [negb] in H.
      destruct (st_name (w_mem w) sym) as [nm|] eqn:Hnm;
        osimpl in H; [|discriminate].
      destruct (read_cstr fuel (w_mem w) (padd (si_strtab si) nm))
        as [name|] eqn:Hname; osimpl in H; [|discriminate].
      exists name. apply sym_name_at_read. exists nm. auto.
  - intros [[Hc _]|(_ & shndx & Hsh & Hdef & Hundef & Hnull)];
      [contradiction|].
    subst sym. rewrite Hsh. osimpl.
    assert (Htail : ∀ sa, sa = S →
              (if sa =? NULL
               then info ← st_info (w_mem w) (sym_ptr si idx);
                    if negb (ELF64_ST_BIND info =? STB_WEAK)
                    then nm ← st_name (w_mem w) (sym_ptr si idx);
                         _ ← read_cstr fuel (w_mem w)
                               (padd (si_strtab si) nm);
                         Some sa
                    else Some sa
               else Some sa) = Some S).
    { intros sa ->. destruct (Z.eqb_spec S NULL) as [HN|_]; [|reflexivity].
      destruct (Hnull HN) as (info & Hi & Hwarn). rewrite Hi. osimpl.
      destruct (Z.eqb_spec (ELF64_ST_BIND info) STB_WEAK) as [_|Hb];
        cbn [negb]; [reflexivity|].
      destruct (Hwarn Hb) as (name & Hat).
      apply sym_name_at_read in Hat as (nm & Hnm & Hname).
      rewrite Hnm. osimpl. rewrite Hname. reflexivity. }
    destruct (Z.eqb_spec shndx SHN_UNDEF) as [Hu|Hd]; cbn [negb].
    + destruct (Hundef Hu) as (name & Hat & Hg).
      apply sym_name_at_read in Hat as (nm & Hnm & Hname).
      rewrite Hnm. osimpl. rewrite Hname. osimpl. rewrite Hg. osimpl.
      destruct (Z.eqb_spec S NULL) as [HN|_]; [|reflexivity].
      destruct (Hnull HN) as (info & Hi & _). rewrite Hi. osimpl.
      destruct (negb _); reflexivity.
    + destruct (Hdef Hd) as (v & Hv & HS). rewrite Hv. osimpl.
      apply Htail. symmetry. exact HS.
Qed.

Lemma reloc_symbol_range w si idx S :
  reloc_symbol host_dlsym fuel w si idx S → 0 ≤ S < two64.
Proof.
  intros H. apply reloc_sym_addr_spec in H.
  eapply reloc_sym_addr_range. exact H.
Qed.

Lemma reloc_symbol_unresolved w si idx S :
  reloc_symbol host_dlsym fuel w si idx S →
  sym_unresolved host_dlsym fuel w si idx → S = NULL.
Proof.
  intros [[Hc _]|(_ & shndx & Hsh & _ & Hundef & _)]
         (Hidx & Hsh' & name & Hat & Hg); [contradiction|].
  rewrite Hsh in Hsh'. injection Hsh' as ->.
  destruct (Hundef eq_refl) as (name' & Hat' & Hg').
  rewrite (sym_name_at_inj _ _ _ _ _ Hat' Hat) in Hg'. congruence.
Qed.

Ltac ty_absurd :=
  exfalso;
  unfold R_X86_64_NONE, R_X86_64_64, R_X86_64_GLOB_DAT,
    R_X86_64_JUMP_SLOT, R_X86_64_RELATIVE, R_X86_64_COPY in *; lia.

Lemma set_mem_same w : w = set_mem (w_mem w) w.
Proof. destruct w; reflexivity. Qed.

Lemma stores_intro w a v m' :
  write_u64 (w_mem w) a v = Some m' → stores a v w (set_mem m' w).
Proof. intros H. exists m'. auto. Qed.

(** One entry: [do_reloc] returns 0 with the state the step describes, in
    every state in which the step is described. *)
Lemma do_reloc_step w si e r w' :
  do_reloc host_dlsym fuel w si e = Some (r, w') ↔
  r = 0 ∧ reloc_step host_dlsym fuel si e w w'.
Proof.
  unfold do_reloc, reloc_step. cbv zeta.
  destruct (read_u64 (w_mem w) (e + 8)) as [info|] eqn:Hinfo; osimpl.
  2:{ split; [discriminate|].
      intros (_ & info & off & S & H & _). discriminate. }
  destruct (read_u64 (w_mem w) e) as [off|] eqn:Hoff; osimpl.
  2:{ split; [discriminate|].
      intros (_ & info' & off & S & _ & H & _). discriminate. }
  destruct (reloc_sym_addr host_dlsym fuel w si (ELF64_R_SYM info))
    as [S|] eqn:HS; osimpl.
  2:{ split; [discriminate|].
      intros (_ & info' & off' & S & [= <-] & _ & H & _).
      apply reloc_sym_addr_spec in H. congruence. }
  pose proof HS as HS'. apply reloc_sym_addr_spec in HS'.
  set (target := padd (si_load_bias si) off).
  set (type := ELF64_R_TYPE info).
  set (idx := ELF64_R_SYM info) in *.
  transitivity
    (r = 0 ∧
     (type = R_X86_64_64 →
        ∃ A, read_u64 (w_mem w) (e + 16) = Some A ∧
             stores target (u64 (S + A)) w w') ∧
     (type = R_X86_64_GLOB_DAT ∨ type = R_X86_64_JUMP_SLOT →
        stores target S w w') ∧
     (type = R_X86_64_RELATIVE →
        ∃ A, read_u64 (w_mem w) (e + 16) = Some A ∧
             stores target (u64 (si_load_bias si + A)) w w') ∧
     (type = R_X86_64_COPY → copies si idx target S w w') ∧
     (type ≠ R_X86_64_64 → type ≠ R_X86_64_GLOB_DAT →
      type ≠ R_X86_64_JUMP_SLOT → type ≠ R_X86_64_RELATIVE →
      type ≠ R_X86_64_COPY → w' = w)).
  2:{ split.
      - intros (-> & H). split; [reflexivity|].
        exists info, off, S. auto.
      - intros (-> & info' & off' & S' & [= <-] & [= <-] & HSx & H).
        apply reloc_sym_addr_spec in HSx. fold idx in HSx.
        rewrite HS in HSx. injection HSx as <-. auto. }
  clearbody type. clear HS.
  destruct (Z.eqb_spec type R_X86_64_NONE) as [T0|T0].
  { split.
    - intros [= <- <-]. split; [reflexivity|].
      repeat split; intros; try ty_absurd; reflexivity.
    - intros (-> & _ & _ & _ & _ & H). rewrite H; [reflexivity|..];
        intros ?; ty_absurd. }
  destruct (Z.eqb_spec type R_X86_64_64) as [T1|T1].
  { destruct (read_u64 (w_mem w) (e + 16)) as [A|] eqn:HA; osimpl.
    2:{ split; [discriminate|].
        intros (_ & H & _). destruct (H T1) as (A & ? & _). discriminate. }
    destruct (write_u64 (w_mem w) target (u64 (S + A))) as [m'|] eqn:Hw;
      osimpl.
    - split.
      + intros [= <- <-]. split; [reflexivity|].
        split; [intros _; exists A; split;
                  [reflexivity | apply stores_intro; exact Hw]|].
        repeat split; intros; ty_absurd.
      + intros (-> & H & _). destruct (H T1) as (A' & [= <-] & m2 & Hm2 & ->).
        rewrite Hw in Hm2. injection Hm2 as <-. reflexivity.
    - split; [discriminate|].
      intros (_ & H & _). destruct (H T1) as (A' & [= <-] & m2 & Hm2 & _).
      rewrite Hw in Hm2. discriminate. }
  destruct (Z.eqb_spec type R_X86_64_GLOB_DAT) as [T2|T2];
    [|destruct (Z.eqb_spec type R_X86_64_JUMP_SLOT) as [T3|T3]];
    cbn [orb].
  1,2: (destruct (write_u64 (w_mem w) target S) as [m'|] eqn:Hw; osimpl;
        [ split;
          [ intros [= <- <-]; split; [reflexivity|];
            split; [intros; ty_absurd|];
            split; [intros _; apply stores_intro; exact Hw|];
            repeat split; intros; ty_absurd
          | intros (-> & _ & H & _);
            destruct (H ltac:(auto)) as (m2 & Hm2 & ->);
            rewrite Hw in Hm2; injection Hm2 as <-; reflexivity ]
        | split; [discriminate|];
          intros (_ & _ & H & _);
          destruct (H ltac:(auto)) as (m2 & Hm2 & _);
          rewrite Hw in Hm2; discriminate ]).
  destruct (Z.eqb_spec type R_X86_64_RELATIVE) as [T4|T4].
  { destruct (read_u64 (w_mem w) (e + 16)) as [A|] eqn:HA; osimpl.
    2:{ split; [discriminate|].
        intros (_ & _ & _ & H & _). destruct (H T4) as (A & ? & _).
        discriminate. }
    destruct (write_u64 (w_mem w) target (u64 (si_load_bias si + A)))
      as [m'|] eqn:Hw; osimpl.
    - split.
      + intros [= <- <-]. split; [reflexivity|].
        split; [intros; ty_absurd|]. split; [intros [?|?]; ty_absurd|].
        split; [intros _; exists A; split;
                  [reflexivity | apply stores_intro; exact Hw]|].
        repeat split; intros; ty_absurd.
      + intros (-> & _ & _ & H & _).
        destruct (H T4) as (A' & [= <-] & m2 & Hm2 & ->).
        rewrite Hw in Hm2. injection Hm2 as <-. reflexivity.
    - split; [discriminate|].
      intros (_ & _ & _ & H & _).
      destruct (H T4) as (A' & [= <-] & m2 & Hm2 & _).
      rewrite Hw in Hm2. discriminate. }
  destruct (Z.eqb_spec type R_X86_64_COPY) as [T5|T5].
  { unfold copies. destruct (Z.eqb_spec S NULL) as [HN|HN]; cbn [negb].
    - split.
      + intros [= <- <-]. split; [reflexivity|].
        split; [intros; ty_absurd|]. split; [intros [?|?]; ty_absurd|].
        split; [intros; ty_absurd|]. split; [reflexivity|].
        intros; ty_absurd.
      + intros (-> & _ & _ & _ & H & _). rewrite (H T5). reflexivity.
    - destruct (st_size (w_mem w) (sym_ptr si idx)) as [sz|] eqn:Hsz; osimpl.
      2:{ split; [discriminate|].
          intros (_ & _ & _ & _ & H & _).
          destruct (H T5) as (sz & m2 & ? & _). discriminate. }
      destruct (memcpy (Z.to_nat sz) (w_mem w) target S) as [m'|] eqn:Hc;
        osimpl.
      + split.
        * intros [= <- <-]. split; [reflexivity|].
          split; [intros; ty_absurd|]. split; [intros [?|?]; ty_absurd|].
          split; [intros; ty_absurd|].
          split; [intros _; exists sz, m'; auto|].
          intros; ty_absurd.
        * intros (-> & _ & _ & _ & H & _).
          destruct (H T5) as (sz' & m2 & [= <-] & Hm2 & ->).
          rewrite Hc in Hm2. injection Hm2 as <-. reflexivity.
      + split; [discriminate|].
        intros (_ & _ & _ & _ & H & _).
        destruct (H T5) as (sz' & m2 & [= <-] & Hm2 & _).
        rewrite Hc in Hm2. discriminate. }
  split.
  - intros [= <- <-]. split; [reflexivity|].
    split; [intros; contradiction|]. split; [intros [?|?]; contradiction|].
    split; [intros; contradiction|]. split; [intros; contradiction|].
    reflexivity.
  - intros (-> & _ & _ & _ & _ & H). rewrite H by assumption. reflexivity.
Qed.

(** What a step leaves: nothing but memory changes, and the word at the
    target is the one the table of relocation types names. *)
Lemma reloc_step_effect si e w w' :
  reloc_step host_dlsym fuel si e w w' →
  ∃ info off S,
    read_u64 (w_mem w) (e + 8) = Some info ∧
    read_u64 (w_mem w) e = Some off ∧
    reloc_symbol host_dlsym fuel w si (ELF64_R_SYM info) S ∧
    (sym_unresolved host_dlsym fuel w si (ELF64_R_SYM info) → S = NULL) ∧
    w' = set_mem (w_mem w') w ∧
    let target := padd (si_load_bias si) off in
    let type := ELF64_R_TYPE info in
    (type = R_X86_64_64 →
       ∃ A, read_u64 (w_mem w) (e + 16) = Some A ∧
            read_u64 (w_mem w') target = Some (u64 (S + A))) ∧
    (type = R_X86_64_GLOB_DAT ∨ type = R_X86_64_JUMP_SLOT →
       read_u64 (w_mem w') target = Some S) ∧
    (type = R_X86_64_RELATIVE →
       ∃ A, read_u64 (w_mem w) (e + 16) = Some A ∧
            read_u64 (w_mem w') target = Some (u64 (si_load_bias si + A))) ∧
    (type ≠ R_X86_64_64 → type ≠ R_X86_64_GLOB_DAT →
     type ≠ R_X86_64_JUMP_SLOT → type ≠ R_X86_64_RELATIVE →
     type ≠ R_X86_64_COPY → w' = w).
Proof.
  intros Hstep.
  assert (Hrun : do_reloc host_dlsym fuel w si e = Some (0, w'))
    by (apply do_reloc_step; auto).
  destruct Hstep as (info & off & S & Hinfo & Hoff & HS & H64 & Hgot & Hrel
                     & Hcopy & Hother).
  cbv zeta in *.
  pose proof (reloc_symbol_range _ _ _ _ HS) as HSr.
  exists info, off, S. split; [exact Hinfo|]. split; [exact Hoff|].
  split; [exact HS|].
  split; [apply reloc_symbol_unresolved; exact HS|].
  assert (Hst : ∀ a v, stores a v w w' → 0 ≤ v < two64 →
            w' = set_mem (w_mem w') w ∧ read_u64 (w_mem w') a = Some v).
  { intros a v (m' & Hw & ->) Hv. split; [reflexivity|]. wsimpl.
    eapply read_u64_write_u64; eassumption. }
  split.
  { set (type := ELF64_R_TYPE info) in *.
    destruct (Z.eq_dec type R_X86_64_64) as [T1|T1].
    { destruct (H64 T1) as (A & _ & Hs).
      apply Hst in Hs as [Hs _]; [exact Hs | apply u64_range]. }
    destruct (Z.eq_dec type R_X86_64_GLOB_DAT) as [T2|T2].
    { apply Hst in Hgot as [Hs _]; auto. }
    destruct (Z.eq_dec type R_X86_64_JUMP_SLOT) as [T3|T3].
    { apply Hst in Hgot as [Hs _]; auto. }
    destruct (Z.eq_dec type R_X86_64_RELATIVE) as [T4|T4].
    { destruct (Hrel T4) as (A & _ & Hs).
      apply Hst in Hs as [Hs _]; [exact Hs | apply u64_range]. }
    destruct (Z.eq_dec type R_X86_64_COPY) as [T5|T5].
    { specialize (Hcopy T5). unfold copies in Hcopy.
      destruct (S =? NULL).
      - subst w'. apply set_mem_same.
      - destruct Hcopy as (sz & m' & _ & _ & ->). reflexivity. }
    rewrite Hother by assumption. apply set_mem_same. }
  split.
  { intros T. destruct (H64 T) as (A & HA & Hs). exists A.
    split; [exact HA|]. apply Hst in Hs as [_ Hs];
      [exact Hs | apply u64_range]. }
  split.
  { intros T. apply Hst; auto. }
  split.
  { intros T. destruct (Hrel T) as (A & HA & Hs). exists A.
    split; [exact HA|]. apply Hst in Hs as [_ Hs];
      [exact Hs | apply u64_range]. }
  exact Hother.
Qed.
End RelocationFacts.

Section RelocationRun.
Variable host_dlsym : list Z -> Z.
Variable fuel : nat.

Lemma reloc_run_app si l1 l2 w w1 w2 :
  reloc_run host_dlsym fuel si l1 w w1 →
  reloc_run host_dlsym fuel si l2 w1 w2 →
  reloc_run host_dlsym fuel si (l1 ++ l2) w w2.
Proof.
  induction 1 as [|e es wa wb wc Hstep Hrun IH]; intros H2; simpl.
  - exact H2.
  - econstructor; [exact Hstep | apply IH; exact H2].
Qed.

Lemma reloc_run_app_inv si l1 l2 w w2 :
  reloc_run host_dlsym fuel si (l1 ++ l2) w w2 →
  ∃ w1, reloc_run host_dlsym fuel si l1 w w1 ∧
        reloc_run host_dlsym fuel si l2 w1 w2.
Proof.
  revert w. induction l1 as [|e l1 IH]; intros w H; simpl in H.
  - exists w. split; [constructor | exact H].
  - inversion H as [|e' es wa wb wc Hstep Hrun]; subst.
    destruct (IH _ Hrun) as (w1 & H1 & H2).
    exists w1. split; [econstructor; eassumption | exact H2].
Qed.

Lemma reloc_run_frame si l w w' :
  reloc_run host_dlsym fuel si l w w' → w' = set_mem (w_mem w') w.
Proof.
  induction 1 as [|e es wa wb wc Hstep Hrun IH].
  - apply set_mem_same.
  - apply reloc_step_effect in Hstep
      as (info & off & S & _ & _ & _ & _ & Hb & _).
    destruct wa, wb, wc. unfold set_mem in *. wsimpl. congruence.
Qed.

Lemma reloc_loop_run cnt w si tab n r w' :
  reloc_loop host_dlsym fuel cnt w si tab (Z.of_nat n) = Some (r, w') ↔
  r = 0 ∧
  reloc_run host_dlsym fuel si
    (map (λ i, padd tab (sizeof_Rela * Z.of_nat i)) (seq n cnt)) w w'.
Proof.
  revert w n. induction cnt as [|k IH]; intros w n;
    cbn [reloc_loop seq map]; osimpl.
  - split.
    + intros [= <- <-]. split; [reflexivity | constructor].
    + intros [-> H]. inversion H; subst. reflexivity.
  - replace (Z.of_nat n + 1) with (Z.of_nat (S n)) by lia.
    split.
    + destruct (do_reloc _ _ _ _ _) as [[r1 w1]|] eqn:Hd;
        osimpl; [|discriminate].
      apply do_reloc_step in Hd as [-> Hstep]. osimpl.
      intros H. apply IH in H as [-> Hrun].
      split; [reflexivity|]. econstructor; eassumption.
    + intros [-> H]. inversion H as [|e' es wa wb wc Hstep Hrun]; subst.
      assert (Hd : do_reloc host_dlsym fuel w si
                     (padd tab (sizeof_Rela * Z.of_nat n)) = Some (0, wb))
        by (apply do_reloc_step; auto).
      rewrite Hd. osimpl. apply IH. auto.
Qed.

Lemma reloc_table_run w si tab cnt r w' :
  (if negb (tab =? NULL)
   then reloc_loop host_dlsym fuel (Z.to_nat cnt) w si tab 0
   else Some (0, w)) = Some (r, w') ↔
  r = 0 ∧ reloc_run host_dlsym fuel si (reloc_table tab cnt) w w'.
Proof.
  unfold reloc_table. destruct (tab =? NULL); osimpl.
  - split.
    + intros [= <- <-]. split; [reflexivity | constructor].
    + intros [-> H]. inversion H; subst. reflexivity.
  - apply (reloc_loop_run _ _ _ _ 0%nat).
Qed.
End RelocationRun.

Lemma linker_relocate_run :
  ∀ (host_dlsym : list Z -> Z) (fuel : nat) (w : world) (si : soinfo)
    (r : Z) (w' : world),
    linker_relocate host_dlsym fuel w si = Some (r, w') ↔
    r = 0 ∧
    reloc_run host_dlsym fuel si
      (reloc_table (si_rela si) (si_rela_count si) ++
       reloc_table (si_plt_rela si) (si_plt_rela_count si)) w w'.
Proof.
  intros host_dlsym fuel w si r w'. unfold linker_relocate. split.
  - match goal with
    | |- (?x ≫= _) = _ → _ =>
        destruct x as [[r1 w1]|] eqn:H1; osimpl; [|discriminate]
    end.
    apply reloc_table_run in H1 as [-> Hrun1]. osimpl.
    intros H2. apply reloc_table_run in H2 as [-> Hrun2].
    split; [reflexivity|]. eapply reloc_run_app; eassumption.
  - intros [-> H]. apply reloc_run_app_inv in H as (w1 & H1 & H2).
    assert (E1 : (if negb (si_rela si =? NULL)
                  then reloc_loop host_dlsym fuel
                         (Z.to_nat (si_rela_count si)) w si (si_rela si) 0
                  else Some (0, w)) = Some (0, w1))
      by (apply reloc_table_run; auto).
    rewrite E1. osimpl. apply reloc_table_run. auto.
Qed.

(** C2.  [linker_relocate] processes every RELA entry and then every
    PLT-RELA entry, each in the state its predecessor left, and never
    reports failure: it returns 0 with the state [w'] exactly when the
    specified steps lead from [w] to [w'], so it returns whenever each
    entry can be read, its symbol resolved and its target written.  For
    each entry the symbol address [S] is 0 without a symbol,
    [load_bias + st_value] for a symbol the module defines and the answer
    of the global lookup otherwise, so 0 for a symbol found nowhere; with
    [A] the addend and [B] the load bias, the 64-bit word at
    [B + r_offset] afterwards is [S + A] for type 64, [S] for GLOB_DAT and
    JUMP_SLOT (so 0 for a JUMP_SLOT against an unresolved symbol, weak or
    not), [B + A] for RELATIVE (sums as 64-bit words); NONE and
    unrecognised types leave the state as it was. *)
Theorem linker_relocate_semantics :
  ∀ (host_dlsym : list Z -> Z) (fuel : nat) (w : world) (si : soinfo),
    (∀ (r : Z) (w' : world),
       linker_relocate host_dlsym fuel w si = Some (r, w') ↔
       r = 0 ∧
       reloc_run host_dlsym fuel si
         (reloc_table (si_rela si) (si_rela_count si) ++
          reloc_table (si_plt_rela si) (si_plt_rela_count si)) w w') ∧
    (∀ (e : Z) (w1 w2 : world),
       reloc_step host_dlsym fuel si e w1 w2 →
       ∃ info off S,
         read_u64 (w_mem w1) (e + 8) = Some info ∧
         read_u64 (w_mem w1) e = Some off ∧
         reloc_symbol host_dlsym fuel w1 si (ELF64_R_SYM info) S ∧
         (sym_unresolved host_dlsym fuel w1 si (ELF64_R_SYM info) →
          S = NULL) ∧
         w2 = set_mem (w_mem w2) w1 ∧
         let target := padd (si_load_bias si) off in
         let type := ELF64_R_TYPE info in
         (type = R_X86_64_64 →
            ∃ A, read_u64 (w_mem w1) (e + 16) = Some A ∧
                 read_u64 (w_mem w2) target = Some (u64 (S + A))) ∧
         (type = R_X86_64_GLOB_DAT ∨ type = R_X86_64_JUMP_SLOT →
            read_u64 (w_mem w2) target = Some S) ∧
         (type = R_X86_64_RELATIVE →
            ∃ A, read_u64 (w_mem w1) (e + 16) = Some A ∧
                 read_u64 (w_mem w2) target
                   = Some (u64 (si_load_bias si + A))) ∧
         (type ≠ R_X86_64_64 → type ≠ R_X86_64_GLOB_DAT →
          type ≠ R_X86_64_JUMP_SLOT → type ≠ R_X86_64_RELATIVE →
          type ≠ R_X86_64_COPY → w2 = w1)).
Proof.
  intros host_dlsym fuel w si. split.
  - intros r w'. apply linker_relocate_run.
  - intros e w1 w2. apply reloc_step_effect.
Qed.

Lemma linker_relocate_frame host_dlsym fuel w si r w' :
  linker_relocate host_dlsym fuel w si = Some (r, w') →
  r = 0 ∧ w' = set_mem (w_mem w') w.
Proof.
  intros H. apply linker_relocate_run in H as [-> Hrun].
  split; [reflexivity|]. eapply reloc_run_frame; eassumption.
Qed.

(** ** Loading *)

Lemma same_resources_refl w : same_resources w w.
Proof. repeat split. Qed.

Lemma same_resources_trans w1 w2 w3 :
  same_resources w1 w2 → same_resources w2 w3 → same_resources w1 w3.
Proof.
  intros (A1 & A2 & A3 & A4 & A5) (B1 & B2 & B3 & B4 & B5).
  repeat split; congruence.
Qed.

Lemma same_error_refl w : same_error w w.
Proof. split; reflexivity. Qed.

Lemma same_error_trans w1 w2 w3 :
  same_error w1 w2 → same_error w2 w3 → same_error w1 w3.
Proof. intros [A1 A2] [B1 B2]. split; congruence. Qed.

Section LoadFacts.
Variable host_dlsym : list Z -> Z.
Variable fs : string -> list Z.
Variable sys_open : world -> string -> Z.
Variable sys_fstat : world -> Z -> Z.
Variable sys_mmap : world -> Z -> Z.
Variable sys_mmap_fixed : world -> Z -> Z -> bool.
Variable sys_calloc : world -> Z.
Variable fuel : nat.

Lemma do_open_spec path w fd w' :
  do_open sys_open path w = Some (fd, w') →
  (fd < 0 ∧ w' = w) ∨
  (0 ≤ fd ∧ w_fds w !! fd = None ∧
   w' = set_fds (<[fd := path]> (w_fds w)) w).
Proof.
  unfold do_open. destruct (sys_open w path <? 0) eqn:E.
  - intros [= <- <-]. left. apply Z.ltb_lt in E. auto.
  - apply Z.ltb_ge in E.
    destruct (w_fds w !! sys_open w path) eqn:F; [discriminate|].
    intros [= <- <-]. right. auto.
Qed.

Lemma do_mmap_spec len prot content w a w' :
  do_mmap sys_mmap len prot content w = Some (a, w') →
  (a = MAP_FAILED ∧ w' = w) ∨
  (a ≠ MAP_FAILED ∧ a ≠ NULL ∧ w_regions w !! a = None ∧
   w' = set_regions (<[a := len]> (w_regions w))
          (set_mem (map_pages a len prot content (w_mem w)) w)).
Proof.
  unfold do_mmap. destruct (sys_mmap w len =? MAP_FAILED) eqn:E.
  - intros [= <- <-]. left. apply Z.eqb_eq in E. auto.
  - apply Z.eqb_neq in E.
    destruct (sys_mmap w len =? NULL) eqn:N; [discriminate|].
    apply Z.eqb_neq in N.
    destruct (w_regions w !! sys_mmap w len) eqn:F; [discriminate|].
    intros [= <- <-]. right. auto.
Qed.

Lemma do_calloc_spec w p w' :
  do_calloc sys_calloc w = Some (p, w') →
  (p = NULL ∧ w' = w) ∨
  (p ≠ NULL ∧ w_soinfos w !! p = None ∧
   w' = set_soinfos (<[p := soinfo_zero]> (w_soinfos w)) w).
Proof.
  unfold do_calloc. destruct (sys_calloc w =? NULL) eqn:E.
  - intros [= <- <-]. left. apply Z.eqb_eq in E. auto.
  - apply Z.eqb_neq in E.
    destruct (w_soinfos w !! sys_calloc w) eqn:F; [discriminate|].
    intros [= <- <-]. right. auto.
Qed.

Lemma do_mmap_fixed_spec addr len prot content w ok w' :
  do_mmap_fixed sys_mmap_fixed addr len prot content w = (ok, w') →
  same_resources w w' ∧ same_error w w'.
Proof.
  unfold do_mmap_fixed. destruct (sys_mmap_fixed w addr len);
    intros [= <- <-]; split; repeat split.
Qed.

Lemma elf_open_spec path w r elf w1 :
  elf_open fs sys_open sys_fstat sys_mmap path w = Some (r, elf, w1) →
  (r < 0 ∧ same_resources w w1 ∧ same_error w w1) ∨
  (r = 0 ∧ elf_opened path elf w w1).
Proof.
  unfold elf_open.
  destruct (do_open sys_open path w) as [[fd wa]|] eqn:Ho;
    osimpl; [|discriminate].
  apply do_open_spec in Ho.
  destruct (fd <? 0) eqn:Hfd.
  { apply Z.ltb_lt in Hfd. destruct Ho as [[_ ->]|[? _]]; [|lia].
    intros [= <- <- <-]. left. split; [lia|].
    split; [apply same_resources_refl | apply same_error_refl]. }
  apply Z.ltb_ge in Hfd. destruct Ho as [[? _]|(_ & Hfresh & ->)]; [lia|].
  destruct (sys_fstat _ fd <? 0).
  { intros [= <- <- <-]. left. split; [lia|]. wsimpl.
    split; [|split; reflexivity].
    repeat split; wsimpl; try reflexivity.
    apply delete_insert_id. exact Hfresh. }
  match goal with
  | |- (?x ≫= _) = _ → _ =>
      destruct x as [[ms wb]|] eqn:Hm; osimpl; [|discriminate]
  end.
  apply do_mmap_spec in Hm.
  destruct (ms =? MAP_FAILED) eqn:Hms.
  { apply Z.eqb_eq in Hms.
    destruct Hm as [[_ ->]|(? & _)]; [|contradiction].
    intros [= <- <- <-]. left. split; [lia|]. wsimpl.
    split; [|split; reflexivity].
    repeat split; wsimpl; try reflexivity.
    apply delete_insert_id. exact Hfresh. }
  apply Z.eqb_neq in Hms.
  destruct Hm as [[? _]|(_ & Hnn & Hrf & ->)]; [contradiction|].
  wsimpl.
  destruct (elf_validate_header _ ms) as [ok|]; osimpl; [|discriminate].
  destruct (ok <? 0).
  { intros [= <- <- <-]. left. split; [lia|]. wsimpl.
    split; [|split; reflexivity].
    repeat split; wsimpl; try reflexivity.
    - apply delete_insert_id. exact Hrf.
    - apply delete_insert_id. exact Hfresh. }
  destruct (e_phoff _ ms) as [phoff|]; osimpl; [|discriminate].
  destruct (e_shoff _ ms) as [shoff|]; osimpl; [|discriminate].
  match goal with
  | |- (?x ≫= _) = _ → _ =>
      destruct x as [[shdr shstr]|]; osimpl; [|discriminate]
  end.
  intros [= <- <- <-]. right. split; [reflexivity|].
  unfold elf_opened. wsimpl. osimpl.
  repeat split; auto.
Qed.

Lemma elf_close_spec elf w :
  0 ≤ elf_fd elf → elf_map_start elf ≠ NULL →
  elf_map_start elf ≠ MAP_FAILED →
  w_regions (elf_close elf w) = delete (elf_map_start elf) (w_regions w) ∧
  w_fds (elf_close elf w) = delete (elf_fd elf) (w_fds w) ∧
  w_soinfos (elf_close elf w) = w_soinfos w ∧
  g_soinfo_list (elf_close elf w) = g_soinfo_list w ∧
  w_calls (elf_close elf w) = w_calls w ∧
  same_error w (elf_close elf w).
Proof.
  intros Hfd Hn Hf. unfold elf_close.
  apply Z.eqb_neq in Hn, Hf. rewrite Hn, Hf.
  apply Z.leb_le in Hfd. rewrite Hfd. osimpl.
  repeat split.
Qed.
End LoadFacts.

#[local] Arguments p_type : simpl never.
#[local] Arguments p_flags : simpl never.
#[local] Arguments p_offset : simpl never.
#[local] Arguments p_vaddr : simpl never.
#[local] Arguments p_filesz : simpl never.
#[local] Arguments p_memsz : simpl never.
#[local] Arguments e_phnum : simpl never.
#[local] Arguments e_phoff : simpl never.
#[local] Arguments phdr_ptr : simpl never.
#[local] Arguments PAGE_START : simpl never.
#[local] Arguments PAGE_END : simpl never.
#[local] Arguments u64 : simpl never.
#[local] Arguments memset0 : simpl never.
#[local] Arguments file_window : simpl never.
#[local] Arguments elf_to_mmap_prot : simpl never.
#[local] Arguments str_take : simpl never.
#[local] Arguments Z.to_nat : simpl never.

Section LoadSteps.
Variable sys_mmap_fixed : world -> Z -> Z -> bool.

Lemma map_segments_spec cnt w file phdr i bias ok w' :
  map_segments sys_mmap_fixed cnt w file phdr i bias = Some (ok, w') →
  same_resources w w' ∧
  (ok = true → same_error w w') ∧
  (ok = false →
     g_has_error w' = true ∧
     (g_error_msg w' = str_take 511 "Failed to mmap segment" ∨
      g_error_msg w' = str_take 511 "Failed to mmap BSS")).
Proof.
  revert w i. induction cnt as [|k IH]; intros w i;
    cbn [map_segments]; osimpl.
  - intros [= <- <-]. split; [apply same_resources_refl|].
    split; [intros _; apply same_error_refl | discriminate].
  - destruct (p_type _ _) as [ty|]; osimpl; [|discriminate].
    destruct (negb (ty =? PT_LOAD)); [apply IH|].
    destruct (p_vaddr _ _) as [va|]; osimpl; [|discriminate].
    destruct (p_memsz _ _) as [msz|]; osimpl; [|discriminate].
    destruct (p_filesz _ _) as [fsz|]; osimpl; [|discriminate].
    destruct (p_offset _ _) as [off|]; osimpl; [|discriminate].
    destruct (p_flags _ _) as [flags|]; osimpl; [|discriminate].
    destruct (do_mmap_fixed _ _ _ _ _ w) as [ok1 w1] eqn:H1.
    apply do_mmap_fixed_spec in H1 as [R1 E1].
    destruct ok1; osimpl.
    2:{ intros [= <- <-]. split; [exact R1|].
        split; [discriminate|]. intros _. wsimpl. auto. }
    assert (Hnext : ∀ w2, same_resources w w2 → same_error w w2 →
              map_segments sys_mmap_fixed k w2 file phdr (i + 1) bias
                = Some (ok, w') →
              same_resources w w' ∧ (ok = true → same_error w w') ∧
              (ok = false →
                 g_has_error w' = true ∧
                 (g_error_msg w' = str_take 511 "Failed to mmap segment" ∨
                  g_error_msg w' = str_take 511 "Failed to mmap BSS"))).
    { intros w2 R2 E2 H. apply IH in H as (R3 & Ht & Hf).
      split; [eapply same_resources_trans; eassumption|].
      split; [|exact Hf].
      intros Hok. eapply same_error_trans; [exact E2 | auto]. }
    destruct (fsz <? msz); [|apply Hnext; assumption].
    match goal with
    | |- (?x ≫= _) = _ → _ =>
        destruct x as [m2|]; osimpl; [|discriminate]
    end.
    assert (R2 : same_resources w (set_mem m2 w1)) by exact R1.
    assert (E2 : same_error w (set_mem m2 w1)) by exact E1.
    destruct (PAGE_END _ <? PAGE_END _); [|apply Hnext; assumption].
    destruct (do_mmap_fixed _ _ _ _ _ (set_mem m2 w1)) as [ok2 w3] eqn:H3.
    apply do_mmap_fixed_spec in H3 as [R3 E3].
    destruct ok2; osimpl.
    + apply Hnext.
      * eapply same_resources_trans; eassumption.
      * eapply same_error_trans; eassumption.
    + intros [= <- <-]. split.
      { eapply same_resources_trans; [exact R2|]. exact R3. }
      split; [discriminate|]. intros _. wsimpl. auto.
Qed.
End LoadSteps.

(** The loader's identity of a record: where its reservation is. *)
Lemma si_with_dyn_base si tag v :
  si_base (si_with_dyn si tag v) = si_base si ∧
  si_size (si_with_dyn si tag v) = si_size si.
Proof.
  destruct si. unfold si_with_dyn.
  repeat match goal with
  | |- context [if ?c then _ else _] => destruct c
  end; split; reflexivity.
Qed.

Lemma dyn_walk_base fuel m d si si' :
  dyn_walk fuel m d si = Some si' →
  si_base si' = si_base si ∧ si_size si' = si_size si.
Proof.
  revert d si. induction fuel as [|f IH]; intros d si;
    cbn [dyn_walk]; osimpl; [discriminate|].
  destruct (read_u64 m d) as [tag|]; osimpl; [|discriminate].
  destruct (tag =? DT_NULL); [intros [= <-]; auto|].
  match goal with
  | |- (?x ≫= _) = _ → _ => destruct x as [v|]; osimpl; [|discriminate]
  end.
  intros H. apply IH in H as [H1 H2].
  destruct (si_with_dyn_base si tag v) as [B1 B2]. split; congruence.
Qed.

Lemma parse_dynamic_spec fuel w si r si' w' :
  parse_dynamic fuel w si = Some (r, si', w') →
  si_base si' = si_base si ∧ si_size si' = si_size si ∧
  same_resources w w' ∧
  ((r = 0 ∧ w' = w) ∨
   (r = -1 ∧ g_has_error w' = true ∧
    (g_error_msg w' = str_take 511 "No dynamic section" ∨
     g_error_msg w' = str_take 511 "Missing symbol table or string table"))).
Proof.
  unfold parse_dynamic. destruct (si_dynamic si =? NULL).
  { intros [= <- <- <-]. repeat split. right. wsimpl. auto. }
  destruct (dyn_walk _ _ _ _) as [s1|] eqn:Hd; osimpl; [|discriminate].
  apply dyn_walk_base in Hd as [B1 B2].
  destruct ((si_symtab s1 =? NULL) || (si_strtab s1 =? NULL)).
  - intros [= <- <- <-]. split; [exact B1|]. split; [exact B2|].
    split; [repeat split|]. right. wsimpl. auto.
  - intros [= <- <- <-]. split; [exact B1|]. split; [exact B2|].
    split; [repeat split|]. left. auto.
Qed.

Lemma find_segments_base cnt m phdr i si si' :
  find_segments cnt m phdr i si = Some si' →
  si_base si' = si_base si ∧ si_size si' = si_size si.
Proof.
  revert i si. induction cnt as [|k IH]; intros i si;
    cbn [find_segments]; osimpl.
  - intros [= <-]. auto.
  - destruct (p_type _ _) as [ty|]; osimpl; [|discriminate].
    match goal with
    | |- (?x ≫= _) = _ → _ => destruct x as [s1|] eqn:Hs; osimpl; [|discriminate]
    end.
    intros H. apply IH in H as [H1 H2].
    assert (si_base s1 = si_base si ∧ si_size s1 = si_size si) as [B1 B2].
    { destruct (ty =? PT_PHDR).
      - destruct (p_vaddr _ _); osimpl in Hs; [|discriminate].
        injection Hs as <-. destruct si; auto.
      - destruct (ty =? PT_DYNAMIC).
        + destruct (p_vaddr _ _); osimpl in Hs; [|discriminate].
          injection Hs as <-. destruct si; auto.
        + injection Hs as <-. auto. }
    split; congruence.
Qed.

Section LoadSpec.
Variable host_dlsym : list Z -> Z.
Variable fs : string -> list Z.
Variable sys_open : world -> string -> Z.
Variable sys_fstat : world -> Z -> Z.
Variable sys_mmap : world -> Z -> Z.
Variable sys_mmap_fixed : world -> Z -> Z -> bool.
Variable sys_calloc : world -> Z.
Variable fuel : nat.

(** The [error:] label gives back the record, the reservation and both
    descriptors. *)
Lemma load_error_spec path elf w w1 fd p si rec wx :
  elf_opened path elf w w1 →
  w_soinfos w !! p = None →
  w_soinfos wx = <[p := rec]> (w_soinfos w) →
  g_soinfo_list wx = g_soinfo_list w → w_calls wx = w_calls w →
  (fd < 0 ∧ w_fds wx = w_fds w1 ∨
   0 ≤ fd ∧ w_fds w1 !! fd = None ∧ w_fds wx = <[fd := path]> (w_fds w1)) →
  ((si_base si = NULL ∨ si_base si = MAP_FAILED) ∧
   w_regions wx = w_regions w1 ∨
   si_base si ≠ NULL ∧ si_base si ≠ MAP_FAILED ∧
   w_regions w1 !! si_base si = None ∧
   w_regions wx = <[si_base si := si_size si]> (w_regions w1)) →
  same_resources w (load_error fd p si elf wx) ∧
  same_error wx (load_error fd p si elf wx).
Proof.
  intros (Hfd0 & Hff & Hms & Hmf & Hrf & HR1 & HF1 & HS1 & HL1 & HC1 & HE1)
         Hp HSx HLx HCx Hfd Hbase.
  unfold load_error.
  set (wa := if 0 <=? fd then sys_close fd wx else wx).
  assert (Ha : w_fds wa = w_fds w1 ∧ w_regions wa = w_regions wx ∧
               w_soinfos wa = w_soinfos wx ∧
               g_soinfo_list wa = g_soinfo_list wx ∧
               w_calls wa = w_calls wx ∧ same_error wx wa).
  { subst wa. destruct Hfd as [[Hneg Hfx]|(Hpos & Hfresh & Hfx)].
    - destruct (0 <=? fd) eqn:E; [apply Z.leb_le in E; lia|].
      repeat split; assumption.
    - apply Z.leb_le in Hpos. rewrite Hpos. wsimpl.
      repeat split. rewrite Hfx. apply delete_insert_id. exact Hfresh. }
  destruct Ha as (Fa & Ra & Sa & La & Ca & Ea).
  set (wb := if negb (si_base si =? NULL) && negb (si_base si =? MAP_FAILED)
             then sys_munmap (si_base si) (si_size si) wa else wa).
  assert (Hb : w_fds wb = w_fds w1 ∧ w_regions wb = w_regions w1 ∧
               w_soinfos wb = w_soinfos wx ∧
               g_soinfo_list wb = g_soinfo_list wx ∧
               w_calls wb = w_calls wx ∧ same_error wx wb).
  { subst wb. destruct Hbase as [[Hb Hrx]|(Hn & Hf & Hfresh & Hrx)].
    - assert (negb (si_base si =? NULL) && negb (si_base si =? MAP_FAILED)
              = false) as ->.
      { destruct Hb as [-> | ->]; reflexivity. }
      repeat split; try congruence. apply Ea. apply Ea.
    - apply Z.eqb_neq in Hn, Hf. rewrite Hn, Hf. osimpl. wsimpl.
      repeat split; try assumption; try apply Ea.
      rewrite Ra, Hrx. apply delete_insert_id. exact Hfresh. }
  destruct Hb as (Fb & Rb & Sb & Lb & Cb & Eb).
  destruct (elf_close_spec elf (sys_free p wb) Hfd0 Hms Hmf)
    as (Rc & Fc & Sc & Lc & Cc & Ec).
  split.
  - unfold same_resources. rewrite Rc, Fc, Sc, Lc, Cc. wsimpl.
    rewrite Rb, Fb, Sb, Lb, Cb, HR1, HF1, HSx, HLx, HCx.
    repeat split.
    + apply delete_insert_id. exact Hrf.
    + apply delete_insert_id. exact Hff.
    + apply delete_insert_id. exact Hp.
  - eapply same_error_trans; [exact Eb|]. exact Ec.
Qed.
Lemma load_failed_intro path w wx w' msg :
  same_resources w w' → same_error wx w' →
  g_has_error wx = true → g_error_msg wx = str_take 511 msg →
  In msg (load_error_messages path) → load_failed path w w'.
Proof.
  intros R [E1 E2] He Hm Hin. split; [exact R|].
  split; [congruence|]. exists msg. split; [exact Hin | congruence].
Qed.

Ltac in_msgs := unfold load_error_messages; cbn [In]; tauto.

(** [linker_load] either fails and gives everything back, or succeeds
    and registers the module at the head. *)
Lemma linker_load_spec path w p w' :
  linker_load host_dlsym fs sys_open sys_fstat sys_mmap sys_mmap_fixed
              sys_calloc fuel path w = Some (p, w') →
  (p = NULL ∧ load_failed path w w') ∨ (p ≠ NULL ∧ load_succeeded p w w').
Proof.
  unfold linker_load.
  destruct (elf_open _ _ _ _ _ _) as [[[r elf] w1]|] eqn:Ho;
    osimpl; [|discriminate].
  apply elf_open_spec in Ho.
  destruct (r <? 0) eqn:Hr.
  { apply Z.ltb_lt in Hr. destruct Ho as [(_ & R & E)|[-> _]]; [|lia].
    intros [= <- <-]. left. split; [reflexivity|].
    eapply (load_failed_intro _ _ (linker_set_error _ w1)).
    - exact R.
    - apply same_error_refl.
    - reflexivity.
    - reflexivity.
    - in_msgs. }
  apply Z.ltb_ge in Hr. destruct Ho as [(? & _)|[-> Hel]]; [lia|].
  pose proof Hel as
    (Hfd0 & Hff & Hms & Hmf & Hrf & HR1 & HF1 & HS1 & HL1 & HC1 & HE1).
  destruct (do_calloc _ w1) as [[p0 w2]|] eqn:Hc; osimpl; [|discriminate].
  apply do_calloc_spec in Hc.
  destruct (p0 =? NULL) eqn:Hp0.
  { apply Z.eqb_eq in Hp0. destruct Hc as [[_ ->]|(? & _)]; [|contradiction].
    intros [= <- <-]. left. split; [reflexivity|].
    destruct (elf_close_spec elf (linker_set_error "Out of memory" w1)
                Hfd0 Hms Hmf) as (Rc & Fc & Sc & Lc & Cc & Ec).
    eapply (load_failed_intro _ _ (linker_set_error "Out of memory" w1)).
    - unfold same_resources. rewrite Rc, Fc, Sc, Lc, Cc. wsimpl.
      rewrite HR1, HF1. repeat split; try assumption.
      + apply delete_insert_id. exact Hrf.
      + apply delete_insert_id. exact Hff.
    - exact Ec.
    - reflexivity.
    - reflexivity.
    - in_msgs. }
  apply Z.eqb_neq in Hp0.
  destruct Hc as [[? _]|(_ & Hpf & ->)]; [contradiction|].
  rewrite HS1 in Hpf. wsimpl.
  destruct (e_phnum _ _) as [phnum|]; osimpl; [|discriminate].
  destruct (calculate_load_size _ _ _) as [load_size|];
    osimpl; [|discriminate].
  set (w2 := set_soinfos (<[p0:=soinfo_zero]> (w_soinfos w1)) w1).
  assert (HS2 : ∀ wx, w_soinfos wx = w_soinfos w2 →
                w_soinfos wx = <[p0:=soinfo_zero]> (w_soinfos w)).
  { intros wx ->. subst w2. wsimpl. rewrite HS1. reflexivity. }
  set (si0 := si_set_ident _ _ _ soinfo_zero).
  destruct (load_size =? 0).
  { intros [= <- <-]. left. split; [reflexivity|].
    edestruct (load_error_spec path elf w w1 (-1) p0 si0 soinfo_zero
                 (linker_set_error "No loadable segments" w2))
      as [R E]; try eassumption.
    - apply HS2. reflexivity.
    - left. split; [lia | reflexivity].
    - left. split; [left; reflexivity | reflexivity].
    - eapply load_failed_intro;
        [exact R | exact E | reflexivity | reflexivity | in_msgs]. }
  destruct (min_load_vaddr _ _ _ _ _) as [mn|]; osimpl; [|discriminate].
  destruct (do_mmap _ _ _ _ w2) as [[base w3]|] eqn:Hm;
    osimpl; [|discriminate].
  apply do_mmap_spec in Hm.
  destruct (base =? MAP_FAILED) eqn:Hb.
  { apply Z.eqb_eq in Hb. destruct Hm as [[_ ->]|(? & _)]; [|contradiction].
    intros [= <- <-]. left. split; [reflexivity|].
    edestruct (load_error_spec path elf w w1 (-1) p0
                 (si_set_base base (si_set_size load_size si0)) soinfo_zero
                 (linker_set_error "mmap failed" w2))
      as [R E]; try eassumption.
    - apply HS2. reflexivity.
    - left. split; [lia | reflexivity].
    - left. split; [right; subst base; reflexivity | reflexivity].
    - eapply load_failed_intro;
        [exact R | exact E | reflexivity | reflexivity | in_msgs]. }
  apply Z.eqb_neq in Hb.
  destruct Hm as [[? _]|(_ & Hbn & Hbf & ->)]; [contradiction|].
  subst w2. wsimpl.
  set (si3 := si_set_load_bias _ (si_set_base base _)).
  assert (Hsi3 : si_base si3 = base ∧ si_size si3 = load_size).
  { subst si3 si0. split; reflexivity. }
  destruct Hsi3 as [Hbase3 Hsize3].
  set (w3 := set_regions _ _).
  assert (HR3 : w_regions w3 = <[base := load_size]> (w_regions w1))
    by reflexivity.
  destruct (do_open _ _ w3) as [[fd w4]|] eqn:Ho2; osimpl; [|discriminate].
  apply do_open_spec in Ho2.
  destruct (fd <? 0) eqn:Hfd.
  { apply Z.ltb_lt in Hfd. destruct Ho2 as [[_ ->]|(? & _)]; [|lia].
    intros [= <- <-]. left. split; [reflexivity|].
    edestruct (load_error_spec path elf w w1 fd p0 si3 soinfo_zero
                 (linker_set_error "Failed to open file for mmap" w3))
      as [R E]; try eassumption.
    - apply HS2. reflexivity.
    - left. split; [lia | reflexivity].
    - right. rewrite Hbase3, Hsize3. auto.
    - eapply load_failed_intro;
        [exact R | exact E | reflexivity | reflexivity | in_msgs]. }
  apply Z.ltb_ge in Hfd.
  destruct Ho2 as [[? _]|(_ & Hfd_fresh & ->)]; [lia|].
  subst w3. wsimpl.
  destruct (map_segments _ _ _ _ _ _ _) as [[ok w5]|] eqn:Hseg;
    osimpl; [|discriminate].
  apply map_segments_spec in Hseg as ((R5 & F5 & S5 & L5 & C5) & Hok & Hko).
  wsimpl.
  destruct ok; osimpl.
  2:{ intros [= <- <-]. left. split; [reflexivity|].
      destruct (Hko eq_refl) as [He Hmsg].
      edestruct (load_error_spec path elf w w1 fd p0 si3 soinfo_zero w5)
        as [R E]; try eassumption.
      - rewrite S5, HS1. reflexivity.
      - congruence.
      - congruence.
      - right. split; [lia|]. split; [exact Hfd_fresh | exact F5].
      - right. rewrite Hbase3, Hsize3. rewrite R5. auto.
      - destruct Hmsg as [Hmsg|Hmsg];
          (eapply load_failed_intro;
             [exact R | exact E | exact He | exact Hmsg | in_msgs]). }
  specialize (Hok eq_refl). clear Hko.
  destruct (find_segments _ _ _ _ si3) as [si4|] eqn:Hfs;
    osimpl; [|discriminate].
  apply find_segments_base in Hfs as [Hbase4 Hsize4].
  match goal with
  | |- (?x ≫= _) = _ → _ =>
      destruct x as [phoff|]; osimpl; [|discriminate]
  end.
  set (si5 := if si_phdr si4 =? NULL then _ else si4).
  assert (Hsi5 : si_base si5 = base ∧ si_size si5 = load_size).
  { subst si5. destruct (si_phdr si4 =? NULL).
    - destruct si4; simpl in *. split; congruence.
    - split; congruence. }
  destruct Hsi5 as [Hbase5 Hsize5].
  destruct (parse_dynamic _ _ si5) as [[[rd si6] w7]|] eqn:Hpd;
    osimpl; [|discriminate].
  apply parse_dynamic_spec in Hpd
    as (Hbase6 & Hsize6 & (R7 & F7 & S7 & L7 & C7) & Hcase).
  wsimpl.
  assert (HF5 : delete fd (w_fds w5) = w_fds w1).
  { rewrite F5. apply delete_insert_id. exact Hfd_fresh. }
  destruct (rd <? 0) eqn:Hrd.
  { apply Z.ltb_lt in Hrd.
    destruct Hcase as [[-> _]|(_ & He & Hmsg)]; [lia|].
    intros [= <- <-]. left. split; [reflexivity|].
    edestruct (load_error_spec path elf w w1 (-1) p0 si6 soinfo_zero w7)
      as [R E]; try eassumption.
    - rewrite S7, S5, HS1. reflexivity.
    - congruence.
    - congruence.
    - left. split; [lia|]. congruence.
    - right. rewrite Hbase6, Hsize6, Hbase5, Hsize5, R7, R5. auto.
    - destruct Hmsg as [Hmsg|Hmsg];
        (eapply load_failed_intro;
           [exact R | exact E | exact He | exact Hmsg | in_msgs]). }
  apply Z.ltb_ge in Hrd.
  destruct Hcase as [[-> ->]|(-> & _)]; [|lia].
  destruct (linker_relocate _ _ _ si6) as [[rr w8]|] eqn:Hrel;
    osimpl; [|discriminate].
  apply linker_relocate_frame in Hrel as [-> Hw8].
  osimpl.
  intros [= <- <-]. right. split; [exact Hp0|].
  set (w9 := set_soinfo_list _ _).
  destruct (elf_close_spec elf w9 Hfd0 Hms Hmf)
    as (Rc & Fc & Sc & Lc & Cc & [Ec1 Ec2]).
  exists (si_set_ref_count 1 si6).
  assert (Hb7 : si_base (si_set_ref_count 1 si6) = base ∧
                si_size (si_set_ref_count 1 si6) = load_size).
  { destruct si6; simpl in *. split; congruence. }
  destruct Hb7 as [Hb7 Hs7].
  rewrite Rc, Fc, Sc, Lc, Cc, Ec1, Ec2, Hb7, Hs7.
  subst w9. rewrite Hw8. wsimpl.
  destruct Hok as [Hok1 Hok2]. wsimpl.
  split; [exact Hpf|].
  split.
  { rewrite S5, HS1. apply insert_insert_eq. }
  split; [destruct si6; reflexivity|].
  split; [congruence|].
  assert (Hne : elf_map_start elf ≠ base).
  { intros Heq. rewrite HR1, Heq, lookup_insert_eq in Hbf. discriminate. }
  split.
  { rewrite HR1 in Hbf. rewrite lookup_insert_ne in Hbf by exact Hne.
    exact Hbf. }
  split.
  { rewrite R5, HR1. rewrite delete_insert_ne by exact Hne.
    rewrite delete_insert_id by exact Hrf. reflexivity. }
  split.
  { rewrite HF5, HF1. apply delete_insert_id. exact Hff. }
  split; [congruence|].
  destruct HE1 as [HE1a HE1b]. split; congruence.
Qed.
End LoadSpec.

(** ** Global lookup *)

Lemma find_in_modules_first fuel (w : world) l name a :
  find_in_modules fuel (w_mem w) (w_soinfos w) l name = Some a →
  (a ≠ NULL ∧
   ∃ pre p post si,
     l = pre ++ p :: post ∧ Forall (module_lacks fuel w name) pre ∧
     w_soinfos w !! p = Some si ∧
     linker_find_symbol (w_mem w) si name fuel = Some a) ∨
  (a = NULL ∧ Forall (module_lacks fuel w name) l).
Proof.
  induction l as [|q l IH]; cbn [find_in_modules]; osimpl.
  - intros [= <-]. right. split; [reflexivity | constructor].
  - destruct (w_soinfos w !! q) as [sq|] eqn:Hq; osimpl; [|discriminate].
    destruct (linker_find_symbol (w_mem w) sq name fuel) as [sym|] eqn:Hs;
      osimpl; [|discriminate].
    destruct (sym =? NULL) eqn:Hz.
    + apply Z.eqb_eq in Hz. subst sym. intros H.
      assert (Hq' : module_lacks fuel w name q) by (exists sq; auto).
      destruct (IH H) as [(Ha & pre & p & post & si & -> & Hpre & Hp & Hf)
                         |(-> & Hall)].
      * left. split; [exact Ha|].
        exists (q :: pre), p, post, si. repeat split; auto.
      * right. split; [reflexivity|]. constructor; assumption.
    + apply Z.eqb_neq in Hz. intros [= <-]. left. split; [exact Hz|].
      exists [], q, l, sq. repeat split; auto.
Qed.

Lemma find_in_modules_lacking fuel (w : world) l name :
  Forall (module_lacks fuel w name) l →
  find_in_modules fuel (w_mem w) (w_soinfos w) l name = Some NULL.
Proof.
  induction 1 as [|q l (sq & Hq & Hs) _ IH]; cbn [find_in_modules].
  - reflexivity.
  - rewrite Hq. osimpl. rewrite Hs. osimpl.
    change (NULL =? NULL) with true. exact IH.
Qed.

Lemma find_in_modules_found fuel (w : world) pre p post si name a :
  Forall (module_lacks fuel w name) pre →
  w_soinfos w !! p = Some si →
  linker_find_symbol (w_mem w) si name fuel = Some a → a ≠ NULL →
  find_in_modules fuel (w_mem w) (w_soinfos w) (pre ++ p :: post) name
    = Some a.
Proof.
  intros Hpre Hp Hs Ha.
  induction Hpre as [|q l (sq & Hq & Hsq) _ IH];
    cbn [find_in_modules app].
  - rewrite Hp. osimpl. rewrite Hs. osimpl.
    apply Z.eqb_neq in Ha. rewrite Ha. reflexivity.
  - rewrite Hq. osimpl. rewrite Hsq. osimpl.
    change (NULL =? NULL) with true. exact IH.
Qed.

(** C1 (amended).  A successful load links the new record in front of the
    registry, and the global lookup walks the registry from its head, so
    the most recently loaded module is asked first: the answer is the
    non-null address of the first module in that order in which
    [linker_find_symbol] finds the symbol, which is a module that defines
    it, and the host loader is asked exactly when [linker_find_symbol]
    answers null in every loaded module.  The lookup returns whenever the
    lookups in the modules it asks do. *)
Theorem global_lookup_newest_first :
  ∀ (host_dlsym : list Z -> Z) (fs : string -> list Z)
    (sys_open : world -> string -> Z) (sys_fstat sys_mmap : world -> Z -> Z)
    (sys_mmap_fixed : world -> Z -> Z -> bool) (sys_calloc : world -> Z)
    (fuel : nat),
    (∀ path w p w',
       linker_load host_dlsym fs sys_open sys_fstat sys_mmap sys_mmap_fixed
                   sys_calloc fuel path w = Some (p, w') →
       p ≠ NULL → g_soinfo_list w' = p :: g_soinfo_list w) ∧
    (∀ w name a,
       linker_find_global_symbol host_dlsym fuel w name = Some a ↔
       (a ≠ NULL ∧
        ∃ pre p post si,
          g_soinfo_list w = pre ++ p :: post ∧
          Forall (module_lacks fuel w name) pre ∧
          w_soinfos w !! p = Some si ∧
          linker_find_symbol (w_mem w) si name fuel = Some a) ∨
       (a = u64 (host_dlsym name) ∧
        Forall (module_lacks fuel w name) (g_soinfo_list w))) ∧
    (∀ (w : world) name si a,
       linker_find_symbol (w_mem w) si name fuel = Some a → a ≠ NULL →
       ∃ i, sym_defines (w_mem w) si name i a).
Proof.
  intros host_dlsym fs sys_open sys_fstat sys_mmap sys_mmap_fixed
         sys_calloc fuel. split; [|split].
  - intros path w p w' H Hp. apply linker_load_spec in H.
    destruct H as [[-> _]|[_ (si & _ & _ & _ & HL & _)]];
      [contradiction | exact HL].
  - intros w name a. unfold linker_find_global_symbol. split.
    + destruct (find_in_modules _ _ _ _ _) as [sym|] eqn:Hf;
        osimpl; [|discriminate].
      apply find_in_modules_first in Hf.
      destruct Hf as [(Hn & Hex)|(-> & Hall)].
      * apply Z.eqb_neq in Hn. rewrite Hn. intros [= <-].
        left. split; [apply Z.eqb_neq; exact Hn | exact Hex].
      * rewrite Z.eqb_refl. intros [= <-]. right. auto.
    + intros [(Ha & pre & p & post & si & -> & Hpre & Hp & Hs)
             |(-> & Hall)].
      * rewrite (find_in_modules_found _ _ _ _ _ _ _ _ Hpre Hp Hs Ha).
        osimpl. apply Z.eqb_neq in Ha. rewrite Ha. reflexivity.
      * rewrite (find_in_modules_lacking _ _ _ _ Hall). osimpl.
        change (NULL =? NULL) with true. reflexivity.
  - intros w name si a H Ha.
    apply linker_find_symbol_sound with (fuel := fuel); assumption.
Qed.

(** ** Load as a whole *)

(** C7.  A [linker_load] that returns [NULL], and so a [mini_dlopen] of a
    path that returns [NULL], leaves the registry, the live records, the
    mapped regions and the open descriptors exactly as they were (the
    record, the reservation and both descriptors are released), has called
    no loaded code, and has set the error flag with one of the loader's
    messages. *)
Theorem load_failure_is_atomic :
  ∀ (host_dlsym : list Z -> Z) (fs : string -> list Z)
    (sys_open : world -> string -> Z) (sys_fstat sys_mmap : world -> Z -> Z)
    (sys_mmap_fixed : world -> Z -> Z -> bool) (sys_calloc : world -> Z)
    (fuel : nat) (path : string) (flags : Z) (w w' : world),
    linker_load host_dlsym fs sys_open sys_fstat sys_mmap sys_mmap_fixed
                sys_calloc fuel path w = Some (NULL, w') ∨
    mini_dlopen host_dlsym fs sys_open sys_fstat sys_mmap sys_mmap_fixed
                sys_calloc fuel (Some path) flags w = Some (NULL, w') →
    load_failed path w w'.
Proof.
  intros host_dlsym fs sys_open sys_fstat sys_mmap sys_mmap_fixed
         sys_calloc fuel path flags w w'.
  assert (Hl : linker_load host_dlsym fs sys_open sys_fstat sys_mmap
                 sys_mmap_fixed sys_calloc fuel path w = Some (NULL, w') →
               load_failed path w w').
  { intros H. apply linker_load_spec in H.
    destruct H as [[_ H]|[H _]]; [exact H | contradiction]. }
  intros [H|H]; [exact (Hl H)|]. revert H.
  unfold mini_dlopen.
  destruct (linker_load _ _ _ _ _ _ _ _ _ _) as [[si w1]|] eqn:Hload;
    osimpl; [|discriminate].
  destruct (si =? NULL) eqn:Hsi.
  - apply Z.eqb_eq in Hsi. subst si. intros [= <-]. apply Hl. reflexivity.
  - destruct (linker_call_constructors si w1); osimpl; [|discriminate].
    intros [= E _]. apply Z.eqb_neq in Hsi. contradiction.
Qed.

(** ** Constructors and destructors *)

Lemma init_array_loop_calls cnt w arr i w' :
  init_array_loop cnt w arr i = Some w' →
  w' = set_calls (w_calls w') w ∧ ∃ cs, w_calls w' = w_calls w ++ cs.
Proof.
  revert w i. induction cnt as [|k IH]; intros w i;
    cbn [init_array_loop]; osimpl.
  - intros [= <-]. split; [destruct w; reflexivity|].
    exists []. rewrite app_nil_r. reflexivity.
  - destruct (read_u64 (w_mem w) _) as [f|]; osimpl; [|discriminate].
    intros H. apply IH in H as [Hw' (cs & Hcs)].
    destruct (is_valid_func_ptr f); wsimpl.
    + split; [rewrite Hw'; destruct w; reflexivity|].
      exists (f :: cs). rewrite Hcs, <- app_assoc. reflexivity.
    + split; [exact Hw' | exists cs; exact Hcs].
Qed.

Lemma linker_call_constructors_calls p w w' :
  linker_call_constructors p w = Some w' →
  w' = set_calls (w_calls w') w ∧ ∃ cs, w_calls w' = w_calls w ++ cs.
Proof.
  unfold linker_call_constructors. destruct (p =? NULL).
  { intros [= <-]. split; [destruct w; reflexivity|].
    exists []. rewrite app_nil_r. reflexivity. }
  destruct (w_soinfos w !! p) as [si|]; osimpl; [|discriminate].
  set (w1 := if is_valid_func_ptr (si_init_func si)
             then call_fn (si_init_func si) w else w).
  assert (H1 : w1 = set_calls (w_calls w1) w ∧
               ∃ cs, w_calls w1 = w_calls w ++ cs).
  { subst w1. destruct (is_valid_func_ptr (si_init_func si)); wsimpl.
    - split; [destruct w; reflexivity|]. eexists. reflexivity.
    - split; [destruct w; reflexivity|].
      exists []. rewrite app_nil_r. reflexivity. }
  destruct H1 as [E1 (cs1 & Hcs1)].
  destruct (negb (si_init_array si =? NULL) && (0 <? si_init_array_count si)).
  - intros H. apply init_array_loop_calls in H as [E2 (cs2 & Hcs2)].
    split.
    + rewrite E2, E1. destruct w; reflexivity.
    + exists (cs1 ++ cs2). rewrite Hcs2, Hcs1, app_assoc. reflexivity.
  - intros [= <-]. split; [exact E1 | exists cs1; exact Hcs1].
Qed.

(** C5.  A [mini_dlopen] that returns a module ran [linker_load] to its
    end before the first constructor: in the state the constructors start
    from, the record is the head of the registry with count 1, the only
    region added is the module's reservation (the file view is unmapped),
    the descriptors are those open before the call (both opened on the way
    are closed) and no loaded code has been called; the constructors then
    add their calls and change nothing else. *)
Theorem constructors_run_after_registration :
  ∀ (host_dlsym : list Z -> Z) (fs : string -> list Z)
    (sys_open : world -> string -> Z) (sys_fstat sys_mmap : world -> Z -> Z)
    (sys_mmap_fixed : world -> Z -> Z -> bool) (sys_calloc : world -> Z)
    (fuel : nat) (path : string) (flags : Z) (w : world) (h : Z) (w' : world),
    mini_dlopen host_dlsym fs sys_open sys_fstat sys_mmap sys_mmap_fixed
                sys_calloc fuel (Some path) flags w = Some (h, w') →
    h ≠ NULL →
    ∃ w1,
      linker_load host_dlsym fs sys_open sys_fstat sys_mmap sys_mmap_fixed
                  sys_calloc fuel path w = Some (h, w1) ∧
      load_succeeded h w w1 ∧
      linker_call_constructors h w1 = Some w' ∧
      w' = set_calls (w_calls w') w1 ∧
      ∃ cs, w_calls w' = w_calls w ++ cs.
Proof.
  intros host_dlsym fs sys_open sys_fstat sys_mmap sys_mmap_fixed
         sys_calloc fuel path flags w h w'.
  unfold mini_dlopen.
  destruct (linker_load _ _ _ _ _ _ _ _ _ _) as [[si w1]|] eqn:Hload;
    osimpl; [|discriminate].
  destruct (si =? NULL) eqn:Hsi.
  { intros [= <- <-] Hh. contradiction. }
  destruct (linker_call_constructors si w1) as [w2|] eqn:Hc;
    osimpl; [|discriminate].
  intros [= <- <-] Hh. exists w1. split; [reflexivity|].
  apply linker_load_spec in Hload.
  destruct Hload as [[-> _]|[_ Hok]]; [contradiction|].
  split; [exact Hok|]. split; [exact Hc|].
  apply linker_call_constructors_calls in Hc as [E (cs & Hcs)].
  split; [exact E|]. exists cs.
  destruct Hok as (s & _ & _ & _ & _ & _ & _ & _ & HC & _).
  rewrite Hcs, HC. reflexivity.
Qed.

Ltac wunfold :=
  unfold linker_set_error, sys_munmap, sys_close, sys_free, call_fn,
    set_mem, set_regions, set_fds, set_soinfos, set_soinfo_list,
    set_error_slot, set_calls in *;
  cbn [w_mem w_regions w_fds w_soinfos g_soinfo_list g_error_msg
       g_has_error w_calls] in *.

Lemma fini_array_loop_calls n w arr w' :
  fini_array_loop n w arr = Some w' →
  ∃ entries,
    length entries = n ∧ array_at (w_mem w) arr entries ∧
    w' = set_calls (w_calls w ++ List.filter is_valid_func_ptr (rev entries)) w.
Proof.
  revert w. induction n as [|k IH]; intros w; cbn [fini_array_loop]; osimpl.
  - intros [= <-]. exists []. split; [reflexivity|]. split.
    + intros j e Hj. destruct j; discriminate.
    + cbn [rev List.filter]. rewrite app_nil_r. destruct w; reflexivity.
  - destruct (read_u64 (w_mem w) _) as [f|] eqn:Hf; osimpl; [|discriminate].
    intros H. apply IH in H as (entries & Hlen & Harr & Hw').
    assert (Hmem : w_mem (if is_valid_func_ptr f then call_fn f w else w)
                   = w_mem w) by (destruct (is_valid_func_ptr f); reflexivity).
    rewrite Hmem in Harr.
    exists (entries ++ [f]). split; [rewrite length_app; simpl; lia|]. split.
    + intros j e Hj. destruct (Nat.lt_ge_cases j (length entries)) as [Hlt|Hge].
      * rewrite lookup_app_l in Hj by exact Hlt. apply Harr. exact Hj.
      * rewrite lookup_app_r in Hj by exact Hge.
        destruct (j - length entries)%nat as [|d] eqn:Hd;
          [|destruct d; discriminate].
        injection Hj as <-. replace j with k by lia. exact Hf.
    + rewrite Hw'. rewrite rev_app_distr. cbn [rev app List.filter].
      destruct (is_valid_func_ptr f); wunfold;
        rewrite <- ?app_assoc; destruct w; reflexivity.
Qed.

Lemma linker_call_destructors_calls p w w' si :
  p ≠ NULL → w_soinfos w !! p = Some si →
  linker_call_destructors p w = Some w' →
  ∃ entries,
    length entries
      = (if negb (si_fini_array si =? NULL) && (0 <? si_fini_array_count si)
         then Z.to_nat (si_fini_array_count si) else 0%nat) ∧
    array_at (w_mem w) (si_fini_array si) entries ∧
    w' = set_calls (w_calls w ++ destructor_calls si entries) w.
Proof.
  intros Hp Hsi. unfold linker_call_destructors.
  apply Z.eqb_neq in Hp. rewrite Hp, Hsi. osimpl.
  destruct (negb (si_fini_array si =? NULL) && (0 <? si_fini_array_count si)).
  - destruct (fini_array_loop _ _ _) as [w1|] eqn:Hl; osimpl; [|discriminate].
    apply fini_array_loop_calls in Hl as (entries & Hlen & Harr & ->).
    intros [= <-]. exists entries. split; [exact Hlen|]. split; [exact Harr|].
    unfold destructor_calls.
    destruct (is_valid_func_ptr (si_fini_func si)); wunfold;
      rewrite <- ?app_assoc, ?app_nil_r; reflexivity.
  - osimpl. intros [= <-]. exists []. split; [reflexivity|]. split.
    + intros j e Hj. destruct j; discriminate.
    + unfold destructor_calls. cbn [rev List.filter app].
      destruct (is_valid_func_ptr (si_fini_func si)); wunfold;
        rewrite ?app_nil_r; destruct w; reflexivity.
Qed.

Lemma list_unlink_in p q l :
  In q (list_unlink p l) → In q l.
Proof.
  induction l as [|x l IH]; cbn [list_unlink]; [tauto|].
  destruct (x =? p).
  - intros H. right. exact H.
  - intros [->|H]; [left; reflexivity | right; auto].
Qed.

Lemma list_unlink_nodup p l :
  NoDup l → NoDup (list_unlink p l) ∧ ¬ In p (list_unlink p l).
Proof.
  induction 1 as [|x l Hx Hnd IH]; cbn [list_unlink].
  - split; [constructor | tauto].
  - destruct (x =? p) eqn:E.
    + apply Z.eqb_eq in E. subst x.
      split; [exact Hnd | rewrite <- list_elem_of_In; exact Hx].
    + apply Z.eqb_neq in E. destruct IH as [IH1 IH2]. split.
      * constructor; [|exact IH1]. rewrite list_elem_of_In.
        intros Hin. apply Hx. rewrite list_elem_of_In.
        eapply list_unlink_in. exact Hin.
      * intros [->|Hin]; [contradiction | exact (IH2 Hin)].
Qed.

Lemma si_set_ref_count_fields rf si :
  si_base (si_set_ref_count rf si) = si_base si ∧
  si_size (si_set_ref_count rf si) = si_size si ∧
  si_fini_array (si_set_ref_count rf si) = si_fini_array si ∧
  si_fini_array_count (si_set_ref_count rf si) = si_fini_array_count si ∧
  si_fini_func (si_set_ref_count rf si) = si_fini_func si ∧
  si_ref_count (si_set_ref_count rf si) = rf.
Proof. destruct si. repeat split. Qed.

(** What [linker_unload] does to a live record. *)
Lemma linker_unload_spec p w w' :
  p ≠ NULL → linker_unload p w = Some w' →
  ∃ si, w_soinfos w !! p = Some si ∧
    (1 < si_ref_count si →
       w' = set_soinfos
              (<[p := si_set_ref_count (si_ref_count si - 1) si]>
                 (w_soinfos w)) w) ∧
    (si_ref_count si ≤ 1 →
       ∃ entries,
         length entries
           = (if negb (si_fini_array si =? NULL)
                 && (0 <? si_fini_array_count si)
              then Z.to_nat (si_fini_array_count si) else 0%nat) ∧
         array_at (w_mem w) (si_fini_array si) entries ∧
         w_calls w' = w_calls w ++ destructor_calls si entries ∧
         g_soinfo_list w' = list_unlink p (g_soinfo_list w) ∧
         w_soinfos w' = delete p (w_soinfos w) ∧
         w_regions w'
           = (if si_base si =? NULL then w_regions w
              else delete (si_base si) (w_regions w)) ∧
         w_fds w' = w_fds w).
Proof.
  intros Hp. unfold linker_unload.
  pose proof Hp as Hp'. apply Z.eqb_neq in Hp'. rewrite Hp'.
  destruct (w_soinfos w !! p) as [si|] eqn:Hsi; osimpl; [|discriminate].
  destruct (si_ref_count si <=? -2147483648); [discriminate|].
  destruct (si_set_ref_count_fields (si_ref_count si - 1) si)
    as (Fb & Fs & Fa & Fc & Ff & Fr).
  rewrite Fr, Fb, Fs.
  set (si' := si_set_ref_count (si_ref_count si - 1) si) in *.
  set (w1 := set_soinfos (<[p:=si']> (w_soinfos w)) w).
  destruct (0 <? si_ref_count si - 1) eqn:Hpos.
  - apply Z.ltb_lt in Hpos. intros [= <-]. exists si.
    split; [reflexivity|]. split; [intros _; reflexivity | intros; lia].
  - apply Z.ltb_ge in Hpos.
    destruct (linker_call_destructors p w1) as [w2|] eqn:Hd;
      osimpl; [|discriminate].
    apply (linker_call_destructors_calls p w1 w2 si' Hp) in Hd;
      [|subst w1; wunfold; apply lookup_insert_eq].
    destruct Hd as (entries & Hlen & Harr & ->).
    intros [= <-]. exists si. split; [reflexivity|].
    split; [intros; lia|]. intros _.
    exists entries. rewrite Fa, Fc in Hlen. rewrite Fa in Harr.
    split; [exact Hlen|]. split; [exact Harr|].
    assert (Hdc : destructor_calls si' entries = destructor_calls si entries).
    { unfold destructor_calls. rewrite Ff. reflexivity. }
    rewrite Hdc.
    destruct (si_base si =? NULL); subst w1; wunfold;
      (split; [reflexivity|]); (split; [reflexivity|]);
      (split; [apply delete_insert_eq|]); split; reflexivity.
Qed.

Lemma registry_ok_same w w' :
  g_soinfo_list w' = g_soinfo_list w → w_soinfos w' = w_soinfos w →
  registry_ok w → registry_ok w'.
Proof. intros HL HS [Hnd Hlive]. split; rewrite HL, ?HS; assumption. Qed.

Lemma linker_unload_registry_ok p w w' :
  linker_unload p w = Some w' → registry_ok w → registry_ok w'.
Proof.
  intros H Hok. destruct (Z.eq_dec p NULL) as [->|Hp].
  { unfold linker_unload in H. rewrite Z.eqb_refl in H.
    injection H as <-. exact Hok. }
  destruct (linker_unload_spec _ _ _ Hp H) as (si & Hsi & Hkeep & Hdrop).
  destruct Hok as [Hnd Hlive].
  destruct (Z.lt_ge_cases 1 (si_ref_count si)) as [Hlt|Hge].
  - rewrite (Hkeep Hlt). unfold registry_ok. wunfold. split; [exact Hnd|].
    intros q Hq. destruct (Z.eq_dec q p) as [->|Hne].
    + exists (si_set_ref_count (si_ref_count si - 1) si).
      rewrite lookup_insert_eq. split; [reflexivity|].
      destruct si; cbn. cbn in Hlt. lia.
    + rewrite lookup_insert_ne by congruence. apply Hlive. exact Hq.
  - destruct (Hdrop ltac:(lia)) as (entries & _ & _ & _ & HL & HS & _).
    destruct (list_unlink_nodup p _ Hnd) as [Hnd' Hnotin].
    split; [rewrite HL; exact Hnd'|].
    intros q Hq. rewrite HL in Hq.
    assert (q ≠ p) by (intros ->; contradiction).
    rewrite HS, lookup_delete_ne by congruence.
    apply Hlive. eapply list_unlink_in. exact Hq.
Qed.

Section FacadeInvariant.
Variable host_dlsym : list Z -> Z.
Variable fs : string -> list Z.
Variable sys_open : world -> string -> Z.
Variable sys_fstat : world -> Z -> Z.
Variable sys_mmap : world -> Z -> Z.
Variable sys_mmap_fixed : world -> Z -> Z -> bool.
Variable sys_calloc : world -> Z.
Variable fuel : nat.

Lemma linker_load_registry_ok path w p w' :
  linker_load host_dlsym fs sys_open sys_fstat sys_mmap sys_mmap_fixed
              sys_calloc fuel path w = Some (p, w') →
  registry_ok w → registry_ok w'.
Proof.
  intros H Hok. apply linker_load_spec in H.
  destruct H as [[_ ((_ & _ & HS & HL & _) & _)]
                |[_ (si & Hfresh & HS & Hrc & HL & _)]].
  - eapply registry_ok_same; eassumption.
  - destruct Hok as [Hnd Hlive]. unfold registry_ok. rewrite HL, HS.
    split.
    + constructor; [|exact Hnd]. rewrite list_elem_of_In. intros Hin.
      destruct (Hlive _ Hin) as (s & Hs & _). congruence.
    + intros q [<-|Hq].
      * exists si. rewrite lookup_insert_eq. split; [reflexivity | lia].
      * destruct (Hlive _ Hq) as (s & Hs & Hr).
        exists s. split; [|exact Hr].
        rewrite lookup_insert_ne; [exact Hs | congruence].
Qed.

Lemma facade_step_registry_ok w w' :
  facade_step host_dlsym fs sys_open sys_fstat sys_mmap sys_mmap_fixed
              sys_calloc fuel w w' →
  registry_ok w → registry_ok w'.
Proof.
  intros [path flags h H|handle symbol a H|handle r H|msg H] Hok.
  - unfold mini_dlopen in H. destruct path as [path|].
    + destruct (linker_load _ _ _ _ _ _ _ _ _ _) as [[si w1]|] eqn:Hl;
        osimpl in H; [|discriminate].
      apply linker_load_registry_ok in Hl; [|exact Hok].
      destruct (si =? NULL); [injection H as _ <-; exact Hl|].
      destruct (linker_call_constructors si w1) as [w2|] eqn:Hc;
        osimpl in H; [|discriminate].
      injection H as _ <-.
      apply linker_call_constructors_calls in Hc as [-> _].
      eapply registry_ok_same; [| |exact Hl]; reflexivity.
    + injection H as _ <-.
      eapply registry_ok_same; [| |exact Hok]; reflexivity.
  - unfold mini_dlsym in H. destruct symbol as [symbol|].
    + destruct (handle =? NULL).
      * destruct (linker_find_global_symbol _ _ _ _) as [addr|];
          osimpl in H; [|discriminate].
        destruct (addr =? NULL); injection H as _ <-;
          [eapply registry_ok_same; [| |exact Hok]; reflexivity
          | exact Hok].
      * destruct (handle =? ALL_ONES).
        { injection H as _ <-.
          eapply registry_ok_same; [| |exact Hok]; reflexivity. }
        destruct (w_soinfos w !! handle) as [si|];
          osimpl in H; [|discriminate].
        destruct (linker_find_symbol _ _ _ _) as [addr|];
          osimpl in H; [|discriminate].
        destruct (addr =? NULL); injection H as _ <-;
          [eapply registry_ok_same; [| |exact Hok]; reflexivity
          | exact Hok].
    + injection H as _ <-.
      eapply registry_ok_same; [| |exact Hok]; reflexivity.
  - unfold mini_dlclose in H. destruct (handle =? NULL).
    + injection H as _ <-.
      eapply registry_ok_same; [| |exact Hok]; reflexivity.
    + destruct (linker_unload handle w) as [w1|] eqn:Hu;
        osimpl in H; [|discriminate].
      injection H as _ <-. eapply linker_unload_registry_ok; eassumption.
  - unfold mini_dlerror, linker_get_error in H.
    destruct (g_has_error w); injection H as _ <-;
      [eapply registry_ok_same; [| |exact Hok]; reflexivity | exact Hok].
Qed.
End FacadeInvariant.

Lemma linker_init_registry_ok w : registry_ok (linker_init w).
Proof.
  split; cbn.
  - constructor.
  - intros p [].
Qed.


(** ** The error slot and the dl* front *)

Lemma str_take_all n s : (String.length s ≤ n)%nat → str_take n s = s.
Proof.
  revert n. induction s as [|c s IH]; intros n Hn.
  - destruct n; reflexivity.
  - destruct n as [|n]; cbn in Hn; [lia|].
    change (str_take (S n) (String c s)) with (String c (str_take n s)).
    rewrite IH by lia. reflexivity.
Qed.

Lemma string_app_cons c (a b : string) :
  (String c a ++ b)%string = String c (a ++ b)%string.
Proof. reflexivity. Qed.

Lemma string_app_nil_l (b : string) : ("" ++ b)%string = b.
Proof. reflexivity. Qed.

Lemma string_app_nil_r (s : string) : (s ++ "")%string = s.
Proof.
  induction s as [|c s IH]; [reflexivity|].
  rewrite string_app_cons, IH. reflexivity.
Qed.

Lemma string_app_assoc (a b c : string) :
  (a ++ (b ++ c))%string = ((a ++ b) ++ c)%string.
Proof.
  induction a as [|x a IH]; [reflexivity|].
  rewrite !string_app_cons, IH. reflexivity.
Qed.

Lemma mentions_suffix a b : mentions (a ++ b)%string b.
Proof. exists a, EmptyString. rewrite string_app_nil_r. reflexivity. Qed.

Lemma str_prefixb_app n s : str_prefixb n (n ++ s)%string = true.
Proof.
  induction n as [|c n IH]; [reflexivity|].
  rewrite string_app_cons. cbn [str_prefixb].
  rewrite Ascii.eqb_refl, IH. reflexivity.
Qed.

Lemma str_containsb_prefix n s : str_containsb n (n ++ s)%string = true.
Proof.
  destruct (n ++ s)%string eqn:E; cbn [str_containsb].
  - destruct n; [reflexivity | discriminate].
  - rewrite <- E, str_prefixb_app. reflexivity.
Qed.

Lemma mentions_containsb hay needle :
  mentions hay needle → str_containsb needle hay = true.
Proof.
  intros (pre & post & ->). induction pre as [|c pre IH].
  - rewrite string_app_nil_l. apply str_containsb_prefix.
  - rewrite string_app_cons. cbn [str_containsb].
    rewrite IH. apply orb_true_r.
Qed.

Section ErrorSlot.
Variable host_dlsym : list Z -> Z.
Variable fs : string -> list Z.
Variable sys_open : world -> string -> Z.
Variable sys_fstat : world -> Z -> Z.
Variable sys_mmap : world -> Z -> Z.
Variable sys_mmap_fixed : world -> Z -> Z -> bool.
Variable sys_calloc : world -> Z.
Variable fuel : nat.

Lemma mini_dlopen_null_sets_error path flags w w' :
  mini_dlopen host_dlsym fs sys_open sys_fstat sys_mmap sys_mmap_fixed
              sys_calloc fuel path flags w = Some (NULL, w') →
  g_has_error w' = true.
Proof.
  unfold mini_dlopen. destruct path as [path|].
  - destruct (linker_load _ _ _ _ _ _ _ _ _ _) as [[si w1]|] eqn:Hl;
      osimpl; [|discriminate].
    destruct (si =? NULL) eqn:Hsi.
    + apply Z.eqb_eq in Hsi. subst si. intros [= <-].
      apply linker_load_spec in Hl.
      destruct Hl as [[_ (_ & He & _)]|[H _]]; [exact He | contradiction].
    + destruct (linker_call_constructors si w1); osimpl; [|discriminate].
      intros [= E _]. apply Z.eqb_neq in Hsi. contradiction.
  - intros [= <-]. reflexivity.
Qed.

(** The message a failed lookup leaves. *)
Lemma mini_dlsym_null_message handle symbol w w' :
  mini_dlsym host_dlsym fuel handle (Some symbol) w = Some (NULL, w') →
  handle ≠ ALL_ONES →
  ∃ msg,
    (msg = ("dlsym: symbol not found: " ++ c_str symbol)%string ∨
     ∃ si, w_soinfos w !! handle = Some si ∧
           msg = ("dlsym: symbol not found in " ++ si_name si ++ ": "
                  ++ c_str symbol)%string) ∧
    w' = linker_set_error msg w.
Proof.
  unfold mini_dlsym. intros H Hh. revert H.
  destruct (handle =? NULL).
  - destruct (linker_find_global_symbol _ _ _ _) as [addr|];
      osimpl; [|discriminate].
    destruct (addr =? NULL) eqn:Ha.
    + intros [= _ <-]. eexists. split; [left; reflexivity | reflexivity].
    + intros [= E _]. apply Z.eqb_neq in Ha. contradiction.
  - apply Z.eqb_neq in Hh. rewrite Hh.
    destruct (w_soinfos w !! handle) as [si|]; osimpl; [|discriminate].
    destruct (linker_find_symbol _ _ _ _) as [addr|];
      osimpl; [|discriminate].
    destruct (addr =? NULL) eqn:Ha.
    + intros [= _ <-]. eexists.
      split; [right; exists si; split; reflexivity | reflexivity].
    + intros [= E _]. apply Z.eqb_neq in Ha. contradiction.
Qed.

Lemma mini_dlsym_null_sets_error handle symbol w w' :
  mini_dlsym host_dlsym fuel handle symbol w = Some (NULL, w') →
  g_has_error w' = true.
Proof.
  destruct symbol as [symbol|]; [|intros [= <-]; reflexivity].
  destruct (Z.eq_dec handle ALL_ONES) as [->|Hh].
  - unfold mini_dlsym. change (ALL_ONES =? NULL) with false.
    rewrite Z.eqb_refl. intros [= <-]. reflexivity.
  - intros H. apply mini_dlsym_null_message in H as (msg & _ & ->);
      [reflexivity | exact Hh].
Qed.
End ErrorSlot.

(** C6 (amended).  Writing an error stores the first 511 bytes of the
    message and sets the flag; with the flag set, [mini_dlerror] returns
    the stored string and clears the flag, and the call after it returns
    [NULL]; a [mini_dlopen] or [mini_dlsym] that returns [NULL] and a
    [mini_dlclose] that returns non-zero leave the flag set.  After a lookup
    that failed because the symbol was not found (any handle but
    [MINI_RTLD_NEXT]), the string returned is the first 511 bytes of
    "dlsym: symbol not found[ in <module name>]: <symbol>", which mentions
    the symbol name whenever that message is at most 511 bytes long. *)
Theorem error_slot_is_one_shot :
  ∀ (host_dlsym : list Z -> Z) (fs : string -> list Z)
    (sys_open : world -> string -> Z) (sys_fstat sys_mmap : world -> Z -> Z)
    (sys_mmap_fixed : world -> Z -> Z -> bool) (sys_calloc : world -> Z)
    (fuel : nat),
    (∀ msg w, g_has_error (linker_set_error msg w) = true ∧
              g_error_msg (linker_set_error msg w) = str_take 511 msg) ∧
    (∀ w, g_has_error w = true →
          ∃ w1, mini_dlerror w = (Some (g_error_msg w), w1) ∧
                g_has_error w1 = false ∧ mini_dlerror w1 = (None, w1)) ∧
    (∀ path flags w w',
       mini_dlopen host_dlsym fs sys_open sys_fstat sys_mmap sys_mmap_fixed
                   sys_calloc fuel path flags w = Some (NULL, w') →
       g_has_error w' = true) ∧
    (∀ handle symbol w w',
       mini_dlsym host_dlsym fuel handle symbol w = Some (NULL, w') →
       g_has_error w' = true) ∧
    (∀ handle r w w',
       mini_dlclose handle w = Some (r, w') → r ≠ 0 → g_has_error w' = true) ∧
    (∀ handle symbol w w',
       mini_dlsym host_dlsym fuel handle (Some symbol) w = Some (NULL, w') →
       handle ≠ ALL_ONES →
       ∃ msg w1,
         (msg = ("dlsym: symbol not found: " ++ c_str symbol)%string ∨
          ∃ si, w_soinfos w !! handle = Some si ∧
                msg = ("dlsym: symbol not found in " ++ si_name si ++ ": "
                       ++ c_str symbol)%string) ∧
         mini_dlerror w' = (Some (str_take 511 msg), w1) ∧
         mini_dlerror w1 = (None, w1) ∧
         ((String.length msg ≤ 511)%nat →
          mentions (str_take 511 msg) (c_str symbol))).
Proof.
  intros host_dlsym fs sys_open sys_fstat sys_mmap sys_mmap_fixed
         sys_calloc fuel.
  split; [intros; split; reflexivity|].
  split.
  { intros w Hw. unfold mini_dlerror, linker_get_error. rewrite Hw.
    eexists. split; [reflexivity|]. split; reflexivity. }
  split; [apply mini_dlopen_null_sets_error|].
  split; [apply mini_dlsym_null_sets_error|].
  split.
  { intros handle r w w'. unfold mini_dlclose. destruct (handle =? NULL).
    - intros [= _ <-] _. reflexivity.
    - destruct (linker_unload handle w); osimpl; [|discriminate].
      intros [= <- _] Hr. contradiction. }
  intros handle symbol w w' H Hh.
  apply mini_dlsym_null_message in H as (msg & Hmsg & ->); [|exact Hh].
  exists msg. eexists. split; [exact Hmsg|].
  split; [reflexivity|]. split; [reflexivity|].
  intros Hlen. rewrite str_take_all by exact Hlen.
  destruct Hmsg as [->|(si & _ & ->)].
  - apply mentions_suffix.
  - rewrite !string_app_assoc. apply mentions_suffix.
Qed.

(** C9.  [mini_dlopen] does not look at its flags: for every path and any
    two flag words the two calls return the same result and leave the same
    state. *)
Theorem dlopen_ignores_flags :
  ∀ (host_dlsym : list Z -> Z) (fs : string -> list Z)
    (sys_open : world -> string -> Z) (sys_fstat sys_mmap : world -> Z -> Z)
    (sys_mmap_fixed : world -> Z -> Z -> bool) (sys_calloc : world -> Z)
    (fuel : nat) (path : option string) (flags1 flags2 : Z) (w : world),
    mini_dlopen host_dlsym fs sys_open sys_fstat sys_mmap sys_mmap_fixed
                sys_calloc fuel path flags1 w
    = mini_dlopen host_dlsym fs sys_open sys_fstat sys_mmap sys_mmap_fixed
                  sys_calloc fuel path flags2 w.
Proof. reflexivity. Qed.

(** C10.  With a null argument each operation of the dl* front fails at
    once: [mini_dlopen] of a null path and [mini_dlsym] of a null symbol
    return [NULL], [mini_dlclose] of a null handle returns -1; each leaves
    the state it found except for the error slot, which is set. *)
Theorem null_arguments_fail_cleanly :
  ∀ (host_dlsym : list Z -> Z) (fs : string -> list Z)
    (sys_open : world -> string -> Z) (sys_fstat sys_mmap : world -> Z -> Z)
    (sys_mmap_fixed : world -> Z -> Z -> bool) (sys_calloc : world -> Z)
    (fuel : nat) (flags handle : Z) (w : world),
    (∃ w1, mini_dlopen host_dlsym fs sys_open sys_fstat sys_mmap
             sys_mmap_fixed sys_calloc fuel None flags w = Some (NULL, w1) ∧
           w1 = set_error_slot (g_error_msg w1) true w) ∧
    (∃ w2, mini_dlsym host_dlsym fuel handle None w = Some (NULL, w2) ∧
           w2 = set_error_slot (g_error_msg w2) true w) ∧
    (∃ w3, mini_dlclose NULL w = Some (-1, w3) ∧
           w3 = set_error_slot (g_error_msg w3) true w).
Proof.
  intros. repeat split; eexists; split; reflexivity.
Qed.

(** ** The claims on the two shared objects *)

Abbreviation demo_load :=
  (linker_load Demo.host_dlsym Demo.fs Demo.sys_open Demo.sys_fstat
               Demo.sys_mmap Demo.sys_mmap_fixed Demo.sys_calloc Demo.fuel).
Abbreviation demo_dlopen :=
  (mini_dlopen Demo.host_dlsym Demo.fs Demo.sys_open Demo.sys_fstat
               Demo.sys_mmap Demo.sys_mmap_fixed Demo.sys_calloc Demo.fuel).
Abbreviation demo_dlsym := (mini_dlsym Demo.host_dlsym Demo.fuel).

(** A result whose first component is known is that component paired with
    the state it left. *)
Lemma result_eta {A : Type} (o : option (A * world)) (a : A) :
  option_map fst o = Some a → o = Some (a, Demo.world_of o).
Proof.
  destruct o as [[x w]|]; simpl; [intros [= ->]; reflexivity | discriminate].
Qed.

(** The first [dlopen] of libdemo.so returns [h1] and the second [h2]. *)
Lemma demo_first_load :
  demo_dlopen (Some "libdemo.so"%string) 2 Demo.w0 = Some (Demo.h1, Demo.w1).
Proof.
  refine (result_eta (demo_dlopen (Some "libdemo.so"%string) 2 Demo.w0)
                     Demo.h1 _).
  vm_compute. reflexivity.
Defined.

Lemma demo_second_load :
  demo_dlopen (Some "libdemo.so"%string) 2 Demo.w1 = Some (Demo.h2, Demo.w2).
Proof.
  refine (result_eta (demo_dlopen (Some "libdemo.so"%string) 2 Demo.w1)
                     Demo.h2 _).
  vm_compute. reflexivity.
Defined.

(** C1, as stated, fails, twice.  libdemo.so is loaded twice, first as
    [h1], then as [h2]; both modules define [add], at different addresses;
    the global lookup returns the address in [h2], the module inserted
    last.  And the only module of the sample process defines [puts], but
    the bloom filter of its GNU hash table is empty, so
    [linker_find_symbol] does not find it there and the global lookup
    returns the address the host loader knows. *)
Lemma global_lookup_not_insertion_order :
  (option_map fst (demo_dlopen (Some "libdemo.so"%string) 2 Demo.w0)
     = Some Demo.h1 ∧
   option_map fst (demo_dlopen (Some "libdemo.so"%string) 2 Demo.w1)
     = Some Demo.h2 ∧
   g_soinfo_list Demo.w1 = [Demo.h1] ∧
   g_soinfo_list Demo.w2 = [Demo.h2; Demo.h1] ∧
   linker_find_symbol (w_mem Demo.w2) (Demo.record_of Demo.h1 Demo.w2)
                      (str_bytes "add") Demo.fuel = Some 139637978825760 ∧
   linker_find_symbol (w_mem Demo.w2) (Demo.record_of Demo.h2 Demo.w2)
                      (str_bytes "add") Demo.fuel = Some 139637980922912 ∧
   linker_find_global_symbol Demo.host_dlsym Demo.fuel Demo.w2
                             (str_bytes "add") = Some 139637980922912) ∧
  (g_soinfo_list Sample.wimg = [Sample.p] ∧
   w_soinfos Sample.wimg !! Sample.p = Some (Sample.si_image 0 4112) ∧
   sym_defines (w_mem Sample.wimg) (Sample.si_image 0 4112)
               (str_bytes "puts") 1 4608 ∧
   linker_find_symbol (w_mem Sample.wimg) (Sample.si_image 0 4112)
                      (str_bytes "puts") Demo.fuel = Some NULL ∧
   Demo.host_dlsym (str_bytes "puts") = 140737349242448 ∧
   linker_find_global_symbol Demo.host_dlsym Demo.fuel Sample.wimg
                             (str_bytes "puts") = Some 140737349242448).
Proof.
  split.
  - vm_compute. repeat split; reflexivity.
  - split; [reflexivity|]. split; [vm_compute; reflexivity|].
    split; [eapply accepted_defines; vm_compute; reflexivity|].
    repeat split; vm_compute; reflexivity.
Qed.

Lemma global_lookup_newest_first_witness :
  (139637980922912 ≠ NULL ∧
   ∃ pre p post si,
     g_soinfo_list Demo.w2 = pre ++ p :: post ∧
     Forall (module_lacks Demo.fuel Demo.w2 (str_bytes "add")) pre ∧
     w_soinfos Demo.w2 !! p = Some si ∧
     linker_find_symbol (w_mem Demo.w2) si (str_bytes "add") Demo.fuel
       = Some 139637980922912) ∨
  (139637980922912 = u64 (Demo.host_dlsym (str_bytes "add")) ∧
   Forall (module_lacks Demo.fuel Demo.w2 (str_bytes "add"))
          (g_soinfo_list Demo.w2)).
Proof.
  refine (proj1 (proj1 (proj2 (global_lookup_newest_first Demo.host_dlsym
                   Demo.fs Demo.sys_open Demo.sys_fstat Demo.sys_mmap
                   Demo.sys_mmap_fixed Demo.sys_calloc Demo.fuel))
                 Demo.w2 (str_bytes "add") 139637980922912) _).
  vm_compute. reflexivity.
Defined.

Lemma linker_relocate_semantics_witness :
  0 = 0 ∧
  reloc_run Demo.host_dlsym Demo.fuel Demo.si1
    (reloc_table (si_rela Demo.si1) (si_rela_count Demo.si1) ++
     reloc_table (si_plt_rela Demo.si1) (si_plt_rela_count Demo.si1))
    Demo.w1
    (Demo.world_of
       (linker_relocate Demo.host_dlsym Demo.fuel Demo.w1 Demo.si1)).
Proof.
  refine (proj1 (proj1 (linker_relocate_semantics Demo.host_dlsym Demo.fuel
                          Demo.w1 Demo.si1) 0 _) _).
  refine (result_eta
            (linker_relocate Demo.host_dlsym Demo.fuel Demo.w1 Demo.si1) 0 _).
  vm_compute. reflexivity.
Defined.

Lemma gnu_lookup_follows_spec_witness :
  gnu_hash (str_bytes "add") = GnuSpec.hash (str_bytes "add") ∧
  gnu_lookup (w_mem Demo.w1) Demo.si1 (str_bytes "add") Demo.fuel
    = Some (sym_ptr Demo.si1 2).
Proof.
  refine (gnu_lookup_follows_spec Demo.fuel (w_mem Demo.w1) Demo.si1
            (str_bytes "add") 6 (Some 2) _ _ _ _).
  - vm_compute. discriminate.
  - vm_compute. reflexivity.
  - reflexivity.
  - vm_compute. reflexivity.
Defined.

Lemma constructors_run_after_registration_witness :
  ∃ w1,
    demo_load "libdemo.so"%string Demo.w0 = Some (Demo.h1, w1) ∧
    load_succeeded Demo.h1 Demo.w0 w1 ∧
    linker_call_constructors Demo.h1 w1 = Some Demo.w1 ∧
    Demo.w1 = set_calls (w_calls Demo.w1) w1 ∧
    ∃ cs, w_calls Demo.w1 = w_calls Demo.w0 ++ cs.
Proof.
  refine (constructors_run_after_registration Demo.host_dlsym Demo.fs
            Demo.sys_open Demo.sys_fstat Demo.sys_mmap Demo.sys_mmap_fixed
            Demo.sys_calloc Demo.fuel "libdemo.so"%string 2 Demo.w0
            Demo.h1 Demo.w1 demo_first_load _).
  vm_compute. discriminate.
Defined.

(** C6, as stated, fails: a lookup with the [MINI_RTLD_NEXT] handle fails
    with a message that does not mention the symbol, and the message for a
    symbol of 600 bytes is cut before the name is complete. *)
Lemma error_string_without_symbol_name :
  (option_map fst (demo_dlsym ALL_ONES (Some "add"%string) Demo.w0)
     = Some NULL ∧
   fst (mini_dlerror
          (Demo.world_of (demo_dlsym ALL_ONES (Some "add"%string) Demo.w0)))
     = Some "dlsym: RTLD_NEXT not implemented"%string ∧
   ¬ mentions "dlsym: RTLD_NEXT not implemented" "add") ∧
  (option_map fst (demo_dlsym NULL (Some Demo.long_name) Demo.w0)
     = Some NULL ∧
   ∃ msg,
     fst (mini_dlerror
            (Demo.world_of (demo_dlsym NULL (Some Demo.long_name) Demo.w0)))
       = Some msg ∧
     ¬ mentions msg Demo.long_name).
Proof.
  split.
  - split; [vm_compute; reflexivity|]. split; [vm_compute; reflexivity|].
    intros H. apply mentions_containsb in H. vm_compute in H. discriminate.
  - split; [vm_compute; reflexivity|].
    exists (str_take 511 ("dlsym: symbol not found: " ++ Demo.long_name)).
    split; [vm_compute; reflexivity|].
    intros H. apply mentions_containsb in H. vm_compute in H. discriminate.
Qed.

Lemma error_slot_is_one_shot_witness :
  ∃ msg w1,
    (msg = ("dlsym: symbol not found: " ++ c_str "opt")%string ∨
     ∃ si, w_soinfos Demo.w1 !! Demo.h1 = Some si ∧
           msg = ("dlsym: symbol not found in " ++ si_name si ++ ": "
                  ++ c_str "opt")%string) ∧
    mini_dlerror (Demo.world_of (demo_dlsym Demo.h1 (Some "opt"%string) Demo.w1))
      = (Some (str_take 511 msg), w1) ∧
    mini_dlerror w1 = (None, w1) ∧
    ((String.length msg ≤ 511)%nat → mentions (str_take 511 msg) (c_str "opt")).
Proof.
  refine (proj2 (proj2 (proj2 (proj2 (proj2
            (error_slot_is_one_shot Demo.host_dlsym Demo.fs Demo.sys_open
               Demo.sys_fstat Demo.sys_mmap Demo.sys_mmap_fixed
               Demo.sys_calloc Demo.fuel)))))
            Demo.h1 "opt"%string Demo.w1 _ _ _).
  - refine (result_eta (demo_dlsym Demo.h1 (Some "opt"%string) Demo.w1)
                       NULL _).
    vm_compute. reflexivity.
  - vm_compute. discriminate.
Defined.

Lemma load_failure_is_atomic_witness :
  load_failed "libbad.so" Demo.w0
              (linker_set_error "No dynamic section" Demo.w0).
Proof.
  refine (load_failure_is_atomic Demo.host_dlsym Demo.fs Demo.sys_open
            Demo.sys_fstat Demo.sys_mmap Demo.sys_mmap_fixed Demo.sys_calloc
            Demo.fuel "libbad.so"%string 0 Demo.w0
            (linker_set_error "No dynamic section" Demo.w0) _).
  left. vm_compute. reflexivity.
Defined.


(* ===================================================================== *)
(** * More of the linker *)
(* ===================================================================== *)

(** ** Hashes and permissions *)


Lemma bits_above_lt (a k : Z) :
  0 ≤ a → 0 ≤ k → (∀ n, k ≤ n → Z.testbit a n = false) → a < 2 ^ k.
Proof.
  intros Ha Hk H.
  assert (E : a = a mod 2 ^ k).
  { apply Z.bits_inj'. intros n Hn.
    destruct (Z_lt_le_dec n k).
    - rewrite Z.mod_pow2_bits_low by lia. reflexivity.
    - rewrite Z.mod_pow2_bits_high by lia. apply H. lia. }
  rewrite E. apply Z.mod_pos_bound. apply Z.pow_pos_nonneg; lia.
Qed.

Lemma elf_hash_step_range (h c : Z) : 0 ≤ elf_hash_step h c < 2 ^ 28.
Proof.
  unfold elf_hash_step.
  pose proof (u32_range (u32 (Z.shiftl h 4) + c)) as Hh1.
  generalize dependent (u32 (u32 (Z.shiftl h 4) + c)). intros h1 Hh1.
  cbv zeta.
  assert (Hg : 0 ≤ Z.land h1 4026531840) by (apply Z.land_nonneg; lia).
  assert (Eg : ∃ g, g = Z.land h1 4026531840) by (eexists; reflexivity).
  destruct Eg as [g Eg]. rewrite <- Eg in *.
  assert (Eh : ∃ h2, h2 = if g =? 0 then h1 else Z.lxor h1 (Z.shiftr g 24))
    by (eexists; reflexivity).
  destruct Eh as [h2 Eh]. rewrite <- Eh.
  assert (Hh2 : 0 ≤ h2).
  { rewrite Eh. destruct (g =? 0); [lia|].
    apply Z.lxor_nonneg. split; intros _; [apply Z.shiftr_nonneg|]; lia. }
  split.
  { apply Z.land_nonneg. left. exact Hh2. }
  apply bits_above_lt; [apply Z.land_nonneg; left; exact Hh2 | lia |].
  intros n Hn. rewrite Z.land_spec.
  assert (Hhi : ∀ j, 32 ≤ j → Z.testbit h1 j = false).
  { intros j Hj. destruct (Z.eq_dec h1 0) as [->|Hne]; [apply Z.bits_0|].
    apply Z.bits_above_log2; [lia|].
    assert (2 ^ 32 ≤ 2 ^ j) by (apply Z.pow_le_mono_r; lia).
    unfold two32 in Hh1. apply Z.log2_lt_pow2; lia. }
  assert (Hgb : ∀ j, 0 ≤ j → Z.testbit g j
                = Z.testbit h1 j && Z.testbit 4026531840 j).
  { intros j Hj. rewrite Eg. apply Z.land_spec. }
  assert (Hmask : ∀ j, 28 ≤ j < 32 → Z.testbit 4026531840 j = true).
  { intros j Hj.
    assert (j = 28 ∨ j = 29 ∨ j = 30 ∨ j = 31) as [->|[->|[->| ->]]] by lia;
      reflexivity. }
  assert (Hmask' : ∀ j, 32 ≤ j → Z.testbit 4026531840 j = false).
  { intros j Hj. apply Z.bits_above_log2; [lia|].
    apply Z.log2_lt_pow2; [lia|].
    apply Z.lt_le_trans with (2 ^ 32); [reflexivity|].
    apply Z.pow_le_mono_r; lia. }
  destruct (Z_lt_le_dec n 32) as [Hlt|Hge].
  - (* one of the four high bits: set in [h2] only when set in [g] *)
    rewrite Z.lxor_spec, Hgb, Hmask by lia.
    assert (E2 : Z.testbit h2 n = Z.testbit h1 n).
    { rewrite Eh. destruct (g =? 0); [reflexivity|].
      rewrite Z.lxor_spec, Z.shiftr_spec by lia.
      rewrite Hgb by lia. rewrite (Hhi (n + 24)) by lia.
      rewrite andb_false_l. apply xorb_false_r. }
    rewrite E2.
    assert (E3 : Z.testbit 4294967295 n = true).
    { assert (n = 28 ∨ n = 29 ∨ n = 30 ∨ n = 31) as [->|[->|[->| ->]]] by lia;
        reflexivity. }
    rewrite E3. destruct (Z.testbit h1 n); reflexivity.
  - (* beyond 32 bits nothing is set *)
    assert (E2 : Z.testbit h2 n = false).
    { rewrite Eh. destruct (g =? 0); [apply Hhi; lia|].
      rewrite Z.lxor_spec, Z.shiftr_spec by lia.
      rewrite Hgb by lia. rewrite (Hhi n), (Hhi (n + 24)) by lia.
      reflexivity. }
    rewrite E2. reflexivity.
Qed.

Lemma elf_hash_from_range (s : list Z) (h : Z) :
  0 ≤ h < 2 ^ 28 → 0 ≤ elf_hash_from h s < 2 ^ 28.
Proof.
  revert h. induction s as [|c s IH]; intros h Hh; simpl; [exact Hh|].
  destruct (c =? 0); [exact Hh|]. apply IH. apply elf_hash_step_range.
Qed.

(** X1.  [elf_hash] clears the four high bits of the 32-bit accumulator in
    every round: the hash of any byte string is below [2^28]. *)
Theorem elf_hash_28_bits :
  ∀ name : list Z, 0 ≤ elf_hash name < 2 ^ 28.
Proof.
  intros name. unfold elf_hash. apply elf_hash_from_range. lia.
Qed.

(** X2.  [elf_to_mmap_prot] translates the three ELF permission bits one
    by one into the three [mmap] bits, whatever else the flag word holds,
    and sets no other bit: a segment is mapped writable only if [PF_W] is
    set, executable only if [PF_X] is set. *)
Theorem elf_to_mmap_prot_bits :
  ∀ flags : Z,
    0 ≤ elf_to_mmap_prot flags < 8 ∧
    (Z.land (elf_to_mmap_prot flags) PROT_READ ≠ 0
       ↔ Z.land flags PF_R ≠ 0) ∧
    (Z.land (elf_to_mmap_prot flags) PROT_WRITE ≠ 0
       ↔ Z.land flags PF_W ≠ 0) ∧
    (Z.land (elf_to_mmap_prot flags) PROT_EXEC ≠ 0
       ↔ Z.land flags PF_X ≠ 0).
Proof.
  intros flags. unfold elf_to_mmap_prot, PF_R, PF_W, PF_X.
  destruct (Z.land flags 4 =? 0) eqn:E4;
    destruct (Z.land flags 2 =? 0) eqn:E2;
    destruct (Z.land flags 1 =? 0) eqn:E1;
    cbn [negb];
    repeat match goal with
           | H : (_ =? _) = true |- _ => apply Z.eqb_eq in H; rewrite H
           | H : (_ =? _) = false |- _ => apply Z.eqb_neq in H
           end;
    (split; [vm_compute; split; [discriminate | reflexivity]|]);
    vm_compute; intuition congruence.
Qed.

(** ** The size of the reservation *)

Lemma load_span_spec (m : memory) (phdr : Z) (cnt : nat) :
  ∀ i mn mx mn' mx',
    load_span cnt m phdr i mn mx = Some (mn', mx') →
    mn' ≤ mn ∧ mx ≤ mx' ∧ (0 ≤ mn → 0 ≤ mn') ∧
    min_load_vaddr cnt m phdr i mn = Some mn' ∧
    (∀ j va msz, i ≤ j < i + Z.of_nat cnt → load_segment m phdr j va msz →
                 mn' ≤ va ∧ u64 (va + msz) ≤ mx') ∧
    (mx' = mx ∨
     ∃ j va msz, i ≤ j < i + Z.of_nat cnt ∧ load_segment m phdr j va msz ∧
                 mx' = u64 (va + msz)) ∧
    ((∀ j, i ≤ j < i + Z.of_nat cnt →
           p_type m (phdr_ptr phdr j) ≠ Some PT_LOAD) →
     mn' = mn ∧ mx' = mx).
Proof.
  induction cnt as [|k IH]; intros i mn mx mn' mx'.
  - cbn [load_span min_load_vaddr]. intros [= <- <-].
    split; [lia|]. split; [lia|]. split; [auto|]. split; [reflexivity|].
    split; [intros; lia|]. split; [left; reflexivity|]. auto.
  - cbn [load_span min_load_vaddr].
    destruct (p_type m (phdr_ptr phdr i)) as [ty|] eqn:Hty;
      osimpl; [|discriminate].
    destruct (Z.eqb_spec ty PT_LOAD) as [->|Hne]; cbn [negb andb].
    + destruct (p_vaddr m (phdr_ptr phdr i)) as [va|] eqn:Hva;
        osimpl; [|discriminate].
      destruct (p_memsz m (phdr_ptr phdr i)) as [msz|] eqn:Hmsz;
        osimpl; [|discriminate].
      intros H. apply IH in H.
      destruct H as (Hmn & Hmx & Hpos & Hmin & Hall & Hsome & _).
      pose proof (read_u64_range _ _ _ Hva) as Rva.
      assert (Hmn1 : mn' ≤ mn ∧ mn' ≤ va)
        by (destruct (va <? mn) eqn:E;
            [apply Z.ltb_lt in E | apply Z.ltb_ge in E]; lia).
      assert (Hmx1 : mx ≤ mx' ∧ u64 (va + msz) ≤ mx')
        by (destruct (mx <? u64 (va + msz)) eqn:E;
            [apply Z.ltb_lt in E | apply Z.ltb_ge in E]; lia).
      split; [lia|]. split; [lia|].
      split; [intros H0; apply Hpos; destruct (va <? mn); lia|].
      split; [exact Hmin|].
      split; [|split].
      * intros j va' msz' Hj Hseg.
        destruct (Z.eq_dec j i) as [->|Hji].
        -- destruct Hseg as (_ & Hv & Hm).
           rewrite Hva in Hv. rewrite Hmsz in Hm.
           injection Hv as <-. injection Hm as <-. lia.
        -- apply (Hall j va' msz'); [lia | exact Hseg].
      * destruct Hsome as [->|(j & va' & msz' & Hj & Hseg & ->)].
        -- destruct (mx <? u64 (va + msz)) eqn:E.
           ++ right. exists i, va, msz.
              split; [lia|]. split; [|reflexivity].
              split; [exact Hty|]. split; [exact Hva | exact Hmsz].
           ++ left. reflexivity.
        -- right. exists j, va', msz'. split; [lia|]. split; auto.
      * intros Hno. exfalso. apply (Hno i); [lia | exact Hty].
    + intros H. apply IH in H.
      destruct H as (Hmn & Hmx & Hpos & Hmin & Hall & Hsome & Hnone).
      split; [lia|]. split; [lia|]. split; [exact Hpos|].
      split; [exact Hmin|].
      split; [|split].
      * intros j va' msz' Hj Hseg.
        destruct (Z.eq_dec j i) as [->|Hji].
        -- destruct Hseg as (Ht & _). rewrite Hty in Ht.
           injection Ht as ->. contradiction.
        -- apply (Hall j va' msz'); [lia | exact Hseg].
      * destruct Hsome as [->|(j & va' & msz' & Hj & Hseg & ->)].
        -- left. reflexivity.
        -- right. exists j, va', msz'. split; [lia|]. split; auto.
      * intros Hno. apply Hnone. intros j Hj. apply Hno. lia.
Qed.

Lemma PAGE_START_spec (x : Z) :
  PAGE_START x mod PAGE_SIZE = 0 ∧ x - PAGE_SIZE < PAGE_START x ≤ x ∧
  (0 ≤ x → 0 ≤ PAGE_START x).
Proof.
  unfold PAGE_START, PAGE_SIZE.
  pose proof (Z.mod_pos_bound x 4096 ltac:(lia)).
  split; [|split; [lia | intros Hx; pose proof (Z.mod_le x 4096 Hx); lia]].
  rewrite (Z.div_mod x 4096) at 1 by lia.
  replace (4096 * (x / 4096) + x mod 4096 - x mod 4096)
    with (x / 4096 * 4096) by lia.
  apply Z.mod_mul. lia.
Qed.

Lemma u64_page_multiple (x : Z) :
  x mod PAGE_SIZE = 0 → u64 x mod PAGE_SIZE = 0.
Proof.
  unfold u64, PAGE_SIZE. intros H.
  replace two64 with (4096 * 4503599627370496) by reflexivity.
  rewrite Z.rem_mul_r by lia.
  rewrite Z.add_mod, H by lia.
  rewrite Z.mul_comm, Z.mod_mul by lia. reflexivity.
Qed.

(** X3.  Whenever [calculate_load_size] returns, the size is a whole
    number of pages below [2^64], and it is zero for a table without a
    [PT_LOAD] header. *)
Theorem calculate_load_size_whole_pages :
  ∀ (m : memory) (phdr phnum sz : Z),
    calculate_load_size m phdr phnum = Some sz →
    0 ≤ sz < two64 ∧ sz mod PAGE_SIZE = 0 ∧
    ((∀ i, 0 ≤ i < phnum → p_type m (phdr_ptr phdr i) ≠ Some PT_LOAD) →
     sz = 0).
Proof.
  intros m phdr phnum sz. unfold calculate_load_size.
  destruct (load_span _ _ _ _ _ _) as [[mn mx]|] eqn:Hspan;
    osimpl; [|discriminate].
  apply load_span_spec in Hspan.
  destruct Hspan as (_ & _ & _ & _ & _ & _ & Hnone).
  destruct (mx <? mn) eqn:E; intros [= <-].
  - split; [unfold two64; lia|]. split; [reflexivity|]. auto.
  - split; [apply u64_range|]. split.
    + apply u64_page_multiple.
      unfold PAGE_END.
      destruct (PAGE_START_spec (u64 (mx + PAGE_SIZE - 1))) as [H1 _].
      destruct (PAGE_START_spec mn) as [H2 _].
      rewrite Zminus_mod, H1, H2. reflexivity.
    + intros Hno.
      assert (Hn : ∀ j, 0 ≤ j < 0 + Z.of_nat (Z.to_nat phnum) →
                        p_type m (phdr_ptr phdr j) ≠ Some PT_LOAD)
        by (intros j Hj; apply Hno; lia).
      destruct (Hnone Hn) as [-> ->]. discriminate E.
Qed.

(** X4.  The reservation covers every loadable segment: when no segment
    ends in the last page of the address space, each [PT_LOAD] range
    [[va, va + msz)] lies between the page start of the smallest [p_vaddr]
    (the address [linker_load] subtracts from the base to get the load
    bias) and that address plus the size [calculate_load_size] returns. *)
Theorem calculate_load_size_covers_segments :
  ∀ (m : memory) (phdr phnum sz : Z),
    calculate_load_size m phdr phnum = Some sz →
    (∀ i va msz, 0 ≤ i < phnum → load_segment m phdr i va msz →
                 va + msz ≤ two64 - PAGE_SIZE) →
    ∃ mn,
      min_load_vaddr (Z.to_nat phnum) m phdr 0 ALL_ONES = Some mn ∧
      ∀ i va msz, 0 ≤ i < phnum → load_segment m phdr i va msz →
                  PAGE_START mn ≤ va ∧ va + msz ≤ PAGE_START mn + sz.
Proof.
  intros m phdr phnum sz. unfold calculate_load_size.
  destruct (load_span _ _ _ _ _ _) as [[mn mx]|] eqn:Hspan;
    osimpl; [|discriminate].
  apply load_span_spec in Hspan.
  destruct Hspan as (_ & Hmx0 & Hpos & Hmin & Hall & Hsome & _).
  assert (Hmn0 : 0 ≤ mn) by (apply Hpos; unfold ALL_ONES, two64; lia).
  intros Hsz Hfit. exists mn. split; [exact Hmin|].
  intros i va msz Hi Hseg.
  assert (Hi' : 0 ≤ i < 0 + Z.of_nat (Z.to_nat phnum)) by lia.
  destruct (Hall i va msz Hi' Hseg) as [Hlo Hhi].
  pose proof (Hfit i va msz Hi Hseg) as Hf.
  assert (Hva : 0 ≤ va < two64)
    by (destruct Hseg as (_ & Hv & _); exact (read_u64_range _ _ _ Hv)).
  assert (Hms : 0 ≤ msz < two64)
    by (destruct Hseg as (_ & _ & Hm); exact (read_u64_range _ _ _ Hm)).
  unfold PAGE_SIZE in *.
  rewrite u64_small in Hhi by (unfold two64 in *; lia).
  assert (Hmxb : 0 ≤ mx ≤ two64 - 4096).
  { destruct Hsome as [->|(j & va' & msz' & Hj & Hseg' & ->)].
    - unfold two64. lia.
    - assert (Hj' : 0 ≤ j < phnum) by lia.
      pose proof (Hfit j va' msz' Hj' Hseg') as Hf'.
      assert (0 ≤ va' < two64)
        by (destruct Hseg' as (_ & Hv & _); exact (read_u64_range _ _ _ Hv)).
      assert (0 ≤ msz' < two64)
        by (destruct Hseg' as (_ & _ & Hm); exact (read_u64_range _ _ _ Hm)).
      rewrite u64_small by (unfold two64 in *; lia). lia. }
  destruct (mx <? mn) eqn:E; [apply Z.ltb_lt in E; lia|].
  apply Z.ltb_ge in E. injection Hsz as <-.
  destruct (PAGE_START_spec mn) as (_ & Hps & Hps0).
  unfold PAGE_SIZE in Hps. specialize (Hps0 Hmn0).
  unfold PAGE_END, PAGE_SIZE.
  rewrite (u64_small (mx + 4096 - 1)) by (unfold two64 in *; lia).
  destruct (PAGE_START_spec (mx + 4096 - 1)) as (_ & Hpe & _).
  unfold PAGE_SIZE in Hpe.
  rewrite u64_small by (unfold two64 in *; lia).
  lia.
Qed.

(** ** The dynamic section *)

Lemma si_with_dyn_unknown (si : soinfo) (tag v v' : Z) :
  dyn_tag_known tag = false → si_with_dyn si tag v = si_with_dyn si tag v'.
Proof.
  unfold dyn_tag_known. cbn [existsb]. intros H.
  repeat (apply orb_false_elim in H; destruct H as [?E H]).
  unfold si_with_dyn. destruct si.
  rewrite E, E0, E1, E2, E3, E4, E5, E6, E7, E8, E9, E10, E11, E12, E13.
  reflexivity.
Qed.

Lemma dyn_walk_entries (m : memory) (entries : list (Z * Z)) :
  ∀ (fuel : nat) (d : Z) (si : soinfo),
    dyn_at m d entries →
    0 ≤ d → d + sizeof_Dyn * (Z.of_nat (length entries) + 1) ≤ two64 →
    (length entries < fuel)%nat →
    dyn_walk fuel m d si = Some (dyn_apply si entries).
Proof.
  unfold sizeof_Dyn.
  induction entries as [|[t v] es IH]; intros fuel d si Hat Hd Hend Hfuel.
  - destruct fuel as [|f]; [simpl in Hfuel; lia|].
    cbn [dyn_at] in Hat. cbn [dyn_walk]. rewrite Hat. osimpl.
    reflexivity.
  - destruct fuel as [|f]; [simpl in Hfuel; lia|].
    cbn [dyn_at] in Hat. destruct Hat as (Ht & Hrt & Hrv & Hrest).
    cbn [dyn_walk]. rewrite Hrt. osimpl.
    apply Z.eqb_neq in Ht. rewrite Ht.
    cbn [length] in Hend, Hfuel.
    assert (Hp : padd d sizeof_Dyn = d + 16).
    { unfold padd, sizeof_Dyn. apply u64_small. unfold two64 in *. lia. }
    unfold dyn_apply. cbn [fold_left fst snd].
    destruct (dyn_tag_known t) eqn:Hk.
    + rewrite Hrv. osimpl. rewrite Hp.
      apply IH; [exact Hrest | lia | unfold sizeof_Dyn in *; lia | lia].
    + osimpl. rewrite Hp.
      rewrite (si_with_dyn_unknown si t 0 v Hk).
      apply IH; [exact Hrest | lia | unfold sizeof_Dyn in *; lia | lia].
Qed.

(** X5.  [parse_dynamic] walks the dynamic section up to its first
    [DT_NULL] and applies the entries in order, so a later entry with the
    same tag overrides an earlier one; it returns 0 and leaves the state
    alone if the record then has a symbol table and a string table, and
    returns -1 with the error set otherwise.  Given enough fuel for the
    entries, the walk does return. *)
Theorem parse_dynamic_applies_entries :
  ∀ (fuel : nat) (w : world) (si : soinfo) (entries : list (Z * Z)),
    si_dynamic si ≠ NULL →
    dyn_at (w_mem w) (si_dynamic si) entries →
    0 ≤ si_dynamic si →
    si_dynamic si + sizeof_Dyn * (Z.of_nat (length entries) + 1) ≤ two64 →
    (length entries < fuel)%nat →
    parse_dynamic fuel w si
    = if (si_symtab (dyn_apply si entries) =? NULL)
         || (si_strtab (dyn_apply si entries) =? NULL)
      then Some (-1, dyn_apply si entries,
                 linker_set_error "Missing symbol table or string table" w)
      else Some (0, dyn_apply si entries, w).
Proof.
  intros fuel w si entries Hnn Hat Hd Hend Hfuel.
  unfold parse_dynamic. apply Z.eqb_neq in Hnn. rewrite Hnn.
  rewrite (dyn_walk_entries _ entries fuel _ si Hat Hd Hend Hfuel).
  osimpl. reflexivity.
Qed.

(** ** Constructors *)

Lemma init_array_loop_exact (cnt : nat) :
  ∀ (w : world) (arr i : Z) (w' : world),
    init_array_loop cnt w arr i = Some w' →
    ∃ entries,
      length entries = cnt ∧
      (∀ (k : nat) (e : Z), entries !! k = Some e →
         read_u64 (w_mem w) (padd arr (8 * (i + Z.of_nat k))) = Some e) ∧
      w' = set_calls (w_calls w ++ List.filter is_valid_func_ptr entries) w.
Proof.
  induction cnt as [|k IH]; intros w arr i w'; cbn [init_array_loop]; osimpl.
  - intros [= <-]. exists []. split; [reflexivity|]. split.
    + intros j e Hj. destruct j; discriminate.
    + cbn [List.filter]. rewrite app_nil_r. destruct w; reflexivity.
  - destruct (read_u64 (w_mem w) _) as [f|] eqn:Hf; osimpl; [|discriminate].
    intros H. apply IH in H as (entries & Hlen & Harr & Hw').
    assert (Hmem : w_mem (if is_valid_func_ptr f then call_fn f w else w)
                   = w_mem w) by (destruct (is_valid_func_ptr f); reflexivity).
    rewrite Hmem in Harr.
    exists (f :: entries). split; [simpl; lia|]. split.
    + intros j e Hj. destruct j as [|j].
      * injection Hj as <-. replace (i + Z.of_nat 0) with i by lia. exact Hf.
      * replace (i + Z.of_nat (S j)) with (i + 1 + Z.of_nat j) by lia.
        apply Harr. exact Hj.
    + rewrite Hw'. cbn [List.filter].
      destruct (is_valid_func_ptr f); wunfold;
        rewrite <- ?app_assoc; destruct w; reflexivity.
Qed.

(** X6.  [linker_call_constructors] of a live record calls [DT_INIT]
    first, if it is a valid pointer, and then the valid entries of
    [init_array] in ascending index order; it calls nothing else and is
    never led to the null or the all-ones address; apart from the calls
    the state is left alone. *)
Theorem constructors_run_in_order :
  ∀ (p : Z) (w w' : world),
    linker_call_constructors p w = Some w' → p ≠ NULL →
    ∃ si entries,
      w_soinfos w !! p = Some si ∧
      length entries
        = (if negb (si_init_array si =? NULL)
              && (0 <? si_init_array_count si)
           then Z.to_nat (si_init_array_count si) else 0%nat) ∧
      array_at (w_mem w) (si_init_array si) entries ∧
      w' = set_calls (w_calls w ++ constructor_calls si entries) w ∧
      Forall (λ f, f ≠ NULL ∧ f ≠ ALL_ONES) (constructor_calls si entries).
Proof.
  intros p w w' H Hp. revert H. unfold linker_call_constructors.
  apply Z.eqb_neq in Hp. rewrite Hp.
  destruct (w_soinfos w !! p) as [si|] eqn:Hsi; osimpl; [|discriminate].
  intros H.
  assert (Hvalid : ∀ entries,
            Forall (λ f, f ≠ NULL ∧ f ≠ ALL_ONES)
                   (constructor_calls si entries)).
  { intros entries. unfold constructor_calls. apply Forall_app. split.
    - destruct (is_valid_func_ptr (si_init_func si)) eqn:E;
        [|constructor].
      constructor; [|constructor]. unfold is_valid_func_ptr in E.
      apply negb_true_iff, orb_false_elim in E as [E1 E2].
      split; apply Z.eqb_neq; assumption.
    - apply Forall_forall. intros f Hf.
      apply list_elem_of_In, filter_In in Hf as [_ E].
      unfold is_valid_func_ptr in E.
      apply negb_true_iff, orb_false_elim in E as [E1 E2].
      split; apply Z.eqb_neq; assumption. }
  exists si.
  destruct (negb (si_init_array si =? NULL) && (0 <? si_init_array_count si)).
  - apply init_array_loop_exact in H as (entries & Hlen & Harr & ->).
    assert (Hmem : w_mem (if is_valid_func_ptr (si_init_func si)
                          then call_fn (si_init_func si) w else w)
                   = w_mem w)
      by (destruct (is_valid_func_ptr (si_init_func si)); reflexivity).
    rewrite Hmem in Harr.
    exists entries. split; [reflexivity|]. split; [exact Hlen|]. split.
    { intros k e Hk. specialize (Harr k e Hk).
      replace (0 + Z.of_nat k) with (Z.of_nat k) in Harr by lia.
      exact Harr. }
    split; [|apply Hvalid].
    unfold constructor_calls.
    destruct (is_valid_func_ptr (si_init_func si)); wunfold;
      rewrite <- ?app_assoc; reflexivity.
  - injection H as <-. exists []. split; [reflexivity|].
    split; [reflexivity|]. split.
    { intros k e Hk. destruct k; discriminate. }
    split; [|apply Hvalid].
    unfold constructor_calls. cbn [List.filter].
    destruct (is_valid_func_ptr (si_init_func si)); wunfold;
      rewrite ?app_nil_r; destruct w; reflexivity.
Qed.

(** ** The dl* front once more *)

Lemma linker_unload_same_error (p : Z) (w w' : world) :
  linker_unload p w = Some w' → same_error w w'.
Proof.
  unfold linker_unload. destruct (p =? NULL) eqn:Hp.
  { intros [= <-]. split; reflexivity. }
  apply Z.eqb_neq in Hp.
  destruct (w_soinfos w !! p) as [si|] eqn:Hsi; osimpl; [|discriminate].
  destruct (si_ref_count si <=? -2147483648); [discriminate|].
  destruct (0 <? _).
  { intros [= <-]. split; reflexivity. }
  destruct (linker_call_destructors p _) as [w2|] eqn:Hd;
    osimpl; [|discriminate].
  eapply linker_call_destructors_calls in Hd;
    [|exact Hp | wunfold; apply lookup_insert_eq].
  destruct Hd as (entries & _ & _ & ->).
  intros [= <-].
  destruct (negb _); split; reflexivity.
Qed.

(** X7.  [mini_dlclose] reports failure for the null handle only: for any
    other handle it returns 0, whether the module stayed loaded or was
    unloaded, the state it leaves is the one [linker_unload] leaves, and
    the error slot is as it was. *)
Theorem dlclose_live_handle_returns_zero :
  ∀ (handle r : Z) (w w' : world),
    mini_dlclose handle w = Some (r, w') → handle ≠ NULL →
    r = 0 ∧ linker_unload handle w = Some w' ∧ same_error w w'.
Proof.
  intros handle r w w' H Hh. revert H. unfold mini_dlclose.
  apply Z.eqb_neq in Hh. rewrite Hh.
  destruct (linker_unload handle w) as [w1|] eqn:Hu; osimpl; [|discriminate].
  intros [= <- <-]. split; [reflexivity|]. split; [reflexivity|].
  exact (linker_unload_same_error _ _ _ Hu).
Qed.

(** X8.  A [mini_dlsym] that finds the symbol changes nothing: the state
    is returned as it was, so an error left by an earlier call is still
    pending afterwards. *)
Theorem dlsym_success_keeps_state :
  ∀ (host_dlsym : list Z -> Z) (fuel : nat) (handle : Z)
    (symbol : option string) (a : Z) (w w' : world),
    mini_dlsym host_dlsym fuel handle symbol w = Some (a, w') →
    a ≠ NULL →
    w' = w ∧ mini_dlerror w' = mini_dlerror w.
Proof.
  intros host_dlsym fuel handle symbol a w w' H Ha.
  assert (E : w' = w); [|split; [exact E | rewrite E; reflexivity]].
  revert H. unfold mini_dlsym.
  destruct symbol as [symbol|]; [|intros [= <- _]; contradiction].
  destruct (handle =? NULL).
  { destruct (linker_find_global_symbol _ _ _ _) as [addr|];
      osimpl; [|discriminate].
    destruct (addr =? NULL) eqn:E; intros [= <- <-]; [|reflexivity].
    apply Z.eqb_eq in E. contradiction. }
  destruct (handle =? ALL_ONES); [intros [= <- _]; contradiction|].
  destruct (w_soinfos w !! handle) as [si|]; osimpl; [|discriminate].
  destruct (linker_find_symbol _ _ _ _) as [addr|]; osimpl; [|discriminate].
  destruct (addr =? NULL) eqn:E; intros [= <- <-]; [|reflexivity].
  apply Z.eqb_eq in E. contradiction.
Qed.

(** ** The ELF file view *)

Lemma elf_validate_header_spec (m : memory) (eh r : Z) :
  elf_validate_header m eh = Some r →
  (r = 0 ∨ r = -1) ∧ (r = 0 ↔ valid_header m eh).
Proof.
  revert m eh r.
  intros m eh r. unfold elf_validate_header, valid_header.
  repeat match goal with
  | |- (?x ≫= _) = _ → _ =>
      let v := fresh "v" in let E := fresh "E" in
      destruct x as [v|] eqn:E; osimpl; [|discriminate];
      let T := fresh "T" in
      match goal with
      | |- (if negb (v =? ?c) then _ else _) = _ → _ =>
          destruct (Z.eqb_spec v c) as [->|T]; cbn [negb];
          [|intros [= <-]; split; [right; reflexivity|];
            split; [discriminate|]; intros H; exfalso;
            decompose [and or] H; congruence]
      | |- (if negb (v =? 3) && negb (v =? 2) then _ else _) = _ → _ =>
          destruct (Z.eqb_spec v 3) as [->|T]; cbn [negb andb];
          [|let T2 := fresh "T" in
            destruct (Z.eqb_spec v 2) as [->|T2]; cbn [negb];
            [|intros [= <-]; split; [right; reflexivity|];
              split; [discriminate|]; intros H; exfalso;
              decompose [and or] H; congruence]]
      end
  end;
  intros [= <-]; (split; [left; reflexivity|]);
  (split; [intros _|reflexivity]); repeat split; auto.
Qed.

(** X10.  [elf_validate_header] returns 0 or -1, and 0 exactly for a
    header that starts with the four magic bytes, is of the 64-bit class
    and little-endian, has type [ET_DYN] or [ET_EXEC] and machine
    [EM_X86_64]. *)
Theorem elf_validate_header_accepts :
  ∀ (m : memory) (eh r : Z),
    elf_validate_header m eh = Some r →
    (r = 0 ∨ r = -1) ∧ (r = 0 ↔ valid_header m eh).
Proof.
  intros m eh r H. split.
  - apply (elf_validate_header_spec m eh r H).
  - apply (elf_validate_header_spec m eh r H).
Qed.

Lemma find_phdr_loop_spec (m : memory) (phdr type : Z) (cnt : nat) :
  ∀ (i p : Z),
    find_phdr_loop cnt m phdr i type = Some p →
    (p = NULL ∧
     ∀ j, i ≤ j < i + Z.of_nat cnt →
          ∃ ty, p_type m (phdr_ptr phdr j) = Some ty ∧ ty ≠ type) ∨
    (∃ k, i ≤ k < i + Z.of_nat cnt ∧ p = phdr_ptr phdr k ∧
          p_type m p = Some type ∧
          ∀ j, i ≤ j < k →
               ∃ ty, p_type m (phdr_ptr phdr j) = Some ty ∧ ty ≠ type).
Proof.
  induction cnt as [|n IH]; intros i p; cbn [find_phdr_loop].
  - intros [= <-]. left. split; [reflexivity|]. intros; lia.
  - destruct (p_type m (phdr_ptr phdr i)) as [ty|] eqn:Hty;
      osimpl; [|discriminate].
    destruct (Z.eqb_spec ty type) as [->|Hne].
    + intros [= <-]. right. exists i. split; [lia|].
      split; [reflexivity|]. split; [exact Hty|]. intros; lia.
    + intros H. apply IH in H.
      assert (Hi : ∀ j, i ≤ j < i + 1 →
                ∃ ty, p_type m (phdr_ptr phdr j) = Some ty ∧ ty ≠ type).
      { intros j Hj. replace j with i by lia. exists ty. auto. }
      destruct H as [[-> Hall]|(k & Hk & -> & Hp & Hbefore)].
      * left. split; [reflexivity|]. intros j Hj.
        destruct (Z_lt_le_dec j (i + 1)); [apply Hi | apply Hall]; lia.
      * right. exists k. split; [lia|]. split; [reflexivity|].
        split; [exact Hp|]. intros j Hj.
        destruct (Z_lt_le_dec j (i + 1)); [apply Hi | apply Hbefore]; lia.
Qed.

(** X11.  [elf_find_phdr] returns the first program header of the type
    asked for: the header it points to has that type and every header
    before it has another one; it returns [NULL] when the file has no
    program header table or none of its [e_phnum] headers has the type. *)
Theorem elf_find_phdr_first_match :
  ∀ (m : memory) (elf : elf_file) (type p : Z),
    elf_find_phdr m elf type = Some p →
    (elf_phdr elf = NULL ∧ p = NULL) ∨
    ∃ n, e_phnum m (elf_ehdr elf) = Some n ∧
      ((p = NULL ∧
        ∀ j, 0 ≤ j < n →
             ∃ ty, p_type m (phdr_ptr (elf_phdr elf) j) = Some ty ∧
                   ty ≠ type) ∨
       (∃ k, 0 ≤ k < n ∧ p = phdr_ptr (elf_phdr elf) k ∧
             p_type m p = Some type ∧
             ∀ j, 0 ≤ j < k →
                  ∃ ty, p_type m (phdr_ptr (elf_phdr elf) j) = Some ty ∧
                        ty ≠ type)).
Proof.
  intros m elf type p. unfold elf_find_phdr.
  destruct (Z.eqb_spec (elf_phdr elf) NULL) as [E|E].
  { intros [= <-]. left. auto. }
  destruct (e_phnum m (elf_ehdr elf)) as [n|] eqn:Hn; osimpl; [|discriminate].
  intros H. right. exists n. split; [reflexivity|].
  pose proof (read_le_range 2 _ _ _ Hn) as Rn.
  apply find_phdr_loop_spec in H.
  destruct H as [[-> Hall]|(k & Hk & -> & Hp & Hbefore)].
  - left. split; [reflexivity|]. intros j Hj. apply Hall. lia.
  - right. exists k. split; [lia|]. split; [reflexivity|].
    split; [exact Hp|]. intros j Hj. apply Hbefore. lia.
Qed.

Lemma find_section_loop_spec (m : memory) (shdr shstrtab : Z)
    (name : list Z) (cnt : nat) :
  ∀ (i p : Z),
    find_section_loop cnt m shdr shstrtab i name = Some p →
    (p = NULL ∧
     ∀ j, i ≤ j < i + Z.of_nat cnt →
          ∃ nm, sh_name m (shdr_ptr shdr j) = Some nm ∧
                strcmp_eq m (padd shstrtab nm) name = Some false) ∨
    (∃ k nm, i ≤ k < i + Z.of_nat cnt ∧ p = shdr_ptr shdr k ∧
             sh_name m p = Some nm ∧
             cstr_at m (padd shstrtab nm) (c_bytes name) ∧
             ∀ j, i ≤ j < k →
                  ∃ nm', sh_name m (shdr_ptr shdr j) = Some nm' ∧
                         strcmp_eq m (padd shstrtab nm') name = Some false).
Proof.
  induction cnt as [|n IH]; intros i p; cbn [find_section_loop].
  - intros [= <-]. left. split; [reflexivity|]. intros; lia.
  - destruct (sh_name m (shdr_ptr shdr i)) as [nm|] eqn:Hnm;
      osimpl; [|discriminate].
    destruct (strcmp_eq m (padd shstrtab nm) name) as [[|]|] eqn:Hcmp;
      osimpl; [| |discriminate].
    + intros [= <-]. right. exists i, nm. split; [lia|].
      split; [reflexivity|]. split; [exact Hnm|].
      split; [apply strcmp_eq_true; exact Hcmp|]. intros; lia.
    + intros H. apply IH in H.
      assert (Hi : ∀ j, i ≤ j < i + 1 →
                ∃ nm', sh_name m (shdr_ptr shdr j) = Some nm' ∧
                       strcmp_eq m (padd shstrtab nm') name = Some false).
      { intros j Hj. replace j with i by lia. exists nm. auto. }
      destruct H as [[-> Hall]|(k & nm' & Hk & -> & Hp & Hs & Hbefore)].
      * left. split; [reflexivity|]. intros j Hj.
        destruct (Z_lt_le_dec j (i + 1)); [apply Hi | apply Hall]; lia.
      * right. exists k, nm'. split; [lia|]. split; [reflexivity|].
        split; [exact Hp|]. split; [exact Hs|]. intros j Hj.
        destruct (Z_lt_le_dec j (i + 1)); [apply Hi | apply Hbefore]; lia.
Qed.

(** X12.  [elf_find_section] returns the first section header whose
    name, read in the section name table at its [sh_name], is the string
    asked for; it returns [NULL] when the file has no section header table
    or no section name table, or when each of the [e_shnum] sections has
    another name. *)
Theorem elf_find_section_first_match :
  ∀ (m : memory) (elf : elf_file) (name : list Z) (p : Z),
    elf_find_section m elf name = Some p →
    ((elf_shdr elf = NULL ∨ elf_shstrtab elf = NULL) ∧ p = NULL) ∨
    ∃ n, e_shnum m (elf_ehdr elf) = Some n ∧
      ((p = NULL ∧
        ∀ j, 0 ≤ j < n →
             ∃ nm, sh_name m (shdr_ptr (elf_shdr elf) j) = Some nm ∧
                   strcmp_eq m (padd (elf_shstrtab elf) nm) name
                     = Some false) ∨
       (∃ k nm, 0 ≤ k < n ∧ p = shdr_ptr (elf_shdr elf) k ∧
                sh_name m p = Some nm ∧
                cstr_at m (padd (elf_shstrtab elf) nm) (c_bytes name) ∧
                ∀ j, 0 ≤ j < k →
                     ∃ nm', sh_name m (shdr_ptr (elf_shdr elf) j)
                              = Some nm' ∧
                            strcmp_eq m (padd (elf_shstrtab elf) nm') name
                              = Some false)).
Proof.
  intros m elf name p. unfold elf_find_section.
  destruct (Z.eqb_spec (elf_shdr elf) NULL) as [E|E]; cbn [orb].
  { intros [= <-]. left. auto. }
  destruct (Z.eqb_spec (elf_shstrtab elf) NULL) as [E'|E'].
  { intros [= <-]. left. auto. }
  destruct (e_shnum m (elf_ehdr elf)) as [n|] eqn:Hn; osimpl; [|discriminate].
  intros H. right. exists n. split; [reflexivity|].
  pose proof (read_le_range 2 _ _ _ Hn) as Rn.
  apply find_section_loop_spec in H.
  destruct H as [[-> Hall]|(k & nm & Hk & -> & Hp & Hs & Hbefore)].
  - left. split; [reflexivity|]. intros j Hj. apply Hall. lia.
  - right. exists k, nm. split; [lia|]. split; [reflexivity|].
    split; [exact Hp|]. split; [exact Hs|]. intros j Hj. apply Hbefore. lia.
Qed.

(** X13.  [elf_open] returns 0 or -1, and 0 only on a file whose mapped
    bytes start with a valid header; the view then starts at the mapping,
    is as long as the file, and the table pointers are the mapping plus
    the offsets found in the header, or [NULL] for an offset of zero. *)
Theorem elf_open_valid_view :
  ∀ (fs : string -> list Z) (sys_open : world -> string -> Z)
    (sys_fstat sys_mmap : world -> Z -> Z) (path : string) (w : world)
    (r : Z) (elf : elf_file) (w1 : world),
    elf_open fs sys_open sys_fstat sys_mmap path w = Some (r, elf, w1) →
    (r = 0 ∨ r = -1) ∧
    (r = 0 →
     valid_header (w_mem w1) (elf_ehdr elf) ∧
     elf_ehdr elf = elf_map_start elf ∧
     elf_map_size elf = Z.of_nat (length (fs path)) ∧
     ∃ phoff shoff,
       e_phoff (w_mem w1) (elf_ehdr elf) = Some phoff ∧
       e_shoff (w_mem w1) (elf_ehdr elf) = Some shoff ∧
       elf_phdr elf
         = (if phoff =? 0 then NULL else padd (elf_map_start elf) phoff) ∧
       elf_shdr elf
         = (if shoff =? 0 then NULL else padd (elf_map_start elf) shoff) ∧
       (shoff = 0 → elf_shstrtab elf = NULL)).
Proof.
  intros fs sys_open sys_fstat sys_mmap path w r elf w1. unfold elf_open.
  destruct (do_open sys_open path w) as [[fd wa]|]; osimpl; [|discriminate].
  destruct (fd <? 0).
  { intros [= <- <- <-]. split; [right; reflexivity | discriminate]. }
  destruct (sys_fstat wa fd <? 0).
  { intros [= <- <- <-]. split; [right; reflexivity | discriminate]. }
  match goal with
  | |- (?x ≫= _) = _ → _ =>
      destruct x as [[ms wb]|]; osimpl; [|discriminate]
  end.
  destruct (ms =? MAP_FAILED).
  { intros [= <- <- <-]. split; [right; reflexivity | discriminate]. }
  destruct (elf_validate_header (w_mem wb) ms) as [ok|] eqn:Hv;
    osimpl; [|discriminate].
  apply elf_validate_header_spec in Hv as [Hok Hvalid].
  destruct (ok <? 0) eqn:Hneg.
  { intros [= <- <- <-]. split; [right; reflexivity | discriminate]. }
  assert (ok = 0) as -> by (apply Z.ltb_ge in Hneg; lia).
  destruct (e_phoff (w_mem wb) ms) as [phoff|] eqn:Hph;
    osimpl; [|discriminate].
  destruct (e_shoff (w_mem wb) ms) as [shoff|] eqn:Hsh;
    osimpl; [|discriminate].
  destruct (Z.eqb_spec shoff 0) as [->|Hs0]; cbn [negb]; osimpl.
  - intros [= <- <- <-]. split; [left; reflexivity|]. intros _.
    cbn [elf_ehdr elf_map_start elf_map_size elf_phdr elf_shdr elf_shstrtab].
    split; [apply Hvalid; reflexivity|]. split; [reflexivity|].
    split; [reflexivity|]. exists phoff, 0.
    split; [exact Hph|]. split; [exact Hsh|].
    split; [destruct (phoff =? 0); reflexivity|].
    split; reflexivity.
  - destruct (e_shstrndx (w_mem wb) ms) as [ndx|]; osimpl; [|discriminate].
    assert (Hfin :
      ∀ shstr, (0, ElfFile fd ms (Z.of_nat (length (fs path))) ms
                     (if negb (phoff =? 0) then padd ms phoff else NULL)
                     (padd ms shoff) shstr, wb) = (r, elf, w1) →
        (r = 0 ∨ r = -1) ∧
        (r = 0 →
         valid_header (w_mem w1) (elf_ehdr elf) ∧
         elf_ehdr elf = elf_map_start elf ∧
         elf_map_size elf = Z.of_nat (length (fs path)) ∧
         ∃ phoff shoff,
           e_phoff (w_mem w1) (elf_ehdr elf) = Some phoff ∧
           e_shoff (w_mem w1) (elf_ehdr elf) = Some shoff ∧
           elf_phdr elf
             = (if phoff =? 0 then NULL else padd (elf_map_start elf) phoff) ∧
           elf_shdr elf
             = (if shoff =? 0 then NULL else padd (elf_map_start elf) shoff) ∧
           (shoff = 0 → elf_shstrtab elf = NULL))).
    { intros shstr [= <- <- <-]. split; [left; reflexivity|]. intros _.
      cbn [elf_ehdr elf_map_start elf_map_size elf_phdr elf_shdr
           elf_shstrtab].
      split; [apply Hvalid; reflexivity|]. split; [reflexivity|].
      split; [reflexivity|]. exists phoff, shoff.
      split; [exact Hph|]. split; [exact Hsh|].
      split; [destruct (phoff =? 0); reflexivity|].
      apply Z.eqb_neq in Hs0. rewrite Hs0.
      split; [reflexivity | intros ->; discriminate]. }
    destruct (negb (ndx =? SHN_UNDEF)); osimpl.
    + destruct (read_u64 (w_mem wb) _) as [so|]; osimpl; [|discriminate].
      intros E. apply (Hfin (padd ms so)). congruence.
    + intros E. apply (Hfin NULL). congruence.
Qed.

(** X14.  [elf_open] and [elf_close] are balanced: an [elf_open] that
    fails has closed the descriptor and removed the mapping it made, and
    after a successful one [elf_close] leaves the descriptors and the
    mapped regions exactly as they were before [elf_open]; neither touches
    the registry, the records or the error slot. *)
Theorem elf_open_close_balanced :
  ∀ (fs : string -> list Z) (sys_open : world -> string -> Z)
    (sys_fstat sys_mmap : world -> Z -> Z) (path : string) (w : world)
    (r : Z) (elf : elf_file) (w1 : world),
    elf_open fs sys_open sys_fstat sys_mmap path w = Some (r, elf, w1) →
    (r < 0 → same_resources w w1 ∧ same_error w w1) ∧
    (r = 0 → same_resources w (elf_close elf w1) ∧
             same_error w (elf_close elf w1)).
Proof.
  intros fs sys_open sys_fstat sys_mmap path w r elf w1 H.
  apply elf_open_spec in H.
  destruct H as [(Hr & Hres & Herr)|(-> & Hop)].
  - split; [auto | intros ->; lia].
  - split; [intros; lia|]. intros _.
    destruct Hop as (Hfd & Hfresh & Hnn & Hnf & Hrf & Hreg & Hfds & Hso
                     & Hl & Hc & He).
    destruct (elf_close_spec elf w1 Hfd Hnn Hnf)
      as (Cr & Cf & Cs & Cl & Cc & Ce).
    split.
    + unfold same_resources. rewrite Cr, Cf, Cs, Cl, Cc, Hreg, Hfds.
      split; [apply delete_insert_id; exact Hrf|].
      split; [apply delete_insert_id; exact Hfresh|]. auto.
    + eapply same_error_trans; [exact He | exact Ce].
Qed.

(** ** The extra properties on sample inputs *)

Lemma opened_eta (o : option (Z * elf_file * world)) (r : Z) :
  option_map (λ x, x.1.1) o = Some r →
  o = Some (r, Sample.elf_of o, Demo.world_of o).
Proof.
  destruct o as [[[r' e] w]|]; simpl; [intros [= ->]; reflexivity|].
  discriminate.
Qed.

Lemma sample_opened :
  elf_open Demo.fs Demo.sys_open Demo.sys_fstat Demo.sys_mmap
           "libdemo.so" Demo.w0
  = Some (0, Sample.elf, Sample.wv).
Proof.
  refine (opened_eta Sample.opened 0 _). vm_compute. reflexivity.
Defined.

Lemma calculate_load_size_whole_pages_witness :
  0 ≤ 8192 < two64 ∧ 8192 mod PAGE_SIZE = 0 ∧
  ((∀ i, 0 ≤ i < 2 →
         p_type (w_mem Sample.wv) (phdr_ptr (elf_phdr Sample.elf) i)
           ≠ Some PT_LOAD) →
   8192 = 0).
Proof.
  refine (calculate_load_size_whole_pages (w_mem Sample.wv)
            (elf_phdr Sample.elf) 2 8192 _).
  vm_compute. reflexivity.
Defined.

Lemma calculate_load_size_covers_segments_witness :
  ∃ mn,
    min_load_vaddr (Z.to_nat 2) (w_mem Sample.wv) (elf_phdr Sample.elf) 0
                   ALL_ONES = Some mn ∧
    ∀ i va msz, 0 ≤ i < 2 →
      load_segment (w_mem Sample.wv) (elf_phdr Sample.elf) i va msz →
      PAGE_START mn ≤ va ∧ va + msz ≤ PAGE_START mn + 8192.
Proof.
  refine (calculate_load_size_covers_segments (w_mem Sample.wv)
            (elf_phdr Sample.elf) 2 8192 _ _).
  - vm_compute. reflexivity.
  - intros i va msz Hi (Ht & Hv & Hm).
    assert (i = 0 ∨ i = 1) as [-> | ->] by lia.
    + vm_compute in Hv. vm_compute in Hm.
      injection Hv as <-. injection Hm as <-. vm_compute. discriminate.
    + vm_compute in Ht. discriminate.
Defined.

Lemma parse_dynamic_applies_entries_witness :
  parse_dynamic 64 Sample.wv Sample.si_view
  = if (si_symtab (dyn_apply Sample.si_view Sample.dynamic) =? NULL)
       || (si_strtab (dyn_apply Sample.si_view Sample.dynamic) =? NULL)
    then Some (-1, dyn_apply Sample.si_view Sample.dynamic,
               linker_set_error "Missing symbol table or string table"
                                Sample.wv)
    else Some (0, dyn_apply Sample.si_view Sample.dynamic, Sample.wv).
Proof.
  refine (parse_dynamic_applies_entries 64 Sample.wv Sample.si_view
            Sample.dynamic _ _ _ _ _).
  - vm_compute. discriminate.
  - vm_compute. repeat split; try reflexivity; discriminate.
  - vm_compute. discriminate.
  - vm_compute. discriminate.
  - vm_compute. repeat constructor.
Defined.

Lemma constructors_run_in_order_witness :
  linker_call_constructors Sample.p Sample.wc
    = Some (set_calls [8300; 8192; 8200] Sample.wc) ∧
  ∃ si entries,
    w_soinfos Sample.wc !! Sample.p = Some si ∧
    length entries
      = (if negb (si_init_array si =? NULL)
            && (0 <? si_init_array_count si)
         then Z.to_nat (si_init_array_count si) else 0%nat) ∧
    array_at (w_mem Sample.wc) (si_init_array si) entries ∧
    set_calls [8300; 8192; 8200] Sample.wc
      = set_calls (w_calls Sample.wc ++ constructor_calls si entries)
                  Sample.wc ∧
    Forall (λ f, f ≠ NULL ∧ f ≠ ALL_ONES) (constructor_calls si entries).
Proof.
  assert (H : linker_call_constructors Sample.p Sample.wc
              = Some (set_calls [8300; 8192; 8200] Sample.wc))
    by (vm_compute; reflexivity).
  split; [exact H|].
  refine (constructors_run_in_order Sample.p Sample.wc _ H _).
  vm_compute. discriminate.
Defined.

Lemma dlclose_live_handle_returns_zero_witness :
  0 = 0 ∧
  linker_unload Demo.h1 Demo.w1
    = Some (World ∅ ∅ ∅ ∅ [] EmptyString false
                  [139637978825728; 139637978825776; 139637978825808;
                   139637978825792; 139637978825744]) ∧
  same_error Demo.w1
    (World ∅ ∅ ∅ ∅ [] EmptyString false
           [139637978825728; 139637978825776; 139637978825808;
            139637978825792; 139637978825744]).
Proof.
  refine (dlclose_live_handle_returns_zero Demo.h1 0 Demo.w1 _ _ _).
  - vm_compute. reflexivity.
  - vm_compute. discriminate.
Defined.

Lemma dlsym_success_keeps_state_witness :
  Demo.world_of (demo_dlsym Demo.h1 (Some "add"%string) Demo.w1) = Demo.w1 ∧
  mini_dlerror
    (Demo.world_of (demo_dlsym Demo.h1 (Some "add"%string) Demo.w1))
  = mini_dlerror Demo.w1.
Proof.
  refine (dlsym_success_keeps_state Demo.host_dlsym Demo.fuel Demo.h1
            (Some "add"%string) 139637978825760 Demo.w1 _ _ _).
  - refine (result_eta (demo_dlsym Demo.h1 (Some "add"%string) Demo.w1)
                       139637978825760 _).
    vm_compute. reflexivity.
  - vm_compute. discriminate.
Defined.

Lemma elf_validate_header_accepts_witness :
  (0 = 0 ∨ 0 = -1) ∧
  (0 = 0 ↔ valid_header (w_mem Sample.wv) (elf_ehdr Sample.elf)).
Proof.
  refine (elf_validate_header_accepts (w_mem Sample.wv)
            (elf_ehdr Sample.elf) 0 _).
  vm_compute. reflexivity.
Defined.

Lemma elf_find_phdr_first_match_witness :
  (elf_phdr Sample.elf = NULL ∧ 139637977776248 = NULL) ∨
  ∃ n, e_phnum (w_mem Sample.wv) (elf_ehdr Sample.elf) = Some n ∧
    ((139637977776248 = NULL ∧
      ∀ j, 0 ≤ j < n →
           ∃ ty, p_type (w_mem Sample.wv)
                        (phdr_ptr (elf_phdr Sample.elf) j) = Some ty ∧
                 ty ≠ PT_DYNAMIC) ∨
     (∃ k, 0 ≤ k < n ∧
           139637977776248 = phdr_ptr (elf_phdr Sample.elf) k ∧
           p_type (w_mem Sample.wv) 139637977776248 = Some PT_DYNAMIC ∧
           ∀ j, 0 ≤ j < k →
                ∃ ty, p_type (w_mem Sample.wv)
                             (phdr_ptr (elf_phdr Sample.elf) j) = Some ty ∧
                      ty ≠ PT_DYNAMIC)).
Proof.
  refine (elf_find_phdr_first_match (w_mem Sample.wv) Sample.elf
            PT_DYNAMIC 139637977776248 _).
  vm_compute. reflexivity.
Defined.

Lemma elf_find_section_first_match_witness :
  ((elf_shdr Sample.elf_sec = NULL ∨ elf_shstrtab Sample.elf_sec = NULL) ∧
   139637977776400 = NULL) ∨
  ∃ n, e_shnum (w_mem Sample.wsec) (elf_ehdr Sample.elf_sec) = Some n ∧
    ((139637977776400 = NULL ∧
      ∀ j, 0 ≤ j < n →
           ∃ nm, sh_name (w_mem Sample.wsec)
                         (shdr_ptr (elf_shdr Sample.elf_sec) j) = Some nm ∧
                 strcmp_eq (w_mem Sample.wsec)
                           (padd (elf_shstrtab Sample.elf_sec) nm)
                           (str_bytes ".shstrtab") = Some false) ∨
     (∃ k nm, 0 ≤ k < n ∧
              139637977776400 = shdr_ptr (elf_shdr Sample.elf_sec) k ∧
              sh_name (w_mem Sample.wsec) 139637977776400 = Some nm ∧
              cstr_at (w_mem Sample.wsec)
                      (padd (elf_shstrtab Sample.elf_sec) nm)
                      (c_bytes (str_bytes ".shstrtab")) ∧
              ∀ j, 0 ≤ j < k →
                   ∃ nm', sh_name (w_mem Sample.wsec)
                                  (shdr_ptr (elf_shdr Sample.elf_sec) j)
                            = Some nm' ∧
                          strcmp_eq (w_mem Sample.wsec)
                                    (padd (elf_shstrtab Sample.elf_sec) nm')
                                    (str_bytes ".shstrtab") = Some false)).
Proof.
  refine (elf_find_section_first_match (w_mem Sample.wsec) Sample.elf_sec
            (str_bytes ".shstrtab") 139637977776400 _).
  vm_compute. reflexivity.
Defined.

Lemma elf_open_valid_view_witness :
  (0 = 0 ∨ 0 = -1) ∧
  (0 = 0 →
   valid_header (w_mem Sample.wv) (elf_ehdr Sample.elf) ∧
   elf_ehdr Sample.elf = elf_map_start Sample.elf ∧
   elf_map_size Sample.elf = Z.of_nat (length (Demo.fs "libdemo.so")) ∧
   ∃ phoff shoff,
     e_phoff (w_mem Sample.wv) (elf_ehdr Sample.elf) = Some phoff ∧
     e_shoff (w_mem Sample.wv) (elf_ehdr Sample.elf) = Some shoff ∧
     elf_phdr Sample.elf
       = (if phoff =? 0 then NULL
          else padd (elf_map_start Sample.elf) phoff) ∧
     elf_shdr Sample.elf
       = (if shoff =? 0 then NULL
          else padd (elf_map_start Sample.elf) shoff) ∧
     (shoff = 0 → elf_shstrtab Sample.elf = NULL)).
Proof.
  exact (elf_open_valid_view Demo.fs Demo.sys_open Demo.sys_fstat
           Demo.sys_mmap "libdemo.so" Demo.w0 0 Sample.elf Sample.wv
           sample_opened).
Defined.

Lemma elf_open_close_balanced_witness :
  (0 < 0 → same_resources Demo.w0 Sample.wv ∧ same_error Demo.w0 Sample.wv) ∧
  (0 = 0 → same_resources Demo.w0 (elf_close Sample.elf Sample.wv) ∧
           same_error Demo.w0 (elf_close Sample.elf Sample.wv)).
Proof.
  exact (elf_open_close_balanced Demo.fs Demo.sys_open Demo.sys_fstat
           Demo.sys_mmap "libdemo.so" Demo.w0 0 Sample.elf Sample.wv
           sample_opened).
Defined.

(** ** The record of a loaded module *)

Lemma same_ident_refl si : same_ident si si.
Proof. repeat split. Qed.

Lemma same_ident_trans a b c :
  same_ident a b → same_ident b c → same_ident a c.
Proof.
  intros (A1 & A2 & A3 & A4 & A5) (B1 & B2 & B3 & B4 & B5).
  repeat split; congruence.
Qed.

Lemma si_with_dyn_ident si tag v :
  same_ident si (si_with_dyn si tag v) ∧
  si_dynamic (si_with_dyn si tag v) = si_dynamic si.
Proof.
  destruct si. unfold si_with_dyn, same_ident.
  repeat match goal with
  | |- context [if ?c then _ else _] => destruct c
  end; repeat split; reflexivity.
Qed.

Lemma dyn_walk_ident fuel m d si si' :
  dyn_walk fuel m d si = Some si' →
  same_ident si si' ∧ si_dynamic si' = si_dynamic si.
Proof.
  revert d si. induction fuel as [|f IH]; intros d si;
    cbn [dyn_walk]; osimpl; [discriminate|].
  destruct (read_u64 m d) as [tag|]; osimpl; [|discriminate].
  destruct (tag =? DT_NULL).
  { intros [= <-]. split; [apply same_ident_refl | reflexivity]. }
  match goal with
  | |- (?x ≫= _) = _ → _ => destruct x as [v|]; osimpl; [|discriminate]
  end.
  intros H. apply IH in H as [H1 H2].
  destruct (si_with_dyn_ident si tag v) as [B1 B2].
  split; [eapply same_ident_trans; eassumption | congruence].
Qed.

Lemma parse_dynamic_ok fuel w si si' w' r :
  parse_dynamic fuel w si = Some (r, si', w') → 0 ≤ r →
  same_ident si si' ∧ si_dynamic si' ≠ NULL ∧
  si_symtab si' ≠ NULL ∧ si_strtab si' ≠ NULL.
Proof.
  unfold parse_dynamic.
  destruct (Z.eqb_spec (si_dynamic si) NULL) as [E|E].
  { intros [= <- <- <-]. lia. }
  destruct (dyn_walk _ _ _ _) as [s1|] eqn:Hd; osimpl; [|discriminate].
  apply dyn_walk_ident in Hd as [B1 B2].
  destruct (Z.eqb_spec (si_symtab s1) NULL) as [E1|E1]; cbn [orb].
  { intros [= <- <- <-]. lia. }
  destruct (Z.eqb_spec (si_strtab s1) NULL) as [E2|E2].
  { intros [= <- <- <-]. lia. }
  intros [= <- <- <-] _. split; [exact B1|]. split; [congruence|]. auto.
Qed.

Lemma find_segments_ident cnt m phdr i si si' :
  find_segments cnt m phdr i si = Some si' → same_ident si si'.
Proof.
  revert i si. induction cnt as [|k IH]; intros i si;
    cbn [find_segments]; osimpl.
  - intros [= <-]. apply same_ident_refl.
  - destruct (p_type _ _) as [ty|]; osimpl; [|discriminate].
    match goal with
    | |- (?x ≫= _) = _ → _ =>
        destruct x as [s1|] eqn:Hs; osimpl; [|discriminate]
    end.
    intros H. apply IH in H.
    assert (same_ident si s1).
    { destruct (ty =? PT_PHDR).
      - destruct (p_vaddr _ _); osimpl in Hs; [|discriminate].
        injection Hs as <-. destruct si; repeat split.
      - destruct (ty =? PT_DYNAMIC).
        + destruct (p_vaddr _ _); osimpl in Hs; [|discriminate].
          injection Hs as <-. destruct si; repeat split.
        + injection Hs as <-. apply same_ident_refl. }
    eapply same_ident_trans; eassumption.
Qed.

Lemma elf_close_soinfos elf w :
  w_soinfos (elf_close elf w) = w_soinfos w.
Proof.
  unfold elf_close.
  destruct (negb _ && negb _); destruct (0 <=? elf_fd elf); reflexivity.
Qed.

(** X15.  The record of a module that [linker_load] returned: it is live
    under the returned pointer, is named by the first 255 bytes of the
    path, counts one reference, has a non-zero size and a base that is
    neither null nor [MAP_FAILED]; the load bias is the base minus the
    page start of the smallest [PT_LOAD] address, the one the loop of
    [linker_load] finds in the program headers of the view [elf_open]
    gives of the file, and the dynamic section, the symbol table and the
    string table are all set, so a lookup in the module never stops at the
    missing-table test. *)
Theorem loaded_record_fields :
  ∀ (host_dlsym : list Z -> Z) (fs : string -> list Z)
    (sys_open : world -> string -> Z) (sys_fstat sys_mmap : world -> Z -> Z)
    (sys_mmap_fixed : world -> Z -> Z -> bool) (sys_calloc : world -> Z)
    (fuel : nat) (path : string) (w : world) (p : Z) (w' : world),
    linker_load host_dlsym fs sys_open sys_fstat sys_mmap sys_mmap_fixed
                sys_calloc fuel path w = Some (p, w') →
    p ≠ NULL →
    ∃ si,
      w_soinfos w' !! p = Some si ∧
      si_name si = str_take 255 (c_str path) ∧
      si_ref_count si = 1 ∧ si_size si ≠ 0 ∧
      si_base si ≠ NULL ∧ si_base si ≠ MAP_FAILED ∧
      (∃ r elf wv phnum mn,
         elf_open fs sys_open sys_fstat sys_mmap path w = Some (r, elf, wv) ∧
         e_phnum (w_mem wv) (elf_ehdr elf) = Some phnum ∧
         min_load_vaddr (Z.to_nat phnum) (w_mem wv) (elf_phdr elf) 0
                        ALL_ONES = Some mn ∧
         si_load_bias si = u64 (si_base si - PAGE_START mn)) ∧
      si_dynamic si ≠ NULL ∧ si_symtab si ≠ NULL ∧ si_strtab si ≠ NULL.
Proof.
  intros host_dlsym fs sys_open sys_fstat sys_mmap sys_mmap_fixed
         sys_calloc fuel path w p w' H Hp. revert H.
  unfold linker_load.
  destruct (elf_open _ _ _ _ _ _) as [[[r elf] w1]|] eqn:Ho;
    osimpl; [|discriminate].
  destruct (r <? 0); [intros [= <- _]; contradiction|].
  destruct (do_calloc _ w1) as [[p0 w2]|] eqn:Hc; osimpl; [|discriminate].
  assert (Hmem : w_mem w2 = w_mem w1).
  { apply do_calloc_spec in Hc as [[_ ->]|(_ & _ & ->)]; reflexivity. }
  destruct (p0 =? NULL); [intros [= <- _]; contradiction|].
  destruct (e_phnum _ _) as [phnum|] eqn:Hph; osimpl; [|discriminate].
  destruct (calculate_load_size _ _ _) as [load_size|];
    osimpl; [|discriminate].
  destruct (Z.eqb_spec load_size 0) as [|Hsz];
    [intros [= <- _]; contradiction|].
  destruct (min_load_vaddr _ _ _ _ _) as [mn|] eqn:Hmn;
    osimpl; [|discriminate].
  rewrite Hmem in Hph, Hmn.
  destruct (do_mmap _ _ _ _ w2) as [[base w3]|] eqn:Hm;
    osimpl; [|discriminate].
  apply do_mmap_spec in Hm.
  destruct (Z.eqb_spec base MAP_FAILED) as [|Hb];
    [intros [= <- _]; contradiction|].
  destruct Hm as [[? _]|(_ & Hbn & _ & _)]; [contradiction|].
  destruct (do_open _ _ w3) as [[fd w4]|]; osimpl; [|discriminate].
  destruct (fd <? 0); [intros [= <- _]; contradiction|].
  destruct (map_segments _ _ _ _ _ _ _) as [[ok w5]|];
    osimpl; [|discriminate].
  destruct ok; osimpl; [|intros [= <- _]; contradiction].
  set (si3 := si_set_load_bias _ _).
  assert (H3 : si_name si3 = str_take 255 (c_str path) ∧
               si_base si3 = base ∧ si_size si3 = load_size ∧
               si_load_bias si3 = u64 (base - PAGE_START mn) ∧
               si_ref_count si3 = 0)
    by (subst si3; repeat split).
  destruct (find_segments _ _ _ _ si3) as [si4|] eqn:Hfs;
    osimpl; [|discriminate].
  apply find_segments_ident in Hfs.
  match goal with
  | |- (?x ≫= _) = _ → _ =>
      destruct x as [phoff|]; osimpl; [|discriminate]
  end.
  set (si5 := if si_phdr si4 =? NULL then _ else si4).
  assert (H5 : same_ident si4 si5).
  { subst si5. destruct (si_phdr si4 =? NULL);
      [destruct si4; repeat split | apply same_ident_refl]. }
  destruct (parse_dynamic _ _ si5) as [[[rd si6] w7]|] eqn:Hpd;
    osimpl; [|discriminate].
  destruct (rd <? 0) eqn:Hrd; [intros [= <- _]; contradiction|].
  apply Z.ltb_ge in Hrd.
  apply parse_dynamic_ok in Hpd as (H6 & Hdyn & Hsym & Hstr); [|exact Hrd].
  destruct (linker_relocate _ _ _ si6) as [[rr w8]|];
    osimpl; [|discriminate].
  destruct (rr <? 0); [intros [= <- _]; contradiction|].
  intros [= <- <-].
  exists (si_set_ref_count 1 si6).
  rewrite elf_close_soinfos. wunfold.
  split; [apply lookup_insert_eq|].
  pose proof (same_ident_trans _ _ _
                (same_ident_trans _ _ _ Hfs H5) H6) as (I1 & I2 & I3 & I4 & _).
  destruct H3 as (N3 & B3 & S3 & L3 & _).
  destruct si6; cbn in *.
  split; [congruence|]. split; [reflexivity|].
  split; [congruence|]. split; [congruence|]. split; [congruence|].
  split; [exists r, elf, w1, phnum, mn; repeat split; congruence|]. auto.
Qed.

(** ** Reference counts *)

Lemma registry_single_same w w' :
  g_soinfo_list w' = g_soinfo_list w → w_soinfos w' = w_soinfos w →
  registry_single w → registry_single w'.
Proof. intros HL HS [Hnd Hlive]. split; rewrite HL, ?HS; assumption. Qed.

Lemma linker_unload_registry_single p w w' :
  linker_unload p w = Some w' → registry_single w →
  registry_single w' ∧
  (In p (g_soinfo_list w) →
   ¬ In p (g_soinfo_list w') ∧ w_soinfos w' !! p = None).
Proof.
  intros H Hok. destruct (Z.eq_dec p NULL) as [->|Hp].
  { unfold linker_unload in H. rewrite Z.eqb_refl in H.
    injection H as <-. split; [exact Hok|].
    intros Hin. destruct Hok as [_ Hlive].
    destruct (Hlive _ Hin) as [Hnn _]. contradiction. }
  destruct (linker_unload_spec _ _ _ Hp H) as (si & Hsi & Hkeep & Hdrop).
  destruct Hok as [Hnd Hlive].
  destruct (Z.lt_ge_cases 1 (si_ref_count si)) as [Hlt|Hge].
  - (* more than one reference: [p] is not a registered record *)
    assert (Hnotin : ¬ In p (g_soinfo_list w)).
    { intros Hin. destruct (Hlive _ Hin) as (_ & s & Hs & Hr).
      rewrite Hsi in Hs. injection Hs as <-. lia. }
    rewrite (Hkeep Hlt). split; [|intros; contradiction].
    unfold registry_single. wunfold. split; [exact Hnd|].
    intros q Hq. assert (q ≠ p) by (intros ->; contradiction).
    rewrite lookup_insert_ne by congruence. apply Hlive. exact Hq.
  - destruct (Hdrop ltac:(lia)) as (entries & _ & _ & _ & HL & HS & _).
    destruct (list_unlink_nodup p _ Hnd) as [Hnd' Hnotin].
    split.
    + split; [rewrite HL; exact Hnd'|].
      intros q Hq. rewrite HL in Hq.
      assert (q ≠ p) by (intros ->; contradiction).
      rewrite HS, lookup_delete_ne by congruence.
      apply Hlive. eapply list_unlink_in. exact Hq.
    + intros _. rewrite HL, HS. split; [exact Hnotin|].
      apply lookup_delete_eq.
Qed.

Section SingleReference.
Variable host_dlsym : list Z -> Z.
Variable fs : string -> list Z.
Variable sys_open : world -> string -> Z.
Variable sys_fstat : world -> Z -> Z.
Variable sys_mmap : world -> Z -> Z.
Variable sys_mmap_fixed : world -> Z -> Z -> bool.
Variable sys_calloc : world -> Z.
Variable fuel : nat.

Lemma linker_load_registry_single path w p w' :
  linker_load host_dlsym fs sys_open sys_fstat sys_mmap sys_mmap_fixed
              sys_calloc fuel path w = Some (p, w') →
  registry_single w → registry_single w'.
Proof.
  intros H Hok. apply linker_load_spec in H.
  destruct H as [[_ ((_ & _ & HS & HL & _) & _)]
                |[Hp (si & Hfresh & HS & Hrc & HL & _)]].
  - eapply registry_single_same; eassumption.
  - destruct Hok as [Hnd Hlive]. unfold registry_single. rewrite HL, HS.
    split.
    + constructor; [|exact Hnd]. rewrite list_elem_of_In. intros Hin.
      destruct (Hlive _ Hin) as (_ & s & Hs & _). congruence.
    + intros q [<-|Hq].
      * split; [exact Hp|]. exists si. rewrite lookup_insert_eq. auto.
      * destruct (Hlive _ Hq) as (Hq0 & s & Hs & Hr).
        split; [exact Hq0|]. exists s. split; [|exact Hr].
        rewrite lookup_insert_ne; [exact Hs | congruence].
Qed.

Lemma facade_step_registry_single w w' :
  facade_step host_dlsym fs sys_open sys_fstat sys_mmap sys_mmap_fixed
              sys_calloc fuel w w' →
  registry_single w → registry_single w'.
Proof.
  intros [path flags h H|handle symbol a H|handle r H|msg H] Hok.
  - unfold mini_dlopen in H. destruct path as [path|].
    + destruct (linker_load _ _ _ _ _ _ _ _ _ _) as [[si w1]|] eqn:Hl;
        osimpl in H; [|discriminate].
      apply linker_load_registry_single in Hl; [|exact Hok].
      destruct (si =? NULL); [injection H as _ <-; exact Hl|].
      destruct (linker_call_constructors si w1) as [w2|] eqn:Hc;
        osimpl in H; [|discriminate].
      injection H as _ <-.
      apply linker_call_constructors_calls in Hc as [-> _].
      eapply registry_single_same; [| |exact Hl]; reflexivity.
    + injection H as _ <-.
      eapply registry_single_same; [| |exact Hok]; reflexivity.
  - unfold mini_dlsym in H. destruct symbol as [symbol|].
    + destruct (handle =? NULL).
      * destruct (linker_find_global_symbol _ _ _ _) as [addr|];
          osimpl in H; [|discriminate].
        destruct (addr =? NULL); injection H as _ <-;
          [eapply registry_single_same; [| |exact Hok]; reflexivity
          | exact Hok].
      * destruct (handle =? ALL_ONES).
        { injection H as _ <-.
          eapply registry_single_same; [| |exact Hok]; reflexivity. }
        destruct (w_soinfos w !! handle) as [si|];
          osimpl in H; [|discriminate].
        destruct (linker_find_symbol _ _ _ _) as [addr|];
          osimpl in H; [|discriminate].
        destruct (addr =? NULL); injection H as _ <-;
          [eapply registry_single_same; [| |exact Hok]; reflexivity
          | exact Hok].
    + injection H as _ <-.
      eapply registry_single_same; [| |exact Hok]; reflexivity.
  - unfold mini_dlclose in H. destruct (handle =? NULL).
    + injection H as _ <-.
      eapply registry_single_same; [| |exact Hok]; reflexivity.
    + destruct (linker_unload handle w) as [w1|] eqn:Hu;
        osimpl in H; [|discriminate].
      injection H as _ <-.
      eapply linker_unload_registry_single; eassumption.
  - unfold mini_dlerror, linker_get_error in H.
    destruct (g_has_error w); injection H as _ <-;
      [eapply registry_single_same; [| |exact Hok]; reflexivity | exact Hok].
Qed.
End SingleReference.

(** X16.  Nothing raises a reference count: after [linker_init] every
    registered record counts exactly one reference, and every call of the
    dl* front keeps it so (a second [mini_dlopen] of a path loads a second
    module).  Hence the first [mini_dlclose] of a registered handle
    unloads the module: the handle leaves the registry and its record is
    freed. *)
Theorem reference_count_stays_one :
  ∀ (host_dlsym : list Z -> Z) (fs : string -> list Z)
    (sys_open : world -> string -> Z) (sys_fstat sys_mmap : world -> Z -> Z)
    (sys_mmap_fixed : world -> Z -> Z -> bool) (sys_calloc : world -> Z)
    (fuel : nat),
    (∀ w, registry_single (linker_init w)) ∧
    (∀ w w',
       facade_step host_dlsym fs sys_open sys_fstat sys_mmap sys_mmap_fixed
                   sys_calloc fuel w w' →
       registry_single w → registry_single w') ∧
    (∀ handle r w w',
       registry_single w → In handle (g_soinfo_list w) →
       mini_dlclose handle w = Some (r, w') →
       r = 0 ∧ ¬ In handle (g_soinfo_list w') ∧
       w_soinfos w' !! handle = None).
Proof.
  intros host_dlsym fs sys_open sys_fstat sys_mmap sys_mmap_fixed
         sys_calloc fuel.
  split; [|split].
  - intros w. split; cbn; [constructor | intros p []].
  - apply facade_step_registry_single.
  - intros handle r w w' Hok Hin. unfold mini_dlclose.
    destruct (Hok) as [_ Hlive]. destruct (Hlive _ Hin) as [Hnn _].
    apply Z.eqb_neq in Hnn. rewrite Hnn.
    destruct (linker_unload handle w) as [w1|] eqn:Hu; osimpl; [|discriminate].
    intros [= <- <-]. split; [reflexivity|].
    apply (linker_unload_registry_single _ _ _ Hu Hok). exact Hin.
Qed.

Lemma loaded_record_fields_witness :
  ∃ si,
    w_soinfos (Demo.world_of (demo_load "libdemo.so"%string Demo.w0))
      !! Demo.h1 = Some si ∧
    si_name si = str_take 255 (c_str "libdemo.so") ∧
    si_ref_count si = 1 ∧ si_size si ≠ 0 ∧
    si_base si ≠ NULL ∧ si_base si ≠ MAP_FAILED ∧
    (∃ r elf wv phnum mn,
       elf_open Demo.fs Demo.sys_open Demo.sys_fstat Demo.sys_mmap
                "libdemo.so" Demo.w0 = Some (r, elf, wv) ∧
       e_phnum (w_mem wv) (elf_ehdr elf) = Some phnum ∧
       min_load_vaddr (Z.to_nat phnum) (w_mem wv) (elf_phdr elf) 0
                      ALL_ONES = Some mn ∧
       si_load_bias si = u64 (si_base si - PAGE_START mn)) ∧
    si_dynamic si ≠ NULL ∧ si_symtab si ≠ NULL ∧ si_strtab si ≠ NULL.
Proof.
  refine (loaded_record_fields Demo.host_dlsym Demo.fs Demo.sys_open
            Demo.sys_fstat Demo.sys_mmap Demo.sys_mmap_fixed
            Demo.sys_calloc Demo.fuel "libdemo.so"%string Demo.w0 Demo.h1
            _ _ _).
  - refine (result_eta (demo_load "libdemo.so"%string Demo.w0) Demo.h1 _).
    vm_compute. reflexivity.
  - vm_compute. discriminate.
Defined.

(* ===================================================================== *)
(** * The socket demo *)
(* ===================================================================== *)

Import Proto.

Lemma length_field (l : Z) : l / 256 * 256 + l mod 256 = l.
Proof. pose proof (Z.div_mod l 256 ltac:(lia)). lia. Qed.

Lemma store_app (bs old : list Z) (n : nat) :
  n = length bs → take n (store bs old) = bs.
Proof. intros ->. unfold store. apply take_app_length. Qed.

Lemma length_store (bs old : list Z) :
  (length bs ≤ length old)%nat → length (store bs old) = length old.
Proof.
  intros H. unfold store. rewrite length_app, length_drop. lia.
Qed.

Lemma length_frame (cmd : Z) (bs : list Z) :
  Z.of_nat (length (frame cmd bs)) = HEADER_SIZE + Z.of_nat (length bs).
Proof. unfold frame, HEADER_SIZE. cbn [length]. lia. Qed.

(** A [send] that takes every byte. *)
Lemma send_whole (sys_send : conn → list Z → Z) (bs : list Z) (c : conn) :
  sys_send c bs = Z.of_nat (length bs) →
  send sys_send bs c = (Z.of_nat (length bs), sent bs c).
Proof.
  intros H. unfold send. rewrite H, Nat2Z.id, firstn_all. reflexivity.
Qed.

Lemma send_takes_all (bs : list Z) (c : conn) :
  send takes_all bs c = (Z.of_nat (length bs), sent bs c).
Proof. apply send_whole. reflexivity. Qed.

(** What [send_message] hands to [send], and what it returns. *)
Lemma send_message_hands (sys_send : conn → list Z → Z) (cmd : Z)
    (bs : list Z) (len : Z) (c : conn) :
  0 ≤ len ≤ MAX_PAYLOAD_SIZE → len ≤ Z.of_nat (length bs) →
  send_message sys_send cmd (Some bs) len c
  = Some (if sys_send c (frame cmd (take (Z.to_nat len) bs))
             =? HEADER_SIZE + len then 0 else -1,
          snd (send sys_send (frame cmd (take (Z.to_nat len) bs)) c)).
Proof.
  intros Hlen Hbs. unfold send_message, frame. cbv zeta.
  assert (Hl : Z.of_nat (length (take (Z.to_nat len) bs)) = len)
    by (rewrite length_take; lia).
  destruct (0 <? len) eqn:E.
  - apply Z.ltb_lt in E.
    assert (E1 : (len <=? MAX_PAYLOAD_SIZE) = true) by (apply Z.leb_le; lia).
    assert (E2 : (len <=? Z.of_nat (length bs)) = true)
      by (apply Z.leb_le; lia).
    rewrite E1, E2, Hl. reflexivity.
  - apply Z.ltb_ge in E. assert (len = 0) as -> by lia. reflexivity.
Qed.

(** What [send_message] puts on the wire when [send] takes it whole. *)
Lemma send_message_frame (cmd : Z) (bs : list Z) (len : Z) (c : conn) :
  0 ≤ len ≤ MAX_PAYLOAD_SIZE → len ≤ Z.of_nat (length bs) →
  send_message takes_all cmd (Some bs) len c
  = Some (0, sent (frame cmd (take (Z.to_nat len) bs)) c).
Proof.
  intros Hlen Hbs. rewrite send_message_hands by assumption.
  rewrite send_takes_all. unfold takes_all. rewrite length_frame.
  rewrite length_take.
  replace (Z.of_nat (Z.to_nat len `min` length bs)) with len by lia.
  rewrite Z.eqb_refl. reflexivity.
Qed.

Lemma send_message_inv (sys_send : conn → list Z → Z) (cmd : Z)
    (payload : option (list Z)) (len : Z) (c : conn) (r : Z) (c' : conn) :
  0 ≤ len → send_message sys_send cmd payload len c = Some (r, c') →
  len ≤ MAX_PAYLOAD_SIZE ∧
  ∃ bs, Z.of_nat (length bs) = len ∧
        (∀ p, payload = Some p → bs = take (Z.to_nat len) p) ∧
        r = (if sys_send c (frame cmd bs) =? HEADER_SIZE + len
             then 0 else -1) ∧
        c' = snd (send sys_send (frame cmd bs) c).
Proof.
  intros Hlen. unfold send_message. cbv zeta.
  destruct (0 <? len) eqn:E.
  - apply Z.ltb_lt in E. destruct payload as [bs|]; [|discriminate].
    destruct (len <=? MAX_PAYLOAD_SIZE) eqn:E1; [|discriminate].
    destruct (len <=? Z.of_nat (length bs)) eqn:E2; [|discriminate].
    apply Z.leb_le in E1, E2. cbn [andb].
    assert (Hl : Z.of_nat (length (take (Z.to_nat len) bs)) = len)
      by (rewrite length_take; lia).
    assert (Hf : cmd :: len / 256 :: len mod 256 :: take (Z.to_nat len) bs
                 = frame cmd (take (Z.to_nat len) bs))
      by (unfold frame; rewrite Hl; reflexivity).
    rewrite Hf. unfold send. intros [= <- <-].
    split; [exact E1|].
    exists (take (Z.to_nat len) bs).
    split; [exact Hl|]. split; [intros p [= ->]; reflexivity|].
    split; reflexivity.
  - apply Z.ltb_ge in E. assert (len = 0) as -> by lia.
    unfold send. intros [= <- <-].
    split; [unfold MAX_PAYLOAD_SIZE; lia|].
    exists []. split; [reflexivity|].
    split; [intros p _; reflexivity|]. split; reflexivity.
Qed.

(** The functions that send do the same on sockets that answer the
    same. *)
Section SameSocket.
Variables f g : conn → list Z → Z.
Hypothesis Hfg : ∀ c bs, f c bs = g c bs.

Lemma send_ext bs c : send f bs c = send g bs c.
Proof. unfold send. rewrite Hfg. reflexivity. Qed.

Lemma send_message_ext cmd payload len c :
  send_message f cmd payload len c = send_message g cmd payload len c.
Proof.
  unfold send_message. cbv zeta.
  destruct (0 <? len); [|rewrite send_ext; reflexivity].
  destruct payload as [bs|]; [|reflexivity].
  destruct (_ && _); [|reflexivity].
  rewrite send_ext. reflexivity.
Qed.

Lemma reply_ext cmd text c : Server.reply f cmd text c = Server.reply g cmd text c.
Proof. unfold Server.reply. rewrite send_message_ext. reflexivity. Qed.

Lemma handle_calc_ext cmd data len c :
  Server.handle_calc f cmd data len c = Server.handle_calc g cmd data len c.
Proof.
  unfold Server.handle_calc. rewrite !reply_ext.
  destruct (len <? 8); [reflexivity|].
  destruct (_ && _); [reflexivity|].
  match goal with
  | |- (?x ≫= _) = _ => destruct x; osimpl; [|reflexivity]
  end.
  rewrite send_message_ext. reflexivity.
Qed.

Lemma dispatch_ext ct pid msg c :
  Server.dispatch f ct pid msg c = Server.dispatch g ct pid msg c.
Proof.
  unfold Server.dispatch, Server.handle_echo, Server.handle_time,
    Server.handle_info, Server.handle_ping.
  rewrite !reply_ext, handle_calc_ext, send_message_ext.
  destruct ct; reflexivity.
Qed.

Lemma handle_client_ext fuel ct pid msg c :
  Server.handle_client f fuel ct pid msg c
  = Server.handle_client g fuel ct pid msg c.
Proof.
  revert msg c. induction fuel as [|k IH]; intros msg c;
    cbn [Server.handle_client]; [reflexivity|].
  destruct (Server.recv_message msg c) as [[ret msg1] c1].
  destruct (ret =? 1); [reflexivity|].
  destruct (ret <? 0); [reflexivity|].
  rewrite dispatch_ext.
  destruct (Server.dispatch g ct pid msg1 c1) as [[running c2]|];
    osimpl; [|reflexivity].
  destruct running; [apply IH | reflexivity].
Qed.

Lemma do_calc_ext cmd a b msg c :
  Client.do_calc f cmd a b msg c = Client.do_calc g cmd a b msg c.
Proof. unfold Client.do_calc. rewrite send_message_ext. reflexivity. Qed.
End SameSocket.

Lemma calc_exchange_ext (f f' g g' : conn → list Z → Z) cmd a b ms mc :
  (∀ c bs, f c bs = f' c bs) → (∀ c bs, g c bs = g' c bs) →
  calc_exchange f g cmd a b ms mc = calc_exchange f' g' cmd a b ms mc.
Proof.
  intros Hf Hg. unfold calc_exchange.
  rewrite (send_message_ext f f' Hf).
  destruct (send_message f' _ _ _ _) as [[r c1]|]; osimpl; [|reflexivity].
  destruct (Server.recv_message _ _) as [[ret req] c2].
  destruct (negb _); [reflexivity|].
  rewrite (handle_calc_ext g g' Hg).
  destruct (Server.handle_calc g' _ _ _ _) as [s|]; osimpl; [|reflexivity].
  rewrite (do_calc_ext f f' Hf). reflexivity.
Qed.

(** The server reads a frame of at most 1024 payload bytes whole. *)
Lemma recv_header (cmd a b : Z) (tail out : list Z) :
  recv HEADER_SIZE (Conn (cmd :: a :: b :: tail) out)
  = ([cmd; a; b], Conn tail out).
Proof.
  unfold recv, HEADER_SIZE. cbn [c_in c_out].
  change (Z.to_nat 3) with 3%nat. cbn [take drop].
  rewrite take_0. reflexivity.
Qed.

Lemma recv_payload (payload rest out : list Z) :
  recv (Z.of_nat (length payload)) (Conn (payload ++ rest) out)
  = (payload, Conn rest out).
Proof.
  unfold recv. cbn [c_in c_out].
  rewrite Nat2Z.id, take_app_length, drop_app_length. reflexivity.
Qed.

Lemma header_length (cmd l : Z) (old : list Z) :
  m_length (Msg (store [cmd; l / 256; l mod 256] old) (@nil Z)) = l.
Proof. unfold m_length. cbn. apply length_field. Qed.

Lemma server_recv_frame (msg : Message) (cmd : Z) (payload rest out : list Z) :
  Z.of_nat (length payload) ≤ MAX_PAYLOAD_SIZE →
  Server.recv_message msg (Conn (frame cmd payload ++ rest) out)
  = (0,
     Msg (store [cmd; Z.of_nat (length payload) / 256;
                 Z.of_nat (length payload) mod 256] (m_header msg))
         (store payload (m_payload msg)),
     Conn rest out).
Proof.
  intros Hlen. unfold Server.recv_message, frame.
  cbn [app]. rewrite recv_header.
  change (Z.of_nat (length [cmd; Z.of_nat (length payload) / 256;
                            Z.of_nat (length payload) mod 256])) with 3.
  change (3 =? 0) with false. change (3 =? HEADER_SIZE) with true.
  cbn [negb].
  assert (EL : ∀ h p, m_length
             (Msg (store [cmd; Z.of_nat (length payload) / 256;
                          Z.of_nat (length payload) mod 256] h) p)
             = Z.of_nat (length payload)).
  { intros h p. unfold m_length. cbn. apply length_field. }
  rewrite EL.
  assert (E1 : (MAX_PAYLOAD_SIZE <? Z.of_nat (length payload)) = false)
    by (apply Z.ltb_ge; lia).
  rewrite E1.
  destruct (0 <? Z.of_nat (length payload)) eqn:E2.
  - rewrite recv_payload. cbn [m_header m_payload].
    rewrite Z.eqb_refl. reflexivity.
  - apply Z.ltb_ge in E2.
    assert (payload = []) as -> by (destruct payload; [reflexivity|];
                                    cbn [length] in E2; lia).
    reflexivity.
Qed.

(** The client reads a frame of fewer than 1024 payload bytes whole and
    terminates the payload. *)
Lemma client_recv_frame (msg : Message) (cmd : Z) (payload rest out : list Z) :
  Z.of_nat (length payload) < MAX_PAYLOAD_SIZE →
  ∃ msg',
    Client.recv_message msg (Conn (frame cmd payload ++ rest) out)
    = Some (0, msg', Conn rest out) ∧
    m_cmd msg' = cmd ∧ m_length msg' = Z.of_nat (length payload) ∧
    (payload ≠ [] → ∃ tl, m_payload msg' = payload ++ 0 :: tl) ∧
    (payload = [] → m_payload msg' = m_payload msg).
Proof.
  intros Hlen. unfold Client.recv_message, frame.
  cbn [app]. rewrite recv_header.
  change (Z.of_nat (length [cmd; Z.of_nat (length payload) / 256;
                            Z.of_nat (length payload) mod 256])) with 3.
  change (3 <=? 0) with false. cbv iota.
  assert (EL : ∀ h p, m_length
             (Msg (store [cmd; Z.of_nat (length payload) / 256;
                          Z.of_nat (length payload) mod 256] h) p)
             = Z.of_nat (length payload)).
  { intros h p. unfold m_length. cbn. apply length_field. }
  rewrite EL.
  destruct (0 <? Z.of_nat (length payload)) eqn:E2.
  - rewrite recv_payload.
    assert (E3 : (MAX_PAYLOAD_SIZE <? Z.of_nat (length payload)) = false)
      by (apply Z.ltb_ge; lia).
    assert (E4 : (MAX_PAYLOAD_SIZE <=? Z.of_nat (length payload)) = false)
      by (apply Z.leb_gt; lia).
    rewrite E3, Z.eqb_refl, E4. cbn [negb m_header m_payload].
    eexists. split; [reflexivity|].
    split; [reflexivity|]. split; [apply EL|].
    split.
    + intros _. cbn [m_payload]. rewrite Nat2Z.id.
      rewrite (store_app payload _ (length payload) eq_refl).
      set (tl := drop (length payload) (store payload (m_payload msg))).
      unfold store. cbn [app length]. eexists. reflexivity.
    + intros ->. discriminate E2.
  - apply Z.ltb_ge in E2.
    assert (payload = []) as -> by (destruct payload; [reflexivity|];
                                    cbn [length] in E2; lia).
    eexists. split; [reflexivity|].
    split; [reflexivity|]. split; [apply EL|].
    split; [intros H; contradiction | intros _; reflexivity].
Qed.

(** X17.  What [send_message] writes, the server's [recv_message] reads
    back: a [send_message] that returns has read nothing and has handed
    one frame to [send]; it returns 0 exactly when [send] took the whole
    frame, which is then appended to the bytes sent, and -1 otherwise,
    with the bytes [send] took appended; from a stream that starts with
    that frame the server's [recv_message] returns 0 with the command, the
    length and the payload bytes that were sent, and leaves the rest of
    the stream unread. *)
Theorem sent_message_is_received :
  ∀ (sys_send : conn → list Z → Z) (cmd : Z) (payload : list Z) (len : Z)
    (c : conn) (r : Z) (c' : conn) (msg : Message) (rest out : list Z),
    0 ≤ len →
    send_message sys_send cmd (Some payload) len c = Some (r, c') →
    c_in c' = c_in c ∧
    ∃ bytes msg',
      bytes = frame cmd (take (Z.to_nat len) payload) ∧
      (r = 0 ∨ r = -1) ∧
      (r = 0 ↔ sys_send c bytes = Z.of_nat (length bytes)) ∧
      c_out c' = c_out c ++ take (Z.to_nat (sys_send c bytes)) bytes ∧
      (r = 0 → c_out c' = c_out c ++ bytes) ∧
      Server.recv_message msg (Conn (bytes ++ rest) out)
        = (0, msg', Conn rest out) ∧
      m_cmd msg' = cmd ∧ m_length msg' = len ∧
      take (Z.to_nat len) (m_payload msg') = take (Z.to_nat len) payload.
Proof.
  intros sys_send cmd payload len c r c' msg rest out Hlen H.
  apply send_message_inv in H; [|exact Hlen].
  destruct H as (Hmax & bs & Hbs & Htake & -> & ->).
  specialize (Htake payload eq_refl). subst bs.
  set (fr := frame cmd (take (Z.to_nat len) payload)).
  assert (Hfr : Z.of_nat (length fr) = HEADER_SIZE + len)
    by (unfold fr; rewrite length_frame, Hbs; reflexivity).
  split; [reflexivity|].
  exists fr. eexists. split; [reflexivity|].
  split; [destruct (_ =? _); auto|].
  split.
  { rewrite Hfr. destruct (Z.eqb_spec (sys_send c fr) (HEADER_SIZE + len));
      split; auto; try discriminate. intros; contradiction. }
  split; [reflexivity|].
  split.
  { destruct (Z.eqb_spec (sys_send c fr) (HEADER_SIZE + len)) as [E|];
      [|discriminate].
    intros _. unfold send, sent. cbn [snd c_out].
    rewrite E, <- Hfr, Nat2Z.id, firstn_all. reflexivity. }
  split; [apply server_recv_frame; lia|].
  split; [reflexivity|]. split.
  - unfold m_length. cbn. rewrite length_field. exact Hbs.
  - cbn [m_payload]. apply store_app. lia.
Qed.

Lemma sent_message_is_received_witness :
  c_in (Conn [] [7; 1; 0; 2; 104; 105]) = c_in (Conn [] [7]) ∧
  ∃ bytes msg',
    bytes = frame CMD_ECHO (take (Z.to_nat 2) [104; 105; 106]) ∧
    (0 = 0 ∨ 0 = -1) ∧
    (0 = 0 ↔ takes_all (Conn [] [7]) bytes = Z.of_nat (length bytes)) ∧
    c_out (Conn [] [7; 1; 0; 2; 104; 105])
      = c_out (Conn [] [7])
        ++ take (Z.to_nat (takes_all (Conn [] [7]) bytes)) bytes ∧
    (0 = 0 → c_out (Conn [] [7; 1; 0; 2; 104; 105])
             = c_out (Conn [] [7]) ++ bytes) ∧
    Server.recv_message (Msg [0; 0; 0] (replicate 1024 0))
                        (Conn (bytes ++ [9]) [])
      = (0, msg', Conn [9] []) ∧
    m_cmd msg' = CMD_ECHO ∧ m_length msg' = 2 ∧
    take (Z.to_nat 2) (m_payload msg') = take (Z.to_nat 2) [104; 105; 106].
Proof.
  refine (sent_message_is_received takes_all CMD_ECHO [104; 105; 106] 2
            (Conn [] [7]) 0 (Conn [] [7; 1; 0; 2; 104; 105])
            (Msg [0; 0; 0] (replicate 1024 0)) [9] [] _ _).
  - vm_compute. discriminate.
  - vm_compute. reflexivity.
Defined.

(** X18.  The server's [recv_message] returns 1 exactly at the end of
    the stream, and otherwise 0 or -1; it sends nothing, takes at most
    3 + 1024 bytes off the stream and leaves a 1024-byte payload buffer
    1024 bytes long; when it returns 0 the length field is at most 1024
    and the bytes taken are the header and that many payload bytes, now
    in the buffer. *)
Theorem server_recv_message_bounds :
  ∀ (msg : Message) (c : conn) (ret : Z) (msg' : Message) (c' : conn),
    Server.recv_message msg c = (ret, msg', c') →
    (ret = 0 ∨ ret = 1 ∨ ret = -1) ∧ c_out c' = c_out c ∧
    (ret = 1 ↔ c_in c = []) ∧
    (∃ used, c_in c = used ++ c_in c' ∧
             Z.of_nat (length used) ≤ HEADER_SIZE + MAX_PAYLOAD_SIZE) ∧
    (length (m_payload msg) = 1024%nat →
     length (m_payload msg') = 1024%nat) ∧
    (ret = 0 →
     m_length msg' ≤ MAX_PAYLOAD_SIZE ∧
     c_in c = take 3 (m_header msg')
              ++ take (Z.to_nat (m_length msg')) (m_payload msg')
              ++ c_in c').
Proof.
  intros msg [l out] ret msg' c'.
  unfold Server.recv_message, recv, HEADER_SIZE, MAX_PAYLOAD_SIZE.
  cbn [c_in c_out]. change (Z.to_nat 3) with 3%nat.
  destruct l as [|x0 [|x1 [|x2 tl]]].
  - cbn. intros [= <- <- <-]. cbn.
    split; [auto|]. split; [reflexivity|]. split; [tauto|].
    split; [exists []; split; [reflexivity | cbn; lia]|].
    split; [auto | discriminate].
  - cbn. intros [= <- <- <-]. cbn.
    split; [auto|]. split; [reflexivity|].
    split; [split; discriminate|].
    split; [exists [x0]; split; [reflexivity | cbn; lia]|].
    split; [auto | discriminate].
  - cbn. intros [= <- <- <-]. cbn.
    split; [auto|]. split; [reflexivity|].
    split; [split; discriminate|].
    split; [exists [x0; x1]; split; [reflexivity | cbn; lia]|].
    split; [auto | discriminate].
  - cbn [take drop length Z.of_nat Pos.of_succ_nat Pos.succ Z.eqb Pos.eqb
         negb].
    rewrite take_0, drop_0.
    change (Z.of_nat (length [x0; x1; x2])) with 3.
    change (3 =? 0) with false. change (3 =? 3) with true.
    cbn [negb m_header m_payload].
    assert (Hp : ∀ h b, m_length (Msg (store [x0; x1; x2] h) b)
                        = x1 * 256 + x2)
      by reflexivity.
    rewrite !Hp. set (p := x1 * 256 + x2) in *.
    assert (Hh : ∀ h, take 3 (store [x0; x1; x2] h) = [x0; x1; x2])
      by (intros h; apply store_app; reflexivity).
    destruct (1024 <? p) eqn:E1.
    { intros [= <- <- <-]. cbn [c_in c_out m_payload m_header].
      split; [auto|]. split; [reflexivity|].
      split; [split; discriminate|].
      split; [exists [x0; x1; x2]; split; [reflexivity | cbn; lia]|].
      split; [auto | discriminate]. }
    apply Z.ltb_ge in E1.
    destruct (0 <? p) eqn:E2.
    2:{ intros [= <- <- <-]. cbn [c_in c_out m_payload m_header].
        apply Z.ltb_ge in E2.
        split; [auto|]. split; [reflexivity|].
        split; [split; discriminate|].
        split; [exists [x0; x1; x2]; split; [reflexivity | cbn; lia]|].
        split; [auto|]. intros _. rewrite Hp, Hh.
        split; [lia|].
        replace (Z.to_nat p) with 0%nat by lia. rewrite take_0.
        reflexivity. }
    apply Z.ltb_lt in E2. cbn [m_payload m_header].
    set (pb := take (Z.to_nat p) tl).
    assert (Hpb : (length pb ≤ 1024)%nat)
      by (subst pb; rewrite length_take; lia).
    assert (Hused : tl = pb ++ drop (Z.to_nat p) tl)
      by (subst pb; symmetry; apply take_drop).
    assert (Hbuf : length (m_payload msg) = 1024%nat →
                   length (store pb (m_payload msg)) = 1024%nat).
    { intros Hb. rewrite length_store; [exact Hb | lia]. }
    destruct (Z.of_nat (length pb) =? p) eqn:E3; cbn [negb];
      intros [= <- <- <-]; cbn [c_in c_out m_payload m_header].
    + apply Z.eqb_eq in E3.
      split; [auto|]. split; [reflexivity|].
      split; [split; discriminate|].
      split.
      { exists (x0 :: x1 :: x2 :: pb). split.
        - cbn [app]. rewrite <- Hused. reflexivity.
        - cbn [length]. lia. }
      split; [exact Hbuf|]. intros _. rewrite Hp, Hh.
      split; [lia|].
      rewrite (store_app pb _ (Z.to_nat p)) by lia.
      cbn [app]. rewrite <- Hused. reflexivity.
    + split; [auto|]. split; [reflexivity|].
      split; [split; discriminate|].
      split.
      { exists (x0 :: x1 :: x2 :: pb). split.
        - cbn [app]. rewrite <- Hused. reflexivity.
        - cbn [length]. lia. }
      split; [exact Hbuf | discriminate].
Qed.

Lemma server_recv_message_bounds_witness :
  (-1 = 0 ∨ -1 = 1 ∨ -1 = -1) ∧
  c_out (Conn [5; 6] []) = c_out (Conn [1; 4; 1; 5; 6] []) ∧
  (-1 = 1 ↔ c_in (Conn [1; 4; 1; 5; 6] []) = []) ∧
  (∃ used, c_in (Conn [1; 4; 1; 5; 6] []) = used ++ c_in (Conn [5; 6] []) ∧
           Z.of_nat (length used) ≤ HEADER_SIZE + MAX_PAYLOAD_SIZE) ∧
  (length (m_payload (Msg [0; 0; 0] (replicate 1024 0))) = 1024%nat →
   length (m_payload (Msg [1; 4; 1] (replicate 1024 0))) = 1024%nat) ∧
  (-1 = 0 →
   m_length (Msg [1; 4; 1] (replicate 1024 0)) ≤ MAX_PAYLOAD_SIZE ∧
   c_in (Conn [1; 4; 1; 5; 6] [])
   = take 3 (m_header (Msg [1; 4; 1] (replicate 1024 0)))
     ++ take (Z.to_nat (m_length (Msg [1; 4; 1] (replicate 1024 0))))
             (m_payload (Msg [1; 4; 1] (replicate 1024 0)))
     ++ c_in (Conn [5; 6] [])).
Proof.
  refine (server_recv_message_bounds (Msg [0; 0; 0] (replicate 1024 0))
            (Conn [1; 4; 1; 5; 6] []) (-1)
            (Msg [1; 4; 1] (replicate 1024 0)) (Conn [5; 6] []) _).
  vm_compute. reflexivity.
Defined.

Lemma reply_hands (sys_send : conn → list Z → Z) (code : Z)
    (text : list Z) (c : conn) :
  Z.of_nat (length text) ≤ MAX_PAYLOAD_SIZE →
  Server.reply sys_send code text c
  = Some (snd (send sys_send (frame code text) c)).
Proof.
  intros H. unfold Server.reply. unfold MAX_PAYLOAD_SIZE in H.
  rewrite Z.mod_small by lia.
  rewrite send_message_hands by (unfold MAX_PAYLOAD_SIZE; lia). osimpl.
  rewrite Nat2Z.id, firstn_all. reflexivity.
Qed.

Lemma reply_frame (code : Z) (text : list Z) (c : conn) :
  Z.of_nat (length text) ≤ MAX_PAYLOAD_SIZE →
  Server.reply takes_all code text c = Some (sent (frame code text) c).
Proof.
  intros H. rewrite reply_hands by exact H. rewrite send_takes_all.
  reflexivity.
Qed.

(** The connection after a frame was handed to [send]. *)
Lemma send_hands (sys_send : conn → list Z → Z) (fr : list Z) (c : conn) :
  c_in (snd (send sys_send fr c)) = c_in c ∧
  c_out (snd (send sys_send fr c))
    = c_out c ++ take (Z.to_nat (sys_send c fr)) fr ∧
  (sys_send c fr = Z.of_nat (length fr) →
   c_out (snd (send sys_send fr c)) = c_out c ++ fr).
Proof.
  unfold send, sent. cbn [snd c_in c_out].
  split; [reflexivity|]. split; [reflexivity|].
  intros ->. rewrite Nat2Z.id, firstn_all. reflexivity.
Qed.

Lemma int32_range (x r : Z) :
  int32 x = Some r → r = x ∧ -2147483648 ≤ r ≤ 2147483647.
Proof.
  unfold int32.
  destruct (-2147483648 <=? x) eqn:E1; [|discriminate].
  destruct (x <=? 2147483647) eqn:E2; [|discriminate].
  apply Z.leb_le in E1, E2. intros [= <-]. lia.
Qed.

(** X19.  [handle_calc] hands exactly one frame to [send] and reads
    nothing: an error frame for a payload of fewer than 8 bytes and for a
    division by zero, which is never carried out; otherwise [RESP_OK]
    with the four bytes of the result, which is the sum, difference,
    product or truncated quotient of the two operands and fits 32 bits.
    The bytes [send] takes of the frame are appended to the bytes sent:
    the whole frame when [send] takes it whole. *)
Theorem handle_calc_replies_once :
  ∀ (sys_send : conn → list Z → Z) (cmd : Z) (data : list Z) (len : Z)
    (c c' : conn),
    Server.handle_calc sys_send cmd data len c = Some c' →
    c_in c' = c_in c ∧
    ∃ fr,
      c_out c' = c_out c ++ take (Z.to_nat (sys_send c fr)) fr ∧
      (sys_send c fr = Z.of_nat (length fr) → c_out c' = c_out c ++ fr) ∧
      ((len < 8 ∧
        fr = frame RESP_ERROR (str_bytes "Invalid calc payload")) ∨
       (8 ≤ len ∧ cmd = CMD_CALC_DIV ∧ s32 (be32 (drop 4 data)) = 0 ∧
        fr = frame RESP_ERROR (str_bytes "Division by zero")) ∨
       (8 ≤ len ∧ ¬ (cmd = CMD_CALC_DIV ∧ s32 (be32 (drop 4 data)) = 0) ∧
        ∃ r, -2147483648 ≤ r ≤ 2147483647 ∧
             fr = frame RESP_OK (to_be32 r) ∧
             (cmd = CMD_CALC_ADD →
              r = s32 (be32 data) + s32 (be32 (drop 4 data))) ∧
             (cmd = CMD_CALC_SUB →
              r = s32 (be32 data) - s32 (be32 (drop 4 data))) ∧
             (cmd = CMD_CALC_MUL →
              r = s32 (be32 data) * s32 (be32 (drop 4 data))) ∧
             (cmd = CMD_CALC_DIV →
              r = Z.quot (s32 (be32 data)) (s32 (be32 (drop 4 data)))))).
Proof.
  intros sys_send cmd data len c c'. unfold Server.handle_calc.
  set (a := s32 (be32 data)). set (b := s32 (be32 (drop 4 data))).
  assert (Hwrap : ∀ (Q : list Z → Prop) fr,
            Q fr → Some (snd (send sys_send fr c)) = Some c' →
            c_in c' = c_in c ∧
            ∃ fr0,
              c_out c' = c_out c ++ take (Z.to_nat (sys_send c fr0)) fr0 ∧
              (sys_send c fr0 = Z.of_nat (length fr0) →
               c_out c' = c_out c ++ fr0) ∧ Q fr0).
  { intros Q fr HQ [= <-].
    destruct (send_hands sys_send fr c) as (H1 & H2 & H3).
    split; [exact H1|]. exists fr. auto. }
  destruct (len <? 8) eqn:E8.
  { apply Z.ltb_lt in E8. rewrite reply_hands by (vm_compute; discriminate).
    apply Hwrap. left. auto. }
  apply Z.ltb_ge in E8.
  destruct (Z.eqb_spec cmd CMD_CALC_DIV) as [Hdiv|Hdiv]; cbn [andb].
  - destruct (Z.eqb_spec b 0) as [Hb|Hb].
    { rewrite reply_hands by (vm_compute; discriminate).
      apply Hwrap. right. left. auto. }
    subst cmd. change (CMD_CALC_DIV =? CMD_CALC_ADD) with false.
    change (CMD_CALC_DIV =? CMD_CALC_SUB) with false.
    change (CMD_CALC_DIV =? CMD_CALC_MUL) with false.
    change (CMD_CALC_DIV =? CMD_CALC_DIV) with true. cbv iota.
    destruct (int32 (Z.quot a b)) as [r|] eqn:Hr; osimpl; [|discriminate].
    apply int32_range in Hr as [-> Hrange].
    rewrite send_message_hands
      by (cbn; unfold MAX_PAYLOAD_SIZE; lia).
    osimpl.
    change (take (Z.to_nat 4) (to_be32 (Z.quot a b)))
      with (to_be32 (Z.quot a b)).
    apply Hwrap. right. right.
    split; [exact E8|]. split; [tauto|].
    exists (Z.quot a b). split; [exact Hrange|].
    split; [reflexivity|].
    repeat split; (discriminate || reflexivity).
  - match goal with
    | |- (?x ≫= _) = _ → _ => destruct x as [r|] eqn:Hr; osimpl; [|discriminate]
    end.
    rewrite send_message_hands
      by (cbn; unfold MAX_PAYLOAD_SIZE; lia).
    osimpl.
    change (take (Z.to_nat 4) (to_be32 r)) with (to_be32 r).
    apply Hwrap. right. right.
    split; [exact E8|]. split; [tauto|].
    assert (Hcase :
      -2147483648 ≤ r ≤ 2147483647 ∧
      (cmd = CMD_CALC_ADD → r = a + b) ∧ (cmd = CMD_CALC_SUB → r = a - b) ∧
      (cmd = CMD_CALC_MUL → r = a * b) ∧
      (cmd = CMD_CALC_DIV → r = Z.quot a b)).
    { revert Hr.
      destruct (Z.eqb_spec cmd CMD_CALC_ADD) as [->|H1].
      { intros Hr. apply int32_range in Hr as [-> ?].
        repeat split; try lia; intros; (reflexivity || discriminate). }
      destruct (Z.eqb_spec cmd CMD_CALC_SUB) as [->|H2].
      { intros Hr. apply int32_range in Hr as [-> ?].
        repeat split; try lia; intros; (reflexivity || discriminate). }
      destruct (Z.eqb_spec cmd CMD_CALC_MUL) as [->|H3].
      { intros Hr. apply int32_range in Hr as [-> ?].
        repeat split; try lia; intros; (reflexivity || discriminate). }
      destruct (Z.eqb_spec cmd CMD_CALC_DIV) as [->|H4]; [contradiction|].
      intros [= <-]. repeat split; try lia; intros; contradiction. }
    destruct Hcase as (Hrange & Hcases).
    exists r. split; [exact Hrange|]. split; [reflexivity | exact Hcases].
Qed.

Lemma handle_calc_replies_once_witness :
  c_in (Conn [] (frame RESP_OK (to_be32 (-3)))) = c_in (Conn [] []) ∧
  ∃ fr,
    c_out (Conn [] (frame RESP_OK (to_be32 (-3))))
      = c_out (Conn [] []) ++ take (Z.to_nat (takes_all (Conn [] []) fr)) fr ∧
    (takes_all (Conn [] []) fr = Z.of_nat (length fr) →
     c_out (Conn [] (frame RESP_OK (to_be32 (-3))))
       = c_out (Conn [] []) ++ fr) ∧
    ((8 < 8 ∧ fr = frame RESP_ERROR (str_bytes "Invalid calc payload")) ∨
     (8 ≤ 8 ∧ CMD_CALC_DIV = CMD_CALC_DIV ∧
      s32 (be32 (drop 4 (to_be32 (-7) ++ to_be32 2))) = 0 ∧
      fr = frame RESP_ERROR (str_bytes "Division by zero")) ∨
     (8 ≤ 8 ∧
      ¬ (CMD_CALC_DIV = CMD_CALC_DIV ∧
         s32 (be32 (drop 4 (to_be32 (-7) ++ to_be32 2))) = 0) ∧
      ∃ r, -2147483648 ≤ r ≤ 2147483647 ∧
           fr = frame RESP_OK (to_be32 r) ∧
           (CMD_CALC_DIV = CMD_CALC_ADD →
            r = s32 (be32 (to_be32 (-7) ++ to_be32 2))
                + s32 (be32 (drop 4 (to_be32 (-7) ++ to_be32 2)))) ∧
           (CMD_CALC_DIV = CMD_CALC_SUB →
            r = s32 (be32 (to_be32 (-7) ++ to_be32 2))
                - s32 (be32 (drop 4 (to_be32 (-7) ++ to_be32 2)))) ∧
           (CMD_CALC_DIV = CMD_CALC_MUL →
            r = s32 (be32 (to_be32 (-7) ++ to_be32 2))
                * s32 (be32 (drop 4 (to_be32 (-7) ++ to_be32 2)))) ∧
           (CMD_CALC_DIV = CMD_CALC_DIV →
            r = Z.quot (s32 (be32 (to_be32 (-7) ++ to_be32 2)))
                       (s32 (be32 (drop 4 (to_be32 (-7) ++ to_be32 2))))))).
Proof.
  refine (handle_calc_replies_once takes_all CMD_CALC_DIV
            (to_be32 (-7) ++ to_be32 2) 8 (Conn [] [])
            (Conn [] (frame RESP_OK (to_be32 (-3)))) _).
  vm_compute. reflexivity.
Defined.

Lemma be32_to_be32 (x : Z) (tl : list Z) :
  be32 (to_be32 x ++ tl) = x mod two32.
Proof.
  unfold be32, to_be32. cbn [app nth].
  set (u := x mod two32).
  assert (Hu : 0 ≤ u < two32) by (apply Z.mod_pos_bound; reflexivity).
  unfold two32 in Hu.
  pose proof (Z.div_mod u 256 ltac:(lia)) as H0.
  pose proof (Z.div_mod (u / 256) 256 ltac:(lia)) as H1.
  pose proof (Z.div_mod (u / 65536) 256 ltac:(lia)) as H2.
  rewrite Z.div_div in H1 by lia. change (256 * 256) with 65536 in H1.
  replace (u / 65536 / 256) with (u / 16777216) in H2
    by (rewrite Z.div_div by lia; reflexivity).
  lia.
Qed.

Lemma s32_mod (x : Z) :
  -2147483648 ≤ x ≤ 2147483647 → s32 (x mod two32) = x.
Proof.
  intros H. unfold s32, two32.
  destruct (Z_lt_le_dec x 0) as [Hneg|Hpos].
  - replace (x mod 4294967296) with (x + 4294967296)
      by (apply Z.mod_unique with (-1); lia).
    destruct (x + 4294967296 <? 2147483648) eqn:E;
      [apply Z.ltb_lt in E | apply Z.ltb_ge in E]; lia.
  - rewrite Z.mod_small by lia.
    destruct (x <? 2147483648) eqn:E;
      [apply Z.ltb_lt in E | apply Z.ltb_ge in E]; lia.
Qed.

Lemma length_to_be32 (x : Z) : length (to_be32 x) = 4%nat.
Proof. reflexivity. Qed.

(** The value the calculation commands stand for. *)
Lemma handle_calc_request (cmd a b : Z) (old : list Z) (c : conn) :
  -2147483648 ≤ a ≤ 2147483647 → -2147483648 ≤ b ≤ 2147483647 →
  cmd = CMD_CALC_ADD ∨ cmd = CMD_CALC_SUB ∨ cmd = CMD_CALC_MUL
    ∨ cmd = CMD_CALC_DIV →
  Server.handle_calc takes_all cmd (store (to_be32 a ++ to_be32 b) old) 8 c
  = if (cmd =? CMD_CALC_DIV) && (b =? 0)
    then Some (sent (frame RESP_ERROR (str_bytes "Division by zero")) c)
    else
      r ← int32 (if cmd =? CMD_CALC_ADD then a + b
                 else if cmd =? CMD_CALC_SUB then a - b
                 else if cmd =? CMD_CALC_MUL then a * b
                 else Z.quot a b);
      Some (sent (frame RESP_OK (to_be32 r)) c).
Proof.
  intros Ha Hb Hcmd. unfold Server.handle_calc.
  change (8 <? 8) with false. cbv iota.
  unfold store. rewrite <- app_assoc.
  rewrite be32_to_be32, (s32_mod a Ha).
  rewrite (drop_app_length' (to_be32 a) _ 4 eq_refl).
  rewrite be32_to_be32, (s32_mod b Hb).
  destruct ((cmd =? CMD_CALC_DIV) && (b =? 0)).
  { apply reply_frame. vm_compute. discriminate. }
  assert (E : (if cmd =? CMD_CALC_ADD then int32 (a + b)
               else if cmd =? CMD_CALC_SUB then int32 (a - b)
               else if cmd =? CMD_CALC_MUL then int32 (a * b)
               else if cmd =? CMD_CALC_DIV then int32 (Z.quot a b)
               else Some 0)
              = int32 (if cmd =? CMD_CALC_ADD then a + b
                       else if cmd =? CMD_CALC_SUB then a - b
                       else if cmd =? CMD_CALC_MUL then a * b
                       else Z.quot a b)).
  { destruct Hcmd as [->|[->|[->| ->]]]; reflexivity. }
  rewrite E. clear E.
  destruct (int32 _) as [r|]; osimpl; [|reflexivity].
  rewrite send_message_frame by (cbn; unfold MAX_PAYLOAD_SIZE; lia).
  osimpl. reflexivity.
Qed.

(** [do_calc] against the reply the server sends. *)
Lemma do_calc_reply (cmd a b code : Z) (text : list Z) (msg : Message) :
  (4 ≤ length text)%nat → Z.of_nat (length text) < MAX_PAYLOAD_SIZE →
  ∃ c',
    Client.do_calc takes_all cmd a b msg (Conn (frame code text) [])
    = Some (0, (if code =? RESP_OK
                then Some (s32 (be32 text)) else None), c').
Proof.
  intros H4 Hlen. unfold Client.do_calc.
  rewrite send_message_frame
    by (cbn; unfold MAX_PAYLOAD_SIZE; lia).
  osimpl. change (0 <? 0) with false. cbv iota.
  unfold sent. cbn [c_in c_out].
  rewrite <- (app_nil_r (frame code text)).
  assert (Hne : text ≠ []) by (intros ->; cbn in H4; lia).
  destruct (client_recv_frame msg code text [] ([] ++ frame cmd
              (take (Z.to_nat 8) (to_be32 a ++ to_be32 b))) Hlen)
    as (msg' & Hrecv & Hcmd & _ & Hpay & _).
  rewrite Hrecv. osimpl. change (0 <? 0) with false. cbv iota.
  rewrite Hcmd. destruct (Hpay Hne) as [tl Htl]. rewrite Htl.
  eexists. destruct (code =? RESP_OK); [|reflexivity].
  destruct text as [|t0 [|t1 [|t2 [|t3 t]]]]; cbn in H4; try lia.
  reflexivity.
Qed.

Lemma calc_exchange_whole (cmd a b : Z) (ms mc : Message) :
  -2147483648 ≤ a ≤ 2147483647 → -2147483648 ≤ b ≤ 2147483647 →
  cmd = CMD_CALC_ADD ∨ cmd = CMD_CALC_SUB ∨ cmd = CMD_CALC_MUL
    ∨ cmd = CMD_CALC_DIV →
  calc_exchange takes_all takes_all cmd a b ms mc
  = if (cmd =? CMD_CALC_DIV) && (b =? 0) then Some (0, None)
    else
      r ← int32 (if cmd =? CMD_CALC_ADD then a + b
                 else if cmd =? CMD_CALC_SUB then a - b
                 else if cmd =? CMD_CALC_MUL then a * b
                 else Z.quot a b);
      Some (0, Some r).
Proof.
  intros Ha Hb Hcmd. unfold calc_exchange.
  rewrite send_message_frame
    by (cbn; unfold MAX_PAYLOAD_SIZE; lia).
  osimpl. unfold sent at 1. cbn [c_in c_out app].
  change (take (Z.to_nat 8) (to_be32 a ++ to_be32 b))
    with (to_be32 a ++ to_be32 b).
  rewrite <- (app_nil_r (frame cmd (to_be32 a ++ to_be32 b))).
  rewrite server_recv_frame by (cbn; unfold MAX_PAYLOAD_SIZE; lia).
  change (negb (0 =? 0)) with false. cbv iota.
  assert (E1 : ∀ h p, m_cmd (Msg (store [cmd;
                 Z.of_nat (length (to_be32 a ++ to_be32 b)) / 256;
                 Z.of_nat (length (to_be32 a ++ to_be32 b)) mod 256] h) p)
               = cmd) by reflexivity.
  assert (E2 : ∀ h p, m_length (Msg (store [cmd;
                 Z.of_nat (length (to_be32 a ++ to_be32 b)) / 256;
                 Z.of_nat (length (to_be32 a ++ to_be32 b)) mod 256] h) p)
               = 8) by reflexivity.
  rewrite E1, E2. cbn [m_payload].
  rewrite (handle_calc_request cmd a b _ _ Ha Hb Hcmd).
  destruct ((cmd =? CMD_CALC_DIV) && (b =? 0)).
  - osimpl. unfold sent. cbn [c_in c_out app].
    destruct (do_calc_reply cmd a b RESP_ERROR
                (str_bytes "Division by zero") mc) as (c' & Hc);
      [cbn; lia | vm_compute; reflexivity|].
    rewrite Hc. reflexivity.
  - destruct (int32 _) as [r|] eqn:Hr; osimpl; [|reflexivity].
    unfold sent. cbn [c_in c_out app].
    destruct (do_calc_reply cmd a b RESP_OK (to_be32 r) mc) as (c' & Hc);
      [cbn; lia | vm_compute; reflexivity|].
    rewrite Hc. osimpl. change (RESP_OK =? RESP_OK) with true. cbv iota.
    rewrite <- (app_nil_r (to_be32 r)), be32_to_be32.
    apply int32_range in Hr as [_ Hrange].
    rewrite (s32_mod r Hrange). reflexivity.
Qed.

(** [do_calc] gives up when its request does not go out whole. *)
Lemma do_calc_send_fails (sys_send : conn → list Z → Z) (cmd a b : Z)
    (msg : Message) (c : conn) :
  sys_send c (frame cmd (to_be32 a ++ to_be32 b)) ≠ HEADER_SIZE + 8 →
  ∃ c', Client.do_calc sys_send cmd a b msg c = Some (-1, None, c') ∧
        c_in c' = c_in c.
Proof.
  intros H. unfold Client.do_calc.
  rewrite send_message_hands by (cbn; unfold MAX_PAYLOAD_SIZE; lia).
  change (take (Z.to_nat 8) (to_be32 a ++ to_be32 b))
    with (to_be32 a ++ to_be32 b).
  apply Z.eqb_neq in H. rewrite H. osimpl.
  change (-1 <? 0) with true. cbv iota.
  eexists. split; [reflexivity|]. apply send_hands.
Qed.

(** X20.  A calculation asked by the client's [do_calc] and served by
    the server's [handle_calc], for operands that fit 32 bits, when both
    sockets take every frame whole: a division by zero is answered with
    an error frame and [do_calc] returns 0 and prints no result;
    otherwise [do_calc] returns 0 and prints the sum, difference, product
    or truncated quotient, provided that fits 32 bits; when it does not
    (an overflow, or the smallest integer divided by -1) the server's
    signed arithmetic has no defined result.  When the client's [send]
    does not take the request whole, [do_calc] returns -1 and reads
    nothing. *)
Theorem calc_exchange_result :
  ∀ (send_c send_s : conn → list Z → Z) (cmd a b : Z)
    (msg_server msg_client : Message),
    -2147483648 ≤ a ≤ 2147483647 → -2147483648 ≤ b ≤ 2147483647 →
    cmd = CMD_CALC_ADD ∨ cmd = CMD_CALC_SUB ∨ cmd = CMD_CALC_MUL
      ∨ cmd = CMD_CALC_DIV →
    ((∀ c bs, send_c c bs = Z.of_nat (length bs)) →
     (∀ c bs, send_s c bs = Z.of_nat (length bs)) →
     calc_exchange send_c send_s cmd a b msg_server msg_client
     = if (cmd =? CMD_CALC_DIV) && (b =? 0) then Some (0, None)
       else
         r ← int32 (if cmd =? CMD_CALC_ADD then a + b
                    else if cmd =? CMD_CALC_SUB then a - b
                    else if cmd =? CMD_CALC_MUL then a * b
                    else Z.quot a b);
         Some (0, Some r)) ∧
    (∀ (msg : Message) (c : conn),
       send_c c (frame cmd (to_be32 a ++ to_be32 b)) ≠ HEADER_SIZE + 8 →
       ∃ c', Client.do_calc send_c cmd a b msg c = Some (-1, None, c') ∧
             c_in c' = c_in c).
Proof.
  intros send_c send_s cmd a b ms mc Ha Hb Hcmd. split.
  - intros Hc Hs.
    rewrite (calc_exchange_ext send_c takes_all send_s takes_all)
      by assumption.
    apply calc_exchange_whole; assumption.
  - intros msg c. apply do_calc_send_fails.
Qed.

Lemma calc_exchange_result_witness :
  calc_exchange takes_all takes_all CMD_CALC_DIV (-7) 2
                (Msg [0; 0; 0] (replicate 1024 0))
                (Msg [0; 0; 0] (replicate 1024 0))
  = if (CMD_CALC_DIV =? CMD_CALC_DIV) && (2 =? 0) then Some (0, None)
    else
      r ← int32 (if CMD_CALC_DIV =? CMD_CALC_ADD then -7 + 2
                 else if CMD_CALC_DIV =? CMD_CALC_SUB then -7 - 2
                 else if CMD_CALC_DIV =? CMD_CALC_MUL then -7 * 2
                 else Z.quot (-7) 2);
      Some (0, Some r).
Proof.
  refine (proj1 (calc_exchange_result takes_all takes_all CMD_CALC_DIV (-7) 2
                   (Msg [0; 0; 0] (replicate 1024 0))
                   (Msg [0; 0; 0] (replicate 1024 0)) _ _ _) _ _).
  - vm_compute. split; discriminate.
  - vm_compute. split; discriminate.
  - right. right. right. reflexivity.
  - reflexivity.
  - reflexivity.
Defined.

(** X21.  The client's [recv_message] has room for fewer than 1024
    payload bytes only: a frame with a shorter payload is read whole,
    with a terminator after the payload; for a frame whose complete
    payload is 1024 bytes or longer, as the server's echo of a full
    buffer is, the payload or its terminator does not fit the buffer and
    the call has no defined result. *)
Theorem client_recv_message_room :
  ∀ (msg : Message) (cmd : Z) (payload rest out : list Z),
    (Z.of_nat (length payload) < MAX_PAYLOAD_SIZE →
     ∃ msg',
       Client.recv_message msg (Conn (frame cmd payload ++ rest) out)
         = Some (0, msg', Conn rest out) ∧
       m_cmd msg' = cmd ∧ m_length msg' = Z.of_nat (length payload) ∧
       (payload ≠ [] → ∃ tl, m_payload msg' = payload ++ 0 :: tl)) ∧
    (MAX_PAYLOAD_SIZE ≤ Z.of_nat (length payload) →
     Client.recv_message msg (Conn (frame cmd payload ++ rest) out) = None).
Proof.
  intros msg cmd payload rest out. split.
  - intros Hlen.
    destruct (client_recv_frame msg cmd payload rest out Hlen)
      as (msg' & H1 & H2 & H3 & H4 & _).
    exists msg'. auto.
  - intros Hlen. unfold Client.recv_message, frame.
    cbn [app]. rewrite recv_header.
    change (Z.of_nat (length [cmd; Z.of_nat (length payload) / 256;
                              Z.of_nat (length payload) mod 256])) with 3.
    change (3 <=? 0) with false. cbv iota.
    assert (EL : ∀ h p, m_length
               (Msg (store [cmd; Z.of_nat (length payload) / 256;
                            Z.of_nat (length payload) mod 256] h) p)
               = Z.of_nat (length payload)).
    { intros h p. unfold m_length. cbn. apply length_field. }
    rewrite EL.
    assert (E2 : (0 <? Z.of_nat (length payload)) = true)
      by (apply Z.ltb_lt; unfold MAX_PAYLOAD_SIZE in Hlen; lia).
    rewrite E2, recv_payload.
    destruct (MAX_PAYLOAD_SIZE <? Z.of_nat (length payload)) eqn:E3;
      [reflexivity|].
    rewrite Z.eqb_refl. cbn [negb].
    assert (E4 : (MAX_PAYLOAD_SIZE <=? Z.of_nat (length payload)) = true)
      by (apply Z.leb_le; exact Hlen).
    rewrite E4. reflexivity.
Qed.

Lemma send_message_onto (cmd : Z) (p : option (list Z)) (len : Z)
    (c : conn) (r : Z) (c0 : conn) :
  send_message takes_all cmd p len (Conn [] []) = Some (r, c0) →
  send_message takes_all cmd p len c
    = Some (r, Conn (c_in c) (c_out c ++ c_out c0)) ∧
  c_in c0 = [].
Proof.
  unfold send_message. cbv zeta. rewrite !send_takes_all.
  destruct (0 <? len).
  - destruct p as [bs|]; [|discriminate].
    destruct ((len <=? MAX_PAYLOAD_SIZE) && (len <=? Z.of_nat (length bs)));
      [|discriminate].
    rewrite !send_takes_all.
    intros [= <- <-]. split; reflexivity.
  - intros [= <- <-]. split; reflexivity.
Qed.

Lemma reply_onto (code : Z) (text : list Z) (c c0 : conn) :
  Server.reply takes_all code text (Conn [] []) = Some c0 →
  Server.reply takes_all code text c
    = Some (Conn (c_in c) (c_out c ++ c_out c0)) ∧
  c_in c0 = [].
Proof.
  unfold Server.reply.
  destruct (send_message takes_all code (Some text) _ (Conn [] []))
    as [[r c1]|] eqn:E;
    osimpl; [|discriminate].
  intros [= <-]. apply (send_message_onto _ _ _ c) in E as [E1 E2].
  rewrite E1. osimpl. auto.
Qed.

Lemma be32_app (p tl tl' : list Z) :
  (4 ≤ length p)%nat → be32 (p ++ tl) = be32 (p ++ tl').
Proof.
  intros H. destruct p as [|t0 [|t1 [|t2 [|t3 t]]]]; cbn in H; try lia.
  reflexivity.
Qed.

(** The answer to a request does not depend on what the buffer held
    before, and is appended to what was sent. *)
Lemma dispatch_request (ct pid : list Z) (cmd : Z) (payload h old : list Z)
    (c : conn) (b : bool) (c0 : conn) :
  Server.dispatch takes_all ct pid (request_msg cmd payload) (Conn [] [])
    = Some (b, c0) →
  Server.dispatch takes_all ct pid
    (Msg (store [cmd; Z.of_nat (length payload) / 256;
                 Z.of_nat (length payload) mod 256] h)
         (store payload old)) c
    = Some (b, Conn (c_in c) (c_out c ++ c_out c0)) ∧
  c_in c0 = [] ∧ (cmd ≠ CMD_QUIT → b = true).
Proof.
  unfold Server.dispatch, request_msg.
  assert (E1 : ∀ hh p, m_cmd (Msg (store [cmd;
                 Z.of_nat (length payload) / 256;
                 Z.of_nat (length payload) mod 256] hh) p) = cmd)
    by reflexivity.
  assert (E1' : ∀ p, m_cmd (Msg [cmd; Z.of_nat (length payload) / 256;
                                 Z.of_nat (length payload) mod 256] p) = cmd)
    by reflexivity.
  assert (E2 : ∀ hh p, m_length (Msg (store [cmd;
                 Z.of_nat (length payload) / 256;
                 Z.of_nat (length payload) mod 256] hh) p)
               = Z.of_nat (length payload))
    by (intros; unfold m_length; cbn; apply length_field).
  assert (E2' : ∀ p, m_length (Msg [cmd; Z.of_nat (length payload) / 256;
                                    Z.of_nat (length payload) mod 256] p)
                = Z.of_nat (length payload))
    by (intros; unfold m_length; cbn; apply length_field).
  rewrite E1, E1', E2, E2'. cbn [m_payload].
  set (l := Z.of_nat (length payload)).
  assert (Hwrap : ∀ (x : option conn) (y : option conn),
            (∀ c1, x = Some c1 →
                   y = Some (Conn (c_in c) (c_out c ++ c_out c1)) ∧
                   c_in c1 = []) →
            (x ≫= λ c', Some (true, c')) = Some (b, c0) →
            (y ≫= λ c', Some (true, c'))
              = Some (b, Conn (c_in c) (c_out c ++ c_out c0)) ∧
            c_in c0 = [] ∧ (cmd ≠ CMD_QUIT → b = true)).
  { intros x y Hxy. destruct x as [c1|]; osimpl; [|discriminate].
    intros [= <- <-]. destruct (Hxy c1 eq_refl) as [-> Hin]. osimpl. auto. }
  destruct (cmd =? CMD_ECHO).
  { apply Hwrap. intros c1. unfold Server.handle_echo, send_message.
    cbv zeta. rewrite !send_takes_all.
    destruct (0 <? l) eqn:E0.
    - assert (Hlen : ∀ o, (l <=? Z.of_nat (length (store payload o))) = true).
      { intros o. apply Z.leb_le. unfold store. rewrite length_app.
        subst l. lia. }
      rewrite !Hlen, !andb_true_r.
      destruct (l <=? MAX_PAYLOAD_SIZE); osimpl; [|discriminate].
      subst l. rewrite Nat2Z.id.
      rewrite !(store_app payload _ (length payload) eq_refl).
      rewrite ?send_takes_all. osimpl.
      intros [= <-]. split; reflexivity.
    - osimpl. intros [= <-]. split; reflexivity. }
  destruct (cmd =? CMD_TIME).
  { apply Hwrap. intros c1. unfold Server.handle_time.
    destruct ct; [discriminate|]. apply reply_onto. }
  destruct (cmd =? CMD_INFO).
  { apply Hwrap. intros c1. apply reply_onto. }
  destruct (cmd =? CMD_PING).
  { apply Hwrap. intros c1. apply reply_onto. }
  destruct ((cmd =? CMD_CALC_ADD) || (cmd =? CMD_CALC_SUB)
            || (cmd =? CMD_CALC_MUL) || (cmd =? CMD_CALC_DIV)).
  { apply Hwrap. intros c1. unfold Server.handle_calc.
    destruct (l <? 8) eqn:E8; [apply reply_onto|].
    apply Z.ltb_ge in E8.
    assert (H8 : (8 ≤ length payload)%nat) by (subst l; lia).
    assert (Ha : ∀ o, be32 (store payload o) = be32 (payload ++ []))
      by (intros o; unfold store; apply be32_app; lia).
    assert (Hb : ∀ o, be32 (drop 4 (store payload o))
                      = be32 (drop 4 payload ++ [])).
    { intros o. unfold store. rewrite drop_app_le by lia.
      apply be32_app. rewrite length_drop. lia. }
    rewrite !Ha, !Hb.
    destruct ((cmd =? CMD_CALC_DIV) && _); [apply reply_onto|].
    match goal with
    | |- (?x ≫= _) = _ → _ => destruct x as [r|]; osimpl; [|discriminate]
    end.
    destruct (send_message takes_all RESP_OK (Some (to_be32 r)) 4
                (Conn [] []))
      as [[r1 c2]|] eqn:E; osimpl; [|discriminate].
    intros [= <-]. apply (send_message_onto _ _ _ c) in E as [-> Hin].
    osimpl. auto. }
  destruct (Z.eqb_spec cmd CMD_QUIT) as [Hq|Hq].
  { intros [= <- <-]. cbn [c_in c_out]. rewrite app_nil_r.
    destruct c. split; [reflexivity|]. split; [reflexivity|].
    intros; contradiction. }
  apply Hwrap. intros c1. apply reply_onto.
Qed.

Lemma handle_client_frames (ct pid : list Z) (rs : list (Z * list Z)) :
  ∀ (outs : list (list Z)) (fuel : nat) (msg : Message) (out : list Z),
    (length rs < fuel)%nat → answered ct pid rs outs →
    Server.handle_client takes_all fuel ct pid msg (Conn (frames rs) out)
      = Some (Conn [] (out ++ concat outs)) ∧
    ∀ rest,
      Server.handle_client takes_all fuel ct pid msg
        (Conn (frames rs ++ frame CMD_QUIT [] ++ rest) out)
      = Some (Conn rest (out ++ concat outs)).
Proof.
  induction rs as [|[cmd payload] rs IH]; intros outs fuel msg out Hfuel Hans.
  - inversion Hans; subst. destruct fuel as [|f]; [cbn in Hfuel; lia|].
    cbn [concat]. rewrite app_nil_r. split; [reflexivity|].
    intros rest. unfold frames. cbn [map concat app Server.handle_client].
    rewrite server_recv_frame by (cbn; unfold MAX_PAYLOAD_SIZE; lia).
    change (0 =? 1) with false. change (0 <? 0) with false. cbv iota.
    reflexivity.
  - inversion Hans as [|r o rs' outs' (Hq & Hlen & Ho) Hrest]; subst.
    cbn [fst snd] in Hq, Hlen, Ho.
    destruct fuel as [|f]; [cbn in Hfuel; lia|].
    cbn [length] in Hfuel.
    unfold answer in Ho.
    destruct (Server.dispatch takes_all ct pid (request_msg cmd payload)
                (Conn [] []))
      as [[b c0]|] eqn:Hd; osimpl in Ho; [|discriminate].
    injection Ho as <-.
    assert (Hstep : ∀ tail,
      Server.handle_client takes_all (S f) ct pid msg
        (Conn (frame cmd payload ++ tail) out)
      = Server.handle_client takes_all f ct pid
          (Msg (store [cmd; Z.of_nat (length payload) / 256;
                       Z.of_nat (length payload) mod 256] (m_header msg))
               (store payload (m_payload msg)))
          (Conn tail (out ++ c_out c0))).
    { intros tail. cbn [Server.handle_client].
      rewrite server_recv_frame by exact Hlen.
      change (0 =? 1) with false. change (0 <? 0) with false. cbv iota.
      destruct (dispatch_request ct pid cmd payload (m_header msg)
                  (m_payload msg) (Conn tail out) b c0 Hd)
        as (-> & _ & Hb).
      osimpl. rewrite (Hb Hq). reflexivity. }
    destruct (IH outs' f
                (Msg (store [cmd; Z.of_nat (length payload) / 256;
                             Z.of_nat (length payload) mod 256]
                            (m_header msg))
                     (store payload (m_payload msg)))
                (out ++ c_out c0) ltac:(lia) Hrest) as [IH1 IH2].
    unfold frames in *. cbn [map concat fst snd].
    split.
    + rewrite Hstep, IH1. rewrite <- app_assoc. reflexivity.
    + intros rest. rewrite <- app_assoc, Hstep, IH2.
      rewrite <- app_assoc. reflexivity.
Qed.

(** X22.  A session with the server's [handle_client] on a socket that
    takes every frame whole: requests that arrive one frame after the
    other, none of them [CMD_QUIT] and each with a payload of at most 1024
    bytes, are answered one frame each, in order, whatever the message
    buffer held before; the loop then ends at the end of the stream, or at
    a [CMD_QUIT] frame, which gets no answer and after which nothing is
    read.  Fuel above the number of requests is enough. *)
Theorem handle_client_answers_in_order :
  ∀ (sys_send : conn → list Z → Z) (ctime_text pid_digits : list Z)
    (rs : list (Z * list Z)) (outs : list (list Z)) (fuel : nat)
    (msg : Message) (out rest : list Z),
    (∀ c bs, sys_send c bs = Z.of_nat (length bs)) →
    (length rs < fuel)%nat → answered ctime_text pid_digits rs outs →
    Server.handle_client sys_send fuel ctime_text pid_digits msg
      (Conn (frames rs) out)
      = Some (Conn [] (out ++ concat outs)) ∧
    Server.handle_client sys_send fuel ctime_text pid_digits msg
      (Conn (frames rs ++ frame CMD_QUIT [] ++ rest) out)
      = Some (Conn rest (out ++ concat outs)).
Proof.
  intros sys_send ct pid rs outs fuel msg out rest Hall Hfuel Hans.
  rewrite !(handle_client_ext sys_send takes_all Hall).
  destruct (handle_client_frames ct pid rs outs fuel msg out Hfuel Hans)
    as [H1 H2].
  split; [exact H1 | apply H2].
Qed.

Lemma handle_client_answers_in_order_witness :
  Server.handle_client takes_all 4
    (str_bytes "Thu Jan  1 00:00:00 1970" ++ [10])
    (str_bytes "42") (Msg [0; 0; 0] (replicate 1024 0))
    (Conn (frames [(CMD_PING, []); (CMD_ECHO, str_bytes "hi"); (77, [])])
          [])
  = Some (Conn [] ([] ++ concat
                    [frame RESP_OK (str_bytes "PONG");
                     frame RESP_OK (str_bytes "hi");
                     frame RESP_ERROR (str_bytes "Unknown command")])) ∧
  Server.handle_client takes_all 4
    (str_bytes "Thu Jan  1 00:00:00 1970" ++ [10])
    (str_bytes "42") (Msg [0; 0; 0] (replicate 1024 0))
    (Conn (frames [(CMD_PING, []); (CMD_ECHO, str_bytes "hi"); (77, [])]
             ++ frame CMD_QUIT [] ++ frame CMD_PING [])
          [])
  = Some (Conn (frame CMD_PING [])
               ([] ++ concat
                    [frame RESP_OK (str_bytes "PONG");
                     frame RESP_OK (str_bytes "hi");
                     frame RESP_ERROR (str_bytes "Unknown command")])).
Proof.
  refine (handle_client_answers_in_order takes_all
            (str_bytes "Thu Jan  1 00:00:00 1970" ++ [10]) (str_bytes "42")
            [(CMD_PING, []); (CMD_ECHO, str_bytes "hi"); (77, [])]
            [frame RESP_OK (str_bytes "PONG");
             frame RESP_OK (str_bytes "hi");
             frame RESP_ERROR (str_bytes "Unknown command")]
            4 (Msg [0; 0; 0] (replicate 1024 0)) [] (frame CMD_PING [])
            _ _ _).
  - reflexivity.
  - vm_compute. repeat constructor.
  - repeat constructor; cbn [fst snd];
      try (vm_compute; discriminate); vm_compute; reflexivity.
Defined.

(* ===================================================================== *)
(** ** What the single-module lookup reaches *)
(* ===================================================================== *)

(** [strcmp] tells a string from any other one. *)
Lemma strcmp_eq_false (m : memory) (p : Z) (s bs : list Z) :
  cstr_at m p bs → bs ≠ c_bytes s → strcmp_eq m p s = Some false.
Proof.
  revert p bs. induction s as [|c s IH]; intros p bs Hbs Hne;
    cbn [strcmp_eq c_bytes] in *.
  - destruct bs as [|b bs]; [contradiction|].
    cbn [cstr_at] in Hbs. destruct Hbs as (Hb & -> & _). osimpl.
    apply Z.eqb_neq in Hb. rewrite Hb. reflexivity.
  - destruct (Z.eqb_spec c 0) as [->|Hc].
    + destruct bs as [|b bs]; [contradiction|].
      cbn [cstr_at] in Hbs. destruct Hbs as (Hb & -> & _). osimpl.
      apply Z.eqb_neq in Hb. rewrite Hb. reflexivity.
    + destruct bs as [|b bs]; cbn [cstr_at] in Hbs.
      * rewrite Hbs. osimpl.
        destruct (Z.eqb_spec 0 c) as [E|_]; [congruence | reflexivity].
      * destruct Hbs as (Hb & -> & Hrest). osimpl.
        destruct (Z.eqb_spec b c) as [->|_]; [|reflexivity].
        apply (IH _ bs); [exact Hrest | congruence].
Qed.

Lemma sym_defines_name m si name i a :
  sym_defines m si name i a → sym_name_is m si name (sym_ptr si i) = Some true.
Proof.
  intros ((nm & Hnm & Hc) & _). unfold sym_name_is. rewrite Hnm. osimpl.
  apply strcmp_eq_true. exact Hc.
Qed.

(** The acceptance test lets a defining entry through. *)
Lemma sym_defines_accepted m si name i a :
  sym_defines m si name i a →
  ∃ shndx info,
    st_shndx m (sym_ptr si i) = Some shndx ∧ (shndx =? SHN_UNDEF) = false ∧
    st_info m (sym_ptr si i) = Some info ∧ bind_ok info = true ∧
    sym_address m si (sym_ptr si i) = Some a.
Proof.
  intros (_ & (shndx & Hs & Hu) & (info & Hi & Hb) & (v & Hv & ->)).
  exists shndx, info. split; [exact Hs|].
  split; [apply Z.eqb_neq; exact Hu|]. split; [exact Hi|].
  split; [apply bind_ok_spec; exact Hb|].
  unfold sym_address. rewrite Hv. reflexivity.
Qed.

Lemma bind_ok_false info :
  ELF64_ST_BIND info ≠ STB_GLOBAL → ELF64_ST_BIND info ≠ STB_WEAK →
  bind_ok info = false.
Proof.
  intros H1 H2. destruct (bind_ok info) eqn:E; [|reflexivity].
  apply bind_ok_spec in E. tauto.
Qed.

(** The three ways the acceptance test turns an entry down. *)
Lemma sym_other_cases m si name i :
  sym_other m si name i →
  sym_name_is m si name (sym_ptr si i) = Some false ∨
  (sym_name_is m si name (sym_ptr si i) = Some true ∧
   st_shndx m (sym_ptr si i) = Some SHN_UNDEF) ∨
  (sym_name_is m si name (sym_ptr si i) = Some true ∧
   ∃ shndx info,
     st_shndx m (sym_ptr si i) = Some shndx ∧ (shndx =? SHN_UNDEF) = false ∧
     st_info m (sym_ptr si i) = Some info ∧ bind_ok info = false).
Proof.
  intros (nm & Hnm & [(bs & Hbs & Hne)|[Hc Hun]]); unfold sym_name_is;
    rewrite Hnm; osimpl.
  - left. eapply strcmp_eq_false; eassumption.
  - apply strcmp_eq_true in Hc. rewrite Hc.
    destruct Hun as [Hu|(shndx & info & Hs & Hu & Hi & Hg & Hw)].
    + right. left. auto.
    + right. right. split; [reflexivity|]. exists shndx, info.
      split; [exact Hs|]. split; [apply Z.eqb_neq; exact Hu|].
      split; [exact Hi|]. apply bind_ok_false; assumption.
Qed.

Lemma elf_chain_walk_S m si name f chain i :
  elf_chain_walk m si name (S f) chain i
  = (if i =? 0 then Some None else
     let sym := sym_ptr si i in
     eq ← sym_name_is m si name sym;
     shndx ← (if (eq : bool) then st_shndx m sym else Some 0);
     info ← (if eq && negb (shndx =? SHN_UNDEF)
             then st_info m sym else Some 0);
     if eq && negb (shndx =? SHN_UNDEF) && bind_ok info
     then a ← sym_address m si sym; Some (Some a)
     else
       nxt ← read_u32 m (padd chain (4 * i));
       elf_chain_walk m si name f chain nxt).
Proof. reflexivity. Qed.

Lemma linear_scan_S m si name k i :
  linear_scan m si name (S k) i
  = (let sym := sym_ptr si i in
     nm ← st_name m sym;
     eq ← (if nm =? 0 then Some false else sym_name_is m si name sym);
     shndx ← (if (eq : bool) then st_shndx m sym else Some 0);
     info ← (if eq && negb (shndx =? SHN_UNDEF)
             then st_info m sym else Some 0);
     if eq && negb (shndx =? SHN_UNDEF) && bind_ok info
     then a ← sym_address m si sym; Some (Some a)
     else linear_scan m si name k (i + 1)).
Proof. reflexivity. Qed.

(** The chain walk stops at the first accepted definition it is led to. *)
Lemma elf_chain_walk_finds m si name chain skipped :
  ∀ (fuel : nat) (i k a : Z),
    elf_chain_leads m si name chain skipped i k → k ≠ 0 →
    sym_defines m si name k a → (length skipped < fuel)%nat →
    elf_chain_walk m si name fuel chain i = Some (Some a).
Proof.
  induction skipped as [|j rest IH]; intros fuel i k a Hlead Hk Hdef Hfuel;
    cbn [elf_chain_leads length] in *;
    (destruct fuel as [|f]; [lia|]); rewrite elf_chain_walk_S; cbv zeta.
  - subst i. apply Z.eqb_neq in Hk. rewrite Hk.
    rewrite (sym_defines_name _ _ _ _ _ Hdef). osimpl.
    destruct (sym_defines_accepted _ _ _ _ _ Hdef)
      as (shndx & info & -> & Hu & Hi & Hb & Ha).
    osimpl. rewrite Hu. cbn [negb]. rewrite Hi. osimpl. rewrite Hb, Ha.
    reflexivity.
  - destruct Hlead as (-> & Hj & Hoth & nxt & Hnxt & Hrest).
    apply Z.eqb_neq in Hj. rewrite Hj.
    assert (Hgo : elf_chain_walk m si name f chain nxt = Some (Some a))
      by (eapply IH; [exact Hrest | exact Hk | exact Hdef | lia]).
    destruct (sym_other_cases _ _ _ _ Hoth)
      as [Hn|[[Hn Hs]|(Hn & shndx & info & Hs & Hu & Hi & Hb)]];
      rewrite Hn; osimpl.
    + rewrite Hnxt. osimpl. exact Hgo.
    + rewrite Hs. osimpl. change (SHN_UNDEF =? SHN_UNDEF) with true.
      cbn [negb]. osimpl. rewrite Hnxt. osimpl. exact Hgo.
    + rewrite Hs. osimpl. rewrite Hu. cbn [negb]. rewrite Hi. osimpl.
      rewrite Hb. rewrite Hnxt. osimpl. exact Hgo.
Qed.

(** The linear scan stops at the first named accepted definition. *)
Lemma linear_scan_finds m si name :
  ∀ (cnt : nat) (i k a : Z),
    i ≤ k < i + Z.of_nat cnt →
    (∀ j, i ≤ j < k →
          st_name m (sym_ptr si j) = Some 0 ∨ sym_other m si name j) →
    sym_named m si k → sym_defines m si name k a →
    linear_scan m si name cnt i = Some (Some a).
Proof.
  induction cnt as [|c IH]; intros i k a Hk Hskip Hnamed Hdef; [lia|].
  rewrite linear_scan_S. cbv zeta.
  destruct (Z.eq_dec i k) as [->|Hne].
  - destruct Hnamed as (nm & Hnm & Hnz). rewrite Hnm. osimpl.
    apply Z.eqb_neq in Hnz. rewrite Hnz.
    rewrite (sym_defines_name _ _ _ _ _ Hdef). osimpl.
    destruct (sym_defines_accepted _ _ _ _ _ Hdef)
      as (shndx & info & -> & Hu & Hi & Hb & Ha).
    osimpl. rewrite Hu. cbn [negb]. rewrite Hi. osimpl. rewrite Hb, Ha.
    reflexivity.
  - assert (Hgo : linear_scan m si name c (i + 1) = Some (Some a)).
    { apply (IH (i + 1) k a); [lia | | exact Hnamed | exact Hdef].
      intros j Hj. apply Hskip. lia. }
    destruct (Hskip i ltac:(lia)) as [Hz|Hoth].
    + rewrite Hz. osimpl. change (0 =? 0) with true. osimpl. exact Hgo.
    + pose proof Hoth as (nm & Hnm & _). rewrite Hnm. osimpl.
      destruct (nm =? 0); osimpl; [exact Hgo|].
      destruct (sym_other_cases _ _ _ _ Hoth)
        as [Hn|[[Hn Hs]|(Hn & shndx & info & Hs & Hu & Hi & Hb)]];
        rewrite Hn; osimpl.
      * exact Hgo.
      * rewrite Hs. osimpl. change (SHN_UNDEF =? SHN_UNDEF) with true.
        cbn [negb]. osimpl. exact Hgo.
      * rewrite Hs. osimpl. rewrite Hu. cbn [negb]. rewrite Hi. osimpl.
        rewrite Hb. exact Hgo.
Qed.

(** Method 1 on a table whose lookup answers. *)
Lemma find_by_gnu_hash_answers fuel m si name r :
  gnu_answers fuel m si name r →
  find_by_gnu_hash m si name fuel
  = match r with
    | None => Some None
    | Some n =>
        shndx ← st_shndx m (sym_ptr si n);
        if shndx =? SHN_UNDEF then Some None else
        info ← st_info m (sym_ptr si n);
        if bind_ok info
        then a ← sym_address m si (sym_ptr si n); Some (Some a)
        else Some None
    end.
Proof.
  intros (Hgnu & (shift & Hshift & Hlt) & Hspec & Hptr).
  unfold find_by_gnu_hash.
  destruct (gnu_lookup_refines fuel m si name shift r Hgnu Hshift Hlt Hspec)
    as [_ ->].
  apply Z.eqb_neq in Hgnu. rewrite Hgnu. cbn [negb]. osimpl.
  destruct r as [n|].
  - apply Z.eqb_neq in Hptr. rewrite Hptr. reflexivity.
  - change (NULL =? NULL) with true. reflexivity.
Qed.

Lemma find_by_gnu_hash_silent fuel m si name :
  gnu_silent fuel m si name → find_by_gnu_hash m si name fuel = Some None.
Proof.
  intros [Hnull|[Habs|(n & Hans & Hun)]].
  - unfold find_by_gnu_hash. rewrite Hnull.
    change (NULL =? NULL) with true. reflexivity.
  - rewrite (find_by_gnu_hash_answers _ _ _ _ _ Habs). reflexivity.
  - rewrite (find_by_gnu_hash_answers _ _ _ _ _ Hans).
    destruct Hun as [Hu|(shndx & info & Hs & Hu & Hi & Hg & Hw)].
    + rewrite Hu. osimpl. change (SHN_UNDEF =? SHN_UNDEF) with true.
      reflexivity.
    + rewrite Hs. osimpl. apply Z.eqb_neq in Hu. rewrite Hu.
      rewrite Hi. osimpl. rewrite (bind_ok_false _ Hg Hw). reflexivity.
Qed.

Lemma find_by_elf_hash_lists fuel m si name skipped k a :
  elf_hash_lists m si name skipped k → sym_defines m si name k a →
  (length skipped < fuel)%nat →
  find_by_elf_hash m si name fuel = Some (Some a).
Proof.
  intros (Hhash & Hk & nb & i & Hnb & Hnz & Hi & Hlead) Hdef Hfuel.
  unfold find_by_elf_hash. apply Z.eqb_neq in Hhash. rewrite Hhash.
  cbn [negb]. rewrite Hnb. osimpl. cbv zeta.
  apply Z.eqb_neq in Hnz. rewrite Hnz. rewrite Hi. osimpl.
  eapply elf_chain_walk_finds; eassumption.
Qed.

Lemma linker_find_symbol_tables m si name fuel :
  si_symtab si ≠ NULL → si_strtab si ≠ NULL →
  linker_find_symbol m si name fuel
  = (r1 ← find_by_gnu_hash m si name fuel;
     match r1 with
     | Some a => Some a
     | None =>
         r2 ← find_by_elf_hash m si name fuel;
         match r2 with
         | Some a => Some a
         | None =>
             r3 ← find_by_scan m si name;
             match r3 with
             | Some a => Some a
             | None => Some NULL
             end
         end
     end).
Proof.
  intros Hsym Hstr. unfold linker_find_symbol.
  apply Z.eqb_neq in Hsym, Hstr. rewrite Hsym, Hstr. reflexivity.
Qed.

(** C4 (amended).  [linker_find_symbol] returns a non-null address only for
    a name that an entry of the module's symbol table defines: the entry
    has exactly that name, a section index other than [SHN_UNDEF] and
    global or weak binding, and the address is [load_bias + st_value] of
    it; so the null address is returned when no entry defines the name.
    In the other direction, a defining entry is found, and the address
    returned is [load_bias + st_value] of it, when the method in use
    reaches it: when the lookup in the GNU hash table answers it; or when
    that table gives no accepted definition and the chain of the name's
    bucket in the ELF hash table leads to it over entries that are passed
    over; or when the module has no hash table and the entry has a
    non-zero name offset and is the first accepted match among the first
    256 entries. *)
Theorem linker_find_symbol_defined_symbols :
  ∀ (fuel : nat) (m : memory) (si : soinfo) (name : list Z),
    (∀ a, linker_find_symbol m si name fuel = Some a →
       (a ≠ NULL → ∃ i, sym_defines m si name i a) ∧
       ((∀ i addr, ¬ sym_defines m si name i addr) → a = NULL)) ∧
    (∀ k a,
       si_symtab si ≠ NULL → si_strtab si ≠ NULL →
       sym_defines m si name k a →
       (gnu_answers fuel m si name (Some k) →
        linker_find_symbol m si name fuel = Some a) ∧
       (∀ skipped,
          gnu_silent fuel m si name → elf_hash_lists m si name skipped k →
          (length skipped < fuel)%nat →
          linker_find_symbol m si name fuel = Some a) ∧
       (si_hash si = NULL → si_gnu_hash si = NULL →
        0 ≤ k < 256 → sym_named m si k → scan_reaches m si name k →
        linker_find_symbol m si name fuel = Some a)).
Proof.
  intros fuel m si name. split.
  - intros a H. split.
    + apply linker_find_symbol_sound with (fuel := fuel). exact H.
    + intros Hno. destruct (Z.eq_dec a NULL) as [|Hne]; [assumption|].
      destruct (linker_find_symbol_sound _ _ _ _ _ H Hne) as (i & Hd).
      exfalso. exact (Hno _ _ Hd).
  - intros k a Hsym Hstr Hdef.
    destruct (sym_defines_accepted _ _ _ _ _ Hdef)
      as (shndx & info & Hs & Hu & Hi & Hb & Ha).
    split; [|split].
    + intros Hans. rewrite linker_find_symbol_tables by assumption.
      rewrite (find_by_gnu_hash_answers _ _ _ _ _ Hans).
      rewrite Hs. osimpl. rewrite Hu, Hi. osimpl. rewrite Hb, Ha.
      reflexivity.
    + intros skipped Hsilent Hlists Hfuel.
      rewrite linker_find_symbol_tables by assumption.
      rewrite (find_by_gnu_hash_silent _ _ _ _ Hsilent). osimpl.
      rewrite (find_by_elf_hash_lists _ _ _ _ _ _ _ Hlists Hdef Hfuel).
      reflexivity.
    + intros Hhash Hgnu Hk Hnamed Hreach.
      rewrite linker_find_symbol_no_hash by assumption.
      rewrite (linear_scan_finds m si name 256 0 k a);
        [reflexivity | lia | exact Hreach | exact Hnamed | exact Hdef].
Qed.

Lemma linker_find_symbol_defined_symbols_witness :
  linker_find_symbol
    (Sample.sym_image 1 Sample.strtab_add
       (Sample.gnu_table 6 (Demo.bloom_bits Demo.h_add)) 0)
    (Sample.si_image 0 4112) (str_bytes "add") 64 = Some 4608 ∧
  linker_find_symbol
    (Sample.sym_image 1 Sample.strtab_add Sample.elf_table_one 0)
    (Sample.si_image 4112 0) (str_bytes "add") 64 = Some 4608 ∧
  linker_find_symbol
    (Sample.sym_image 1 Sample.strtab_add [] 0)
    (Sample.si_image 0 0) (str_bytes "add") 64 = Some 4608.
Proof.
  split; [|split].
  - refine (proj1 (proj2 (linker_find_symbol_defined_symbols 64
              (Sample.sym_image 1 Sample.strtab_add
                 (Sample.gnu_table 6 (Demo.bloom_bits Demo.h_add)) 0)
              (Sample.si_image 0 4112) (str_bytes "add")) 1 4608 _ _ _) _).
    + vm_compute. discriminate.
    + vm_compute. discriminate.
    + eapply accepted_defines; vm_compute; reflexivity.
    + split; [vm_compute; discriminate|].
      split; [exists 6; split; [vm_compute; reflexivity | reflexivity]|].
      split; [vm_compute; reflexivity | vm_compute; discriminate].
  - refine (proj1 (proj2 (proj2 (linker_find_symbol_defined_symbols 64
              (Sample.sym_image 1 Sample.strtab_add Sample.elf_table_one 0)
              (Sample.si_image 4112 0) (str_bytes "add")) 1 4608 _ _ _))
              [] _ _ _).
    + vm_compute. discriminate.
    + vm_compute. discriminate.
    + eapply accepted_defines; vm_compute; reflexivity.
    + left. reflexivity.
    + split; [vm_compute; discriminate|]. split; [lia|].
      exists 1, 1. split; [vm_compute; reflexivity|].
      split; [lia|]. split; [vm_compute; reflexivity | reflexivity].
    + cbn [length]. lia.
  - refine (proj2 (proj2 (proj2 (linker_find_symbol_defined_symbols 64
              (Sample.sym_image 1 Sample.strtab_add [] 0)
              (Sample.si_image 0 0) (str_bytes "add")) 1 4608 _ _ _))
              _ _ _ _ _).
    + vm_compute. discriminate.
    + vm_compute. discriminate.
    + eapply accepted_defines; vm_compute; reflexivity.
    + reflexivity.
    + reflexivity.
    + lia.
    + exists 1. split; [vm_compute; reflexivity | lia].
    + intros j Hj. assert (j = 0) as -> by lia. left.
      vm_compute. reflexivity.
Defined.

(** C4, as stated, fails, in each of the three methods.  libwide.so has no
    hash table; entry 256 of its symbol table is named [f], is defined and
    global, and stands at a non-null address; [linker_find_symbol] returns
    [NULL] for [f].  The sample image defines [add] at a non-null address;
    with a GNU hash table whose bloom filter is empty, with an ELF hash
    table whose bucket is empty, and without hash tables when the name
    offset of the entry is zero, [linker_find_symbol] returns [NULL] for
    [add]. *)
Lemma find_symbol_misses_defined_symbols :
  (option_map fst (demo_dlopen (Some "libwide.so"%string) 2 Demo.w0)
     = Some Demo.h1 ∧
   linker_find_symbol (w_mem Demo.ww) Demo.siw (str_bytes "f") Demo.fuel
     = Some NULL ∧
   sym_defines (w_mem Demo.ww) Demo.siw (str_bytes "f") 256 139637978828808 ∧
   139637978828808 ≠ NULL) ∧
  (let m := Sample.sym_image 1 Sample.strtab_add (Sample.gnu_table 6 0) 0 in
   let si := Sample.si_image 0 4112 in
   sym_defines m si (str_bytes "add") 1 4608 ∧
   linker_find_symbol m si (str_bytes "add") 64 = Some NULL) ∧
  (let m := Sample.sym_image 1 Sample.strtab_add Sample.elf_table_empty 0 in
   let si := Sample.si_image 4112 0 in
   sym_defines m si (str_bytes "add") 1 4608 ∧
   linker_find_symbol m si (str_bytes "add") 64 = Some NULL) ∧
  (let m := Sample.sym_image 0 Sample.strtab_add0 [] 254 in
   let si := Sample.si_image 0 0 in
   sym_defines m si (str_bytes "add") 1 4608 ∧
   linker_find_symbol m si (str_bytes "add") 64 = Some NULL).
Proof.
  split; [|split; [|split]].
  - split; [vm_compute; reflexivity|].
    split; [vm_compute; reflexivity|].
    split; [|vm_compute; discriminate].
    eapply accepted_defines; vm_compute; reflexivity.
  - cbv zeta. split; [|vm_compute; reflexivity].
    eapply accepted_defines; vm_compute; reflexivity.
  - cbv zeta. split; [|vm_compute; reflexivity].
    eapply accepted_defines; vm_compute; reflexivity.
  - cbv zeta. split; [|vm_compute; reflexivity].
    eapply accepted_defines; vm_compute; reflexivity.
Qed.

(** C3, as stated, fails: the GNU hash table of the sample image lists
    [add], its bloom shift is 38 and its bloom word holds the two bits a
    shift by 6 asks for, but not bit 0.  The specified algorithm shifts
    the 32-bit hash by 38, tests bit 0 and answers absence; the code
    shifts a 32-bit word by 38 bits, which has no defined result (compiled
    for x86-64 the shift is by 38 mod 32 = 6 bits and the symbol is
    found, as it is for a bloom shift of 6). *)
Lemma gnu_lookup_wide_shift_differs :
  let m := Sample.sym_image 1 Sample.strtab_add
             (Sample.gnu_table 38 (Demo.bloom_bits Demo.h_add)) 0 in
  let si := Sample.si_image 0 4112 in
  si_gnu_hash si ≠ NULL ∧
  read_u32 m (si_gnu_hash si + 12) = Some 38 ∧
  GnuSpec.lookup 64 m (si_gnu_hash si) (si_symtab si) (si_strtab si)
                 (str_bytes "add") = Some None ∧
  gnu_lookup m si (str_bytes "add") 64 = None ∧
  gnu_lookup (Sample.sym_image 1 Sample.strtab_add
                (Sample.gnu_table 6 (Demo.bloom_bits Demo.h_add)) 0)
             si (str_bytes "add") 64 = Some (sym_ptr si 1).
Proof.
  cbv zeta. split; [vm_compute; discriminate|].
  repeat split; vm_compute; reflexivity.
Qed.

(* ===================================================================== *)
(** ** Mapped segments *)
(* ===================================================================== *)

Lemma mem_drop_lookup_in (n : nat) (a : Z) (m : memory) (x : Z) :
  a ≤ x < a + Z.of_nat n → mem_drop n a m !! x = None.
Proof.
  revert a. induction n as [|k IH]; intros a Hx; [lia|].
  cbn [mem_drop]. destruct (decide (x = a)) as [->|Hne].
  - apply lookup_delete_eq.
  - rewrite lookup_delete_ne by congruence. apply IH. lia.
Qed.

Lemma mem_drop_lookup_out (n : nat) (a : Z) (m : memory) (x : Z) :
  x < a ∨ a + Z.of_nat n ≤ x → mem_drop n a m !! x = m !! x.
Proof.
  revert a. induction n as [|k IH]; intros a Hx; [reflexivity|].
  cbn [mem_drop]. rewrite lookup_delete_ne by lia. apply IH. lia.
Qed.

Lemma mem_place_lookup_in (bs : list Z) (a : Z) (wr : bool) (m : memory)
    (k : nat) (b : Z) :
  bs !! k = Some b →
  mem_place a wr bs m !! (a + Z.of_nat k) = Some (MCell wr b).
Proof.
  revert a k. induction bs as [|c bs IH]; intros a k Hk; [discriminate|].
  cbn [mem_place]. destruct k as [|k].
  - injection Hk as ->. replace (a + Z.of_nat 0) with a by lia.
    apply lookup_insert_eq.
  - rewrite lookup_insert_ne by lia.
    replace (a + Z.of_nat (S k)) with (a + 1 + Z.of_nat k) by lia.
    apply IH. exact Hk.
Qed.

Lemma mem_place_lookup_out (bs : list Z) (a : Z) (wr : bool) (m : memory)
    (x : Z) :
  x < a ∨ a + Z.of_nat (length bs) ≤ x →
  mem_place a wr bs m !! x = m !! x.
Proof.
  revert a. induction bs as [|c bs IH]; intros a Hx; [reflexivity|].
  cbn [mem_place]. cbn [length] in Hx.
  rewrite lookup_insert_ne by lia. apply IH. lia.
Qed.

Lemma length_file_window (file : list Z) (off len : Z) :
  length (file_window file off len) = Z.to_nat len.
Proof.
  unfold file_window. rewrite length_take, length_app, length_replicate.
  lia.
Qed.

Lemma file_window_lookup (file : list Z) (off len : Z) (k : nat) (b : Z) :
  (k < Z.to_nat len)%nat →
  file !! (Z.to_nat off + k)%nat = Some b →
  file_window file off len !! k = Some b.
Proof.
  intros Hk Hb. unfold file_window.
  rewrite lookup_take_lt by exact Hk.
  rewrite lookup_app_l.
  - rewrite lookup_drop. exact Hb.
  - rewrite length_drop. apply lookup_lt_Some in Hb. lia.
Qed.

Lemma PAGE_START_add (a x : Z) :
  a mod PAGE_SIZE = 0 → PAGE_START (a + x) = a + PAGE_START x.
Proof.
  unfold PAGE_START, PAGE_SIZE. intros Ha.
  rewrite Z.add_mod, Ha, Z.add_0_l, Z.mod_mod by lia. lia.
Qed.

Lemma PAGE_END_spec (x : Z) :
  0 ≤ x → x + PAGE_SIZE ≤ two64 →
  PAGE_END x mod PAGE_SIZE = 0 ∧ x ≤ PAGE_END x < x + PAGE_SIZE.
Proof.
  intros H0 Hx. unfold PAGE_END.
  rewrite u64_small by (unfold PAGE_SIZE in *; lia).
  destruct (PAGE_START_spec (x + PAGE_SIZE - 1)) as (Hm & Hb & _).
  split; [exact Hm|]. unfold PAGE_SIZE in *. lia.
Qed.

Lemma PAGE_END_add (a x : Z) :
  a mod PAGE_SIZE = 0 → 0 ≤ a → 0 ≤ x → a + x + PAGE_SIZE ≤ two64 →
  PAGE_END (a + x) = a + PAGE_END x.
Proof.
  intros Ha H0 Hx Hb. unfold PAGE_END.
  rewrite !u64_small by (unfold PAGE_SIZE in *; lia).
  replace (a + x + PAGE_SIZE - 1) with (a + (x + PAGE_SIZE - 1)) by lia.
  apply PAGE_START_add. exact Ha.
Qed.

Lemma PAGE_END_aligned (x : Z) :
  0 ≤ x → x + PAGE_SIZE ≤ two64 → x mod PAGE_SIZE = 0 → PAGE_END x = x.
Proof.
  intros H0 Hb Hx.
  replace x with (x + 0) at 1 by lia.
  rewrite PAGE_END_add by (unfold PAGE_SIZE in *; lia).
  unfold PAGE_END, PAGE_START, PAGE_SIZE. vm_compute (u64 _).
  vm_compute (4095 mod 4096). lia.
Qed.

Lemma memset0_S (k : nat) (m : memory) (a : Z) :
  memset0 (S k) m a = m' ← write_u8 m a 0; memset0 k m' (a + 1).
Proof. reflexivity. Qed.

Lemma memset0_spec (n : nat) (m : memory) (a : Z) :
  0 ≤ a → a + Z.of_nat n ≤ two64 →
  (∀ x, a ≤ x < a + Z.of_nat n → ∃ c, m !! x = Some c ∧ mc_w c = true) →
  ∃ m', memset0 n m a = Some m' ∧
    (∀ x, a ≤ x < a + Z.of_nat n → m' !! x = Some (MCell true 0)) ∧
    (∀ x, x < a ∨ a + Z.of_nat n ≤ x → m' !! x = m !! x).
Proof.
  revert m a. induction n as [|k IH]; intros m a H0 Hb Hw.
  - exists m. split; [reflexivity|]. split; [lia | reflexivity].
  - rewrite memset0_S. destruct (Hw a ltac:(lia)) as (c & Hc & Hwc).
    unfold write_u8.
    replace (in_space a) with true
      by (symmetry; apply in_space_spec; lia).
    rewrite Hc. osimpl. rewrite Hwc.
    destruct (IH (<[a := MCell true (0 mod 256)]> m) (a + 1))
      as (m' & Hm' & Hin & Hout); [lia | lia | |].
    + intros x Hx. rewrite lookup_insert_ne by lia. apply Hw. lia.
    + exists m'. split; [exact Hm'|]. split.
      * intros x Hx. destruct (decide (x = a)) as [->|Hne].
        -- rewrite Hout by lia. apply lookup_insert_eq.
        -- apply Hin. lia.
      * intros x Hx. rewrite Hout by lia.
        apply lookup_insert_ne. lia.
Qed.

Lemma memset0_fault (n : nat) (m : memory) (a : Z) :
  (0 < n)%nat →
  (∀ c, m !! a = Some c → mc_w c = false) →
  memset0 n m a = None.
Proof.
  intros Hn Hc. destruct n as [|k]; [lia|]. rewrite memset0_S.
  unfold write_u8. destruct (in_space a); [|reflexivity].
  destruct (m !! a) as [c|] eqn:E; [|reflexivity].
  osimpl. rewrite (Hc c eq_refl). reflexivity.
Qed.

Lemma elf_to_mmap_prot_write (flags : Z) :
  (Z.land (elf_to_mmap_prot flags) PROT_WRITE =? 0)
    = (Z.land flags PF_W =? 0).
Proof.
  unfold elf_to_mmap_prot, PF_R, PF_W, PF_X.
  destruct (Z.land flags 4 =? 0); destruct (Z.land flags 2 =? 0);
    destruct (Z.land flags 1 =? 0); reflexivity.
Qed.

Lemma map_pages_lookup_in (addr len prot : Z) (content : list Z)
    (m : memory) (j : nat) (b : Z) :
  prot ≠ 0 → content !! j = Some b →
  map_pages addr len prot content m !! (addr + Z.of_nat j)
    = Some (MCell (negb (Z.land prot PROT_WRITE =? 0)) b).
Proof.
  intros Hp Hj. unfold map_pages.
  destruct (Z.eqb_spec prot 0) as [->|_]; [contradiction|].
  apply mem_place_lookup_in. exact Hj.
Qed.

Lemma map_pages_lookup_below (addr len prot : Z) (content : list Z)
    (m : memory) (x : Z) :
  x < addr → map_pages addr len prot content m !! x = m !! x.
Proof.
  intros Hx. unfold map_pages, mem_unmap.
  destruct (prot =? 0).
  - apply mem_drop_lookup_out. lia.
  - rewrite mem_place_lookup_out by lia. apply mem_drop_lookup_out. lia.
Qed.

Lemma read_u8_lookup (m : memory) (a : Z) (c : mcell) :
  0 ≤ a < two64 → m !! a = Some c → read_u8 m a = Some (mc_val c mod 256).
Proof.
  intros Ha Hc. unfold read_u8.
  replace (in_space a) with true by (symmetry; apply in_space_spec; lia).
  rewrite Hc. reflexivity.
Qed.

Section SegmentImage.
Variable sys_mmap_fixed : world -> Z -> Z -> bool.
Variables (w : world) (file : list Z).
Variables (phdr i bias va msz fsz off flags : Z).
Hypothesis Hty : p_type (w_mem w) (phdr_ptr phdr i) = Some PT_LOAD.
Hypothesis Hva : p_vaddr (w_mem w) (phdr_ptr phdr i) = Some va.
Hypothesis Hmsz : p_memsz (w_mem w) (phdr_ptr phdr i) = Some msz.
Hypothesis Hfsz : p_filesz (w_mem w) (phdr_ptr phdr i) = Some fsz.
Hypothesis Hoff : p_offset (w_mem w) (phdr_ptr phdr i) = Some off.
Hypothesis Hflags : p_flags (w_mem w) (phdr_ptr phdr i) = Some flags.
Hypothesis Hbias : 0 ≤ bias.
Hypothesis Hsz : fsz ≤ msz.
Hypothesis Hfit : bias + va + msz + PAGE_SIZE ≤ two64.

Lemma map_one_segment :
  elf_to_mmap_prot flags ≠ 0 →
  (fsz < msz → Z.land flags PF_W ≠ 0) →
  ∃ ok w',
    map_segments sys_mmap_fixed 1 w file phdr i bias = Some (ok, w') ∧
    (ok = true →
     let sps := PAGE_START (bias + va) in
     (∀ (j : nat) (b : Z),
        sps + Z.of_nat j < bias + va + fsz →
        file_window file (PAGE_START off)
          (PAGE_END (bias + va + fsz - sps)) !! j = Some b →
        read_u8 (w_mem w') (sps + Z.of_nat j) = Some (b mod 256)) ∧
     (∀ x, bias + va + fsz ≤ x < bias + va + msz →
        read_u8 (w_mem w') x = Some 0)).
Proof.
  intros Hprot Hwr.
  pose proof (read_u64_range _ _ _ Hva) as Rva.
  pose proof (read_u64_range _ _ _ Hmsz) as Rmsz.
  pose proof (read_u64_range _ _ _ Hfsz) as Rfsz.
  cbn [map_segments]. rewrite Hty. osimpl.
  change (PT_LOAD =? PT_LOAD) with true. cbn [negb].
  rewrite Hva, Hmsz, Hfsz, Hoff, Hflags. osimpl.
  assert (HP : PAGE_SIZE = 4096) by reflexivity.
  destruct (PAGE_START_spec (bias + va)) as (Sm & Sb & S0).
  specialize (S0 ltac:(lia)).
  rewrite (u64_small (bias + va)) by lia.
  rewrite (u64_small (bias + va + fsz)) by lia.
  rewrite (u64_small (bias + va + msz)) by lia.
  set (sps := PAGE_START (bias + va)) in *.
  rewrite (u64_small (bias + va + fsz - sps)) by lia.
  set (len := bias + va + fsz - sps).
  destruct (PAGE_END_spec len) as (Em & Eb); [lia | lia |].
  assert (Hbps : PAGE_END (bias + va + fsz) = sps + PAGE_END len).
  { replace (bias + va + fsz) with (sps + len) by (unfold len; lia).
    apply PAGE_END_add; unfold len; lia. }
  rewrite Hbps.
  destruct (PAGE_END_spec (bias + va + msz)) as (Pm & Pb); [lia | lia |].
  set (spe := PAGE_END (bias + va + msz)) in *.
  set (E := PAGE_END len) in *.
  set (content := file_window file (PAGE_START off) E).
  assert (Hlen : length content = Z.to_nat E)
    by apply length_file_window.
  unfold do_mmap_fixed at 1.
  destruct (sys_mmap_fixed w sps len).
  2:{ cbn [negb]. eexists _, _. split; [reflexivity | discriminate]. }
  cbn [negb].
  set (m1 := map_pages sps len (elf_to_mmap_prot flags) content (w_mem w)).
  assert (Hm1 : ∀ (j : nat) (b : Z), content !! j = Some b →
            m1 !! (sps + Z.of_nat j)
              = Some (MCell (negb (Z.land flags PF_W =? 0)) b)).
  { intros j b Hj. unfold m1.
    rewrite <- elf_to_mmap_prot_write.
    apply map_pages_lookup_in; assumption. }
  destruct (Z.ltb_spec fsz msz) as [Hlt|Hge].
  2:{ eexists _, _. split; [reflexivity|]. intros _. split.
      - intros j b Hj Hb. cbn [w_mem set_mem].
        rewrite (read_u8_lookup _ _ (MCell (negb (Z.land flags PF_W =? 0)) b));
          [reflexivity | lia | apply Hm1; exact Hb].
      - intros x Hx. lia. }
  specialize (Hwr Hlt). apply Z.eqb_neq in Hwr. rewrite Hwr in Hm1.
  cbn [negb] in Hm1.
  assert (Hm2 : ∃ m2,
            (if bias + va + fsz <? sps + E
             then memset0 (Z.to_nat (u64 (sps + E - (bias + va + fsz))))
                    (w_mem (set_mem m1 w)) (bias + va + fsz)
             else Some (w_mem (set_mem m1 w))) = Some m2 ∧
            (∀ x, bias + va + fsz ≤ x < sps + E →
               m2 !! x = Some (MCell true 0)) ∧
            (∀ x, x < bias + va + fsz → m2 !! x = m1 !! x)).
  { destruct (Z.ltb_spec (bias + va + fsz) (sps + E)) as [Hb|Hb].
    - rewrite u64_small by lia.
      destruct (memset0_spec (Z.to_nat (sps + E - (bias + va + fsz)))
                  (w_mem (set_mem m1 w)) (bias + va + fsz))
        as (m2 & Hset & Hin & Hout); [lia | lia | |].
      + intros x Hx. cbn [w_mem set_mem].
        destruct (lookup_lt_is_Some_2 content (Z.to_nat (x - sps)))
          as [b Hb']; [lia|].
        exists (MCell true b). split; [|reflexivity].
        replace x with (sps + Z.of_nat (Z.to_nat (x - sps))) at 1 by lia.
        apply Hm1. exact Hb'.
      + exists m2. split; [exact Hset|]. split.
        * intros x Hx. apply Hin. lia.
        * intros x Hx. rewrite Hout by lia. reflexivity.
    - exists m1. split; [reflexivity|]. split; [lia | reflexivity]. }
  destruct Hm2 as (m2 & -> & Hz & Hsame). osimpl.
  assert (Hfile : ∀ (m3 : memory) (j : nat) (b : Z),
            (∀ x, x < bias + va + fsz → m3 !! x = m2 !! x) →
            sps + Z.of_nat j < bias + va + fsz →
            content !! j = Some b →
            read_u8 m3 (sps + Z.of_nat j) = Some (b mod 256)).
  { intros m3 j b H3 Hj Hb.
    rewrite (read_u8_lookup m3 _ (MCell true b)); [reflexivity | lia |].
    rewrite H3, Hsame by lia. apply Hm1. exact Hb. }
  destruct (Z.ltb_spec (sps + E) spe) as [Hb|Hb].
  - rewrite u64_small by lia.
    assert (H64 : two64 = 4096 * 4503599627370496) by reflexivity.
    pose proof (Z.div_mod spe 4096 ltac:(lia)) as Hq.
    rewrite <- HP, Pm in Hq.
    rewrite (PAGE_END_aligned (spe - (sps + E))); [| lia | lia |].
    2:{ rewrite Zminus_mod, Pm, Z.add_mod, Sm, Em by lia. reflexivity. }
    unfold do_mmap_fixed.
    destruct (sys_mmap_fixed (set_mem m2 (set_mem m1 w)) (sps + E)
                (spe - (sps + E))).
    2:{ cbn [negb]. eexists _, _. split; [reflexivity | discriminate]. }
    cbn [negb]. eexists _, _. split; [reflexivity|]. intros _.
    cbn [w_mem set_mem]. split.
    + intros j b Hj Hbj. apply Hfile; [|exact Hj|exact Hbj].
      intros x Hx. apply map_pages_lookup_below. lia.
    + intros x Hx. destruct (Z.lt_ge_cases x (sps + E)) as [Hlo|Hhi].
      * rewrite (read_u8_lookup _ _ (MCell true 0)); [reflexivity | lia |].
        rewrite map_pages_lookup_below by lia. apply Hz. lia.
      * rewrite (read_u8_lookup _ _
                   (MCell (negb (Z.land (elf_to_mmap_prot flags) PROT_WRITE
                                   =? 0)) 0)); [reflexivity | lia |].
        replace x with (sps + E + Z.of_nat (Z.to_nat (x - (sps + E))))
          at 1 by lia.
        apply map_pages_lookup_in; [exact Hprot|].
        apply lookup_replicate_2. lia.
  - eexists _, _. split; [reflexivity|]. intros _.
    cbn [w_mem set_mem]. split.
    + intros j b Hj Hbj. apply Hfile; [|exact Hj|exact Hbj].
      intros x Hx. reflexivity.
    + intros x Hx.
      rewrite (read_u8_lookup _ _ (MCell true 0)); [reflexivity | lia |].
      apply Hz. lia.
Qed.
End SegmentImage.

Lemma writable_prot_nonzero (flags : Z) :
  Z.land flags PF_W ≠ 0 → elf_to_mmap_prot flags ≠ 0.
Proof.
  intros Hw Hp. apply Z.eqb_neq in Hw.
  rewrite <- elf_to_mmap_prot_write, Hp in Hw. discriminate.
Qed.



(** X25.  A [PT_LOAD] header without [PF_W] whose [p_memsz] exceeds
    [p_filesz] and whose file part ends inside a page stops the loader:
    once the file part is mapped, the [memset] of the rest of its last
    page stores to a page that is not writable. *)
Theorem read_only_bss_tail_faults :
  ∀ (sys_mmap_fixed : world → Z → Z → bool) (cnt : nat) (w : world)
    (file : list Z) (phdr i bias va msz fsz off flags : Z),
    p_type (w_mem w) (phdr_ptr phdr i) = Some PT_LOAD →
    p_vaddr (w_mem w) (phdr_ptr phdr i) = Some va →
    p_memsz (w_mem w) (phdr_ptr phdr i) = Some msz →
    p_filesz (w_mem w) (phdr_ptr phdr i) = Some fsz →
    p_offset (w_mem w) (phdr_ptr phdr i) = Some off →
    p_flags (w_mem w) (phdr_ptr phdr i) = Some flags →
    0 ≤ bias → bias + va + fsz + PAGE_SIZE ≤ two64 →
    fsz < msz →
    Z.land flags PF_W = 0 →
    (bias + va + fsz) mod PAGE_SIZE ≠ 0 →
    sys_mmap_fixed w (PAGE_START (bias + va))
      (bias + va + fsz - PAGE_START (bias + va)) = true →
    map_segments sys_mmap_fixed (S cnt) w file phdr i bias = None.
Proof.
  intros smf cnt w file phdr i bias va msz fsz off flags
    Hty Hva Hmsz Hfsz Hoff Hflags Hbias Hfit Hlt Hro Hend Hmap.
  pose proof (read_u64_range _ _ _ Hva) as Rva.
  pose proof (read_u64_range _ _ _ Hfsz) as Rfsz.
  cbn [map_segments]. rewrite Hty. osimpl.
  change (PT_LOAD =? PT_LOAD) with true. cbn [negb].
  rewrite Hva, Hmsz, Hfsz, Hoff, Hflags. osimpl.
  assert (HP : PAGE_SIZE = 4096) by reflexivity.
  destruct (PAGE_START_spec (bias + va)) as (Sm & Sb & S0).
  specialize (S0 ltac:(lia)).
  rewrite (u64_small (bias + va)) by lia.
  rewrite (u64_small (bias + va + fsz)) by lia.
  set (sps := PAGE_START (bias + va)) in *.
  rewrite (u64_small (bias + va + fsz - sps)) by lia.
  set (len := bias + va + fsz - sps).
  destruct (PAGE_END_spec len) as (Em & Eb); [lia | lia |].
  assert (Hbps : PAGE_END (bias + va + fsz) = sps + PAGE_END len).
  { replace (bias + va + fsz) with (sps + len) by (unfold len; lia).
    apply PAGE_END_add; unfold len; lia. }
  rewrite Hbps.
  assert (Hne : PAGE_END len ≠ len).
  { intros He. apply Hend.
    replace (bias + va + fsz) with (sps + len) by (unfold len; lia).
    rewrite Z.add_mod, Sm, <- He, Em by lia. reflexivity. }
  set (E := PAGE_END len) in *.
  set (content := file_window file (PAGE_START off) E).
  assert (Hlen : length content = Z.to_nat E)
    by apply length_file_window.
  unfold do_mmap_fixed at 1. fold len in Hmap. rewrite Hmap. cbn [negb].
  apply Z.ltb_lt in Hlt. rewrite Hlt.
  replace (bias + va + fsz <? sps + E) with true
    by (symmetry; apply Z.ltb_lt; unfold len in *; lia).
  rewrite memset0_fault; [reflexivity | |].
  - rewrite u64_small by (unfold len in *; lia). unfold len in *. lia.
  - intros c. cbn [w_mem set_mem]. unfold map_pages, mem_unmap.
    destruct (elf_to_mmap_prot flags =? 0) eqn:Hp.
    + rewrite mem_drop_lookup_in by (unfold len in *; lia). discriminate.
    + rewrite elf_to_mmap_prot_write, Hro.
      change (0 =? 0) with true. cbn [negb].
      destruct (lookup_lt_is_Some_2 content (Z.to_nat len)) as [b Hb];
        [lia|].
      replace (bias + va + fsz) with (sps + Z.of_nat (Z.to_nat len))
        by (unfold len; lia).
      rewrite (mem_place_lookup_in content sps false _ _ b Hb).
      intros [= <-]. reflexivity.
Qed.



Lemma read_only_bss_tail_faults_witness :
  map_segments Demo.sys_mmap_fixed 1 Sample.wph Sample.seg_file 4096 1
               65536 = None.
Proof.
  refine (read_only_bss_tail_faults Demo.sys_mmap_fixed 0 Sample.wph
            Sample.seg_file 4096 1 65536 0 10 6 0 4 _ _ _ _ _ _ _ _ _ _ _ _).
  - vm_compute. reflexivity.
  - vm_compute. reflexivity.
  - vm_compute. reflexivity.
  - vm_compute. reflexivity.
  - vm_compute. reflexivity.
  - vm_compute. reflexivity.
  - lia.
  - vm_compute. discriminate.
  - lia.
  - reflexivity.
  - vm_compute. discriminate.
  - reflexivity.
Defined.
